(* ===== verification/_CoqProject ===== *)
-Q . S2P
Prelude.v
PyStr.v
Errors.v
States.v
Chain.v
Gates.v
Policies.v
Versioning.v
Json.v
Records.v
Database.v
Queries.v
Tables.v
Claim.v
Invariant.v
Steps.v
ClaimFacts.v
Repository.v
RepoFacts.v
World.v
RateLimiter.v
RegistryService.v
Failure.v
JobService.v
SubmitService.v
QueryService.v
EventStream.v
FanOutService.v
SignalService.v
CancelService.v
Matcher.v
Loops.v
Engine.v
Exec.v
Lifecycle.v
Interleaving.v
Cascade.v
OutcomeProps.v
FailProps.v
GateProps.v
ClaimProps.v
SubmitProps.v
SignalProps.v
OperatorProps.v
RateProps.v
WorkerProps.v
AssignProps.v
CoreProps.v
StreamProps.v
JsonLoads.v
JsonProps.v
NetAddr.v
Config.v
Auth.v
GrpcServer.v
AuthProps.v
ConfigProps.v
Wire.v
ClientService.v
WorkerService.v
AdminService.v
HttpServer.v
ReadProps.v
TenantProps.v
WireProps.v
DispatchProps.v
FlowProps.v
FlowControl.v
Deployment.v
Workers.v
Process.v
ProcessProps.v
Gauges.v
CronProps.v
Observability.v
ReleaseTools.v
DbSetup.v
Clients.v
SchemaTools.v
