(* ===== verification/Prelude.v ===== *)
(** * Symba: verification of a durable job execution engine

    Symba runs background jobs for client programs.  A client submits jobs over
    HTTP or gRPC; the engine stores them in PostgreSQL, hands them to connected
    workers under a lease, and moves them to an archive when they finish.  All
    decisions that matter are taken inside SQL statements and transactions, so
    the model is a model of the database and of the Python that drives it.

    ** The parts and their files

    Every path below is under src/src/symba unless it says otherwise.

    Language and library layer.  [Prelude] has the state-and-exception monad
    [M], the preorder-stability tactic [stable_tac], [ORDER BY] as a stable
    insertion sort, and list lemmas.  [PyStr] has Python's string methods,
    [int], [str], [repr], [isoformat] and UTF-8; [Json] has JSON values,
    [json.dumps] and what a JSONB column keeps of a value, [JsonLoads] has [json.loads] and [JsonProps] that it reads back
    every text of a value, whatever its white space; [NetAddr] has the addresses and networks of [ipaddress].

    Pure core (core/).  [Errors] (errors.py), [States] (states.py), [Chain]
    (chain.py), [Gates] (gates.py), [Policies] (retry.py, readiness.py,
    idempotency.py), [Versioning] (versioning.py), [Failure] (failure.py).

    Database.  [Records] has one record per table of src/database/symba and per
    row class of db/records.py; [Database] has the session monad [DBM] and
    transactions; [Queries] and [Tables] have one definition per statement of
    db/queries; [Claim] has the two claim statements, one definition per common
    table expression; [Repository] (module [repo]) has db/repository.py.

    Engine process.  [World] is the database together with one engine's memory
    (worker registry, rate limiter and its Redis, matcher cursors, clock).
    Services run in the monad [EM]: [RateLimiter], [RegistryService],
    [JobService], [SubmitService], [QueryService], [EventStream],
    [FanOutService], [SignalService], [CancelService] (with resubmit and
    checkpoints), [Matcher], [Loops].  File and module names follow services/.

    Settings and security.  [Config] (config.py) has the settings classes with
    their defaults and validators, the DSN and the deployment check; [Auth]
    (transport/auth.py) the mode matrix, shared secrets, token tenants and the
    gRPC interceptor.

    Transports.  [Wire] has the protocol messages and the replies of an RPC;
    [ClientService], [WorkerService] and [AdminService] have the three servicers
    (transport/client_service.py, worker_service.py, admin_service.py),
    [GrpcServer] the listener and server of transport/grpc_server.py, and
    [HttpServer] the bodies, middleware, error handler and endpoints of
    transport/http_server.py.  Each method decodes its request, calls services
    and encodes the outcome, errors included.

    Process.  [Process] has the wiring of transport/state.py, the roles, start-up
    and shutdown of main.py, the run loops of services/loops.py with their sleeps,
    stop flag and wake event, and the probe of healthcheck.py; [Gauges] the
    gauges the sweeper refreshes and the statements metrics_*.sql.
    [Observability] has the correlation id, its middleware and the spans of
    observability/tracing.py and, in module [Logging], the processors of the log
    chain of observability/logging.py; [DbSetup] the query registry, the schema
    loader and the pools of db/.

    Programs around the engine.  [Workers] has the example worker of
    src/examples/raw_grpc_worker and the load worker of src/tools; [Clients] the
    quickstart smoke test (module [Smoke]) and the preparation of the load
    benchmark (module [LoadPrepare]), run against the modelled services;
    [ReleaseTools] the import gate, the EXPLAIN gate (modules [ImportGate] and
    [ExplainGate]) and the mirroring of a release (module [Mirror]);
    [SchemaTools] the OpenAPI scripts (module [OpenApi]) and the throughput gate
    with its binary64 division (module [LoadGate]), all of src/tools.

    System.  [Engine] is the transition system: [step] is any service call with
    any arguments, any pass of a loop, one transaction of any of them alone, a
    clock movement, or a change of the engine's memory (another engine, a crash, a
    restart, Redis failing); [reachable] closes it from the empty database.
    [Interleaving] is the same system at the grain of transactions, and
    [FlowControl.alive] the life of one engine process with its registry.
    [Deployment] is any number of engine processes, each with its memory, on one
    database; its module [SweeperLock] the advisory lock that elects a sweeper.

    ** Interfaces

    A component promises [stable keeps]: it takes every database to one that
    satisfies the invariant [wf] when the first does, and that is a later stage
    of it ([evolve]).  [Invariant] defines both, [Steps] and [ClaimFacts] prove
    it of every statement, [RepoFacts] of every repository function, [Engine] of
    every service, where only the hint database [stable_db] is used.  [Exec]
    has the lemmas that run an operation to its end.

    ** What the theorems show

    [Lifecycle]: the invariant of every reachable database; the archive and the
    ledger only grow; terminal states and fired gates are final.  [Interleaving]:
    running calls whole and interleaving their transactions, with crashes in
    between, reach the same databases, so what is proved of reachable states holds
    for concurrent calls; and one transaction takes a job along at most one edge of
    the documented transition table.
    [OutcomeProps], [FailProps], [Cascade]: a stale lease has no effect, the whole
    effect of completing, retrying and dying, and that the cascade cancels exactly
    the dependents.
    [GateProps]: the SQL decision is the policy of core/gates.py, of any
    sequence of reports exactly one fires the gate and starts its continuation.  [ClaimProps]: what a claim may take,
    that it is work conserving, no double dispatch, group ceilings, quotas.
    [SubmitProps]: atomicity of every service call, submission, idempotence,
    tenant caps.  [SignalProps]: the rendezvous in both orders.  [OperatorProps]: cancel, resubmit, lease
    sweep, counter reconciliation.  [RateProps]: what a token bucket may
    grant within a window, with the skew of the engines' clocks and the expiry of
    idle buckets counted, and that the Redis script and the SQL fallback agree.  [WorkerProps],
    [AssignProps]: registry generations, the tick, assignment and fairness.
    [CoreProps]: retry delays and sanitized errors.  [StreamProps]: the live
    event stream delivers the ledger.

    [AuthProps]: the verifier decides its mode matrix exactly, and a production
    configuration that validates accepts no anonymous call on either transport and
    binds its gRPC port with TLS.  [ConfigProps]: the credentials of a built DSN are read back from it.
    [TenantProps]: over HTTP a tenant sees its own rows only, and another
    tenant's job is as one that does not exist.  [WireProps]: the gRPC and HTTP
    submissions are one operation, a checkpoint is read back.  [ReadProps]: what the
    event snapshot replays and that it ends, following the Query cursor, AwaitJob
    returns in time, replies are well typed.
    [DispatchProps]: what a dispatcher pass sends is what it leased.
    [FlowProps], [FlowControl]: at any point of the life of an engine a pass
    run to its end keeps within the slots each worker announced, queues every job it
    claimed for a worker, and leaves no runnable job beside a worker with room.  [Deployment]: across all engines of a
    deployment a lease is delivered at most once, and only its holder's reports
    count; at most one engine sweeps at a time.  [Workers]: a job a pass started is
    completed by the example worker and its result is read back as JSONB keeps it.
    [ProcessProps]: the loops of a process outlive failing passes and come round in
    time, the wake event.  [Gauges]: the gauges
    picture the database.  [CronProps]: what firing a schedule does to its row,
    also when two engines fire it.

    [Observability]: one correlation id per request, a span keeps the outcome of
    its body except for an ImportError, every log line is stamped, access lines
    are parsed into their fields.  [DbSetup]: the registry is complete, the schema
    is applied in version order, whole or not at all.  [Clients]: the quickstart
    test passes in every reachable state; the drain ends and its verdict is right.
    [ReleaseTools]: what each gate accepts, exactly; what is published is the
    verified inventory, and nothing is copied when a check of it fails.
    [SchemaTools]: the drift gate passes a file exactly when it holds the schema up
    to the order of keys; where the throughput gate draws its line, exactly.

    Some theorems state behaviour the code does not mean to have:
    [deferred_job_never_runs], [ungrouped_ceiling_poisons_claim],
    [nonpositive_quorum_accepted], [stale_wait_consumes_signal],
    [wait_ignores_job_tenant], [none_mode_transports_differ],
    [sweeper_role_is_unhealthy], [late_commit_is_skipped],
    [batch_rows_page_badly], [slow_refill_expires], [skewed_clocks_overgrant], and
    parts of [query_cursor], [checkpoint_readback], [cron_fires_window] and
    [dispatcher_wake].

    ** Modelling decisions

    - Transactions are serialised.  What a concurrent transaction can do to a
      statement with SKIP LOCKED is an argument [locks] of that statement, and
      the theorems hold for every value of it.  A raised exception rolls back
      every table; the id sequences keep what they handed out.
      Serialised, transactions commit in the order in which they drew their event
      ids; PostgreSQL does not promise that.  The theorems about the ledger
      therefore do not use the order of ids ([history_append_only]) or take the
      databases a reader meets as arguments ([snapshot_replays_ledger]).
    - A table is the list of its rows in physical order, which breaks the ties
      of ORDER BY.  Where the server is free to break them otherwise from one
      statement to the next, the theorem has no ties ([query_cursor]).
      Identifiers and lease tokens come from one supply of names.
    - A JSONB column refuses NaN, infinities and NUL characters (DataError) and
      keeps the members of an object by length and bytes of their keys
      ([storable], [jsonb_members]).  Texts bound to text columns hold no NUL.
    - Of the failures the server can add at any statement, one that the code
      contains and goes on after is modelled: the re-stamp of the attribution may
      fail ([restamp_fails] of [locks]).  One that ends a call is a crash of it
      after the transactions it has done ([Interleaving]).
    - Redis keeps its own clock, by which an idle bucket expires; an engine passes
      its own clock to the scripts.
    - The assignment queue of a connection has no bound: see [World].
    - Timestamps are integer microseconds; floats are rationals (no rounding,
      except in [LoadGate]), with the overflow of [**] kept; integer columns raise when a value does
      not fit them.
    - Strings hold code points below 256.
    - Stored SubmitSpec-shaped JSON (gate continuations, failure hooks) is kept
      as the [SubmitSpec] it encodes.
    - The hash of idempotency keys, [croniter], the JWT library, the file system,
      the port a listener gets, the trace id of a request and the draws of
      [random] are arguments.
    - Identifiers on the wire are well formed, except where the code looks at the
      text ([None] is then a text that is no UUID).  A JSON body that is no object
      ends in [OutOfModel] where the code would go on with it.  Protocol
      timestamps are microseconds.
    - Theorems about reachable states hold for interleaved transactions.  Those
      about the effect of one call or pass (the flow control of a dispatcher pass
      among them) run it to its end, with nothing between its steps: no slot
      announcement, disconnection or other transaction at an await of the pass.
      What others may hold locked meanwhile is the argument [locks].

    Fuel.  [cone] runs the recursive query with one unit per live row and one
    more, proved enough for any graph, cyclic ones included ([Cascade]);
    [Matcher.rounds] has one unit per job of the batch ([AssignProps]);
    [Matcher.probe] goes once around the ring of workers; the substitution of
    [Failure] has one unit per character ([sub_go_fuel]); [dec_N] has one per
    bit of the number; [json.loads] has two units per character of the text and
    two more, proved enough for every text of a value ([JsonProps]); the
    event snapshot reads a given database per page and the Query cursor has one
    unit per page; [ReadProps] proves that both end within the pages there are.

    ** Not modelled

    Reading of TOML and the environment (config.load_config); signal handlers and
    the choice of event loop in main.py; the timing and closing of pools; levels,
    structlog's own processors and the uvicorn log configuration of logging.py;
    the counters and histograms of observability/metrics.py; the web server and
    the OpenAPI and metrics pages; the generated protocol code; the web console;
    the schema the web framework derives from the routes (an argument of the
    OpenAPI scripts) and the diff they print.  Logging, metrics and spans inside
    modelled functions are left out.

    ** Plan

    The effect of a dispatcher pass when other transactions come between its
    statements; per-group order of the fairness shaping.  The precedence of the
    settings sources is decided inside pydantic-settings, outside the sources. *)

From stdpp Require Export base tactics list gmap strings sorting option.
From Stdlib Require Export ZArith Lia.


(** ** Python exceptions and the state/exception monad

    An engine operation runs against a state of type [S] and either returns a
    value or raises.  The state is kept when an exception is raised: rolling it
    back is the job of [transaction] (file [Database]). *)

Inductive result (E A : Type) : Type :=
| Ok (a : A)
| Raise (e : E).
Arguments Ok {_ _} _.
Arguments Raise {_ _} _.

Definition M (E S A : Type) : Type := S -> S * result E A.

Definition M_ret_def {E S A} (a : A) : M E S A := fun s => (s, Ok a).

Definition M_bind_def {E S A B} (k : A -> M E S B) (m : M E S A) : M E S B :=
  fun s =>
    match m s with
    | (s', Ok a) => k a s'
    | (s', Raise e) => (s', Raise e)
    end.

#[global] Instance M_ret {E S} : MRet (M E S) := fun A => @M_ret_def E S A.
#[global] Instance M_bind {E S} : MBind (M E S) := fun A B => @M_bind_def E S A B.

Definition raise {E S A} (e : E) : M E S A := fun s => (s, Raise e).
Definition get {E S} : M E S S := fun s => (s, Ok s).
Definition gets {E S A} (f : S -> A) : M E S A := fun s => (s, Ok (f s)).
Definition modify {E S} (f : S -> S) : M E S unit := fun s => (f s, Ok tt).
Definition of_option {E S A} (e : E) (o : option A) : M E S A :=
  match o with Some a => M_ret_def a | None => raise e end.

(** [for x in xs: body x], threading the state and stopping on an exception. *)
Fixpoint forM {E S A B} (f : A -> M E S B) (xs : list A) : M E S (list B) :=
  match xs with
  | [] => mret []
  | x :: xs' => b ← f x; bs ← forM f xs'; mret (b :: bs)
  end.

Lemma bind_ok {E S A B} (m : M E S A) (k : A -> M E S B) s s' a :
  m s = (s', Ok a) -> (m ≫= k) s = k a s'.
Proof. intros H. unfold mbind, M_bind, M_bind_def. by rewrite H. Qed.

Lemma bind_raise {E S A B} (m : M E S A) (k : A -> M E S B) s s' e :
  m s = (s', Raise e) -> (m ≫= k) s = (s', Raise e).
Proof. intros H. unfold mbind, M_bind, M_bind_def. by rewrite H. Qed.

(** ** Monad automation

    [stable R m]: running [m] from any state ends in an [R]-related state,
    whether it returns or raises.  For a preorder [R] this is compositional. *)

Section Stable.
Context {E S : Type} (R : S -> S -> Prop) `{!PreOrder R}.

Definition stable {A} (m : M E S A) : Prop := forall s, R s (fst (m s)).

Lemma stable_ret {A} (a : A) : stable (mret a).
Proof. intros s. reflexivity. Qed.

Lemma stable_raise {A} (e : E) : stable (A := A) (raise e).
Proof. intros s. reflexivity. Qed.

Lemma stable_gets {A} (f : S -> A) : stable (gets f).
Proof. intros s. reflexivity. Qed.

Lemma stable_bind {A B} (m : M E S A) (k : A -> M E S B) :
  stable m -> (forall a, stable (k a)) -> stable (m ≫= k).
Proof.
  intros Hm Hk s. unfold mbind, M_bind, M_bind_def. specialize (Hm s).
  destruct (m s) as [s' [a|e]]; simpl in *; [|done].
  etrans; [exact Hm | apply Hk].
Qed.

Lemma stable_forM {A B} (f : A -> M E S B) xs :
  (forall x, In x xs -> stable (f x)) -> stable (forM f xs).
Proof.
  induction xs as [|x xs IH]; simpl; intros Hf; [apply stable_ret|].
  apply stable_bind; [by apply Hf; left|]. intros b.
  apply stable_bind; [apply IH; intros y Hy; apply Hf; by right|].
  intros bs. apply stable_ret.
Qed.

Lemma stable_if {A} (b : bool) (m1 m2 : M E S A) :
  stable m1 -> stable m2 -> stable (if b then m1 else m2).
Proof. by destruct b. Qed.

Lemma stable_of_option {A} (e : E) (o : option A) : stable (of_option e o).
Proof. destruct o; intros s; reflexivity. Qed.
End Stable.

Create HintDb stable_db.
#[export] Hint Extern 1 (stable _ (mret _)) => (apply stable_ret; apply _) : stable_db.
#[export] Hint Extern 1 (stable _ (raise _)) => (apply stable_raise; apply _) : stable_db.
#[export] Hint Extern 1 (stable _ (gets _)) => (apply stable_gets; apply _) : stable_db.
#[export] Hint Extern 1 (stable _ (of_option _ _)) => (apply stable_of_option; apply _) : stable_db.

(** Walk through a monadic program, splitting on every bind and branch. *)
Ltac stable_step :=
  match goal with
  | |- stable _ (mbind _ _) => apply stable_bind; [apply _ | | intros ?]
  | |- stable _ (forM _ _) => apply stable_forM; [apply _ | intros ? ?]
  | |- stable _ (if ?b then _ else _) => destruct b
  | |- stable _ (match ?x with _ => _ end) => destruct x
  end.
Ltac stable_tac := repeat (first [ solve [eauto with stable_db] | stable_step ]).

(** ** SQL-flavoured list operations

    A table is a list of rows in physical order; a [WHERE] clause is a boolean
    predicate.  [sel] is [SELECT * ... WHERE], [update_where] is
    [UPDATE ... SET f WHERE p]. *)

Abbreviation sel := List.filter (only parsing).

Definition update_where {A} (p : A -> bool) (f : A -> A) (t : list A) : list A :=
  map (fun r => if p r then f r else r) t.

Definition delete_where {A} (p : A -> bool) (t : list A) : list A :=
  List.filter (fun r => negb (p r)) t.

Definition count {A} (p : A -> bool) (t : list A) : nat := length (List.filter p t).

(** SQL equality on nullable values: [NULL = x] is not true. *)
Definition sql_eq (a b : option string) : bool :=
  match a, b with Some x, Some y => String.eqb x y | _, _ => false end.

Definition mem (x : string) (l : list string) : bool := existsb (String.eqb x) l.

(** [a <@ b] on text arrays. *)
Definition subset (a b : list string) : bool := forallb (fun x => mem x b) a.

(** [ORDER BY]: a stable insertion sort for a total preorder [le]. *)
Section OrderBy.
Context {A : Type} (le : A -> A -> bool).

Fixpoint insert_by (x : A) (l : list A) : list A :=
  match l with
  | [] => [x]
  | y :: l' => if le x y then x :: y :: l' else y :: insert_by x l'
  end.

Definition order_by (l : list A) : list A := foldr insert_by [] l.

Lemma insert_by_perm x l : insert_by x l ≡ₚ x :: l.
Proof.
  induction l as [|y l IH]; simpl; [done|].
  destruct (le x y); [done|]. by rewrite IH, Permutation_swap.
Qed.

Lemma order_by_perm l : order_by l ≡ₚ l.
Proof. induction l as [|x l IH]; simpl; [done|]. by rewrite insert_by_perm, IH. Qed.

Lemma order_by_In x l : In x (order_by l) <-> In x l.
Proof. rewrite <- !list_elem_of_In. by rewrite order_by_perm. Qed.

Lemma order_by_length l : length (order_by l) = length l.
Proof. by rewrite order_by_perm. Qed.

Lemma order_by_NoDup l : List.NoDup l -> List.NoDup (order_by l).
Proof. intros H. rewrite <- NoDup_ListNoDup in *. by rewrite order_by_perm. Qed.

Hypothesis le_total : forall x y, le x y = true \/ le y x = true.
Hypothesis le_trans : forall x y z, le x y = true -> le y z = true -> le x z = true.

Lemma insert_by_sorted x l :
  StronglySorted (fun a b => le a b = true) l ->
  StronglySorted (fun a b => le a b = true) (insert_by x l).
Proof.
  induction 1 as [|y l Hs IH Hy]; simpl; [repeat constructor|].
  destruct (le x y) eqn:E.
  - constructor; [by constructor|]. constructor; [done|].
    eapply Forall_impl; [|exact Hy]. simpl. eauto.
  - constructor; [done|]. rewrite Forall_forall in *. intros z Hz.
    apply (Permutation_in _ (insert_by_perm x l)) in Hz as [<-|Hz]; [|by apply Hy].
    destruct (le_total x y); congruence.
Qed.

Lemma order_by_sorted l : StronglySorted (fun a b => le a b = true) (order_by l).
Proof. induction l; simpl; [constructor|]. by apply insert_by_sorted. Qed.
End OrderBy.

(** ** Generic list lemmas *)

Section ListLemmas.
Context {A B : Type}.
Implicit Types (l : list A) (p q : A -> bool).

Lemma in_sel p l x : In x (List.filter p l) <-> In x l /\ p x = true.
Proof. apply filter_In. Qed.

Lemma in_delete_where p l x : In x (delete_where p l) <-> In x l /\ p x = false.
Proof. unfold delete_where. rewrite filter_In, negb_true_iff. done. Qed.

Lemma in_update_where p f l y :
  In y (update_where p f l) <->
  exists x, In x l /\ y = (if p x then f x else x).
Proof. unfold update_where. rewrite in_map_iff. naive_solver. Qed.

Lemma in_take n l x : In x (take n l) -> In x l.
Proof.
  revert n. induction l as [|y l IH]; intros [|n]; simpl; try done.
  intros [->|H]; eauto.
Qed.

Lemma Forall_update_where (P : A -> Prop) p f l :
  Forall P l -> (forall x, In x l -> P x -> p x = true -> P (f x)) ->
  Forall P (update_where p f l).
Proof.
  rewrite !List.Forall_forall. intros HP Hf y (x & Hx & ->)%in_update_where.
  destruct (p x) eqn:E; eauto.
Qed.

Lemma Forall_delete_where (P : A -> Prop) p l :
  Forall P l -> Forall P (delete_where p l).
Proof. rewrite !List.Forall_forall. intros HP y [Hy _]%in_delete_where. eauto. Qed.

Lemma map_update_where (k : A -> B) p f l :
  (forall x, p x = true -> k (f x) = k x) -> map k (update_where p f l) = map k l.
Proof.
  intros Hk. unfold update_where. rewrite map_map. apply map_ext. intros x.
  destruct (p x) eqn:E; [by apply Hk | done].
Qed.

Lemma length_update_where p f l : length (update_where p f l) = length l.
Proof. apply length_map. Qed.

Lemma NoDup_map_delete_where (k : A -> B) p l :
  List.NoDup (map k l) -> List.NoDup (map k (delete_where p l)).
Proof.
  induction l as [|x l IH]; simpl; [done|]. intros [Hx Hl]%NoDup_cons_iff.
  unfold delete_where in *. simpl. destruct (negb (p x)); simpl; [|auto].
  constructor; [|auto]. contradict Hx.
  apply in_map_iff in Hx as (y & <- & [Hy _]%filter_In). by apply in_map.
Qed.

Lemma NoDup_map_inj (k : A -> B) l x y :
  List.NoDup (map k l) -> In x l -> In y l -> k x = k y -> x = y.
Proof.
  induction l as [|z l IH]; simpl; [done|]. intros [Hz Hl]%NoDup_cons_iff.
  intros [->|Hx] [->|Hy] E; try done.
  - destruct Hz. rewrite E. by apply in_map.
  - destruct Hz. rewrite <- E. by apply in_map.
  - by apply IH.
Qed.

Lemma count_app p l1 l2 : count p (l1 ++ l2) = count p l1 + count p l2.
Proof. unfold count. by rewrite List.filter_app, length_app. Qed.

Lemma count_cons p x l : count p (x :: l) = (if p x then 1 else 0) + count p l.
Proof. unfold count. simpl. by destruct (p x). Qed.

Lemma count_le_length p l : count p l <= length l.
Proof. induction l; [done|]. rewrite count_cons. simpl. destruct (p a); lia. Qed.

Lemma count_perm p l1 l2 : l1 ≡ₚ l2 -> count p l1 = count p l2.
Proof.
  induction 1; [done| | |congruence]; rewrite !count_cons; lia.
Qed.

Lemma count_ext p q l : (forall x, In x l -> p x = q x) -> count p l = count q l.
Proof.
  induction l as [|x l IH]; intros H; [done|]. rewrite !count_cons.
  rewrite (H x) by (by left). rewrite IH; [done|]. intros y Hy. apply H. by right.
Qed.

Lemma count_mono p q l :
  (forall x, In x l -> p x = true -> q x = true) -> count p l <= count q l.
Proof.
  induction l as [|x l IH]; intros H; [done|]. rewrite !count_cons.
  assert (count p l <= count q l) by (apply IH; intros; apply H; [by right|done]).
  destruct (p x) eqn:E; [rewrite (H x) by (done || by left); lia|].
  destruct (q x); lia.
Qed.

Lemma count_zero p l : (forall x, In x l -> p x = false) -> count p l = 0.
Proof.
  induction l as [|x l IH]; intros H; [done|]. rewrite count_cons.
  rewrite (H x) by (by left). rewrite IH; [done|]. intros y Hy. apply H. by right.
Qed.

Lemma count_pos p l x : In x l -> p x = true -> 0 < count p l.
Proof.
  induction l as [|y l IH]; simpl; [done|]. rewrite count_cons.
  intros [->|H] E; [rewrite E; lia|]. specialize (IH H E). lia.
Qed.

Lemma count_delete_where p q l :
  count p (delete_where q l) + count (fun x => p x && q x) l = count p l.
Proof.
  induction l as [|x l IH]; [done|]. unfold delete_where in *. simpl.
  rewrite !count_cons. destruct (q x); simpl; rewrite ?count_cons;
    destruct (p x); simpl; lia.
Qed.

Lemma find_some_iff p l x :
  find p l = Some x -> In x l /\ p x = true.
Proof. apply find_some. Qed.
End ListLemmas.

(** A key that occurs once is counted at most once. *)
Lemma count_key_NoDup {A} (k : A -> N) (i : N) (l : list A) :
  List.NoDup (map k l) -> count (fun x => N.eqb (k x) i) l <= 1.
Proof.
  induction l as [|x l IH]; simpl; [unfold count; simpl; lia|].
  intros [Hx Hl]%NoDup_cons_iff. rewrite count_cons.
  destruct (N.eqb_spec (k x) i) as [<-|]; [|specialize (IH Hl); lia].
  rewrite count_zero; [lia|]. intros y Hy. apply N.eqb_neq. intros E.
  apply Hx. rewrite <- E. by apply in_map.
Qed.

Create Rewrite HintDb table.
#[export] Hint Rewrite @in_sel @in_delete_where @order_by_In : table.

(** ** Tactics *)

(** Turn boolean tests in hypotheses and goal into propositions. *)
Ltac bool_prop :=
  repeat match goal with
  | H : (_ && _) = true |- _ => apply andb_true_iff in H as [? ?]
  | H : (_ || _) = false |- _ => apply orb_false_iff in H as [? ?]
  | H : negb _ = true |- _ => apply negb_true_iff in H
  | H : negb _ = false |- _ => apply negb_false_iff in H
  | H : N.eqb _ _ = true |- _ => apply N.eqb_eq in H
  | H : N.eqb _ _ = false |- _ => apply N.eqb_neq in H
  | H : String.eqb _ _ = true |- _ => apply String.eqb_eq in H
  | H : String.eqb _ _ = false |- _ => apply String.eqb_neq in H
  | H : (_ <=? _)%Z = true |- _ => apply Z.leb_le in H
  | H : (_ <=? _)%Z = false |- _ => apply Z.leb_gt in H
  | H : (_ <? _)%Z = true |- _ => apply Z.ltb_lt in H
  | H : (_ <? _)%Z = false |- _ => apply Z.ltb_ge in H
  | H : (_ =? _)%Z = true |- _ => apply Z.eqb_eq in H
  | H : (_ =? _)%Z = false |- _ => apply Z.eqb_neq in H
  end.

Ltac invert H := inversion H; subst; clear H.

(** ** Partial projections of a table *)

Section Omap.
Context {A B : Type}.
Implicit Types (l : list A) (t : A -> option B).

Lemma omap_cons t x l :
  omap t (x :: l) = match t x with Some b => b :: omap t l | None => omap t l end.
Proof. reflexivity. Qed.

Lemma in_omap t l b : In b (omap t l) <-> exists x, In x l /\ t x = Some b.
Proof. rewrite <- list_elem_of_In, list_elem_of_omap. by setoid_rewrite list_elem_of_In. Qed.

Lemma NoDup_omap_inj {K} (k : A -> K) t l :
  List.NoDup (map k l) ->
  (forall x y b, In x l -> In y l -> t x = Some b -> t y = Some b -> k x = k y) ->
  List.NoDup (omap t l).
Proof.
  induction l as [|x l IH]; intros Hnd Hinj; [constructor|]. simpl in Hnd.
  apply NoDup_cons_iff in Hnd as [Hx Hl]. simpl.
  assert (List.NoDup (omap t l)) as IHl.
  { apply IH; [done|]. intros y z b Hy Hz. apply Hinj; by right. }
  destruct (t x) as [b|] eqn:E; [|done]. constructor; [|done].
  intros (y & Hy & Ey)%in_omap. apply Hx. rewrite (Hinj x y b); [by apply in_map|..]; auto.
  - by left.
  - by right.
Qed.

Lemma omap_NoDup_inj t l x y b :
  List.NoDup (omap t l) -> In x l -> In y l -> t x = Some b -> t y = Some b -> x = y.
Proof.
  induction l as [|z l IH]; simpl; [done|]. intros Hnd Hx Hy Ex Ey.
  assert (List.NoDup (omap t l)) as Hl by (destruct (t z); [by apply NoDup_cons_iff in Hnd as [_ ?] | done]).
  destruct Hx as [->|Hx], Hy as [->|Hy]; try done.
  - rewrite Ex in Hnd. apply NoDup_cons_iff in Hnd as [Hn _]. destruct Hn. apply in_omap. eauto.
  - rewrite Ey in Hnd. apply NoDup_cons_iff in Hnd as [Hn _]. destruct Hn. apply in_omap. eauto.
  - by apply IH.
Qed.

Lemma omap_update_where t p f l :
  (forall x, In x l -> p x = true -> t (f x) = t x) -> omap t (update_where p f l) = omap t l.
Proof.
  induction l as [|x l IH]; intros H; [done|].
  change (update_where p f (x :: l)) with ((if p x then f x else x) :: update_where p f l).
  rewrite !omap_cons, IH by (intros y Hy; apply H; by right).
  destruct (p x) eqn:E; [|done]. rewrite H; [done|by left|done].
Qed.
End Omap.

Lemma sel_delete_perm {A} (p : A -> bool) l : delete_where p l ++ List.filter p l ≡ₚ l.
Proof.
  unfold delete_where. induction l as [|x l IH]; [done|]. simpl.
  destruct (p x); simpl; [|by rewrite IH]. by rewrite <- Permutation_middle, IH.
Qed.
