(* ===== verification/PyStr.v ===== *)
(** * Python text primitives

    The string methods the engine uses ([str.strip], [str.split],
    [str.startswith], [str.endswith], slicing, [int(s)], [str(n)]).  A Python
    [str] is a Rocq [string] whose characters are code points below 256; for
    those code points the definitions follow CPython exactly (white space is
    the Unicode set restricted to Latin-1, only ASCII digits are decimal
    digits, [int] accepts a sign and single underscores between digits). *)

From S2P Require Import Prelude.
From Stdlib Require Import Ascii String ZArith.
Open Scope string_scope.

Definition code (c : ascii) : N := N_of_ascii c.

Definition is_space (c : ascii) : bool :=
  let n := code c in
  ((9 <=? n) && (n <=? 13) || (28 <=? n) && (n <=? 32) || (n =? 133) || (n =? 160))%N.

Definition is_digit (c : ascii) : bool := ((48 <=? code c) && (code c <=? 57))%N.

Definition digit_val (c : ascii) : Z := (Z.of_N (code c) - 48)%Z.

Fixpoint lstrip (s : string) : string :=
  match s with
  | String c s' => if is_space c then lstrip s' else s
  | EmptyString => EmptyString
  end.

Fixpoint rev_append_string (s acc : string) : string :=
  match s with
  | String c s' => rev_append_string s' (String c acc)
  | EmptyString => acc
  end.

Definition rev_string (s : string) : string := rev_append_string s "".

(** [s.strip()] *)
Definition strip (s : string) : string := rev_string (lstrip (rev_string (lstrip s))).

(** [s.split()]: maximal runs of non-white-space characters. *)
Fixpoint split_ws_go (s cur : string) : list string :=
  match s with
  | EmptyString => if String.eqb cur "" then [] else [rev_string cur]
  | String c s' =>
      if is_space c
      then (if String.eqb cur "" then [] else [rev_string cur]) ++ split_ws_go s' ""
      else split_ws_go s' (String c cur)
  end.
Definition split_ws (s : string) : list string := split_ws_go s "".

(** [s.split(sep)] for a one-character separator. *)
Fixpoint split_on_go (sep : ascii) (s cur : string) : list string :=
  match s with
  | EmptyString => [rev_string cur]
  | String c s' =>
      if Ascii.eqb c sep then rev_string cur :: split_on_go sep s' ""
      else split_on_go sep s' (String c cur)
  end.
Definition split_on (sep : ascii) (s : string) : list string := split_on_go sep s "".

(** What follows the first [sep] of [s]: [s.split(sep, 1)[1]]. *)
Fixpoint after_first (sep : ascii) (s : string) : option string :=
  match s with
  | EmptyString => None
  | String c s' => if Ascii.eqb c sep then Some s' else after_first sep s'
  end.

Definition startswith (p s : string) : bool := String.prefix p s.
Definition endswith (p s : string) : bool := String.prefix (rev_string p) (rev_string s).

(** [s[n:]] and [s[:-1]] *)
Fixpoint drop_chars (n : nat) (s : string) : string :=
  match n, s with
  | S n', String _ s' => drop_chars n' s'
  | _, _ => s
  end.
Fixpoint drop_last (s : string) : string :=
  match s with
  | EmptyString => EmptyString
  | String _ EmptyString => EmptyString
  | String c s' => String c (drop_last s')
  end.

(** Digits of [int(s)]; [prev] says whether the previous character is a digit. *)
Fixpoint int_digits (acc : Z) (prev : bool) (s : string) : option Z :=
  match s with
  | EmptyString => if prev then Some acc else None
  | String c s' =>
      if is_digit c then int_digits (10 * acc + digit_val c)%Z true s'
      else if (code c =? 95)%N && prev then int_digits acc false s' else None
  end.

(** [int(s)]; [None] is [ValueError]. *)
Definition py_int (s : string) : option Z :=
  match strip s with
  | String "-" s' => Z.opp <$> int_digits 0 false s'
  | String "+" s' => int_digits 0 false s'
  | s' => int_digits 0 false s'
  end.

(** [str(n)] for a non-negative integer, and for any integer. *)
Definition digit_char (d : N) : ascii := ascii_of_N (48 + d).

Fixpoint dec_go (fuel : nat) (n : N) (acc : string) : string :=
  match fuel with
  | O => acc
  | S f =>
      let acc' := String (digit_char (n mod 10)) acc in
      if (n / 10 =? 0)%N then acc' else dec_go f (n / 10) acc'
  end.
Definition dec_N (n : N) : string := dec_go (S (N.size_nat n)) n "".

Definition py_str_Z (z : Z) : string :=
  if (z <? 0)%Z then String "-" (dec_N (Z.to_N (- z))) else dec_N (Z.to_N z).

(** ** [repr] of a string *)

Definition has_char (c : ascii) (s : string) : bool :=
  match after_first c s with Some _ => true | None => false end.

Definition hex_digit (n : N) : ascii := ascii_of_N (if (n <? 10)%N then 48 + n else 87 + n).

Definition printable (c : ascii) : bool :=
  let n := code c in ((32 <=? n) && (n <=? 126) || (161 <=? n) && negb (n =? 173))%N.

Definition repr_char (quote c : ascii) : string :=
  if Ascii.eqb c quote || Ascii.eqb c "\" then String "\" (String c "")
  else if (code c =? 9)%N then "\t" else if (code c =? 10)%N then "\n" else if (code c =? 13)%N then "\r"
  else if printable c then String c ""
  else "\x" ++ String (hex_digit (code c / 16)) (String (hex_digit (code c mod 16)) "").

Definition double_quote : ascii := ascii_of_N 34.

Definition py_repr (s : string) : string :=
  let quote := if has_char "'" s && negb (has_char double_quote s) then double_quote else "'"%char in
  String quote (String.concat "" (map (repr_char quote) (list_ascii_of_string s)) ++ String quote "").

Example py_repr_plain : py_repr "a\b" = "'a\\b'".
Proof. reflexivity. Qed.

Example py_repr_quote : py_repr "it's" = String double_quote ("it's" ++ String double_quote "").
Proof. reflexivity. Qed.

(** ** [bytes.decode()]

    Bytes are a string of codes below 256.  None: no UTF-8, or a code point
    above 255, which strings here do not hold. *)
Fixpoint utf8_decode (s : string) : option string :=
  match s with
  | EmptyString => Some EmptyString
  | String c s' =>
      if (code c <? 128)%N then String c <$> utf8_decode s'
      else match s' with
           | String d s'' =>
               if ((194 <=? code c) && (code c <=? 195) && (128 <=? code d) && (code d <=? 191))%N
               then String (ascii_of_N (64 * (code c - 192) + (code d - 128))) <$> utf8_decode s''
               else None
           | EmptyString => None
           end
  end.

(** [str.encode()] *)
Fixpoint utf8_encode (s : string) : string :=
  match s with
  | EmptyString => EmptyString
  | String c s' =>
      if (code c <? 128)%N then String c (utf8_encode s')
      else String (ascii_of_N (192 + code c / 64)) (String (ascii_of_N (128 + code c mod 64)) (utf8_encode s'))
  end.

(** [s.isascii()] *)
Fixpoint ascii_text (s : string) : bool :=
  match s with EmptyString => true | String c s' => (code c <? 128)%N && ascii_text s' end.

(** [s.lower()] *)
Definition lower_char (c : ascii) : ascii :=
  let n := code c in
  if ((65 <=? n) && (n <=? 90) || (192 <=? n) && (n <=? 222) && negb (n =? 215))%N then ascii_of_N (n + 32) else c.

Fixpoint lower (s : string) : string :=
  match s with EmptyString => EmptyString | String c s' => String (lower_char c) (lower s') end.

(** [s[:n]] *)
Fixpoint take_chars (n : nat) (s : string) : string :=
  match n, s with
  | S n', String c s' => String c (take_chars n' s')
  | _, _ => EmptyString
  end.

(** [bool(s)] *)
Definition nonempty (s : string) : bool := negb (String.eqb s "").

(** [s or None] *)
Definition or_none (s : string) : option string := if nonempty s then Some s else None.

(** ** Timestamps as text

    A timestamp is a number of microseconds since 1970-01-01T00:00:00Z. *)

(** Left-padded with zeros to [width] digits. *)
Definition zero_pad (width : nat) (z : Z) : string :=
  let s := py_str_Z z in
  String.concat "" (repeat "0" (width - String.length s) ++ [s])%list.

(** Year, month and day of a day number (0 is 1970-01-01, Gregorian calendar). *)
Definition civil_from_days (days : Z) : Z * Z * Z :=
  (let z := days + 719468 in
   let era := z / 146097 in
   let doe := z mod 146097 in
   let yoe := (doe - doe / 1460 + doe / 36524 - doe / 146096) / 365 in
   let doy := doe - (365 * yoe + yoe / 4 - yoe / 100) in
   let mp := (5 * doy + 2) / 153 in
   let month := if mp <? 10 then mp + 3 else mp - 9 in
   (yoe + era * 400 + (if month <=? 2 then 1 else 0), month, doy - (153 * mp + 2) / 5 + 1))%Z.

Definition iso_seconds (t : Z) : string :=
  (let s := t / 1000000 in
   let '(y, m, d) := civil_from_days (s / 86400) in
   let r := s mod 86400 in
   zero_pad 4 y ++ "-" ++ zero_pad 2 m ++ "-" ++ zero_pad 2 d ++ "T"
     ++ zero_pad 2 (r / 3600) ++ ":" ++ zero_pad 2 (r / 60 mod 60) ++ ":" ++ zero_pad 2 (r mod 60))%Z.

(** [datetime.isoformat()] of an aware UTC datetime. *)
Definition isoformat (t : Z) : string :=
  let us := (t mod 1000000)%Z in
  iso_seconds t ++ (if (us =? 0)%Z then "" else "." ++ zero_pad 6 us) ++ "+00:00".

Fixpoint drop_zeros (s : string) : string :=
  match s with
  | String "0" s' => drop_zeros s'
  | _ => s
  end.

(** A [timestamptz] as JSON text, the session in UTC: the fraction without its
    trailing zeros. *)
Definition pg_json_timestamp (t : Z) : string :=
  let us := (t mod 1000000)%Z in
  iso_seconds t
    ++ (if (us =? 0)%Z then "" else "." ++ rev_string (drop_zeros (rev_string (zero_pad 6 us)))) ++ "+00:00".

Example isoformat_leap_day : isoformat 1709209815012300 = "2024-02-29T12:30:15.012300+00:00".
Proof. reflexivity. Qed.

Example pg_json_timestamp_leap_day : pg_json_timestamp 1709209815012300 = "2024-02-29T12:30:15.0123+00:00".
Proof. reflexivity. Qed.

Example isoformat_epoch_eve : isoformat (-1000000) = "1969-12-31T23:59:59+00:00".
Proof. reflexivity. Qed.

(** ** The printer and the parser agree *)

Lemma digit_char_code d : (d < 10)%N -> code (digit_char d) = (48 + d)%N.
Proof. intros H. unfold code, digit_char. apply N_ascii_embedding. lia. Qed.

Lemma digit_char_is_digit d : (d < 10)%N -> is_digit (digit_char d) = true.
Proof. intros H. unfold is_digit. rewrite digit_char_code by done.
  apply andb_true_iff; split; apply N.leb_le; lia. Qed.

Lemma digit_char_val d : (d < 10)%N -> digit_val (digit_char d) = Z.of_N d.
Proof. intros H. unfold digit_val. rewrite digit_char_code by done. lia. Qed.

Lemma N_div10_lt n f : (n < 2 ^ N.of_nat (S f))%N -> (n / 10 < 2 ^ N.of_nat f)%N.
Proof.
  intros H. rewrite Nat2N.inj_succ, N.pow_succ_r in H by lia.
  apply N.Div0.div_lt_upper_bound. lia.
Qed.

Lemma int_digits_dec_go f n rest prev :
  (n < 2 ^ N.of_nat f)%N -> f <> 0 ->
  exists k, forall acc,
    int_digits acc prev (dec_go f n rest) =
    int_digits (acc * 10 ^ Z.of_nat k + Z.of_N n)%Z true rest.
Proof.
  revert n rest. induction f as [|f IH]; intros n rest Hn Hf; [done|].
  cbn [dec_go]. pose proof (N.mod_lt n 10 ltac:(lia)) as Hm.
  destruct (N.eqb_spec (n / 10) 0) as [Hq|Hq].
  - exists 1. intros acc. cbn [int_digits].
    rewrite digit_char_is_digit, digit_char_val by done. f_equal.
    rewrite (N.Div0.div_mod n 10) at 2. rewrite Hq. lia.
  - assert (f <> 0) as Hf0.
    { intros ->. simpl in Hn. assert (n = 0 \/ n = 1)%N as [->| ->] by lia; done. }
    destruct (IH (n / 10)%N (String (digit_char (n mod 10)) rest) (N_div10_lt _ _ Hn) Hf0)
      as [k Hk].
    exists (S k). intros acc. rewrite Hk. cbn [int_digits].
    rewrite digit_char_is_digit, digit_char_val by done. f_equal.
    rewrite (N.Div0.div_mod n 10) at 3.
    rewrite Nat2Z.inj_succ, Z.pow_succ_r by lia. lia.
Qed.

Lemma N_size_bound n : (n < 2 ^ N.of_nat (S (N.size_nat n)))%N.
Proof.
  destruct n as [|p]; [by vm_compute|]. simpl N.size_nat.
  rewrite Nat2N.inj_succ, N.pow_succ_r by lia.
  pose proof (Pos.size_gt p) as H.
  assert (N.of_nat (Pos.size_nat p) = Npos (Pos.size p)) as ->.
  { clear H. induction p as [p IH|p IH|]; simpl; try done;
      rewrite Nat2N.inj_succ in *; rewrite IH; lia. }
  assert (N.pos p < 2 ^ N.pos (Pos.size p))%N by (simpl; lia). lia.
Qed.

Lemma int_digits_dec_N n : int_digits 0 false (dec_N n) = Some (Z.of_N n).
Proof.
  unfold dec_N.
  destruct (int_digits_dec_go (S (N.size_nat n)) n "" false (N_size_bound n) ltac:(lia))
    as [k Hk].
  by rewrite Hk.
Qed.

(** [int] of a decimal numeral with nothing to strip. *)
Lemma dec_go_head f n rest : f <> 0 -> exists d s,
  (d < 10)%N /\ dec_go f n rest = String (digit_char d) s.
Proof.
  revert n rest. induction f as [|f IH]; intros n rest Hf; [done|].
  cbn [dec_go]. pose proof (N.mod_lt n 10 ltac:(lia)) as Hm.
  destruct (n / 10 =? 0)%N; [eauto|].
  destruct f as [|f]; [simpl; eauto|]. by apply IH.
Qed.

Lemma digit_char_not_space d : (d < 10)%N -> is_space (digit_char d) = false.
Proof.
  intros H. unfold is_space. rewrite digit_char_code by done.
  repeat (apply orb_false_iff; split); try apply andb_false_iff;
    try (left; apply N.leb_gt; lia); try (right; apply N.leb_gt; lia); apply N.eqb_neq; lia.
Qed.

Lemma rev_append_string_app s a b :
  rev_append_string s (a ++ b) = rev_append_string s a ++ b.
Proof. revert a. induction s as [|c s IH]; intros a; simpl; [done|]. apply (IH (String c a)). Qed.

Lemma rev_string_cons c s : rev_string (String c s) = rev_string s ++ String c "".
Proof. unfold rev_string. simpl. by rewrite <- rev_append_string_app. Qed.

Lemma append_empty_r s : s ++ "" = s.
Proof.
  induction s as [|c s IH]; [done|]. change (String c (s ++ "") = String c s). by rewrite IH.
Qed.

Lemma append_assoc a b c : (a ++ b) ++ c = a ++ (b ++ c).
Proof.
  induction a as [|x a IH]; [done|].
  change (String x ((a ++ b) ++ c) = String x (a ++ (b ++ c))). by rewrite IH.
Qed.

Lemma rev_string_app a b : rev_string (a ++ b) = rev_string b ++ rev_string a.
Proof.
  induction a as [|c a IH].
  { change (rev_string b = rev_string b ++ ""). by rewrite append_empty_r. }
  change (String c a ++ b) with (String c (a ++ b)).
  by rewrite !rev_string_cons, IH, append_assoc.
Qed.

Lemma rev_string_involutive s : rev_string (rev_string s) = s.
Proof.
  induction s as [|c s IH]; [done|]. by rewrite rev_string_cons, rev_string_app, IH.
Qed.

(** A string with no white space at all is its own [strip]. *)
Fixpoint no_space (s : string) : bool :=
  match s with
  | EmptyString => true
  | String c s' => negb (is_space c) && no_space s'
  end.

Lemma no_space_app a b : no_space (a ++ b) = no_space a && no_space b.
Proof.
  induction a as [|c a IH]; [done|].
  change (negb (is_space c) && no_space (a ++ b) = negb (is_space c) && no_space a && no_space b).
  by rewrite IH, andb_assoc.
Qed.

Lemma no_space_rev s : no_space (rev_string s) = no_space s.
Proof.
  induction s as [|c s IH]; [done|].
  rewrite rev_string_cons, no_space_app, IH. simpl. by rewrite andb_true_r, andb_comm.
Qed.

Lemma lstrip_no_space s : no_space s = true -> lstrip s = s.
Proof. destruct s as [|c s]; simpl; [done|]. by destruct (is_space c). Qed.

Lemma strip_no_space s : no_space s = true -> strip s = s.
Proof.
  intros H. unfold strip. rewrite (lstrip_no_space s) by done.
  rewrite lstrip_no_space by (by rewrite no_space_rev). apply rev_string_involutive.
Qed.

Lemma no_space_dec_go f n rest : no_space rest = true -> no_space (dec_go f n rest) = true.
Proof.
  revert n rest. induction f as [|f IH]; intros n rest H; [done|].
  cbn [dec_go]. pose proof (N.mod_lt n 10 ltac:(lia)) as Hm.
  assert (no_space (String (digit_char (n mod 10)) rest) = true) as H'.
  { cbn [no_space]. by rewrite digit_char_not_space. }
  destruct (n / 10 =? 0)%N; [done | by apply IH].
Qed.

Lemma digit_char_neq_sign d : (d < 10)%N ->
  digit_char d <> "-"%char /\ digit_char d <> "+"%char.
Proof.
  intros H. split; intros E; apply (f_equal code) in E;
    rewrite digit_char_code in E by done.
  - change (code "-") with 45%N in E. lia.
  - change (code "+") with 43%N in E. lia.
Qed.

(** [int(s)] of an unsigned numeral, up to the two sign characters. *)
Lemma py_int_unsigned c s :
  strip (String c s) = String c s -> c <> "-"%char -> c <> "+"%char ->
  py_int (String c s) = int_digits 0 false (String c s).
Proof.
  intros Hs Hm Hp. unfold py_int. rewrite Hs.
  destruct c as [[] [] [] [] [] [] [] []]; done.
Qed.

Lemma py_int_dec_N n : py_int (dec_N n) = Some (Z.of_N n).
Proof.
  pose proof (no_space_dec_go (S (N.size_nat n)) n "" eq_refl) as Hns.
  rewrite <- int_digits_dec_N. unfold dec_N in *.
  destruct (dec_go_head (S (N.size_nat n)) n "" ltac:(lia)) as (d & s & Hd & E).
  rewrite E in *. destruct (digit_char_neq_sign d Hd).
  apply py_int_unsigned; [by apply strip_no_space|done..].
Qed.

Lemma dec_N_no_space n : no_space (dec_N n) = true.
Proof. by apply no_space_dec_go. Qed.
