(* ===== verification/Errors.v ===== *)
(** * Engine error taxonomy (src/symba/core/errors.py)

    Every exception class with its [error_code], HTTP [status_code] and gRPC
    code, and the exceptions of the Python runtime and of the database driver
    that engine code can let escape. *)

From S2P Require Import Prelude.
Open Scope string_scope.

Inductive error_class :=
| SymbaError | StaleLease | NotFound | ResultTooLarge | PayloadTooLarge | ChainTooLong
| FanOutTooLarge | UpstreamTooLarge | TenantQuotaExceeded | ValidationError
| Unauthenticated | PermissionDenied | WaitKeyAlreadyConsumed | ProtocolVersionUnsupported.

#[global] Instance error_class_eq_dec : EqDecision error_class.
Proof. solve_decision. Defined.

Definition all_error_classes : list error_class :=
  [SymbaError; StaleLease; NotFound; ResultTooLarge; PayloadTooLarge; ChainTooLong;
   FanOutTooLarge; UpstreamTooLarge; TenantQuotaExceeded; ValidationError;
   Unauthenticated; PermissionDenied; WaitKeyAlreadyConsumed; ProtocolVersionUnsupported].

Definition error_code (c : error_class) : string :=
  match c with
  | SymbaError => "symba_error"
  | StaleLease => "stale_lease"
  | NotFound => "not_found"
  | ResultTooLarge => "result_too_large"
  | PayloadTooLarge => "payload_too_large"
  | ChainTooLong => "chain_too_long"
  | FanOutTooLarge => "fanout_too_large"
  | UpstreamTooLarge => "upstream_too_large"
  | TenantQuotaExceeded => "tenant_quota_exceeded"
  | ValidationError => "validation_error"
  | Unauthenticated => "unauthenticated"
  | PermissionDenied => "permission_denied"
  | WaitKeyAlreadyConsumed => "wait_key_already_consumed"
  | ProtocolVersionUnsupported => "protocol_unsupported"
  end.

Definition status_code (c : error_class) : Z :=
  match c with
  | SymbaError => 500
  | StaleLease => 409
  | NotFound => 404
  | ResultTooLarge => 413
  | PayloadTooLarge => 413
  | ChainTooLong => 400
  | FanOutTooLarge => 400
  | UpstreamTooLarge => 413
  | TenantQuotaExceeded => 429
  | ValidationError => 422
  | Unauthenticated => 401
  | PermissionDenied => 403
  | WaitKeyAlreadyConsumed => 409
  | ProtocolVersionUnsupported => 426
  end.

Definition grpc_code (c : error_class) : string :=
  match c with
  | SymbaError => "INTERNAL"
  | StaleLease => "ABORTED"
  | NotFound => "NOT_FOUND"
  | ResultTooLarge | PayloadTooLarge | ChainTooLong | FanOutTooLarge
  | UpstreamTooLarge | ValidationError => "INVALID_ARGUMENT"
  | TenantQuotaExceeded => "RESOURCE_EXHAUSTED"
  | Unauthenticated => "UNAUTHENTICATED"
  | PermissionDenied => "PERMISSION_DENIED"
  | WaitKeyAlreadyConsumed | ProtocolVersionUnsupported => "FAILED_PRECONDITION"
  end.

(** The values engine code puts in [SymbaError.context]. *)
Inductive ctx_value := CtxStr (s : string) | CtxInt (z : Z) | CtxId (i : N).

(** [SymbaError(message, **context)] *)
Record symba_error := mkSymbaError {
  err_class : error_class;
  err_message : option string;
  err_context : list (string * ctx_value)
}.

Inductive exn :=
| Symba (e : symba_error)
| ValueError            (* Python ValueError *)
| TypeError             (* Python TypeError *)
| OverflowError         (* float ** overflow *)
| DataError             (* asyncpg: value out of range for its column *)
| NotNullViolation      (* asyncpg: NULL in a NOT NULL column *)
| RuntimeError          (* Python RuntimeError *)
| ConnectionError       (* the database cannot be reached *)
| OutOfModel.           (* the code goes on with a value the model has no type for *)

(** [cls.__doc__]; that of WaitKeyAlreadyConsumed, which nothing raises, holds
    characters strings here do not have. *)
Definition docstring (c : error_class) : option string :=
  match c with
  | SymbaError => Some "Base engine error."
  | StaleLease => Some "The lease token does not match; another attempt owns this job."
  | NotFound => Some "Unknown job, tenant, or task."
  | ResultTooLarge => Some "Result exceeds the 64KB cap: store a reference, not the data."
  | PayloadTooLarge => Some "Payload exceeds the 256KB cap."
  | ChainTooLong => Some "Chain exceeds the configured maximum; use fan-out/deps instead."
  | FanOutTooLarge => Some "Fan-out exceeds the configured child limit."
  | UpstreamTooLarge => Some "Inline upstream results exceed the per-assignment cap."
  | TenantQuotaExceeded => Some "Tenant queued-jobs cap reached; retryable by contract."
  | ValidationError => Some "A request field failed validation (e.g. a malformed cron expression)."
  | Unauthenticated => Some "Missing or invalid credentials."
  | PermissionDenied => Some "Authenticated but not authorized for this tenant/resource."
  | WaitKeyAlreadyConsumed => None
  | ProtocolVersionUnsupported => Some "The client's protocol/SDK version is outside the engine's supported range."
  end.

(** [self.message]: [message or cls.__doc__ or error_code] *)
Definition message (e : symba_error) : string :=
  match err_message e with
  | Some m => if String.eqb m "" then default (error_code (err_class e)) (docstring (err_class e)) else m
  | None => default (error_code (err_class e)) (docstring (err_class e))
  end.

(** [raise cls(message, **ctx)] *)
Definition err_msg (c : error_class) (m : string) (ctx : list (string * ctx_value)) : exn :=
  Symba (mkSymbaError c (Some m) ctx).

Definition err (c : error_class) (ctx : list (string * ctx_value)) : exn :=
  Symba (mkSymbaError c None ctx).

Definition is_class (c : error_class) (e : exn) : bool :=
  match e with Symba s => bool_decide (err_class s = c) | _ => false end.
