(* ===== verification/States.v ===== *)
(** * Job state machine (src/symba/core/states.py) *)

From S2P Require Import Prelude.
Open Scope string_scope.

Inductive JobState :=
| SUBMITTED | QUEUED | RUNNING | WAITING | SUCCEEDED | DEAD | CANCELLED.

#[global] Instance JobState_eq_dec : EqDecision JobState.
Proof. solve_decision. Defined.

Definition JobState_eqb (a b : JobState) : bool := bool_decide (a = b).

Definition JobState_value (s : JobState) : string :=
  match s with
  | SUBMITTED => "submitted" | QUEUED => "queued" | RUNNING => "running"
  | WAITING => "waiting" | SUCCEEDED => "succeeded" | DEAD => "dead"
  | CANCELLED => "cancelled"
  end.

Definition LIVE_STATES : list JobState := [SUBMITTED; QUEUED; RUNNING; WAITING].
Definition TERMINAL_STATES : list JobState := [SUCCEEDED; DEAD; CANCELLED].

Definition TRANSITIONS (s : JobState) : list JobState :=
  match s with
  | SUBMITTED => [QUEUED; CANCELLED]
  | QUEUED => [RUNNING; CANCELLED]
  | RUNNING => [QUEUED; WAITING; SUCCEEDED; DEAD; CANCELLED]
  | WAITING => [QUEUED; CANCELLED]
  | SUCCEEDED | DEAD | CANCELLED => []
  end.

Definition is_live (s : JobState) : bool := existsb (JobState_eqb s) LIVE_STATES.
Definition is_terminal (s : JobState) : bool := existsb (JobState_eqb s) TERMINAL_STATES.
Definition can_transition (src dst : JobState) : bool := existsb (JobState_eqb dst) (TRANSITIONS src).

Lemma JobState_eqb_eq a b : JobState_eqb a b = true <-> a = b.
Proof. unfold JobState_eqb. by rewrite bool_decide_eq_true. Qed.

Lemma JobState_eqb_refl a : JobState_eqb a a = true.
Proof. by apply JobState_eqb_eq. Qed.

Lemma JobState_eqb_neq a b : JobState_eqb a b = false <-> a <> b.
Proof. unfold JobState_eqb. by rewrite bool_decide_eq_false. Qed.

(** The transition relation of the documented state machine, and its paths. *)
Definition edge (a b : JobState) : Prop := can_transition a b = true.
Definition path : JobState -> JobState -> Prop := rtc edge.

Lemma live_xor_terminal s : is_live s = negb (is_terminal s).
Proof. by destruct s. Qed.

Lemma terminal_no_edge s t : is_terminal s = true -> ~ edge s t.
Proof. by destruct s, t. Qed.

Lemma path_from_terminal s t : is_terminal s = true -> path s t -> s = t.
Proof. intros Hs Hp. destruct Hp as [|a b c He _]; [done|]. by destruct (terminal_no_edge a b Hs). Qed.

#[export] Hint Extern 1 (edge _ _) => reflexivity : states.

Ltac state_cases :=
  repeat match goal with
  | H : JobState_eqb _ _ = true |- _ => apply JobState_eqb_eq in H
  | H : JobState_eqb _ _ = false |- _ => apply JobState_eqb_neq in H
  end.
