(* ===== verification/Chain.v ===== *)
(** * Chain advance (src/symba/core/chain.py)

    A chain is the pair (on_success, chain_tail) on the job row.  [unroll] is
    the specification: the list of task names still to run. *)

From S2P Require Import Prelude.
Open Scope string_scope.

Record ChainStep := mkChainStep {
  next_task : string;
  on_success : option string;
  chain_tail : list string
}.

(** Truthiness of an optional string: [None] and [""] are false. *)
Definition truthy (o : option string) : option string :=
  match o with Some "" => None | _ => o end.

Definition advance (on_success : option string) (chain_tail : list string) : option ChainStep :=
  match truthy on_success with
  | None => None
  | Some t =>
      let next_on_success := match chain_tail with [] => None | x :: _ => Some x end in
      let remaining := match chain_tail with [] => [] | _ :: r => r end in
      Some (mkChainStep t next_on_success remaining)
  end.

(** The tasks run after a job carrying [(on_success, chain_tail)] succeeds,
    when every continuation succeeds without stopping the chain. *)
Fixpoint run_chain (fuel : nat) (o : option string) (tail : list string) : list string :=
  match fuel with
  | O => []
  | S f =>
      match advance o tail with
      | None => []
      | Some st => next_task st :: run_chain f (on_success st) (chain_tail st)
      end
  end.

(** Specification: the forward path up to the first empty name. *)
Fixpoint until_empty (l : list string) : list string :=
  match l with
  | [] => []
  | x :: l' => if String.eqb x "" then [] else x :: until_empty l'
  end.

Lemma run_chain_spec fuel x tail :
  length tail < fuel -> run_chain fuel (Some x) tail = until_empty (x :: tail).
Proof.
  revert x tail. induction fuel as [|f IH]; intros x tail H; [lia|].
  simpl run_chain. unfold advance. destruct (String.eqb_spec x "") as [->|Hx]; [done|].
  assert (truthy (Some x) = Some x) as -> by (destruct x; done).
  simpl. rewrite (proj2 (String.eqb_neq x "") Hx).
  destruct tail as [|y tail]; simpl in *.
  - destruct f; done.
  - rewrite IH by lia. done.
Qed.
