(* ===== verification/Gates.v ===== *)
(** * Fan-out gate policies (src/symba/core/gates.py) *)

From S2P Require Import Prelude PyStr.
From Stdlib Require Import Ascii String.
Open Scope string_scope.
Open Scope Z_scope.

Record GateProgress := mkProgress {
  expected : Z;
  completed : Z;
  succeeded : Z;
  failed : Z
}.

(** [GateProgress.__post_init__]: [None] is the [ValueError] it raises. *)
Definition post_init (p : GateProgress) : option GateProgress :=
  if expected p <=? 0 then None
  else if negb ((0 <=? succeeded p) && (succeeded p <=? completed p)
                && (completed p <=? expected p)) then None
  else if negb ((0 <=? failed p) && (failed p <=? completed p - succeeded p)) then None
  else Some p.

Definition all_success (p : GateProgress) : bool :=
  (completed p =? expected p) && (failed p =? 0).

Definition all_terminal (p : GateProgress) : bool := completed p =? expected p.

(** [None] is [ValueError("quorum n must be positive")]. *)
Definition quorum (p : GateProgress) (n : Z) : option bool :=
  if n <=? 0 then None else Some (Z.min n (expected p) <=? succeeded p).

Definition quorum_text (policy : string) : option string :=
  if startswith "quorum(" policy && endswith ")" policy
  then Some (drop_last (drop_chars (String.length "quorum(") policy)) else None.

(** [None] is a [ValueError] (unknown policy, malformed or non-positive n). *)
Definition is_satisfied (policy : string) (p : GateProgress) : option bool :=
  if String.eqb policy "all_success" then Some (all_success p)
  else if String.eqb policy "all_terminal" then Some (all_terminal p)
  else match quorum_text policy with
       | Some t => n ← py_int t; quorum p n
       | None => None
       end.

(** ** The policy text of a quorum reads back as its number *)

Definition quorum_policy (n : N) : string := "quorum(" ++ dec_N n ++ ")".

Lemma drop_last_app s c : drop_last (s ++ String c "") = s.
Proof.
  induction s as [|x s IH]; [done|].
  change (String x s ++ String c "") with (String x (s ++ String c "")).
  destruct s as [|y s]; [done|].
  change (String y s ++ String c "") with (String y (s ++ String c "")) in *.
  cbn [drop_last] in *. by rewrite IH.
Qed.

Lemma endswith_app s p : endswith p (s ++ p) = true.
Proof.
  unfold endswith. rewrite rev_string_app. generalize (rev_string p) (rev_string s).
  clear. intros p s. induction p as [|c p IH]; [by destruct s|].
  change (String c p ++ s) with (String c (p ++ s)). simpl.
  destruct (Ascii.ascii_dec c c); [done|congruence].
Qed.

Lemma quorum_text_policy n : quorum_text (quorum_policy n) = Some (dec_N n).
Proof.
  unfold quorum_text, quorum_policy.
  assert (endswith ")" ("quorum(" ++ dec_N n ++ ")") = true) as ->.
  { rewrite <- append_assoc. apply endswith_app. }
  rewrite andb_true_r.
  change ("quorum(" ++ dec_N n ++ ")") with
    (String "q" (String "u" (String "o" (String "r" (String "u" (String "m"
      (String "(" (dec_N n ++ ")")))))))).
  assert (forall s, startswith "quorum(" (String "q" (String "u" (String "o" (String "r"
    (String "u" (String "m" (String "(" s))))))) = true) as ->.
  { intros s. unfold startswith. simpl. by destruct s. }
  cbn [drop_chars String.length]. f_equal. apply drop_last_app.
Qed.

Lemma quorum_policy_neq n s c s' :
  s = String c s' -> c <> "q"%char -> String.eqb (quorum_policy n) s = false.
Proof.
  intros -> Hc. apply String.eqb_neq. intros E. unfold quorum_policy in E.
  change ("quorum(" ++ dec_N n ++ ")") with (String "q" ("uorum(" ++ dec_N n ++ ")")) in E.
  congruence.
Qed.

Lemma is_satisfied_quorum n p :
  is_satisfied (quorum_policy n) p = quorum p (Z.of_N n).
Proof.
  unfold is_satisfied.
  rewrite (quorum_policy_neq n "all_success" "a" "ll_success") by done.
  rewrite (quorum_policy_neq n "all_terminal" "a" "ll_terminal") by done.
  by rewrite quorum_text_policy, py_int_dec_N.
Qed.
