(* ===== verification/Policies.v ===== *)
(** * Retry backoff, dependency readiness and idempotency keys

    [Retry] models src/symba/core/retry.py, [Readiness] src/symba/core/readiness.py
    and [Idempotency] src/symba/core/idempotency.py.  Python floats are
    rationals here: rounding is not modelled, the overflow of [**] is. *)

From S2P Require Import Prelude PyStr.
From Stdlib Require Import QArith Qround Qminmax Qabs Qpower Lqa.

Module Retry.

Record BackoffPolicy := mkBackoff {
  base_s : Q;
  factor : Q;
  cap_s : Q;
  jitter : bool
}.

(** The dataclass defaults. *)
Definition default_policy : BackoffPolicy := mkBackoff 1 2 300 true.

Inductive failure := NegativeAttempt | PowOverflow.

(** [factor**attempt] leaves the range of doubles. *)
Definition pow_overflows (q : Q) : bool := Qle_bool (inject_Z (2 ^ 1024)) (Qabs q).

Definition py_min (a b : Q) : Q := if Qle_bool a b then a else b.
Definition py_max (a b : Q) : Q := if Qle_bool b a then a else b.

Definition ceiling (p : BackoffPolicy) (attempt : Z) : result failure Q :=
  if (attempt <? 0)%Z then Raise NegativeAttempt
  else
    let pw := Qpower (factor p) attempt in
    if pow_overflows pw then Raise PowOverflow
    else Ok (py_min (cap_s p) (base_s p * pw)).

(** [u] is the draw of [random.random()], in [0, 1);
    [uniform(a, b)] is [a + (b - a) * u]. *)
Definition delay (p : BackoffPolicy) (attempt : Z) (u : Q) : result failure Q :=
  match ceiling p attempt with
  | Raise e => Raise e
  | Ok ceil => if negb (jitter p) then Ok ceil else Ok (0 + (ceil - 0) * u)
  end.

Definition should_retry (attempt max_attempts : Z) (retryable : bool) : bool :=
  if negb retryable then false else (attempt <? max_attempts)%Z.

Definition well_formed (p : BackoffPolicy) : Prop :=
  0 <= base_s p /\ 1 <= factor p /\ 0 <= cap_s p.

Lemma py_min_le_l a b : py_min a b <= a.
Proof. unfold py_min. destruct (Qle_bool a b) eqn:E; [lra|].
  destruct (Qlt_le_dec b a); [lra|]. apply Qle_bool_iff in q. congruence. Qed.

Lemma py_min_glb a b c : c <= a -> c <= b -> c <= py_min a b.
Proof. intros. unfold py_min. by destruct (Qle_bool a b). Qed.

Lemma py_min_mono a b c : b <= c -> py_min a b <= py_min a c.
Proof.
  intros H. apply py_min_glb; [apply py_min_le_l|].
  unfold py_min. destruct (Qle_bool a b) eqn:E; [apply Qle_bool_iff in E; lra | lra].
Qed.

Lemma py_max_ub a b : a <= py_max a b /\ b <= py_max a b.
Proof.
  unfold py_max. destruct (Qle_bool b a) eqn:E.
  - apply Qle_bool_iff in E. split; lra.
  - destruct (Qlt_le_dec a b); [split; lra|]. apply Qle_bool_iff in q. congruence.
Qed.

Lemma Qpower_ge_1 q n : 1 <= q -> (0 <= n)%Z -> 1 <= Qpower q n.
Proof.
  intros Hq Hn. pattern n. apply natlike_ind; [|intros k Hk IH|done]; [lra|].
  unfold Z.succ. rewrite Qpower_plus by lra.
  change (Qpower q 1) with q. nra.
Qed.

Lemma Qpower_mono q n m : 1 <= q -> (0 <= n <= m)%Z -> Qpower q n <= Qpower q m.
Proof.
  intros Hq [Hn Hm]. replace m with (n + (m - n))%Z by lia.
  rewrite Qpower_plus by lra.
  pose proof (Qpower_ge_1 q n Hq Hn). pose proof (Qpower_ge_1 q (m - n) Hq ltac:(lia)). nra.
Qed.

Lemma ceiling_bounds p n c : well_formed p -> ceiling p n = Ok c -> 0 <= c /\ c <= cap_s p.
Proof.
  intros (Hb & Hf & Hc). unfold ceiling. destruct (n <? 0)%Z eqn:En; [done|].
  destruct (pow_overflows _); [done|]. intros [= <-]. split; [|apply py_min_le_l].
  apply py_min_glb; [done|]. apply Z.ltb_ge in En.
  pose proof (Qpower_ge_1 _ _ Hf En). nra.
Qed.

Lemma delay_bounds p n u d :
  well_formed p -> 0 <= u -> u < 1 -> delay p n u = Ok d -> 0 <= d /\ d <= cap_s p.
Proof.
  intros Hw Hu Hu1. unfold delay. destruct (ceiling p n) as [c|] eqn:Hc; [|done].
  destruct (ceiling_bounds p n c Hw Hc). destruct (jitter p); simpl; intros [= <-]; [|done].
  split; nra.
Qed.

(** ** Timestamps

    A timestamp is an integer number of microseconds; [timedelta(seconds=q)]
    rounds half to even. *)
Definition round_half_even (q : Q) : Z :=
  let f := Qfloor q in
  let r := q - inject_Z f in
  if Qle_bool (1 # 2) r
  then if Qeq_bool r (1 # 2) && Z.even f then f else (f + 1)%Z
  else f.

Definition timedelta_us (seconds : Q) : Z := round_half_even (seconds * inject_Z 1000000).

Lemma round_half_even_nonneg q : 0 <= q -> (0 <= round_half_even q)%Z.
Proof.
  intros H. assert (0 <= Qfloor q)%Z.
  { change 0%Z with (Qfloor 0). by apply Qfloor_resp_le. }
  unfold round_half_even. destruct (Qle_bool _ _); [|done].
  destruct (_ && _); lia.
Qed.

Lemma timedelta_us_nonneg q : 0 <= q -> (0 <= timedelta_us q)%Z.
Proof. intros H. apply round_half_even_nonneg. change (inject_Z 1000000) with 1000000. lra. Qed.

End Retry.

Module Readiness.
Open Scope Z_scope.

(** [None] is [ValueError]. *)
Definition is_ready (remaining_deps run_at now : Z) : option bool :=
  if remaining_deps <? 0 then None else Some ((remaining_deps =? 0) && (run_at <=? now)).

Definition decrement (remaining_deps : Z) : option Z :=
  if remaining_deps <=? 0 then None else Some (remaining_deps - 1).

End Readiness.

Module Idempotency.
Open Scope string_scope.

Section WithHash.
(** [hashlib.sha256(s.encode("utf-8")).hexdigest()] *)
Variable sha256_hexdigest : string -> string.

Definition seed (tenant : string) (dedup_key : option string) (job_id : string) : string :=
  let k := match dedup_key with Some "" | None => job_id | Some k => k end in
  tenant ++ ":" ++ k.

Definition idempotency_key (tenant : string) (dedup_key : option string) (job_id : string)
  : string :=
  String.substring 0 32 (sha256_hexdigest (seed tenant dedup_key job_id)).
End WithHash.

(** [None] is [ValueError]. *)
Definition idempotency_key_attempt (base_key : string) (attempt : Z) : option string :=
  if (attempt <? 0)%Z then None else Some (base_key ++ "-a" ++ py_str_Z attempt).

End Idempotency.
