(* ===== verification/Versioning.v ===== *)
(** * Protocol version handshake (src/symba/core/versioning.py) *)

From S2P Require Import Prelude PyStr Errors.
From Stdlib Require Import Ascii String.
Open Scope string_scope.

(** src/symba/__init__.py *)
Definition PROTOCOL_VERSION : string := "0.1".

Definition proto_part (part : string) : option string :=
  if startswith "proto/" part then after_first "/" part else None.

Fixpoint first_some {A B} (f : A -> option B) (l : list A) : option B :=
  match l with
  | [] => None
  | x :: l' => match f x with Some y => Some y | None => first_some f l' end
  end.

Definition _extract_version_token (raw : string) : string :=
  let text := strip raw in
  let token :=
    match first_some proto_part (split_ws text) with
    | Some t => t
    | None => if String.eqb text "" then "" else List.last (split_ws text) ""
    end in
  match token with
  | String "v" rest => rest
  | _ => token
  end.

(** [None] is [ValueError]. *)
Definition parse_version (raw : string) : option (Z * Z) :=
  match split_on "." (_extract_version_token raw) with
  | major :: minor :: _ => a ← py_int major; b ← py_int minor; Some (a, b)
  | _ => None
  end.

Definition is_supported (client_version engine_version : string) : bool :=
  match parse_version client_version, parse_version engine_version with
  | Some (client_major, _), Some (engine_major, _) =>
      ((engine_major - 1 <=? client_major) && (client_major <=? engine_major))%Z
  | _, _ => false
  end.

(** [_supported_range]: the two majors it prints; [None] is [ValueError]. *)
Definition _supported_range (engine_version : string) : option (Z * Z) :=
  '(engine_major, _) ← parse_version engine_version;
  Some (Z.max 0 (engine_major - 1), engine_major).

(** The message text is left out; the context names both versions. *)
Definition check_supported (client_version engine_version : string) : result exn unit :=
  if is_supported client_version engine_version then Ok tt
  else match _supported_range engine_version with
       | None => Raise ValueError
       | Some _ =>
           Raise (err ProtocolVersionUnsupported
                    [("client_version", CtxStr client_version);
                     ("engine_version", CtxStr engine_version)])
       end.

(** ** Reading back a printed version *)

Fixpoint no_char (c : ascii) (s : string) : bool :=
  match s with
  | EmptyString => true
  | String x s' => negb (Ascii.eqb x c) && no_char c s'
  end.

Lemma rev_string_push c cur s : rev_string (String c cur) ++ s = rev_string cur ++ String c s.
Proof. rewrite rev_string_cons, append_assoc. done. Qed.

Lemma split_on_go_sep sep s r cur :
  no_char sep s = true ->
  split_on_go sep (s ++ String sep r) cur = (rev_string cur ++ s) :: split_on_go sep r "".
Proof.
  revert cur. induction s as [|x s IH]; intros cur H.
  - change ("" ++ String sep r) with (String sep r). cbn [split_on_go].
    rewrite Ascii.eqb_refl. by rewrite append_empty_r.
  - change (String x s ++ String sep r) with (String x (s ++ String sep r)).
    simpl in *. apply andb_true_iff in H as [Hx Hs]. apply negb_true_iff in Hx. rewrite Hx.
    rewrite IH by done. by rewrite rev_string_push.
Qed.

Lemma split_on_go_last sep s cur :
  no_char sep s = true -> split_on_go sep s cur = [rev_string cur ++ s].
Proof.
  revert cur. induction s as [|x s IH]; intros cur H.
  - cbn. by rewrite append_empty_r.
  - simpl in *. apply andb_true_iff in H as [Hx Hs]. apply negb_true_iff in Hx. rewrite Hx.
    rewrite IH by done. by rewrite rev_string_push.
Qed.

Lemma split_ws_go_no_space s cur :
  no_space s = true -> rev_string cur ++ s <> "" ->
  split_ws_go s cur = [rev_string cur ++ s].
Proof.
  revert cur. induction s as [|x s IH]; intros cur H Hne; simpl.
  - rewrite append_empty_r in *. destruct (String.eqb_spec cur "") as [->|]; [done|done].
  - simpl in H. apply andb_true_iff in H as [Hx Hs]. apply negb_true_iff in Hx. rewrite Hx.
    rewrite <- rev_string_push in *. by apply IH.
Qed.

Lemma no_char_dec_go c f n rest :
  is_digit c = false -> no_char c rest = true -> no_char c (dec_go f n rest) = true.
Proof.
  intros Hc. revert n rest. induction f as [|f IH]; intros n rest H; [done|].
  cbn [dec_go]. pose proof (N.mod_lt n 10 ltac:(lia)) as Hm.
  assert (no_char c (String (digit_char (n mod 10)) rest) = true) as H'.
  { cbn [no_char]. rewrite H, andb_true_r. apply negb_true_iff.
    destruct (Ascii.eqb_spec (digit_char (n mod 10)) c) as [E|]; [|done].
    pose proof (digit_char_is_digit _ Hm). congruence. }
  destruct (n / 10 =? 0)%N; [done | by apply IH].
Qed.

Lemma no_char_dec_N c n : is_digit c = false -> no_char c (dec_N n) = true.
Proof. intros. by apply no_char_dec_go. Qed.

Lemma startswith_head c s : c <> "p"%char -> startswith "proto/" (String c s) = false.
Proof.
  intros Hc. unfold startswith. cbn [String.prefix].
  destruct (Ascii.ascii_dec "p" c); [congruence|done].
Qed.

Definition print_version (major minor : N) : string := dec_N major ++ "." ++ dec_N minor.

Lemma dec_N_cons n : exists d s, (d < 10)%N /\ dec_N n = String (digit_char d) s.
Proof. apply dec_go_head. lia. Qed.

Lemma extract_plain a b : _extract_version_token (print_version a b) = print_version a b.
Proof.
  unfold _extract_version_token.
  assert (no_space (print_version a b) = true) as Hns.
  { unfold print_version. by rewrite !no_space_app, !dec_N_no_space. }
  rewrite (strip_no_space _ Hns).
  destruct (dec_N_cons a) as (d & s & Hd & E).
  assert (print_version a b = String (digit_char d) (s ++ "." ++ dec_N b)) as Ep.
  { unfold print_version. by rewrite E. }
  assert (split_ws (print_version a b) = [print_version a b]) as Hsw.
  { unfold split_ws. rewrite split_ws_go_no_space; [done|done|]. rewrite Ep. done. }
  rewrite Hsw. rewrite Ep at 1 2. cbn [first_some].
  assert (digit_char d <> "p"%char /\ digit_char d <> "v"%char) as [Hp Hv].
  { split; intros E'; apply (f_equal code) in E'; rewrite digit_char_code in E' by done.
    - change (code "p") with 112%N in E'. lia.
    - change (code "v") with 118%N in E'. lia. }
  assert (proto_part (print_version a b) = None) as Hpp.
  { unfold proto_part. rewrite Ep. by rewrite startswith_head. }
  rewrite <- Ep, Hpp.
  assert (String.eqb (print_version a b) "" = false) as -> by (by rewrite Ep).
  simpl List.last. rewrite Ep.
  destruct (digit_char d) as [[] [] [] [] [] [] [] []]; try done.
Qed.

Lemma parse_print_version a b :
  parse_version (print_version a b) = Some (Z.of_N a, Z.of_N b).
Proof.
  unfold parse_version. rewrite extract_plain. unfold split_on, print_version.
  change ("." ++ dec_N b) with (String "." (dec_N b)).
  rewrite split_on_go_sep by (by apply no_char_dec_N).
  rewrite split_on_go_last by (by apply no_char_dec_N).
  change (rev_string "" ++ dec_N a) with (dec_N a).
  change (rev_string "" ++ dec_N b) with (dec_N b).
  by rewrite !py_int_dec_N.
Qed.
