(* ===== verification/Json.v ===== *)
(** * JSON values and [json.dumps]

    Payloads, results, checkpoints and error entries are JSON.  [dumps] follows
    CPython's [json.dumps] with its default separators and [ensure_ascii]; the
    size caps of the engine are computed from its length in bytes.  [jsonb] is the
    value a JSONB column keeps of it. *)

From S2P Require Import Prelude PyStr.
From Stdlib Require Import Ascii String QArith.
Open Scope string_scope.

Inductive float_value := Finite (q : Q) | PosInf | NegInf | NaN.

(** A Python float: its value and its [repr]. *)
Record pyfloat := mkFloat { fl_value : float_value; fl_repr : string }.

Inductive json :=
| JNull
| JBool (b : bool)
| JInt (z : Z)
| JFloat (f : pyfloat)
| JStr (s : string)
| JArr (l : list json)
| JObj (l : list (string * json)).

(** A Python dict with string keys, in insertion order. *)
Abbreviation dict := (list (string * json)).

Fixpoint dict_get (k : string) (d : dict) : option json :=
  match d with
  | [] => None
  | (k', v) :: d' => if String.eqb k k' then Some v else dict_get k d'
  end.

(** [d[k] = v]: an existing key keeps its position. *)
Fixpoint dict_set (k : string) (v : json) (d : dict) : dict :=
  match d with
  | [] => [(k, v)]
  | (k', v') :: d' => if String.eqb k k' then (k, v) :: d' else (k', v') :: dict_set k v d'
  end.

Definition escape_u (c : ascii) : string :=
  "\u00" ++ String (hex_digit (code c / 16)) (String (hex_digit (code c mod 16)) "").

(** [ensure_ascii] escapes everything outside the printable ASCII range. *)
Definition escape_char (c : ascii) : string :=
  let n := code c in
  if (n =? 34)%N then "\" ++ String c ""
  else if (n =? 92)%N then "\\"
  else if (n =? 10)%N then "\n"
  else if (n =? 13)%N then "\r"
  else if (n =? 9)%N then "\t"
  else if (n =? 12)%N then "\f"
  else if (n =? 8)%N then "\b"
  else if ((32 <=? n) && (n <=? 126))%N then String c ""
  else escape_u c.

Definition quote : string := String (ascii_of_N 34) "".

Fixpoint escape (s : string) : string :=
  match s with
  | EmptyString => EmptyString
  | String c s' => escape_char c ++ escape s'
  end.

Definition dumps_str (s : string) : string := quote ++ escape s ++ quote.

Definition dumps_float (f : pyfloat) : string :=
  match fl_value f with
  | Finite _ => fl_repr f
  | PosInf => "Infinity"
  | NegInf => "-Infinity"
  | NaN => "NaN"
  end.

Fixpoint dumps (j : json) : string :=
  match j with
  | JNull => "null"
  | JBool true => "true"
  | JBool false => "false"
  | JInt z => py_str_Z z
  | JFloat f => dumps_float f
  | JStr s => dumps_str s
  | JArr l => "[" ++ String.concat ", " (map dumps l) ++ "]"
  | JObj l =>
      "{" ++ String.concat ", " (map (fun '(k, v) => dumps_str k ++ ": " ++ dumps v) l) ++ "}"
  end.

(** [repr] and [str] of a value read from JSON *)
Fixpoint repr_json (j : json) : string :=
  match j with
  | JNull => "None"
  | JBool b => if b then "True" else "False"
  | JInt z => py_str_Z z
  | JFloat f => fl_repr f
  | JStr s => py_repr s
  | JArr l => "[" ++ String.concat ", " (map repr_json l) ++ "]"
  | JObj l => "{" ++ String.concat ", " (map (fun kv => py_repr (fst kv) ++ ": " ++ repr_json (snd kv)) l) ++ "}"
  end.

Definition str_json (j : json) : string := match j with JStr s => s | _ => repr_json j end.

(** [len(json.dumps(x).encode())]: the output is ASCII, one byte a character. *)
Definition json_size (j : json) : Z := Z.of_nat (String.length (dumps j)).

Lemma dict_get_set_eq k v d : dict_get k (dict_set k v d) = Some v.
Proof.
  induction d as [|[k' v'] d IH]; simpl; [by rewrite String.eqb_refl|].
  destruct (String.eqb k k') eqn:E; simpl; [by rewrite String.eqb_refl | by rewrite E].
Qed.

Lemma dict_get_set_ne k k' v d : k <> k' -> dict_get k' (dict_set k v d) = dict_get k' d.
Proof.
  intros Hne. induction d as [|[k0 v0] d IH]; simpl.
  - by destruct (String.eqb_spec k' k); [congruence|].
  - destruct (String.eqb_spec k k0) as [->|Hk]; simpl.
    + by destruct (String.eqb_spec k' k0); [congruence|].
    + by rewrite IH.
Qed.

(** ** JSONB

    What a column of type JSONB makes of the text the driver sends ([json.dumps]
    of the value).  NaN and the infinities are no JSON, and a text with U+0000 is
    refused.  The members of an object are kept by length of the key and then by
    its bytes; numbers are decimals, so a float printed with a positive exponent
    comes back as an integer and a zero has no sign. *)
Fixpoint has_nul (s : string) : bool :=
  match s with EmptyString => false | String c s' => (code c =? 0)%N || has_nul s' end.

Fixpoint storable (j : json) : bool :=
  match j with
  | JFloat f => match fl_value f with Finite _ => true | _ => false end
  | JStr s => negb (has_nul s)
  | JArr l => forallb storable l
  | JObj l => forallb (fun kv => negb (has_nul (fst kv)) && storable (snd kv)) l
  | _ => true
  end.

Definition jsonb_key_le {A} (a b : string * A) : bool :=
  let x := utf8_encode (fst a) in
  let y := utf8_encode (fst b) in
  if Nat.eqb (String.length x) (String.length y) then String.leb x y
  else Nat.leb (String.length x) (String.length y).

Definition jsonb_float (f : pyfloat) : json :=
  match fl_value f with
  | Finite q =>
      if Qle_bool (inject_Z (10 ^ 16)) q || Qle_bool q (- inject_Z (10 ^ 16)) then JInt (Z.quot (Qnum q) (Zpos (Qden q)))
      else if Qeq_bool q 0 then JFloat (mkFloat (Finite 0) "0.0")
      else JFloat f
  | _ => JFloat f
  end.

Fixpoint jsonb_value (j : json) : json :=
  match j with
  | JFloat f => jsonb_float f
  | JArr l => JArr (map jsonb_value l)
  | JObj l => JObj (order_by jsonb_key_le (map (fun kv => (fst kv, jsonb_value (snd kv))) l))
  | _ => j
  end.

(** The stored value; None is refused by the server. *)
Definition jsonb (j : json) : option json := if storable j then Some (jsonb_value j) else None.

Definition jsonb_members (d : dict) : dict :=
  order_by jsonb_key_le (map (fun kv => (fst kv, jsonb_value (snd kv))) d).

Definition jsonb_dict (d : dict) : option dict := if storable (JObj d) then Some (jsonb_members d) else None.

Definition jsonb_opt (o : option dict) : option (option dict) :=
  match o with Some d => Some <$> jsonb_dict d | None => Some None end.

Example jsonb_order :
  jsonb_dict [("echoed", JObj [("bb", JInt 1); ("a", JNull)]); ("by", JStr "w")]
  = Some [("by", JStr "w"); ("echoed", JObj [("a", JNull); ("bb", JInt 1)])].
Proof. vm_compute. reflexivity. Qed.
Example jsonb_refuses : map jsonb [JFloat (mkFloat NaN "nan"); JArr [JStr (String Ascii.zero "")]] = [None; None].
Proof. vm_compute. reflexivity. Qed.
