(* ===== verification/Records.v ===== *)
(** * Records of the engine

    [SubmitSpec], [TerminalRow] and friends of src/symba/db/records.py, and one
    record per table of database/symba/V*.sql.  Identifiers ([uuid]) and lease
    tokens are names drawn from one supply ([db_uuid_seq]), which stands for
    [uuidv7()] and [gen_random_uuid()]: every draw is new.  Timestamps are
    integer microseconds.  A job row is split into the columns no statement
    updates after the INSERT ([JobCols]) and the columns of its life cycle. *)

From S2P Require Import Prelude Json States.
Open Scope string_scope.
Open Scope Z_scope.
From Stdlib Require Import QArith.

Abbreviation uuid := N.
Abbreviation time := Z.

(** One job to insert (records.SubmitSpec); [s_on_failure] is the SubmitSpec-shaped dict of the failure hook. *)
Inductive SubmitSpec := mkSpec {
  s_task_name : string;
  s_payload : dict;
  s_tenant : string;
  s_pipeline : option string;
  s_stage : option string;
  s_ctx_id : option string;
  s_state : JobState;
  s_priority : Z;
  s_group_key : option string;
  s_max_concurrent_per_group : option Z;
  s_dedup_key : option string;
  s_runs_on : list string;
  s_rate_class : option string;
  s_on_success : option string;
  s_chain_tail : list string;
  s_on_failure : option SubmitSpec;
  s_remaining_deps : Z;
  s_depends_on : list (uuid * option string);
  s_max_attempts : Z;
  s_backoff : option dict;
  s_timeout_s : Z;
  s_run_at : option time;
  s_lease_ttl_s : Z;
  s_parent_gate_id : option uuid
}.

(** [SubmitSpec(task_name=..., payload=...)] with the dataclass defaults. *)
Definition default_spec (task_name : string) (payload : dict) : SubmitSpec :=
  mkSpec task_name payload "default" None None None SUBMITTED 0 None None None [] None None []
    None 0 [] 5 None 600 None 60 None.

Definition set_s_payload (v : dict) (r : SubmitSpec) : SubmitSpec :=
  mkSpec (s_task_name r) v (s_tenant r) (s_pipeline r) (s_stage r) (s_ctx_id r) (s_state r)
    (s_priority r) (s_group_key r) (s_max_concurrent_per_group r) (s_dedup_key r) (s_runs_on r)
    (s_rate_class r) (s_on_success r) (s_chain_tail r) (s_on_failure r) (s_remaining_deps r)
    (s_depends_on r) (s_max_attempts r) (s_backoff r) (s_timeout_s r) (s_run_at r)
    (s_lease_ttl_s r) (s_parent_gate_id r).
Definition set_s_tenant (v : string) (r : SubmitSpec) : SubmitSpec :=
  mkSpec (s_task_name r) (s_payload r) v (s_pipeline r) (s_stage r) (s_ctx_id r) (s_state r)
    (s_priority r) (s_group_key r) (s_max_concurrent_per_group r) (s_dedup_key r) (s_runs_on r)
    (s_rate_class r) (s_on_success r) (s_chain_tail r) (s_on_failure r) (s_remaining_deps r)
    (s_depends_on r) (s_max_attempts r) (s_backoff r) (s_timeout_s r) (s_run_at r)
    (s_lease_ttl_s r) (s_parent_gate_id r).
Definition set_s_ctx_id (v : option string) (r : SubmitSpec) : SubmitSpec :=
  mkSpec (s_task_name r) (s_payload r) (s_tenant r) (s_pipeline r) (s_stage r) v (s_state r)
    (s_priority r) (s_group_key r) (s_max_concurrent_per_group r) (s_dedup_key r) (s_runs_on r)
    (s_rate_class r) (s_on_success r) (s_chain_tail r) (s_on_failure r) (s_remaining_deps r)
    (s_depends_on r) (s_max_attempts r) (s_backoff r) (s_timeout_s r) (s_run_at r)
    (s_lease_ttl_s r) (s_parent_gate_id r).
Definition set_s_state (v : JobState) (r : SubmitSpec) : SubmitSpec :=
  mkSpec (s_task_name r) (s_payload r) (s_tenant r) (s_pipeline r) (s_stage r) (s_ctx_id r) v
    (s_priority r) (s_group_key r) (s_max_concurrent_per_group r) (s_dedup_key r) (s_runs_on r)
    (s_rate_class r) (s_on_success r) (s_chain_tail r) (s_on_failure r) (s_remaining_deps r)
    (s_depends_on r) (s_max_attempts r) (s_backoff r) (s_timeout_s r) (s_run_at r)
    (s_lease_ttl_s r) (s_parent_gate_id r).
Definition set_s_group_key (v : option string) (r : SubmitSpec) : SubmitSpec :=
  mkSpec (s_task_name r) (s_payload r) (s_tenant r) (s_pipeline r) (s_stage r) (s_ctx_id r)
    (s_state r) (s_priority r) v (s_max_concurrent_per_group r) (s_dedup_key r) (s_runs_on r)
    (s_rate_class r) (s_on_success r) (s_chain_tail r) (s_on_failure r) (s_remaining_deps r)
    (s_depends_on r) (s_max_attempts r) (s_backoff r) (s_timeout_s r) (s_run_at r)
    (s_lease_ttl_s r) (s_parent_gate_id r).
Definition set_s_remaining_deps (v : Z) (r : SubmitSpec) : SubmitSpec :=
  mkSpec (s_task_name r) (s_payload r) (s_tenant r) (s_pipeline r) (s_stage r) (s_ctx_id r)
    (s_state r) (s_priority r) (s_group_key r) (s_max_concurrent_per_group r) (s_dedup_key r)
    (s_runs_on r) (s_rate_class r) (s_on_success r) (s_chain_tail r) (s_on_failure r) v
    (s_depends_on r) (s_max_attempts r) (s_backoff r) (s_timeout_s r) (s_run_at r)
    (s_lease_ttl_s r) (s_parent_gate_id r).
Definition set_s_parent_gate_id (v : option uuid) (r : SubmitSpec) : SubmitSpec :=
  mkSpec (s_task_name r) (s_payload r) (s_tenant r) (s_pipeline r) (s_stage r) (s_ctx_id r)
    (s_state r) (s_priority r) (s_group_key r) (s_max_concurrent_per_group r) (s_dedup_key r)
    (s_runs_on r) (s_rate_class r) (s_on_success r) (s_chain_tail r) (s_on_failure r)
    (s_remaining_deps r) (s_depends_on r) (s_max_attempts r) (s_backoff r) (s_timeout_s r)
    (s_run_at r) (s_lease_ttl_s r) v.

(** The columns of [jobs] written by INSERT only. *)
Record JobCols := mkCols {
  c_id : uuid;
  c_task_name : string;
  c_pipeline : option string;
  c_stage : option string;
  c_tenant : string;
  c_ctx_id : option string;
  c_priority : Z;
  c_group_key : option string;
  c_max_concurrent_per_group : option Z;
  c_dedup_key : option string;
  c_runs_on : list string;
  c_rate_class : option string;
  c_payload : dict;
  c_parent_gate_id : option uuid;
  c_on_success : option string;
  c_chain_tail : list string;
  c_on_failure : option SubmitSpec;
  c_max_attempts : Z;
  c_backoff : option dict;
  c_timeout_s : Z;
  c_lease_ttl_s : Z;
  c_resubmitted_from : option uuid;
  c_created_at : time
}.

(** A row of [jobs]. *)
Record Job := mkJob {
  j_cols :> JobCols;
  j_state : JobState;
  j_wait_key : option string;
  j_wait_expires_at : option time;
  j_event_payload : option dict;
  j_result : option dict;
  j_remaining_deps : Z;
  j_attempt : Z;
  j_run_at : time;
  j_lease_token : option uuid;
  j_claimed_by : option string;
  j_lease_expires_at : option time;
  j_last_heartbeat_at : option time;
  j_cancel_requested : bool;
  j_error_history : list json;
  j_started_at : option time
}.

Definition set_j_state (v : JobState) (r : Job) : Job :=
  mkJob (j_cols r) v (j_wait_key r) (j_wait_expires_at r) (j_event_payload r) (j_result r)
    (j_remaining_deps r) (j_attempt r) (j_run_at r) (j_lease_token r) (j_claimed_by r)
    (j_lease_expires_at r) (j_last_heartbeat_at r) (j_cancel_requested r) (j_error_history r)
    (j_started_at r).
Definition set_j_wait_key (v : option string) (r : Job) : Job :=
  mkJob (j_cols r) (j_state r) v (j_wait_expires_at r) (j_event_payload r) (j_result r)
    (j_remaining_deps r) (j_attempt r) (j_run_at r) (j_lease_token r) (j_claimed_by r)
    (j_lease_expires_at r) (j_last_heartbeat_at r) (j_cancel_requested r) (j_error_history r)
    (j_started_at r).
Definition set_j_wait_expires_at (v : option time) (r : Job) : Job :=
  mkJob (j_cols r) (j_state r) (j_wait_key r) v (j_event_payload r) (j_result r)
    (j_remaining_deps r) (j_attempt r) (j_run_at r) (j_lease_token r) (j_claimed_by r)
    (j_lease_expires_at r) (j_last_heartbeat_at r) (j_cancel_requested r) (j_error_history r)
    (j_started_at r).
Definition set_j_event_payload (v : option dict) (r : Job) : Job :=
  mkJob (j_cols r) (j_state r) (j_wait_key r) (j_wait_expires_at r) v (j_result r)
    (j_remaining_deps r) (j_attempt r) (j_run_at r) (j_lease_token r) (j_claimed_by r)
    (j_lease_expires_at r) (j_last_heartbeat_at r) (j_cancel_requested r) (j_error_history r)
    (j_started_at r).
Definition set_j_result (v : option dict) (r : Job) : Job :=
  mkJob (j_cols r) (j_state r) (j_wait_key r) (j_wait_expires_at r) (j_event_payload r) v
    (j_remaining_deps r) (j_attempt r) (j_run_at r) (j_lease_token r) (j_claimed_by r)
    (j_lease_expires_at r) (j_last_heartbeat_at r) (j_cancel_requested r) (j_error_history r)
    (j_started_at r).
Definition set_j_remaining_deps (v : Z) (r : Job) : Job :=
  mkJob (j_cols r) (j_state r) (j_wait_key r) (j_wait_expires_at r) (j_event_payload r)
    (j_result r) v (j_attempt r) (j_run_at r) (j_lease_token r) (j_claimed_by r)
    (j_lease_expires_at r) (j_last_heartbeat_at r) (j_cancel_requested r) (j_error_history r)
    (j_started_at r).
Definition set_j_attempt (v : Z) (r : Job) : Job :=
  mkJob (j_cols r) (j_state r) (j_wait_key r) (j_wait_expires_at r) (j_event_payload r)
    (j_result r) (j_remaining_deps r) v (j_run_at r) (j_lease_token r) (j_claimed_by r)
    (j_lease_expires_at r) (j_last_heartbeat_at r) (j_cancel_requested r) (j_error_history r)
    (j_started_at r).
Definition set_j_run_at (v : time) (r : Job) : Job :=
  mkJob (j_cols r) (j_state r) (j_wait_key r) (j_wait_expires_at r) (j_event_payload r)
    (j_result r) (j_remaining_deps r) (j_attempt r) v (j_lease_token r) (j_claimed_by r)
    (j_lease_expires_at r) (j_last_heartbeat_at r) (j_cancel_requested r) (j_error_history r)
    (j_started_at r).
Definition set_j_lease_token (v : option uuid) (r : Job) : Job :=
  mkJob (j_cols r) (j_state r) (j_wait_key r) (j_wait_expires_at r) (j_event_payload r)
    (j_result r) (j_remaining_deps r) (j_attempt r) (j_run_at r) v (j_claimed_by r)
    (j_lease_expires_at r) (j_last_heartbeat_at r) (j_cancel_requested r) (j_error_history r)
    (j_started_at r).
Definition set_j_claimed_by (v : option string) (r : Job) : Job :=
  mkJob (j_cols r) (j_state r) (j_wait_key r) (j_wait_expires_at r) (j_event_payload r)
    (j_result r) (j_remaining_deps r) (j_attempt r) (j_run_at r) (j_lease_token r) v
    (j_lease_expires_at r) (j_last_heartbeat_at r) (j_cancel_requested r) (j_error_history r)
    (j_started_at r).
Definition set_j_lease_expires_at (v : option time) (r : Job) : Job :=
  mkJob (j_cols r) (j_state r) (j_wait_key r) (j_wait_expires_at r) (j_event_payload r)
    (j_result r) (j_remaining_deps r) (j_attempt r) (j_run_at r) (j_lease_token r)
    (j_claimed_by r) v (j_last_heartbeat_at r) (j_cancel_requested r) (j_error_history r)
    (j_started_at r).
Definition set_j_last_heartbeat_at (v : option time) (r : Job) : Job :=
  mkJob (j_cols r) (j_state r) (j_wait_key r) (j_wait_expires_at r) (j_event_payload r)
    (j_result r) (j_remaining_deps r) (j_attempt r) (j_run_at r) (j_lease_token r)
    (j_claimed_by r) (j_lease_expires_at r) v (j_cancel_requested r) (j_error_history r)
    (j_started_at r).
Definition set_j_cancel_requested (v : bool) (r : Job) : Job :=
  mkJob (j_cols r) (j_state r) (j_wait_key r) (j_wait_expires_at r) (j_event_payload r)
    (j_result r) (j_remaining_deps r) (j_attempt r) (j_run_at r) (j_lease_token r)
    (j_claimed_by r) (j_lease_expires_at r) (j_last_heartbeat_at r) v (j_error_history r)
    (j_started_at r).
Definition set_j_error_history (v : list json) (r : Job) : Job :=
  mkJob (j_cols r) (j_state r) (j_wait_key r) (j_wait_expires_at r) (j_event_payload r)
    (j_result r) (j_remaining_deps r) (j_attempt r) (j_run_at r) (j_lease_token r)
    (j_claimed_by r) (j_lease_expires_at r) (j_last_heartbeat_at r) (j_cancel_requested r) v
    (j_started_at r).
Definition set_j_started_at (v : option time) (r : Job) : Job :=
  mkJob (j_cols r) (j_state r) (j_wait_key r) (j_wait_expires_at r) (j_event_payload r)
    (j_result r) (j_remaining_deps r) (j_attempt r) (j_run_at r) (j_lease_token r)
    (j_claimed_by r) (j_lease_expires_at r) (j_last_heartbeat_at r) (j_cancel_requested r)
    (j_error_history r) v.

(** A row of [jobs_archive]. *)
Record ArchivedJob := mkArchived {
  a_job : Job;
  a_finished_at : time;
  a_final_state : JobState
}.

(** The post-archive projection (records.TerminalRow). *)
Record TerminalRow := mkTerminal {
  t_id : uuid;
  t_tenant : string;
  t_ctx_id : option string;
  t_task_name : string;
  t_group_key : option string;
  t_max_concurrent_per_group : option Z;
  t_on_success : option string;
  t_chain_tail : list string;
  t_on_failure : option SubmitSpec;
  t_parent_gate_id : option uuid;
  t_prior_state : option JobState;
  t_pipeline : option string;
  t_stage : option string;
  t_priority : Z;
  t_runs_on : list string;
  t_rate_class : option string;
  t_lease_ttl_s : Z;
  t_created_at : option time;
  t_started_at : option time;
  t_finished_at : option time
}.

(** A row of [gates]. *)
Record Gate := mkGate {
  g_id : uuid;
  g_tenant : string;
  g_ctx_id : option string;
  g_policy : string;
  g_expected_children : Z;
  g_completed_children : Z;
  g_succeeded_children : Z;
  g_failed_children : Z;
  g_quorum_n : option Z;
  g_on_complete : SubmitSpec;
  g_fired_at : option time;
  g_created_at : time
}.

(** A row of [job_events]. *)
Record Event := mkEvent {
  ev_id : Z;
  ev_job_id : uuid;
  ev_tenant : string;
  ev_ctx_id : option string;
  ev_event : string;
  ev_at : time;
  ev_detail : option dict
}.

(** A row of [job_dependencies]. *)
Record Dependency := mkDep {
  d_job_id : uuid;
  d_depends_on_job_id : uuid;
  d_alias : option string
}.

(** A row of [signals]. *)
Record Signal := mkSignal {
  sg_id : uuid;
  sg_tenant : string;
  sg_wait_key : string;
  sg_payload : option dict;
  sg_signaled_by : option string;
  sg_created_at : time;
  sg_consumed_at : option time
}.

Definition set_sg_consumed_at (v : option time) (r : Signal) : Signal :=
  mkSignal (sg_id r) (sg_tenant r) (sg_wait_key r) (sg_payload r) (sg_signaled_by r)
    (sg_created_at r) v.

(** A row of [workers]. *)
Record Worker := mkWorker {
  w_worker_id : string;
  w_tags : list string;
  w_registered_tasks : list string;
  w_labels : list (string * string);
  w_slots : Z;
  w_slots_busy : Z;
  w_last_seen : time;
  w_stale : bool
}.

Definition set_w_stale (v : bool) (r : Worker) : Worker :=
  mkWorker (w_worker_id r) (w_tags r) (w_registered_tasks r) (w_labels r) (w_slots r)
    (w_slots_busy r) (w_last_seen r) v.

(** A row of [cron_schedules]. *)
Record CronSchedule := mkCron {
  cr_schedule_id : string;
  cr_cron_expr : string;
  cr_task_name : string;
  cr_payload : dict;
  cr_tenant : string;
  cr_enabled : bool;
  cr_last_fire : option time;
  cr_next_fire : option time;
  cr_created_at : time
}.

(** A row of [rate_classes], keyed by its name. *)
Record RateClass := mkRate {
  rc_capacity : Q;
  rc_refill_per_s : Q;
  rc_tokens : Q;
  rc_refilled_at : time;
  rc_updated_at : time
}.

(** A row of [checkpoints], keyed by its job id. *)
Record Checkpoint := mkCheckpoint {
  ck_tenant : string;
  ck_data : dict;
  ck_updated_at : time
}.

(** The database: every table, the transaction clock and the name supplies. *)
Record DB := mkDB {
  db_jobs : list Job;
  db_archive : list ArchivedJob;
  db_events : list Event;
  db_deps : list Dependency;
  db_gates : list Gate;
  db_group_running : gmap (string * string * string) Z;
  db_checkpoints : gmap uuid Checkpoint;
  db_workers : list Worker;
  db_signals : list Signal;
  db_cron_schedules : list CronSchedule;
  db_rate_classes : gmap string RateClass;
  db_now : time;
  db_uuid_seq : uuid;
  db_event_seq : Z
}.

Definition set_db_jobs (v : list Job) (d : DB) : DB :=
  mkDB v (db_archive d) (db_events d) (db_deps d) (db_gates d) (db_group_running d)
    (db_checkpoints d) (db_workers d) (db_signals d) (db_cron_schedules d) (db_rate_classes d)
    (db_now d) (db_uuid_seq d) (db_event_seq d).
Definition set_db_archive (v : list ArchivedJob) (d : DB) : DB :=
  mkDB (db_jobs d) v (db_events d) (db_deps d) (db_gates d) (db_group_running d)
    (db_checkpoints d) (db_workers d) (db_signals d) (db_cron_schedules d) (db_rate_classes d)
    (db_now d) (db_uuid_seq d) (db_event_seq d).
Definition set_db_events (v : list Event) (d : DB) : DB :=
  mkDB (db_jobs d) (db_archive d) v (db_deps d) (db_gates d) (db_group_running d)
    (db_checkpoints d) (db_workers d) (db_signals d) (db_cron_schedules d) (db_rate_classes d)
    (db_now d) (db_uuid_seq d) (db_event_seq d).
Definition set_db_deps (v : list Dependency) (d : DB) : DB :=
  mkDB (db_jobs d) (db_archive d) (db_events d) v (db_gates d) (db_group_running d)
    (db_checkpoints d) (db_workers d) (db_signals d) (db_cron_schedules d) (db_rate_classes d)
    (db_now d) (db_uuid_seq d) (db_event_seq d).
Definition set_db_gates (v : list Gate) (d : DB) : DB :=
  mkDB (db_jobs d) (db_archive d) (db_events d) (db_deps d) v (db_group_running d)
    (db_checkpoints d) (db_workers d) (db_signals d) (db_cron_schedules d) (db_rate_classes d)
    (db_now d) (db_uuid_seq d) (db_event_seq d).
Definition set_db_group_running (v : gmap (string * string * string) Z) (d : DB) : DB :=
  mkDB (db_jobs d) (db_archive d) (db_events d) (db_deps d) (db_gates d) v (db_checkpoints d)
    (db_workers d) (db_signals d) (db_cron_schedules d) (db_rate_classes d) (db_now d)
    (db_uuid_seq d) (db_event_seq d).
Definition set_db_checkpoints (v : gmap uuid Checkpoint) (d : DB) : DB :=
  mkDB (db_jobs d) (db_archive d) (db_events d) (db_deps d) (db_gates d) (db_group_running d) v
    (db_workers d) (db_signals d) (db_cron_schedules d) (db_rate_classes d) (db_now d)
    (db_uuid_seq d) (db_event_seq d).
Definition set_db_workers (v : list Worker) (d : DB) : DB :=
  mkDB (db_jobs d) (db_archive d) (db_events d) (db_deps d) (db_gates d) (db_group_running d)
    (db_checkpoints d) v (db_signals d) (db_cron_schedules d) (db_rate_classes d) (db_now d)
    (db_uuid_seq d) (db_event_seq d).
Definition set_db_signals (v : list Signal) (d : DB) : DB :=
  mkDB (db_jobs d) (db_archive d) (db_events d) (db_deps d) (db_gates d) (db_group_running d)
    (db_checkpoints d) (db_workers d) v (db_cron_schedules d) (db_rate_classes d) (db_now d)
    (db_uuid_seq d) (db_event_seq d).
Definition set_db_cron_schedules (v : list CronSchedule) (d : DB) : DB :=
  mkDB (db_jobs d) (db_archive d) (db_events d) (db_deps d) (db_gates d) (db_group_running d)
    (db_checkpoints d) (db_workers d) (db_signals d) v (db_rate_classes d) (db_now d)
    (db_uuid_seq d) (db_event_seq d).
Definition set_db_rate_classes (v : gmap string RateClass) (d : DB) : DB :=
  mkDB (db_jobs d) (db_archive d) (db_events d) (db_deps d) (db_gates d) (db_group_running d)
    (db_checkpoints d) (db_workers d) (db_signals d) (db_cron_schedules d) v (db_now d)
    (db_uuid_seq d) (db_event_seq d).
Definition set_db_now (v : time) (d : DB) : DB :=
  mkDB (db_jobs d) (db_archive d) (db_events d) (db_deps d) (db_gates d) (db_group_running d)
    (db_checkpoints d) (db_workers d) (db_signals d) (db_cron_schedules d) (db_rate_classes d) v
    (db_uuid_seq d) (db_event_seq d).
Definition set_db_uuid_seq (v : uuid) (d : DB) : DB :=
  mkDB (db_jobs d) (db_archive d) (db_events d) (db_deps d) (db_gates d) (db_group_running d)
    (db_checkpoints d) (db_workers d) (db_signals d) (db_cron_schedules d) (db_rate_classes d)
    (db_now d) v (db_event_seq d).
Definition set_db_event_seq (v : Z) (d : DB) : DB :=
  mkDB (db_jobs d) (db_archive d) (db_events d) (db_deps d) (db_gates d) (db_group_running d)
    (db_checkpoints d) (db_workers d) (db_signals d) (db_cron_schedules d) (db_rate_classes d)
    (db_now d) (db_uuid_seq d) v.
