(* ===== verification/Database.v ===== *)
(** * The database session

    A repository function runs against the database in the monad [DBM].  A
    transaction that raises is rolled back: every table returns to its state at
    [BEGIN]; the identity sequence of [job_events] and the supply of fresh
    names are not transactional and keep what they handed out.

    Transactions are serialised here: one runs from its first to its last
    statement on the tables it started with.  What a concurrent transaction can
    still do to a statement is lock rows away from it ([FOR UPDATE SKIP
    LOCKED]); that is the argument [locks] of the statements that skip. *)

From S2P Require Import Prelude PyStr Errors States Json Records.
Open Scope Z_scope.

Definition DBM (A : Type) : Type := M exn DB A.

(** What survives a rollback of [db'] to [db]. *)
Definition rollback (db db' : DB) : DB :=
  set_db_uuid_seq (db_uuid_seq db') (set_db_event_seq (db_event_seq db') db).

(** [async with conn.transaction(): m] *)
Definition transaction {A} (m : DBM A) : DBM A := fun db =>
  match m db with
  | (db', Ok a) => (db', Ok a)
  | (db', Raise e) => (rollback db db', Raise e)
  end.

(** One SQL statement that cannot fail. *)
Definition stmt {A} (f : DB -> DB * A) : DBM A := fun db => let (db', a) := f db in (db', Ok a).

(** One SQL statement that only reads. *)
Definition query {A} (f : DB -> A) : DBM A := gets f.

(** What a call meets in the database: the rows other transactions hold locked
    while a skipping statement runs, and whether the contained re-stamp of
    [claimed_by] after a claim fails. *)
Record locks := mkLocks {
  locked_job : uuid -> bool;
  locked_group : string * string * string -> bool;
  locked_signal : uuid -> bool;
  restamp_fails : list (uuid * string * uuid) -> bool
}.

Definition no_locks : locks := mkLocks (fun _ => false) (fun _ => false) (fun _ => false) (fun _ => false).

(** [make_interval(secs => n)] in microseconds. *)
Definition secs (n : Z) : Z := n * 1000000.

(** Column widths of the schema. *)
Definition int2 (z : Z) : bool := (-32768 <=? z) && (z <=? 32767).
Definition int4 (z : Z) : bool := (-2147483648 <=? z) && (z <=? 2147483647).

(** The text of an identifier in JSON; [str(uuid)] is injective on identifiers. *)
Definition uuid_str (i : uuid) : string := dec_N i.

(** Comparisons with a nullable timestamp. *)
Definition sql_lt (a : option time) (b : time) : bool :=
  match a with Some x => x <? b | None => false end.

(** [a IS NOT DISTINCT FROM b] *)
Definition not_distinct (a b : option time) : bool :=
  match a, b with
  | Some x, Some y => x =? y
  | None, None => true
  | _, _ => false
  end.

(** [ASC] and [DESC NULLS LAST] on nullable timestamps. *)
Definition asc_nulls_last (a b : option time) : bool :=
  match a, b with
  | Some x, Some y => x <=? y
  | Some _, None => true
  | None, Some _ => false
  | None, None => true
  end.

Definition desc_nulls_last (a b : option time) : bool :=
  match a, b with
  | Some x, Some y => y <=? x
  | Some _, None => true
  | None, Some _ => false
  | None, None => true
  end.

(** [LIMIT n] *)
Definition limit {A} (n : Z) (l : list A) : list A := take (Z.to_nat n) l.

(** A fresh name ([uuidv7()], [gen_random_uuid()]). *)
Definition fresh (db : DB) : DB * uuid :=
  (set_db_uuid_seq (N.succ (db_uuid_seq db)) db, db_uuid_seq db).

(** ** Transactions *)

Lemma transaction_ok {A} (m : DBM A) db db' a :
  transaction m db = (db', Ok a) <-> m db = (db', Ok a).
Proof.
  unfold transaction. destruct (m db) as [d [x|e]]; [done|]. split; intros [=].
Qed.

Lemma transaction_raise {A} (m : DBM A) db db' e :
  transaction m db = (db', Raise e) ->
  exists d, m db = (d, Raise e) /\ db' = rollback db d.
Proof.
  unfold transaction. destruct (m db) as [d [x|e']]; [done|].
  intros [= <- <-]. eauto.
Qed.

(** A transaction is stable for every relation its body is stable for, when the
    relation also allows the rollback of any body. *)
Lemma stable_transaction {A} (R : DB -> DB -> Prop) (m : DBM A) :
  stable R m -> (forall db db', R db db' -> R db (rollback db db')) ->
  stable R (transaction m).
Proof.
  intros Hm Hr db. unfold transaction. specialize (Hm db).
  destruct (m db) as [d [a|e]]; simpl in *; [done|]. by apply Hr.
Qed.

Lemma stable_stmt {A} (R : DB -> DB -> Prop) (f : DB -> DB * A) :
  (forall db, R db (fst (f db))) -> stable R (stmt f).
Proof. intros H db. unfold stmt. specialize (H db). by destruct (f db). Qed.

Lemma stable_query {A} (R : DB -> DB -> Prop) `{!Reflexive R} (f : DB -> A) :
  stable R (query f).
Proof. intros db. reflexivity. Qed.
#[export] Hint Resolve stable_query : stable_db.
