(* ===== verification/Queries.v ===== *)
(** * The SQL statements of the job life cycle

    One definition per statement of src/symba/db/queries that writes, as a
    function from the database to the database and the rows it returns.  A
    table is the list of its rows in physical order; that order breaks the ties
    of an [ORDER BY].  [claim.sql] and [prepare_group_counters.sql] are in file
    [Claim], the statements that only read in [Tables]. *)

From S2P Require Import Prelude PyStr Errors States Json Records Database.
From Stdlib Require Import QArith Qround.
Open Scope string_scope.
Open Scope Z_scope.

Abbreviation gkey := (string * string * string)%type.

Definition gkey_eqb (a b : gkey) : bool := bool_decide (a = b).

Definition opt_N_eqb (a b : option N) : bool := bool_decide (a = b).

(** ** Views and shared clauses *)

(** A row of the view [jobs_all]. *)
Record AnyJob := mkAny {
  al_job :> Job;
  al_finished_at : option time;
  al_final_state : JobState
}.

Definition jobs_all (db : DB) : list AnyJob :=
  map (fun j => mkAny j None (j_state j)) (db_jobs db)
  ++ map (fun a => mkAny (a_job a) (Some (a_finished_at a)) (a_final_state a)) (db_archive db).

(** [id = $1 AND lease_token = $2 AND state = 'running'], the lease guard. *)
Definition lease_guard (job_id : uuid) (lease_token : uuid) (j : Job) : bool :=
  N.eqb (c_id j) job_id && opt_N_eqb (j_lease_token j) (Some lease_token)
  && JobState_eqb (j_state j) RUNNING.

(** [(tenant, group_key, task_name)], for a row whose group_key is not NULL. *)
Definition group_of (j : JobCols) : option gkey :=
  match c_group_key j with Some g => Some (c_tenant j, g, c_task_name j) | None => None end.

(** The group of a row that a counter of [group_running] counts: a grouped row
    with [max_concurrent_per_group IS NOT NULL]. *)
Definition capped_group (j : JobCols) : option gkey :=
  match c_max_concurrent_per_group j with Some _ => group_of j | None => None end.

(** The hot-to-archive move: the rows [p] selects are deleted from [jobs] and
    inserted into [jobs_archive] as [f m], finished now, in state [final]. *)
Definition move_to_archive (p : Job -> bool) (f : Job -> Job) (final : JobState) (db : DB)
  : DB * list ArchivedJob :=
  let rows := map (fun m => mkArchived (f m) (db_now db) final) (sel p (db_jobs db)) in
  (set_db_archive (db_archive db ++ rows) (set_db_jobs (delete_where p (db_jobs db)) db), rows).

Definition update_jobs (p : Job -> bool) (f : Job -> Job) (db : DB) : DB :=
  set_db_jobs (update_where p f (db_jobs db)) db.

(** A row as the driver returns it from a terminal move: [None] stands for NULL
    and for a column the statement does not return. *)
Record TerminalDict := mkTD {
  td_id : uuid;
  td_tenant : string;
  td_task_name : string;
  td_ctx_id : option string;
  td_group_key : option string;
  td_max_concurrent_per_group : option Z;
  td_on_success : option string;
  td_chain_tail : option (list string);
  td_on_failure : option SubmitSpec;
  td_parent_gate_id : option uuid;
  td_prior_state : option JobState;
  td_pipeline : option string;
  td_stage : option string;
  td_priority : option Z;
  td_runs_on : option (list string);
  td_rate_class : option string;
  td_lease_ttl_s : option Z;
  td_created_at : option time;
  td_started_at : option time;
  td_finished_at : option time
}.

(** ** submit.sql *)

(** The row an INSERT of [s] creates; the other columns take their defaults. *)
Definition inserted_job (db : DB) (id : uuid) (s : SubmitSpec) (resubmitted_from : option uuid) : Job :=
  mkJob
    (mkCols id (s_task_name s) (s_pipeline s) (s_stage s) (s_tenant s) (s_ctx_id s)
       (s_priority s) (s_group_key s) (s_max_concurrent_per_group s) (s_dedup_key s)
       (s_runs_on s) (s_rate_class s) (s_payload s) (s_parent_gate_id s) (s_on_success s)
       (s_chain_tail s) (s_on_failure s) (s_max_attempts s) (s_backoff s) (s_timeout_s s)
       (s_lease_ttl_s s) resubmitted_from (db_now db))
    (s_state s) None None None None (s_remaining_deps s) 0
    (default (db_now db) (s_run_at s)) None None None None false [] None.

Definition insert_job (s : SubmitSpec) (resubmitted_from : option uuid) (db : DB) : DB * uuid :=
  let (db1, id) := fresh db in
  (set_db_jobs (db_jobs db1 ++ [inserted_job db id s resubmitted_from]) db1, id).

(** The live row with this [(tenant, dedup_key)], if the key is not NULL. *)
Definition dedup_conflict (s : SubmitSpec) (j : Job) : bool :=
  String.eqb (c_tenant j) (s_tenant s) && sql_eq (c_dedup_key j) (s_dedup_key s).

(** Returns [(id, xmax <> 0)]. *)
Definition sql_submit (s : SubmitSpec) (db : DB) : DB * (uuid * bool) :=
  match List.find (dedup_conflict s) (db_jobs db) with
  | Some j => (db, (c_id j, true))
  | None => let (db1, id) := insert_job s None db in (db1, (id, false))
  end.

(** ** complete.sql, fail.sql, fail_die.sql, heartbeat.sql *)

Definition sql_complete (job_id lease_token : uuid) (result : option dict) (final : JobState)
    (db : DB) : DB * option TerminalDict :=
  let (db', rows) := move_to_archive (lease_guard job_id lease_token) (set_j_result result) final db in
  (db', match rows with
        | a :: _ =>
            let m := a_job a in
            Some (mkTD (c_id m) (c_tenant m) (c_task_name m) (c_ctx_id m) (c_group_key m)
                    (c_max_concurrent_per_group m) (c_on_success m) (Some (c_chain_tail m))
                    (c_on_failure m) (c_parent_gate_id m) None (c_pipeline m) (c_stage m)
                    (Some (c_priority m)) (Some (c_runs_on m)) (c_rate_class m)
                    (Some (c_lease_ttl_s m)) (Some (c_created_at m)) (j_started_at m)
                    (Some (a_finished_at a)))
        | [] => None
        end).

Definition release_lease (j : Job) : Job :=
  set_j_lease_token None (set_j_claimed_by None
    (set_j_lease_expires_at None (set_j_last_heartbeat_at None j))).

Definition append_error (e : json) (j : Job) : Job :=
  set_j_error_history (j_error_history j ++ [e]) j.

(** Returns the new row ([id, tenant, group_key, task_name, ..., attempt]). *)
Definition sql_fail (job_id lease_token : uuid) (next_run_at : time) (entry : json) (db : DB)
  : DB * option Job :=
  let f := fun j : Job => append_error entry (release_lease (set_j_run_at next_run_at (set_j_state QUEUED j))) in
  (update_jobs (lease_guard job_id lease_token) f db,
   head (map f (sel (lease_guard job_id lease_token) (db_jobs db)))).

Definition sql_fail_die (job_id lease_token : uuid) (entry : json) (db : DB)
  : DB * option TerminalDict :=
  let (db', rows) := move_to_archive (lease_guard job_id lease_token) (append_error entry) DEAD db in
  (db', match rows with
        | a :: _ =>
            let m := a_job a in
            Some (mkTD (c_id m) (c_tenant m) (c_task_name m) (c_ctx_id m) (c_group_key m)
                    (c_max_concurrent_per_group m) None None (c_on_failure m)
                    (c_parent_gate_id m) None None None None None None None None None None)
        | [] => None
        end).

Definition sql_heartbeat (job_id lease_token : uuid) (db : DB) : DB * option (option time * bool) :=
  let f := fun j : Job =>
    set_j_last_heartbeat_at (Some (db_now db))
      (set_j_lease_expires_at (Some (db_now db + secs (c_lease_ttl_s j))) j) in
  (update_jobs (lease_guard job_id lease_token) f db,
   head (map (fun j => (j_lease_expires_at (f j), j_cancel_requested (f j)))
           (sel (lease_guard job_id lease_token) (db_jobs db)))).

(** ** complete_continuation.sql *)

Definition continuation_spec (next_task : string) (next_on_success : option string)
    (next_chain_tail : list string) (tenant : string) (ctx_id pipeline stage : option string)
    (priority : Z) (group_key : option string) (mcpg : option Z) (runs_on : list string)
    (rate_class : option string) (lease_ttl_s : Z) (on_failure : option SubmitSpec) : SubmitSpec :=
  mkSpec next_task [] tenant pipeline stage ctx_id QUEUED priority group_key mcpg None runs_on
    rate_class next_on_success next_chain_tail on_failure 0 [] 5 None 600 None lease_ttl_s None.

Definition sql_complete_continuation (s : SubmitSpec) (db : DB) : DB * uuid := insert_job s None db.

(** ** decrement_deps.sql, insert_dependency.sql *)

Definition depends_on_b (upstream : uuid) (deps : list Dependency) (j : Job) : bool :=
  existsb (fun d => N.eqb (d_job_id d) (c_id j) && N.eqb (d_depends_on_job_id d) upstream) deps.

Definition decremented (now : time) (j : Job) : Job :=
  let r := j_remaining_deps j - 1 in
  let st := if (r =? 0) && JobState_eqb (j_state j) SUBMITTED && (j_run_at j <=? now)
            then QUEUED else j_state j in
  set_j_state st (set_j_remaining_deps r j).

(** Returns [(id, flipped)] of every dependent. *)
Definition sql_decrement_deps (upstream : uuid) (db : DB) : DB * list (uuid * bool) :=
  let p := depends_on_b upstream (db_deps db) in
  let f := decremented (db_now db) in
  (update_jobs p f db,
   map (fun j => (c_id (f j), JobState_eqb (j_state (f j)) QUEUED && (j_remaining_deps (f j) =? 0)))
     (sel p (db_jobs db))).

Definition dep_key_eqb (a b : Dependency) : bool :=
  N.eqb (d_job_id a) (d_job_id b) && N.eqb (d_depends_on_job_id a) (d_depends_on_job_id b).

Definition sql_insert_dependency (job_id depends_on : uuid) (alias : option string) (db : DB) : DB * unit :=
  let d := mkDep job_id depends_on alias in
  (if existsb (dep_key_eqb d) (db_deps db) then db
   else set_db_deps (db_deps db ++ [d]) db, tt).

(** ** create_gate.sql, bump_gate.sql *)

Definition sql_create_gate (tenant : string) (ctx_id : option string) (policy : string)
    (expected_children : Z) (quorum_n : option Z) (on_complete : SubmitSpec) (db : DB) : DB * uuid :=
  let (db1, id) := fresh db in
  (set_db_gates (db_gates db1 ++
     [mkGate id tenant ctx_id policy expected_children 0 0 0 quorum_n on_complete None (db_now db)]) db1,
   id).

(** The CTE [decision]: is the policy satisfied by these counts? *)
Definition gate_decision (policy : string) (quorum_n : option Z)
    (expected completed succeeded failed : Z) : bool :=
  if String.eqb policy "all_success" then (expected <=? completed) && (failed =? 0)
  else if String.eqb policy "all_terminal" then expected <=? completed
  else Z.min (default expected quorum_n) expected <=? succeeded.

Record GateBump := mkBump {
  b_completed : Z;
  b_succeeded : Z;
  b_failed : Z;
  b_satisfied : bool;
  b_resolved : bool
}.

(** The CTEs [post_bump], [decision] and [resolution]. *)
Definition gate_bump (child_succeeded child_failed : bool) (g : Gate) : GateBump :=
  let completed := g_completed_children g + 1 in
  let succeeded := g_succeeded_children g + (if child_succeeded then 1 else 0) in
  let failed := g_failed_children g + (if child_failed then 1 else 0) in
  let satisfied := gate_decision (g_policy g) (g_quorum_n g) (g_expected_children g)
                     completed succeeded failed in
  let resolved := match g_fired_at g with None => true | Some _ => false end
                  && (satisfied || (g_expected_children g <=? completed)) in
  mkBump completed succeeded failed satisfied resolved.

Definition bumped_gate (now : time) (child_succeeded child_failed : bool) (g : Gate) : Gate :=
  let b := gate_bump child_succeeded child_failed g in
  mkGate (g_id g) (g_tenant g) (g_ctx_id g) (g_policy g) (g_expected_children g)
    (b_completed b) (b_succeeded b) (b_failed b) (g_quorum_n g) (g_on_complete g)
    (if b_resolved b then Some now else g_fired_at g) (g_created_at g).

(** Returns the gate after the bump, with [resolved] and [satisfied]. *)
Definition sql_bump_gate (gate_id : uuid) (child_succeeded child_failed : bool) (db : DB)
  : DB * option (Gate * bool * bool) :=
  let p := fun g => N.eqb (g_id g) gate_id in
  (set_db_gates (update_where p (bumped_gate (db_now db) child_succeeded child_failed) (db_gates db)) db,
   match List.find p (db_gates db) with
   | Some g =>
       let b := gate_bump child_succeeded child_failed g in
       Some (bumped_gate (db_now db) child_succeeded child_failed g, b_resolved b, b_satisfied b)
   | None => None
   end).

(** ** cascade_cancel.sql *)

(** Live rows with a dependency on a member of [ups]. *)
Definition live_dependents (ups : list uuid) (db : DB) : list uuid :=
  map (fun j : Job => c_id j)
    (sel (fun j : Job => existsb (fun d => N.eqb (d_job_id d) (c_id j)
             && existsb (N.eqb (d_depends_on_job_id d)) ups) (db_deps db))
       (db_jobs db)).

Definition not_in (acc : list uuid) (i : uuid) : bool := negb (existsb (N.eqb i) acc).

(** The evaluation of [WITH RECURSIVE cone ... UNION]: [work] holds the rows the
    last iteration added, [acc] all rows found.  Every iteration adds a live
    row or is the last, so one more than the number of live rows suffices. *)
Fixpoint cone_loop (fuel : nat) (work acc : list uuid) (db : DB) : list uuid :=
  match fuel with
  | O => acc
  | S f =>
      match sel (not_in acc) (live_dependents work db) with
      | [] => acc
      | new => cone_loop f new (acc ++ new) db
      end
  end.

Definition cone (root : uuid) (db : DB) : list uuid :=
  let base := live_dependents [root] db in
  cone_loop (S (length (db_jobs db))) base base db.

Definition sql_cascade_cancel (root : uuid) (db : DB) : DB * list uuid :=
  let c := cone root db in
  let (db', rows) := move_to_archive (fun j => existsb (N.eqb (c_id j)) c) (fun j => j) CANCELLED db in
  (db', map (fun a => c_id (a_job a)) rows).

(** ** cancel.sql, cancel_running.sql *)

Definition cancellable (job_id : uuid) (j : Job) : bool :=
  N.eqb (c_id j) job_id && existsb (JobState_eqb (j_state j)) [SUBMITTED; QUEUED; WAITING].

Definition sql_cancel (job_id : uuid) (db : DB) : DB * option TerminalDict :=
  let (db', rows) := move_to_archive (cancellable job_id) (fun j => j) CANCELLED db in
  (db', match rows with
        | a :: _ =>
            let m := a_job a in
            Some (mkTD (c_id m) (c_tenant m) (c_task_name m) (c_ctx_id m) (c_group_key m)
                    (c_max_concurrent_per_group m) None None None None (Some (j_state m))
                    None None None None None None None None None)
        | [] => None
        end).

(** Returns [claimed_by] of the row, if there was one. *)
Definition sql_cancel_running (job_id : uuid) (db : DB) : DB * option (option string) :=
  let p := fun j : Job => N.eqb (c_id j) job_id && JobState_eqb (j_state j) RUNNING in
  (update_jobs p (set_j_cancel_requested true) db, head (map j_claimed_by (sel p (db_jobs db)))).

(** ** decrement_group.sql, record_event.sql *)

Definition sql_decrement_group (k : gkey) (by_ : Z) (db : DB) : DB * unit :=
  (set_db_group_running (alter (fun running => Z.max 0 (running - by_)) k (db_group_running db)) db, tt).

(** The id is drawn from a sequence when the statement runs.  Here transactions
    follow each other, so entries also commit in the order of their ids, which
    concurrent transactions need not do.  [ReadProps] does without that order;
    [StreamProps.stream_delivers] is for ledgers that have it. *)
Definition sql_record_event (job_id : uuid) (event : string) (detail : option dict) (db : DB) : DB * unit :=
  let row := List.find (fun a : AnyJob => N.eqb (c_id a) job_id) (jobs_all db) in
  let e := mkEvent (db_event_seq db) job_id
             (match row with Some a => c_tenant a | None => "default" end)
             (match row with Some a => c_ctx_id a | None => None end)
             event (db_now db) detail in
  (set_db_events (db_events db ++ [e]) (set_db_event_seq (db_event_seq db + 1) db), tt).

(** ** sweep_leases.sql, sweep_waits.sql *)

(** The lease expired, or its worker is gone and silent for the grace window. *)
Definition abandoned (grace_s : Z) (db : DB) (j : Job) : bool :=
  sql_lt (j_lease_expires_at j) (db_now db)
  || match j_claimed_by j with
     | Some w =>
         sql_lt (j_last_heartbeat_at j) (db_now db - secs grace_s)
         && negb (existsb (fun r => String.eqb (w_worker_id r) w && negb (w_stale r)) (db_workers db))
     | None => false
     end.

Definition lease_le (a b : Job) : bool := asc_nulls_last (j_lease_expires_at a) (j_lease_expires_at b).

(** The CTE [expired]. *)
Definition expired_leases (lk : locks) (lim grace_s : Z) (db : DB) : list Job :=
  limit lim (order_by lease_le
    (sel (fun j : Job => JobState_eqb (j_state j) RUNNING
             && (j_cancel_requested j || (j_attempt j <? c_max_attempts j))
             && abandoned grace_s db j && negb (locked_job lk (c_id j)))
       (db_jobs db))).

Definition in_ids (l : list Job) (j : Job) : bool := existsb (fun e : Job => N.eqb (c_id e) (c_id j)) l.

Definition lease_expired_entry (now : time) : json :=
  JObj [("at", JStr (pg_json_timestamp now)); ("type", JStr "lease_expired")].

Definition release_counters (rows : list Job) (m : gmap gkey Z) : gmap gkey Z :=
  map_imap (fun k running =>
    let n := Z.of_nat (count (fun j : Job => bool_decide (capped_group j = Some k)) rows) in
    Some (if n =? 0 then running else Z.max 0 (running - n))) m.

(** Returns the number of released rows. *)
Definition sql_sweep_leases (lk : locks) (lim grace_s : Z) (db : DB) : DB * Z :=
  let expired := expired_leases lk lim grace_s db in
  let to_cancel := fun j : Job => in_ids expired j && j_cancel_requested j in
  let to_requeue := fun j : Job => in_ids expired j && negb (j_cancel_requested j) in
  let (db1, cancelled) := move_to_archive to_cancel (fun j => j) CANCELLED db in
  let db2 := update_jobs to_requeue
               (fun j => append_error (lease_expired_entry (db_now db))
                           (release_lease (set_j_state QUEUED j))) db1 in
  let released := (sel to_requeue (db_jobs db) ++ map a_job cancelled)%list in
  (set_db_group_running (release_counters released (db_group_running db2)) db2,
   Z.of_nat (length released)).

Definition timeout_payload : dict := [("__timeout__", JBool true)].

Definition resume (payload : dict) (now : time) (j : Job) : Job :=
  set_j_run_at now (set_j_event_payload (Some payload)
    (set_j_wait_expires_at None (set_j_wait_key None (set_j_state QUEUED j)))).

Definition wait_le (a b : Job) : bool := asc_nulls_last (j_wait_expires_at a) (j_wait_expires_at b).

Definition expired_waits (lk : locks) (lim : Z) (db : DB) : list Job :=
  limit lim (order_by wait_le
    (sel (fun j : Job => JobState_eqb (j_state j) WAITING
             && sql_lt (j_wait_expires_at j) (db_now db) && negb (locked_job lk (c_id j)))
       (db_jobs db))).

Definition sql_sweep_waits (lk : locks) (lim : Z) (db : DB) : DB * list uuid :=
  let expired := expired_waits lk lim db in
  (update_jobs (in_ids expired) (resume timeout_payload (db_now db)) db,
   map (fun j : Job => c_id j) (sel (in_ids expired) (db_jobs db))).

(** ** signal.sql, signal_insert.sql, wait_consume.sql, wait_park.sql *)

Definition created_le (a b : Job) : bool := c_created_at a <=? c_created_at b.

(** The CTE [target]: the oldest waiter on the key that is not locked. *)
Definition signal_target (lk : locks) (tenant wait_key : string) (db : DB) : option Job :=
  head (order_by created_le
    (sel (fun j : Job => JobState_eqb (j_state j) WAITING && String.eqb (c_tenant j) tenant
             && sql_eq (j_wait_key j) (Some wait_key) && negb (locked_job lk (c_id j)))
       (db_jobs db))).

(** Returns the id of the woken row. *)
Definition sql_signal (lk : locks) (tenant wait_key : string) (payload : dict) (db : DB)
  : DB * option uuid :=
  match signal_target lk tenant wait_key db with
  | Some t => (update_jobs (fun j => N.eqb (c_id j) (c_id t)) (resume payload (db_now db)) db, Some (c_id t))
  | None => (db, None)
  end.

Definition sql_signal_insert (tenant wait_key : string) (payload : option dict)
    (signaled_by : option string) (db : DB) : DB * uuid :=
  let (db1, id) := fresh db in
  (set_db_signals (db_signals db1 ++ [mkSignal id tenant wait_key payload signaled_by (db_now db) None]) db1,
   id).

Definition sig_le (a b : Signal) : bool := sg_created_at a <=? sg_created_at b.

(** The CTE [pending]: the oldest unconsumed signal that is not locked. *)
Definition pending_signal (lk : locks) (tenant wait_key : string) (db : DB) : option Signal :=
  head (order_by sig_le
    (sel (fun s => String.eqb (sg_tenant s) tenant && String.eqb (sg_wait_key s) wait_key
             && match sg_consumed_at s with None => true | Some _ => false end
             && negb (locked_signal lk (sg_id s)))
       (db_signals db))).

(** Returns the payload column of the consumed row. *)
Definition sql_wait_consume (lk : locks) (tenant wait_key : string) (db : DB)
  : DB * option (option dict) :=
  match pending_signal lk tenant wait_key db with
  | Some s =>
      (set_db_signals (update_where (fun r => N.eqb (sg_id r) (sg_id s))
                         (set_sg_consumed_at (Some (db_now db))) (db_signals db)) db,
       Some (sg_payload s))
  | None => (db, None)
  end.

Definition parked (wait_key : string) (timeout_s : Z) (now : time) (j : Job) : Job :=
  set_j_claimed_by None (set_j_lease_expires_at None (set_j_lease_token None
    (set_j_wait_expires_at (Some (now + secs timeout_s))
       (set_j_wait_key (Some wait_key) (set_j_state WAITING j))))).

Definition sql_wait_park (job_id lease_token : uuid) (wait_key : string) (timeout_s : Z) (db : DB)
  : DB * option uuid :=
  (update_jobs (lease_guard job_id lease_token) (parked wait_key timeout_s (db_now db)) db,
   head (map (fun j : Job => c_id j) (sel (lease_guard job_id lease_token) (db_jobs db)))).

(** ** set_claimed_by.sql, reconcile_groups.sql, resubmit.sql *)

(** [assignments] are the unnested parallel arrays (job, worker, lease). *)
Definition sql_set_claimed_by (assignments : list (uuid * string * uuid)) (db : DB) : DB * unit :=
  let find_for := fun j : Job =>
    List.find (fun '(id, _, tok) => lease_guard id tok j) assignments in
  (update_jobs (fun j => match find_for j with Some _ => true | None => false end)
     (fun j => match find_for j with Some (_, w, _) => set_j_claimed_by (Some w) j | None => j end) db,
   tt).

(** The number of running capped rows of a group. *)
Definition actual_running (db : DB) (k : gkey) : Z :=
  Z.of_nat (count (fun j : Job => JobState_eqb (j_state j) RUNNING
                        && bool_decide (capped_group j = Some k)) (db_jobs db)).

(** Returns the number of corrected counters. *)
Definition sql_reconcile_groups (db : DB) : DB * Z :=
  (set_db_group_running (map_imap (fun k _ => Some (actual_running db k)) (db_group_running db)) db,
   Z.of_nat (size (filter (fun kv => snd kv <> actual_running db (fst kv)) (db_group_running db)))).

(** The fresh attempt of an archived row. *)
Definition resubmit_spec (j : Job) : SubmitSpec :=
  mkSpec (c_task_name j) (c_payload j) (c_tenant j) (c_pipeline j) (c_stage j) (c_ctx_id j) QUEUED
    (c_priority j) (c_group_key j) (c_max_concurrent_per_group j) None (c_runs_on j) (c_rate_class j)
    (c_on_success j) (c_chain_tail j) (c_on_failure j) 0 [] (c_max_attempts j) (c_backoff j)
    (c_timeout_s j) None (c_lease_ttl_s j) None.

Definition sql_resubmit (job_id : uuid) (tenant : string) (db : DB) : DB * option uuid :=
  match List.find (fun a : AnyJob => N.eqb (c_id a) job_id && String.eqb (c_tenant a) tenant
                     && existsb (JobState_eqb (al_final_state a)) [DEAD; CANCELLED; SUCCEEDED])
          (jobs_all db) with
  | Some a => let (db1, id) := insert_job (resubmit_spec a) (Some job_id) db in (db1, Some id)
  | None => (db, None)
  end.
