(* ===== verification/Tables.v ===== *)
(** * The remaining SQL statements

    Worker registry, cron schedules, rate classes and checkpoints, and the
    statements of src/symba/db/queries that only read. *)

From S2P Require Import Prelude PyStr Errors States Json Records Database Queries.
From Stdlib Require Import QArith Qround.
Open Scope string_scope.
Open Scope Z_scope.
Open Scope list_scope.

(** ** workers *)

Definition sql_worker_upsert (worker_id : string) (tags registered_tasks : list string)
    (labels : list (string * string)) (slots slots_busy : Z) (db : DB) : DB * unit :=
  let row := mkWorker worker_id tags registered_tasks labels slots slots_busy (db_now db) false in
  let mine := fun w => String.eqb (w_worker_id w) worker_id in
  (set_db_workers
     (if existsb mine (db_workers db) then update_where mine (fun _ => row) (db_workers db)
      else db_workers db ++ [row]) db, tt).

Definition sql_worker_delete (worker_id : string) (db : DB) : DB * unit :=
  (set_db_workers (delete_where (fun w => String.eqb (w_worker_id w) worker_id) (db_workers db)) db, tt).

(** Returns the number of rows flagged. *)
Definition sql_mark_workers_stale (stale_after_s : Z) (db : DB) : DB * Z :=
  let p := fun w => negb (w_stale w) && (w_last_seen w <? db_now db - secs stale_after_s) in
  (set_db_workers (update_where p (set_w_stale true) (db_workers db)) db,
   Z.of_nat (count p (db_workers db))).

Definition seen_ge (a b : Worker) : bool := w_last_seen b <=? w_last_seen a.

Definition sql_list_workers (db : DB) : list Worker := order_by seen_ge (db_workers db).

(** ** cron_schedules *)

Definition set_fires (last_fire next_fire : option time) (s : CronSchedule) : CronSchedule :=
  mkCron (cr_schedule_id s) (cr_cron_expr s) (cr_task_name s) (cr_payload s) (cr_tenant s)
    (cr_enabled s) last_fire next_fire (cr_created_at s).

(** The compare-and-set on the window; returns whether a row was updated. *)
Definition sql_cron_advance (schedule_id : string) (new_next : time) (expected : option time)
    (fired_at : option time) (db : DB) : DB * bool :=
  let p := fun s => String.eqb (cr_schedule_id s) schedule_id && cr_enabled s
                    && not_distinct (cr_next_fire s) expected in
  (set_db_cron_schedules (update_where p (set_fires fired_at (Some new_next)) (db_cron_schedules db)) db,
   existsb p (db_cron_schedules db)).

Definition set_cr_enabled (b : bool) (s : CronSchedule) : CronSchedule :=
  mkCron (cr_schedule_id s) (cr_cron_expr s) (cr_task_name s) (cr_payload s) (cr_tenant s)
    b (cr_last_fire s) (cr_next_fire s) (cr_created_at s).

Definition cron_owned (schedule_id tenant : string) (s : CronSchedule) : bool :=
  String.eqb (cr_schedule_id s) schedule_id && String.eqb (cr_tenant s) tenant.

Definition sql_cron_set_enabled (schedule_id tenant : string) (enabled : bool) (db : DB) : DB * bool :=
  let p := cron_owned schedule_id tenant in
  (set_db_cron_schedules (update_where p (set_cr_enabled enabled) (db_cron_schedules db)) db,
   existsb p (db_cron_schedules db)).

Definition sql_cron_delete (schedule_id tenant : string) (db : DB) : DB * bool :=
  let p := cron_owned schedule_id tenant in
  (set_db_cron_schedules (delete_where p (db_cron_schedules db)) db, existsb p (db_cron_schedules db)).

(** A changed expression resets the window, another edit keeps it. *)
Definition cron_edit (cron_expr task_name : string) (payload : dict) (enabled : bool)
    (s : CronSchedule) : CronSchedule :=
  mkCron (cr_schedule_id s) cron_expr task_name payload (cr_tenant s) enabled (cr_last_fire s)
    (if String.eqb (cr_cron_expr s) cron_expr then cr_next_fire s else None) (cr_created_at s).

(** Returns the row, or nothing when another tenant owns the id. *)
Definition sql_cron_upsert (schedule_id cron_expr task_name : string) (payload : dict)
    (tenant : string) (enabled : bool) (db : DB) : DB * option CronSchedule :=
  match List.find (fun s => String.eqb (cr_schedule_id s) schedule_id) (db_cron_schedules db) with
  | Some s =>
      if String.eqb (cr_tenant s) tenant then
        let f := cron_edit cron_expr task_name payload enabled in
        (set_db_cron_schedules
           (update_where (fun r => String.eqb (cr_schedule_id r) schedule_id) f (db_cron_schedules db)) db,
         Some (f s))
      else (db, None)
  | None =>
      let row := mkCron schedule_id cron_expr task_name payload tenant enabled None None (db_now db) in
      (set_db_cron_schedules (db_cron_schedules db ++ [row]) db, Some row)
  end.

(** [ORDER BY next_fire ASC NULLS FIRST] *)
Definition next_fire_le (a b : CronSchedule) : bool :=
  match cr_next_fire a, cr_next_fire b with
  | None, _ => true
  | Some _, None => false
  | Some x, Some y => x <=? y
  end.

Definition sql_cron_due (db : DB) : list CronSchedule :=
  order_by next_fire_le
    (sel (fun s => cr_enabled s
             && match cr_next_fire s with None => true | Some t => t <=? db_now db end)
       (db_cron_schedules db)).

Definition sql_list_cron (tenant : string) (db : DB) : list CronSchedule :=
  order_by (fun a b => String.leb (cr_schedule_id a) (cr_schedule_id b))
    (sel (fun s => String.eqb (cr_tenant s) tenant) (db_cron_schedules db)).

(** ** rate_classes *)

Definition qmin (a b : Q) : Q := if Qle_bool a b then a else b.

(** [EXTRACT(EPOCH FROM (b - a))] *)
Definition epoch (a b : time) : Q := (inject_Z (b - a) / inject_Z 1000000)%Q.

(** Refill-and-take; returns the granted tokens of a known class. *)
Definition sql_rate_take_pg (name : string) (want : Z) (db : DB) : DB * option Z :=
  match db_rate_classes db !! name with
  | Some rc =>
      let refilled := qmin (rc_capacity rc)
                        (rc_tokens rc + epoch (rc_refilled_at rc) (db_now db) * rc_refill_per_s rc)%Q in
      let take := Qfloor (qmin refilled (inject_Z want)) in
      (set_db_rate_classes
         (<[name := mkRate (rc_capacity rc) (rc_refill_per_s rc) (refilled - inject_Z take)%Q
                      (db_now db) (rc_updated_at rc)]> (db_rate_classes db)) db, Some take)
  | None => (db, None)
  end.

Definition sql_rate_return_pg (name : string) (tokens : Z) (db : DB) : DB * unit :=
  (set_db_rate_classes
     (alter (fun rc => mkRate (rc_capacity rc) (rc_refill_per_s rc)
                         (qmin (rc_capacity rc) (rc_tokens rc + inject_Z tokens)%Q)
                         (rc_refilled_at rc) (rc_updated_at rc)) name (db_rate_classes db)) db, tt).

(** The statement of [RateLimiter.drain]. *)
Definition sql_rate_drain (name : string) (db : DB) : DB * unit :=
  (set_db_rate_classes
     (alter (fun rc => mkRate (rc_capacity rc) (rc_refill_per_s rc) 0%Q (db_now db) (rc_updated_at rc))
        name (db_rate_classes db)) db, tt).

Definition sql_rate_class_upsert (name : string) (capacity refill : Q) (db : DB) : DB * unit :=
  (set_db_rate_classes
     (<[name := match db_rate_classes db !! name with
                | Some rc => mkRate capacity refill (rc_tokens rc) (rc_refilled_at rc) (db_now db)
                | None => mkRate capacity refill capacity (db_now db) (db_now db)
                end]> (db_rate_classes db)) db, tt).

Definition sql_rate_classes_all (db : DB) : list (string * Q * Q) :=
  map (fun kv => (fst kv, rc_capacity (snd kv), rc_refill_per_s (snd kv)))
    (map_to_list (db_rate_classes db)).

(** ** checkpoints *)

Definition sql_checkpoint_put (job_id : uuid) (tenant : string) (data : dict) (db : DB) : DB * unit :=
  (set_db_checkpoints (<[job_id := mkCheckpoint tenant data (db_now db)]> (db_checkpoints db)) db, tt).

Definition sql_checkpoint_get (job_id : uuid) (tenant : string) (db : DB) : option dict :=
  match db_checkpoints db !! job_id with
  | Some c => if String.eqb (ck_tenant c) tenant then Some (ck_data c) else None
  | None => None
  end.

(** ** Reads of the job life cycle *)

Definition sql_count_tenant_live (tenant : string) (db : DB) : Z :=
  Z.of_nat (count (fun j : Job => String.eqb (c_tenant j) tenant) (db_jobs db)).

(** [attempt, max_attempts, backoff, rate_class] of the leased row. *)
Record PeekRow := mkPeek {
  pk_attempt : Z;
  pk_max_attempts : Z;
  pk_backoff : option dict;
  pk_rate_class : option string
}.

Definition sql_fail_peek (job_id lease_token : uuid) (db : DB) : option PeekRow :=
  head (map (fun j : Job => mkPeek (j_attempt j) (c_max_attempts j) (c_backoff j) (c_rate_class j))
          (sel (lease_guard job_id lease_token) (db_jobs db))).

Definition sql_list_exhausted_leases (lim grace_s : Z) (db : DB) : list (uuid * option uuid) :=
  map (fun j : Job => (c_id j, j_lease_token j))
    (limit lim (order_by lease_le
       (sel (fun j : Job => JobState_eqb (j_state j) RUNNING && negb (j_cancel_requested j)
                && (c_max_attempts j <=? j_attempt j) && abandoned grace_s db j) (db_jobs db)))).

(** Running rows per requested worker, workers without a row left out. *)
Definition sql_running_counts_by_worker (worker_ids : list string) (db : DB) : gmap string Z :=
  foldr (fun (j : Job) m =>
           match j_claimed_by j with
           | Some w => if mem w worker_ids then <[w := default 0 (m !! w) + 1]> m else m
           | None => m
           end) ∅
    (sel (fun j : Job => JobState_eqb (j_state j) RUNNING) (db_jobs db)).

Definition sql_distinct_rate_classes (tags : list string) (db : DB) : list string :=
  remove_dups (omap (fun j : Job => c_rate_class j)
    (sel (fun j : Job => JobState_eqb (j_state j) QUEUED && (j_run_at j <=? db_now db)
             && subset (c_runs_on j) tags) (db_jobs db))).

(** The results of the succeeded, not skipped children of a gate. *)
Definition finished_le (a b : ArchivedJob) : bool :=
  (a_finished_at a <? a_finished_at b)
  || ((a_finished_at a =? a_finished_at b) && (c_id (a_job a) <=? c_id (a_job b))%N).

Definition sql_gate_child_results (gate_id : uuid) (db : DB) : list (uuid * string * option dict) :=
  map (fun a => (c_id (a_job a), c_task_name (a_job a), j_result (a_job a)))
    (order_by finished_le
       (sel (fun a => opt_N_eqb (c_parent_gate_id (a_job a)) (Some gate_id)
                && JobState_eqb (a_final_state a) SUCCEEDED
                && negb (existsb (fun e => N.eqb (ev_job_id e) (c_id (a_job a))
                                     && String.eqb (ev_event e) "skipped") (db_events db)))
          (db_archive db))).

Definition sql_get_gate (tenant : string) (gate_id : uuid) (db : DB) : option Gate :=
  List.find (fun g => N.eqb (g_id g) gate_id && String.eqb (g_tenant g) tenant) (db_gates db).

Definition sql_get_job (job_id : uuid) (tenant : string) (db : DB) : option AnyJob :=
  List.find (fun a : AnyJob => N.eqb (c_id a) job_id && String.eqb (c_tenant a) tenant) (jobs_all db).

Definition sql_get_result (job_id : uuid) (tenant : string) (db : DB) : option AnyJob :=
  sql_get_job job_id tenant db.

(** Ancestors by task name within the [ctx_id] of the asking job. *)
Definition sql_get_ancestor_result (asking : uuid) (task_name tenant : string) (db : DB) : option AnyJob :=
  match sql_get_job asking tenant db with
  | Some a =>
      match c_ctx_id a with
      | Some ctx =>
          head (order_by (fun x y => desc_nulls_last (al_finished_at x) (al_finished_at y))
            (sel (fun j : AnyJob => String.eqb (c_tenant j) tenant && sql_eq (c_ctx_id j) (Some ctx)
                     && String.eqb (c_task_name j) task_name
                     && match j_result j with Some _ => true | None => false end) (jobs_all db)))
      | None => None
      end
  | None => None
  end.

(** ** inline_upstream.sql *)

Record UpstreamRow := mkUpstream {
  up_asking_job_id : uuid;
  up_key : string;
  up_producer_job_id : uuid;
  up_result : option dict
}.

(** The last finished chain predecessor of [c]. *)
Definition chain_pred (db : DB) (c : Job) : option UpstreamRow :=
  match head (order_by (fun x y => desc_nulls_last (Some (a_finished_at x)) (Some (a_finished_at y)))
    (sel (fun a => String.eqb (c_tenant (a_job a)) (c_tenant c)
             && sql_eq (c_ctx_id (a_job a)) (c_ctx_id c)
             && sql_eq (c_on_success (a_job a)) (Some (c_task_name c))
             && JobState_eqb (a_final_state a) SUCCEEDED) (db_archive db))) with
  | Some a => Some (mkUpstream (c_id c) (c_task_name (a_job a)) (c_id (a_job a)) (j_result (a_job a)))
  | None => None
  end.

Definition dep_preds (db : DB) (c : Job) : list UpstreamRow :=
  List.flat_map (fun d =>
    map (fun prod : AnyJob => mkUpstream (c_id c) (default (c_task_name prod) (d_alias d)) (c_id prod) (j_result prod))
      (sel (fun prod : AnyJob => N.eqb (c_id prod) (d_depends_on_job_id d)) (jobs_all db)))
    (sel (fun d => N.eqb (d_job_id d) (c_id c)) (db_deps db)).

Definition sql_inline_upstream (job_ids : list uuid) (db : DB) : list UpstreamRow :=
  let claimed := sel (fun j : Job => existsb (N.eqb (c_id j)) job_ids) (db_jobs db) in
  omap (chain_pred db) claimed ++ List.flat_map (dep_preds db) claimed.

(** ** The read surface of the UI *)

Record JobFilter := mkFilter {
  f_state : option string;
  f_task_name : option string;
  f_ctx_id : option string;
  f_claimed_by : option string;
  f_parent_gate_id : option uuid;
  f_pipeline : option string;
  f_stage : option string;
  f_group_key : option string;
  f_created_after : option time
}.

(** [$n IS NULL OR col = $n] *)
Definition opt_filter (want col : option string) : bool :=
  match want with None => true | Some _ => sql_eq col want end.

Definition list_match (tenant : string) (f : JobFilter) (a : AnyJob) : bool :=
  String.eqb (c_tenant a) tenant
  && opt_filter (f_state f) (Some (JobState_value (al_final_state a)))
  && opt_filter (f_task_name f) (Some (c_task_name a))
  && opt_filter (f_ctx_id f) (c_ctx_id a)
  && opt_filter (f_claimed_by f) (j_claimed_by a)
  && match f_parent_gate_id f with None => true | Some g => opt_N_eqb (c_parent_gate_id a) (Some g) end
  && opt_filter (f_pipeline f) (c_pipeline a)
  && opt_filter (f_stage f) (c_stage a)
  && opt_filter (f_group_key f) (c_group_key a)
  && match f_created_after f with None => true | Some t => t <? c_created_at a end.

(** [ORDER BY created_at DESC] has no tie-breaker: PostgreSQL may return rows of one
    creation time in any order, here they come in the order of the table.  What is
    proved of pages takes tables in any order. *)
Definition sql_list_jobs (tenant : string) (f : JobFilter) (lim offset : Z) (db : DB) : list AnyJob :=
  limit lim (drop (Z.to_nat offset)
    (order_by (fun a b : AnyJob => c_created_at b <=? c_created_at a)
       (sel (list_match tenant f) (jobs_all db)))).

(** States with at least one row. *)
Definition sql_stats_board (tenant : string) (db : DB) : list (JobState * Z) :=
  List.filter (fun r => 0 <? snd r)
    (map (fun s => (s, Z.of_nat (count (fun a : AnyJob => String.eqb (c_tenant a) tenant
                                          && JobState_eqb (al_final_state a) s) (jobs_all db))))
       (LIVE_STATES ++ TERMINAL_STATES)).

(** A lane of [stats_queues]: depth and age in seconds of its oldest row. *)
Record QueueStat := mkQueueStat {
  qs_task_name : string;
  qs_rate_class : option string;
  qs_depth : Z;
  qs_oldest_age_s : Z
}.

(** [extract(epoch FROM d)::bigint]: to the nearest second, halves away from zero. *)
Definition epoch_bigint (d : Z) : Z :=
  if 0 <=? d then (2 * d + 1000000) / 2000000 else - ((2 * - d + 1000000) / 2000000).

Definition lane (j : Job) : string * option string := (c_task_name j, c_rate_class j).

(** The rows of one [GROUP BY] lane, [min(run_at)] over them. *)
Definition lane_stat (now : time) (rows : list Job) (k : string * option string) : QueueStat :=
  let ages := map (fun j => now - j_run_at j) (sel (fun j => bool_decide (lane j = k)) rows) in
  mkQueueStat (fst k) (snd k) (Z.of_nat (length ages))
    (epoch_bigint (foldr Z.max (default 0 (head ages)) ages)).

Definition sql_stats_queues (tenant : string) (db : DB) : list QueueStat :=
  let rows := sel (fun j : Job => String.eqb (c_tenant j) tenant && JobState_eqb (j_state j) QUEUED) (db_jobs db) in
  order_by (fun a b => qs_depth b <=? qs_depth a)
    (map (lane_stat (db_now db) rows) (remove_dups (map lane rows))).

Definition event_le (a b : Event) : bool := ev_id a <=? ev_id b.

Definition sql_events_since (after_id : Z) (tenant : string) (lim : Z) (db : DB) : list Event :=
  limit lim (order_by event_le
    (sel (fun e => (after_id <? ev_id e) && String.eqb (ev_tenant e) tenant) (db_events db))).

Definition sql_events_for_ctx (tenant ctx_id : string) (after_id lim : Z) (db : DB) : list Event :=
  limit lim (order_by event_le
    (sel (fun e => String.eqb (ev_tenant e) tenant && sql_eq (ev_ctx_id e) (Some ctx_id)
             && (after_id <? ev_id e)) (db_events db))).

Definition sql_job_events (job_id : uuid) (tenant : string) (db : DB) : list Event :=
  order_by (fun a b => (ev_at a <? ev_at b) || ((ev_at a =? ev_at b) && (ev_id a <=? ev_id b)))
    (sel (fun e => N.eqb (ev_job_id e) job_id && String.eqb (ev_tenant e) tenant) (db_events db)).

(** [SELECT COALESCE(max(id), 0)] *)
Definition sql_max_event_id (tenant : string) (db : DB) : Z :=
  foldr (fun e m => if String.eqb (ev_tenant e) tenant then Z.max (ev_id e) m else m) 0 (db_events db).

(** Edges whose two ends are in the context. *)
Definition sql_job_tree_edges (tenant ctx_id : string) (db : DB) : list Dependency :=
  let in_ctx := fun i => existsb (fun a : AnyJob => N.eqb (c_id a) i && String.eqb (c_tenant a) tenant
                                        && sql_eq (c_ctx_id a) (Some ctx_id)) (jobs_all db) in
  sel (fun d => in_ctx (d_depends_on_job_id d) && in_ctx (d_job_id d)) (db_deps db).
