(* ===== verification/Claim.v ===== *)
(** * The claim (prepare_group_counters.sql and claim.sql)

    One definition per common table expression of the two statements.  [quotas]
    is the JSON object of reserved tokens per rate class; the empty object
    switches the quota clauses off, as in the SQL. *)

From S2P Require Import Prelude PyStr Errors States Json Records Database Queries.
Open Scope string_scope.
Open Scope Z_scope.
Open Scope list_scope.

(** ** Ordering, grouping and window functions *)

(** [ORDER BY priority DESC, run_at ASC] *)
Definition claim_le (a b : Job) : bool :=
  (c_priority b <? c_priority a)
  || ((c_priority a =? c_priority b) && (j_run_at a <=? j_run_at b)).

(** Rows already in window order, each with its [row_number()] in the partition
    [same] puts it in; [seen] holds the rows before. *)
Fixpoint number_rows {A} (same : A -> A -> bool) (seen l : list A) : list (A * Z) :=
  match l with
  | [] => []
  | x :: l' => (x, Z.of_nat (S (count (same x) seen))) :: number_rows same (x :: seen) l'
  end.

Definition row_number (same : Job -> Job -> bool) (rows : list Job) : list (Job * Z) :=
  number_rows same [] (order_by claim_le rows).

(** The row number of one row. *)
Definition rn_of (ranked : list (Job * Z)) (j : Job) : option Z :=
  match List.find (fun r : Job * Z => N.eqb (c_id (fst r)) (c_id j)) ranked with
  | Some r => Some (snd r)
  | None => None
  end.

Fixpoint distinct (l : list gkey) : list gkey :=
  match l with
  | [] => []
  | k :: l' => k :: List.filter (fun k' => negb (gkey_eqb k k')) (distinct l')
  end.

(** One row of a [GROUP BY tenant, group_key, task_name]. *)
Record GroupRow := mkGroupRow {
  gr_key : gkey;
  gr_max_priority : Z;
  gr_oldest_run_at : time
}.

Definition gkey_leb (a b : gkey) : bool :=
  let '(t1, g1, n1) := a in
  let '(t2, g2, n2) := b in
  if String.eqb t1 t2 then
    (if String.eqb g1 g2 then String.leb n1 n2 else String.leb g1 g2)
  else String.leb t1 t2.

(** [ORDER BY max(priority) DESC, min(run_at) ASC, tenant, group_key, task_name] *)
Definition group_le (a b : GroupRow) : bool :=
  (gr_max_priority b <? gr_max_priority a)
  || ((gr_max_priority a =? gr_max_priority b)
      && ((gr_oldest_run_at a <? gr_oldest_run_at b)
          || ((gr_oldest_run_at a =? gr_oldest_run_at b) && gkey_leb (gr_key a) (gr_key b)))).

Definition in_group (k : gkey) (j : Job) : bool := bool_decide (group_of j = Some k).

Definition group_rows (rows : list Job) : list GroupRow :=
  map (fun k =>
         let mine := sel (in_group k) rows in
         mkGroupRow k
           (foldr (fun (j : Job) m => Z.max (c_priority j) m)
              (match mine with j :: _ => c_priority j | [] => 0 end) mine)
           (foldr (fun (j : Job) m => Z.min (j_run_at j) m)
              (match mine with j :: _ => j_run_at j | [] => 0 end) mine))
    (distinct (omap (fun j : Job => group_of j) rows)).

Section Claim.
Context (lk : locks) (tags exhausted : list string) (lim : Z) (claimed_by : string)
        (per_group_cap : Z) (quotas : gmap string Z).

(** ** Shared WHERE clauses *)

Definition quotas_empty : bool := bool_decide (quotas = ∅).

Definition not_exhausted (rc : option string) : bool :=
  match exhausted, rc with
  | [], _ => true
  | _, None => true
  | _, Some c => negb (mem c exhausted)
  end.

(** [COALESCE((quotas ->> rc)::int, 0)] *)
Definition quota (rc : string) : Z := default 0 (quotas !! rc).

(** The class is in the object with a positive quota. *)
Definition quota_open (rc : string) : bool :=
  match quotas !! rc with Some n => 0 <? n | None => false end.

Definition rate_open (rc : option string) : bool :=
  quotas_empty || match rc with None => true | Some c => quota_open c end.

(** [state = 'queued' AND run_at <= now() AND runs_on <@ tags AND not exhausted] *)
Definition ready (db : DB) (j : Job) : bool :=
  JobState_eqb (j_state j) QUEUED && (j_run_at j <=? db_now db)
  && subset (c_runs_on j) tags && not_exhausted (c_rate_class j).

Definition capped (j : Job) : bool :=
  match capped_group j with Some _ => true | None => false end.

(** ** prepare_group_counters.sql *)

Definition missing_groups (db : DB) : list GroupRow :=
  limit lim (order_by group_le (group_rows
    (sel (fun j => ready db j && capped j && rate_open (c_rate_class j)
             && match group_of j with
                | Some k => match db_group_running db !! k with None => true | Some _ => false end
                | None => false
                end) (db_jobs db)))).

Definition sql_prepare_group_counters (db : DB) : DB * unit :=
  (set_db_group_running
     (foldr (fun g m => match m !! gr_key g with None => <[gr_key g := 0]> m | Some _ => m end)
        (db_group_running db) (missing_groups db)) db, tt).

(** ** claim.sql *)

Definition has_headroom (running : Z) (j : Job) : bool :=
  match c_max_concurrent_per_group j with Some cap => running <? cap | None => false end.

Definition ready_capped_groups (db : DB) : list GroupRow :=
  limit lim (order_by group_le (group_rows
    (sel (fun j => ready db j && capped j && rate_open (c_rate_class j)
             && match group_of j with
                | Some k => has_headroom (default 0 (db_group_running db !! k)) j
                | None => false
                end) (db_jobs db)))).

Definition group_slots (db : DB) : list gkey :=
  limit lim (sel (fun k => negb (locked_group lk k)
                   && match db_group_running db !! k with Some _ => true | None => false end)
    (map gr_key (order_by group_le (ready_capped_groups db)))).

(** [running] of the locked counter row the LEFT JOIN finds, if any. *)
Definition slot (db : DB) (j : Job) : option Z :=
  match group_of j with
  | Some k => if existsb (gkey_eqb k) (group_slots db) then db_group_running db !! k else None
  | None => None
  end.

(** [max_concurrent_per_group IS NULL OR (g.group_key IS NOT NULL AND g.running < cap)] *)
Definition admissible (db : DB) (j : Job) : bool :=
  match c_max_concurrent_per_group j with
  | None => true
  | Some cap => match slot db j with Some running => running <? cap | None => false end
  end.

Definition is_grouped (j : Job) : bool :=
  match c_group_key j with Some _ => true | None => false end.

Definition unlocked (j : Job) : bool := negb (locked_job lk (c_id j)).

Definition ungrouped_unlimited (db : DB) : list Job :=
  limit lim (order_by claim_le
    (sel (fun j => ready db j && negb (is_grouped j)
             && (match c_rate_class j with None => true | Some _ => false end || quotas_empty)
             && unlocked j) (db_jobs db))).

Definition same_rate (a b : Job) : bool := bool_decide (c_rate_class a = c_rate_class b).

Definition rate_base (db : DB) : list Job :=
  sel (fun j => negb quotas_empty && ready db j
           && match c_rate_class j with Some rc => quota_open rc | None => false end
           && (negb (is_grouped j) || admissible db j)) (db_jobs db).

Definition rate_ranked (db : DB) : list (Job * Z) := row_number same_rate (rate_base db).

Definition within_quota (rn : option Z) (j : Job) : bool :=
  match rn, c_rate_class j with
  | Some n, Some rc => n <=? quota rc
  | _, _ => false
  end.

Definition ungrouped_limited (db : DB) : list Job :=
  limit lim (order_by claim_le
    (sel (fun j => negb (is_grouped j) && within_quota (rn_of (rate_ranked db) j) j && unlocked j)
       (db_jobs db))).

Definition same_group (a b : Job) : bool := bool_decide (c_group_key a = c_group_key b).

Definition same_ceiling (a b : Job) : bool :=
  bool_decide (group_of a = group_of b)
  && Bool.eqb (match c_max_concurrent_per_group a with None => true | Some _ => false end)
              (match c_max_concurrent_per_group b with None => true | Some _ => false end).

Definition grouped_base (db : DB) : list Job :=
  sel (fun j => ready db j && is_grouped j
           && (quotas_empty || match c_rate_class j with None => true | Some _ => false end
               || match rn_of (rate_ranked db) j with Some _ => true | None => false end)
           && admissible db j) (db_jobs db).

Definition rn_in_group (db : DB) (j : Job) : option Z :=
  rn_of (row_number same_group (grouped_base db)) j.

Definition rn_in_ceiling_group (db : DB) (j : Job) : option Z :=
  rn_of (row_number same_ceiling (grouped_base db)) j.

Definition le_opt (o : option Z) (n : Z) : bool := match o with Some x => x <=? n | None => false end.

(** [max_concurrent_per_group IS NULL OR rn_in_ceiling_group <= GREATEST(0, cap - running)] *)
Definition under_ceiling (db : DB) (j : Job) : bool :=
  match c_max_concurrent_per_group j, slot db j with
  | None, _ => true
  | Some cap, Some running => le_opt (rn_in_ceiling_group db j) (Z.max 0 (cap - running))
  | Some _, None => false
  end.

(** [ORDER BY priority DESC, rn_in_group ASC, run_at ASC] *)
Definition grouped_le (db : DB) (a b : Job) : bool :=
  (c_priority b <? c_priority a)
  || ((c_priority a =? c_priority b)
      && (let ra := default 0 (rn_in_group db a) in
          let rb := default 0 (rn_in_group db b) in
          (ra <? rb) || ((ra =? rb) && (j_run_at a <=? j_run_at b)))).

Definition grouped (db : DB) : list Job :=
  limit lim (order_by (grouped_le db)
    (sel (fun j => le_opt (rn_in_group db j) per_group_cap && under_ceiling db j
             && (quotas_empty || match c_rate_class j with None => true | Some _ => false end
                 || within_quota (rn_of (rate_ranked db) j) j)
             && unlocked j) (db_jobs db))).

Definition candidate (db : DB) : list Job :=
  limit lim (order_by claim_le (ungrouped_unlimited db ++ ungrouped_limited db ++ grouped db)).

(** ** The UPDATE and the counter bump *)

Fixpoint position (i : uuid) (l : list Job) : N :=
  match l with
  | [] => 0
  | j :: l' => if N.eqb (c_id j) i then 0 else N.succ (position i l')
  end.

Definition claimed_row (db : DB) (cand : list Job) (j : Job) : Job :=
  set_j_state RUNNING
    (set_j_claimed_by (Some claimed_by)
      (set_j_lease_token (Some (db_uuid_seq db + position (c_id j) cand)%N)
        (set_j_attempt (j_attempt j + 1)
          (set_j_started_at (Some (default (db_now db) (j_started_at j)))
            (set_j_lease_expires_at (Some (db_now db + secs (c_lease_ttl_s j)))
              (set_j_last_heartbeat_at (Some (db_now db)) j)))))).

Definition bump_counters (ks : list gkey) (m : gmap gkey Z) : gmap gkey Z :=
  foldr (fun k m => <[k := default 0 (m !! k) + 1]> m) m ks.

(** [attempt + 1] must fit SMALLINT; [counter_bump] inserts the group of every
    claimed row with a cap, and [group_running.group_key] is NOT NULL. *)
Definition claim_error (cand : list Job) : option exn :=
  if existsb (fun j => negb (int2 (j_attempt j + 1))) cand then Some DataError
  else if existsb (fun j : Job => negb (is_grouped j)
                     && match c_max_concurrent_per_group j with Some _ => true | None => false end) cand
  then Some NotNullViolation else None.

(** Returns each claimed row with its preloaded checkpoint. *)
Definition sql_claim : DBM (list (Job * option dict)) := fun db =>
  let cand := candidate db in
  match claim_error cand with
  | Some e => (db, Raise e)
  | None =>
      let rows := map (claimed_row db cand) (sel (in_ids cand) (db_jobs db)) in
      let db1 := update_jobs (in_ids cand) (claimed_row db cand) db in
      let db2 := set_db_uuid_seq (db_uuid_seq db + N.of_nat (length cand))%N db1 in
      let db3 := set_db_group_running
                   (bump_counters (omap (fun j : Job => capped_group j) rows) (db_group_running db)) db2 in
      (db3, Ok (map (fun j : Job => (j, match db_checkpoints db !! c_id j with
                                        | Some c => Some (ck_data c)
                                        | None => None
                                        end)) rows))
  end.
End Claim.
