(* ===== verification/Invariant.v ===== *)
(** * The database invariant and the history relation

    [wf] is what every committed database satisfies; [evolve] relates a database
    to any later one: rows move only along the documented transitions, the
    archive and the ledger only grow, a gate resolves at most once, a signal is
    consumed at most once.  [keeps] packages both, is a preorder and survives
    rollback, so that [stable keeps] composes over services and transactions. *)

From S2P Require Import Prelude PyStr Errors States Json Records Database Queries.
Open Scope Z_scope.
Open Scope list_scope.

(** ** Rows *)

(** A live row: a lease exactly while running, a wait key exactly while waiting. *)
Record row_ok (j : Job) : Prop := mkRowOk {
  row_live : is_live (j_state j) = true;
  row_lease : j_state j = RUNNING <-> is_Some (j_lease_token j);
  row_wait : j_state j = WAITING <-> is_Some (j_wait_key j)
}.

(** An archived row finished by a transition of the state machine. *)
Definition archived_ok (a : ArchivedJob) : Prop :=
  is_terminal (a_final_state a) = true /\ edge (j_state (a_job a)) (a_final_state a).

Definition job_id (j : Job) : uuid := c_id j.
Definition archived_id (a : ArchivedJob) : uuid := c_id (a_job a).

Definition dedup_of (j : JobCols) : option (string * string) :=
  match c_dedup_key j with Some k => Some (c_tenant j, k) | None => None end.

Record wf_jobs (jobs : list Job) (arch : list ArchivedJob) (seq : uuid) : Prop := mkWfJobs {
  wf_rows : Forall row_ok jobs;
  wf_archive : Forall archived_ok arch;
  wf_ids : List.NoDup (map job_id jobs ++ map archived_id arch);
  wf_ids_lt : Forall (fun i => (i < seq)%N) (map job_id jobs ++ map archived_id arch);
  wf_tokens : List.NoDup (omap j_lease_token jobs);
  wf_tokens_lt : Forall (fun t => (t < seq)%N) (omap j_lease_token jobs);
  wf_dedup : List.NoDup (omap (fun j : Job => dedup_of j) jobs)
}.

(** ** Gates *)

Definition quorum_positive (g : Gate) : Prop :=
  match g_quorum_n g with Some n => 0 < n | None => True end.

Definition decided (g : Gate) : bool :=
  gate_decision (g_policy g) (g_quorum_n g) (g_expected_children g)
    (g_completed_children g) (g_succeeded_children g) (g_failed_children g).

Record gate_ok (g : Gate) : Prop := mkGateOk {
  gate_expected : 0 < g_expected_children g;
  gate_succeeded : 0 <= g_succeeded_children g;
  gate_failed : 0 <= g_failed_children g;
  gate_counts : g_succeeded_children g + g_failed_children g <= g_completed_children g;
  gate_open : g_fired_at g = None -> g_completed_children g < g_expected_children g;
  gate_undecided : g_fired_at g = None -> quorum_positive g -> decided g = false
}.

Record wf_gates (gates : list Gate) (seq : uuid) : Prop := mkWfGates {
  wf_gate_rows : Forall gate_ok gates;
  wf_gate_ids : List.NoDup (map g_id gates);
  wf_gate_ids_lt : Forall (fun i => (i < seq)%N) (map g_id gates)
}.

(** ** Ledger and counters *)

Record wf_events (evs : list Event) (seq : Z) : Prop := mkWfEvents {
  wf_event_order : StronglySorted (fun a b => ev_id a < ev_id b) evs;
  wf_event_lt : Forall (fun e => 0 < ev_id e < seq) evs;
  wf_event_seq : 0 < seq
}.

Record wf (db : DB) : Prop := mkWf {
  wf_j : wf_jobs (db_jobs db) (db_archive db) (db_uuid_seq db);
  wf_g : wf_gates (db_gates db) (db_uuid_seq db);
  wf_e : wf_events (db_events db) (db_event_seq db);
  wf_counters : map_Forall (fun _ n => 0 <= n) (db_group_running db);
  wf_signal_ids : List.NoDup (map sg_id (db_signals db))
                  /\ Forall (fun i => (i < db_uuid_seq db)%N) (map sg_id (db_signals db));
  wf_deps : List.NoDup (map (fun d => (d_job_id d, d_depends_on_job_id d)) (db_deps db))
            /\ Forall (fun i => (i < db_uuid_seq db)%N) (map d_job_id (db_deps db))
}.

(** ** History *)

(** A submitted row that waits for no dependency: the decrement of a
    dependency promotes a row only when it reaches zero, and nothing else
    promotes one. *)
Definition stranded (j : Job) : Prop := j_state j = SUBMITTED /\ j_remaining_deps j <= 0.

(** Where a live row is later: still live, or archived, along a path; a
    stranded row is still stranded, or was when it was archived. *)
Definition job_later (jobs : list Job) (arch : list ArchivedJob) (j : Job) : Prop :=
  (exists j', In j' jobs /\ j_cols j' = j_cols j /\ path (j_state j) (j_state j')
     /\ (stranded j -> stranded j'))
  \/ (exists a, In a arch /\ j_cols (a_job a) = j_cols j /\ path (j_state j) (a_final_state a)
     /\ (stranded j -> stranded (a_job a))).

Record jobs_evolve (jobs : list Job) (arch : list ArchivedJob) (seq : uuid)
    (jobs' : list Job) (arch' : list ArchivedJob) (seq' : uuid) : Prop := mkJobsEvolve {
  je_seq : (seq <= seq')%N;
  je_archive : exists rows, arch' = arch ++ rows;
  je_rows : forall j, In j jobs -> job_later jobs' arch' j;
  je_new : forall j', In j' jobs' ->
    (exists j, In j jobs /\ j_cols j = j_cols j') \/ (seq <= c_id j')%N
}.

(** What no later statement changes of a gate. *)
Record gate_later (g g' : Gate) : Prop := mkGateLater {
  gl_id : g_id g' = g_id g;
  gl_policy : g_policy g' = g_policy g;
  gl_expected : g_expected_children g' = g_expected_children g;
  gl_quorum : g_quorum_n g' = g_quorum_n g;
  gl_on_complete : g_on_complete g' = g_on_complete g;
  gl_completed : g_completed_children g <= g_completed_children g';
  gl_succeeded : g_succeeded_children g <= g_succeeded_children g';
  gl_failed : g_failed_children g <= g_failed_children g';
  gl_fired : forall t, g_fired_at g = Some t -> g_fired_at g' = Some t
}.

(** What no later statement changes of a signal. *)
Definition signal_later (s s' : Signal) : Prop :=
  sg_id s' = sg_id s /\ sg_tenant s' = sg_tenant s /\ sg_wait_key s' = sg_wait_key s
  /\ sg_payload s' = sg_payload s
  /\ (forall t, sg_consumed_at s = Some t -> sg_consumed_at s' = Some t).

Record evolve (db db' : DB) : Prop := mkEvolve {
  ev_jobs : jobs_evolve (db_jobs db) (db_archive db) (db_uuid_seq db)
                        (db_jobs db') (db_archive db') (db_uuid_seq db');
  ev_now : db_now db <= db_now db';
  ev_eseq : db_event_seq db <= db_event_seq db';
  ev_ledger : exists evs, db_events db' = db_events db ++ evs;
  ev_gates : forall g, In g (db_gates db) -> exists g', In g' (db_gates db') /\ gate_later g g';
  ev_signals : forall s, In s (db_signals db) -> exists s', In s' (db_signals db') /\ signal_later s s'
}.

Definition keeps (db db' : DB) : Prop := wf db -> wf db' /\ evolve db db'.

(** ** Preorders *)

Lemma jobs_evolve_refl jobs arch seq : jobs_evolve jobs arch seq jobs arch seq.
Proof.
  split; [lia | exists []; by rewrite app_nil_r | | by eauto].
  intros j Hj. left. exists j. by split_and!; [| |constructor|].
Qed.

Lemma jobs_evolve_trans j1 a1 s1 j2 a2 s2 j3 a3 s3 :
  jobs_evolve j1 a1 s1 j2 a2 s2 -> jobs_evolve j2 a2 s2 j3 a3 s3 ->
  jobs_evolve j1 a1 s1 j3 a3 s3.
Proof.
  intros [Hs1 [r1 ->] Hj1 Hn1] [Hs2 [r2 ->] Hj2 Hn2]. split.
  - lia.
  - exists (r1 ++ r2). by rewrite app_assoc.
  - intros j Hj. destruct (Hj1 j Hj) as [(j' & Hin & Hc & Hp & Hst)|(a & Hin & Hc & Hp & Hst)].
    + destruct (Hj2 j' Hin) as [(j'' & Hin' & Hc' & Hp' & Hst')|(a & Hin' & Hc' & Hp' & Hst')].
      * left. exists j''. split_and!; [done | congruence | by etrans | auto].
      * right. exists a. split_and!; [done | congruence | by etrans | auto].
    + right. exists a. split_and!; [|done|done|done]. apply in_or_app. by left.
  - intros j' Hj'. destruct (Hn2 j' Hj') as [(j & Hj & Hc)|?]; [|right; lia].
    destruct (Hn1 j Hj) as [(j0 & Hj0 & Hc0)|?].
    + left. exists j0. split; [done | congruence].
    + right. by rewrite <- Hc.
Qed.

#[global] Instance gate_later_preorder : PreOrder gate_later.
Proof.
  split.
  - intros g. split; done.
  - intros g1 g2 g3 [] []. split; try congruence; try lia. eauto.
Qed.

#[global] Instance signal_later_preorder : PreOrder signal_later.
Proof.
  split.
  - intros s. by repeat split.
  - intros s1 s2 s3 (?&?&?&?&HA) (?&?&?&?&HB). repeat split; try congruence. eauto.
Qed.

#[global] Instance evolve_preorder : PreOrder evolve.
Proof.
  split.
  - intros db. split; [apply jobs_evolve_refl | lia | lia | exists []; by rewrite app_nil_r | |].
    + intros g Hg. by exists g.
    + intros s Hs. by exists s.
  - intros d1 d2 d3 [J1 N1 E1 [l1 L1] G1 S1] [J2 N2 E2 [l2 L2] G2 S2]. split.
    + by eapply jobs_evolve_trans.
    + lia.
    + lia.
    + exists (l1 ++ l2). by rewrite L2, L1, app_assoc.
    + intros g Hg. destruct (G1 g Hg) as (g' & Hg' & Hl). destruct (G2 g' Hg') as (g'' & ? & ?).
      exists g''. split; [done | by etrans].
    + intros s Hs. destruct (S1 s Hs) as (s' & Hs' & Hl). destruct (S2 s' Hs') as (s'' & ? & ?).
      exists s''. split; [done | by etrans].
Qed.

#[global] Instance keeps_preorder : PreOrder keeps.
Proof.
  split.
  - intros db Hwf. by split; [|reflexivity].
  - intros d1 d2 d3 H1 H2 Hwf. destruct (H1 Hwf) as [Hwf2 He1]. destruct (H2 Hwf2) as [Hwf3 He2].
    split; [done | by etrans].
Qed.
