(* ===== verification/Steps.v ===== *)
(** * Every statement keeps the invariant and the history

    The statements that write [jobs] have three shapes: an UPDATE in place, a
    move to the archive and an INSERT; one lemma for each shape, then one line
    per statement.  The lemmas of the form [keeps_*] feed the hint database of
    [stable_tac]. *)

From S2P Require Import Prelude PyStr Errors States Json Records Database Queries Invariant.
Open Scope Z_scope.
Open Scope list_scope.

(** ** Growing name supply and rollback *)

Lemma Forall_lt_mono (l : list N) s s' :
  (s <= s')%N -> Forall (fun i => (i < s)%N) l -> Forall (fun i => (i < s')%N) l.
Proof. intros Hs. apply Forall_impl. lia. Qed.

Lemma wf_jobs_mono jobs arch s s' : (s <= s')%N -> wf_jobs jobs arch s -> wf_jobs jobs arch s'.
Proof. intros Hs []. split; eauto using Forall_lt_mono. Qed.

Lemma wf_gates_mono gates s s' : (s <= s')%N -> wf_gates gates s -> wf_gates gates s'.
Proof. intros Hs []. split; eauto using Forall_lt_mono. Qed.

Lemma jobs_evolve_seq jobs arch s s' : (s <= s')%N -> jobs_evolve jobs arch s jobs arch s'.
Proof. intros Hs. destruct (jobs_evolve_refl jobs arch s). by split. Qed.

(** A later name supply and a later event sequence change nothing else. *)
Lemma keeps_seqs db s e :
  (db_uuid_seq db <= s)%N -> db_event_seq db <= e ->
  keeps db (set_db_uuid_seq s (set_db_event_seq e db)).
Proof.
  intros Hs He [J G [Es El Ep] C [S1 S2] [D1 D2]]. split; [split; simpl|].
  - by eapply wf_jobs_mono.
  - by eapply wf_gates_mono.
  - split; [done | | lia]. eapply Forall_impl; [|exact El]. simpl. lia.
  - done.
  - split; [done | by eapply Forall_lt_mono].
  - split; [done | by eapply Forall_lt_mono].
  - split; simpl; [by apply jobs_evolve_seq | lia | lia | exists []; by rewrite app_nil_r | |].
    + intros g Hg. by exists g.
    + intros s0 Hs0. by exists s0.
Qed.

Lemma keeps_rollback db db' : keeps db db' -> keeps db (rollback db db').
Proof.
  intros H Hwf. destruct (H Hwf) as [_ [J _ E _ _ _]]. destruct J. by apply keeps_seqs.
Qed.

Lemma stable_keeps_transaction {A} (m : DBM A) : stable keeps m -> stable keeps (transaction m).
Proof. intros Hm. apply stable_transaction; [done | apply keeps_rollback]. Qed.

(** ** Frame: a statement that touches no table of the invariant *)

Definition same_core (db db' : DB) : Prop :=
  db_jobs db' = db_jobs db /\ db_archive db' = db_archive db /\ db_events db' = db_events db
  /\ db_gates db' = db_gates db /\ db_uuid_seq db' = db_uuid_seq db
  /\ db_event_seq db' = db_event_seq db /\ db_now db' = db_now db
  /\ db_deps db' = db_deps db.

Lemma keeps_frame db db' :
  same_core db db' ->
  (map_Forall (fun _ n => 0 <= n) (db_group_running db) ->
   map_Forall (fun _ n => 0 <= n) (db_group_running db')) ->
  db_signals db' = db_signals db ->
  keeps db db'.
Proof.
  intros (Ej & Ea & Ee & Eg & Eu & Es & En & Ed) Hc Hs [J G E C S D].
  split; split; rewrite ?Ej, ?Ea, ?Ee, ?Eg, ?Eu, ?Es, ?En, ?Ed, ?Hs; auto;
    [apply jobs_evolve_refl | lia | lia | exists []; by rewrite app_nil_r | |].
  - intros g Hg. by exists g.
  - intros s Hs'. by exists s.
Qed.

(** A change of [jobs], [archive] and the supply only. *)
Lemma keeps_jobs db jobs arch seq :
  (wf db -> wf_jobs jobs arch seq /\
     jobs_evolve (db_jobs db) (db_archive db) (db_uuid_seq db) jobs arch seq) ->
  keeps db (set_db_uuid_seq seq (set_db_archive arch (set_db_jobs jobs db))).
Proof.
  intros H Hwf. destruct (H Hwf) as [J' E']. pose proof (je_seq _ _ _ _ _ _ E') as Hseq.
  destruct Hwf as [J G E C [S1 S2] [D1 D2]].
  split; split; simpl; eauto using wf_gates_mono; try lia.
  - split; [done | by eapply Forall_lt_mono].
  - split; [done | by eapply Forall_lt_mono].
  - exists []. by rewrite app_nil_r.
  - intros g Hg. by exists g.
  - intros s Hs. by exists s.
Qed.

(** ** UPDATE jobs SET f WHERE p *)

(** The row-level obligation of an UPDATE. *)
Record row_update (f : Job -> Job) (j : Job) : Prop := mkRowUpdate {
  ru_cols : j_cols (f j) = j_cols j;
  ru_ok : row_ok j -> row_ok (f j);
  ru_path : path (j_state j) (j_state (f j));
  ru_token : j_lease_token (f j) = None \/ j_lease_token (f j) = j_lease_token j;
  ru_stranded : stranded j -> stranded (f j)
}.

Lemma tokens_update p f jobs :
  (forall j, In j jobs -> p j = true -> row_update f j) ->
  omap j_lease_token (update_where p f jobs) `sublist_of` omap j_lease_token jobs.
Proof.
  induction jobs as [|j jobs IH]; intros H; [constructor|].
  change (update_where p f (j :: jobs)) with ((if p j then f j else j) :: update_where p f jobs).
  rewrite !omap_cons. assert (IH' := IH (fun x Hx => H x (or_intror Hx))).
  destruct (p j) eqn:E.
  - destruct (H j (or_introl eq_refl) E) as [_ _ _ [->| ->] _];
      destruct (j_lease_token j); try constructor; done.
  - destruct (j_lease_token j); try constructor; done.
Qed.

Lemma wf_jobs_update p f jobs arch seq :
  (forall j, In j jobs -> p j = true -> row_update f j) ->
  wf_jobs jobs arch seq ->
  wf_jobs (update_where p f jobs) arch seq
  /\ jobs_evolve jobs arch seq (update_where p f jobs) arch seq.
Proof.
  intros H [Hr Ha Hi Hil Ht Htl Hd].
  assert (map job_id (update_where p f jobs) = map job_id jobs) as Eid.
  { unfold update_where. rewrite map_map. apply map_ext_in. intros j Hj.
    destruct (p j) eqn:E; [|done]. unfold job_id. by rewrite (ru_cols _ _ (H j Hj E)). }
  pose proof (tokens_update p f jobs H) as Hsub. split; [split|split].
  - apply Forall_update_where; [done|]. intros j Hj Hok E. by apply (ru_ok _ _ (H j Hj E)).
  - done.
  - by rewrite Eid.
  - by rewrite Eid.
  - rewrite <- NoDup_ListNoDup in *. by eapply sublist_NoDup.
  - rewrite Forall_forall in Htl |- *. intros t Hin. apply Htl.
    rewrite <- list_elem_of_In in *. by eapply elem_of_sublist.
  - rewrite omap_update_where; [done|]. intros j Hj E. by rewrite (ru_cols _ _ (H j Hj E)).
  - lia.
  - exists []. by rewrite app_nil_r.
  - intros j Hj. left. exists (if p j then f j else j). split; [by apply in_map with (f := fun r => if p r then f r else r)|].
    destruct (p j) eqn:E; [|by split_and!; [|constructor|]].
    destruct (H j Hj E). by split_and!.
  - intros j' (j & Hj & ->)%in_update_where. left. exists j. split; [done|].
    destruct (p j) eqn:E; [|done]. by rewrite (ru_cols _ _ (H j Hj E)).
Qed.

Lemma keeps_update p f db :
  (forall j, In j (db_jobs db) -> row_ok j -> p j = true -> row_update f j) ->
  keeps db (update_jobs p f db).
Proof.
  intros H.
  assert (update_jobs p f db = set_db_uuid_seq (db_uuid_seq db)
            (set_db_archive (db_archive db) (set_db_jobs (update_where p f (db_jobs db)) db))) as ->
    by reflexivity.
  apply keeps_jobs. intros [J _ _ _ _ _]. apply wf_jobs_update; [|done].
  intros j Hj. apply H; [done|]. pose proof (wf_rows _ _ _ J) as Hr. rewrite Forall_forall in Hr. auto.
Qed.

(** ** The move to the archive *)

(** The row-level obligation of a move. *)
Record row_move (f : Job -> Job) (final : JobState) (j : Job) : Prop := mkRowMove {
  rm_cols : j_cols (f j) = j_cols j;
  rm_state : j_state (f j) = j_state j;
  rm_deps : j_remaining_deps (f j) = j_remaining_deps j;
  rm_edge : edge (j_state j) final;
  rm_terminal : is_terminal final = true
}.

Definition archive_rows (p : Job -> bool) (f : Job -> Job) (final : JobState) (db : DB) :=
  map (fun m => mkArchived (f m) (db_now db) final) (sel p (db_jobs db)).

Lemma omap_delete_sublist {B} (t : Job -> option B) p jobs :
  omap t (delete_where p jobs) `sublist_of` omap t jobs.
Proof.
  unfold delete_where. induction jobs as [|j jobs IH]; [constructor|]. simpl List.filter.
  destruct (p j); simpl negb; cbv iota; rewrite ?omap_cons; destruct (t j); try constructor; done.
Qed.

Lemma ids_move p f final db :
  (forall j, In j (db_jobs db) -> p j = true -> row_move f final j) ->
  map job_id (delete_where p (db_jobs db)) ++
    map archived_id (db_archive db ++ archive_rows p f final db)
  ≡ₚ map job_id (db_jobs db) ++ map archived_id (db_archive db).
Proof.
  intros H. unfold archive_rows.
  assert (map archived_id (map (fun m => mkArchived (f m) (db_now db) final) (sel p (db_jobs db)))
          = map job_id (sel p (db_jobs db))) as E.
  { rewrite map_map. apply map_ext_in. intros j [Hj Hp]%in_sel. unfold archived_id, job_id. simpl.
    by rewrite (rm_cols _ _ _ (H j Hj Hp)). }
  rewrite map_app, E, (Permutation_app_comm (map archived_id (db_archive db))), app_assoc.
  apply Permutation_app; [|done]. rewrite <- map_app. apply Permutation_map, sel_delete_perm.
Qed.

Lemma wf_jobs_move p f final db :
  (forall j, In j (db_jobs db) -> p j = true -> row_move f final j) ->
  wf_jobs (db_jobs db) (db_archive db) (db_uuid_seq db) ->
  wf_jobs (delete_where p (db_jobs db)) (db_archive db ++ archive_rows p f final db) (db_uuid_seq db)
  /\ jobs_evolve (db_jobs db) (db_archive db) (db_uuid_seq db)
       (delete_where p (db_jobs db)) (db_archive db ++ archive_rows p f final db) (db_uuid_seq db).
Proof.
  intros H [Hr Ha Hi Hil Ht Htl Hd]. pose proof (ids_move p f final db H) as Hids.
  split; [split|split].
  - by apply Forall_delete_where.
  - apply Forall_app. split; [done|]. unfold archive_rows. rewrite Forall_forall.
    intros a (j & <- & [Hj Hp]%in_sel)%in_map_iff. destruct (H j Hj Hp) as [_ Hs _ He Ht'].
    unfold archived_ok. simpl. by rewrite Hs.
  - rewrite <- NoDup_ListNoDup in *. by rewrite Hids.
  - by rewrite Hids.
  - rewrite <- NoDup_ListNoDup in *. by eapply sublist_NoDup; [|apply omap_delete_sublist].
  - rewrite Forall_forall in Htl |- *. intros t Hin. apply Htl.
    rewrite <- list_elem_of_In in *. by eapply elem_of_sublist; [|apply omap_delete_sublist].
  - rewrite <- NoDup_ListNoDup in *. by eapply sublist_NoDup; [|apply omap_delete_sublist].
  - lia.
  - eauto.
  - intros j Hj. destruct (p j) eqn:E.
    + right. destruct (H j Hj E) as [Hc Hs Hr' He _]. exists (mkArchived (f j) (db_now db) final). split_and!.
      * apply in_or_app. right. apply in_map_iff. exists j. split; [done|]. by apply in_sel.
      * done.
      * by apply rtc_once.
      * unfold stranded. simpl. by rewrite Hs, Hr'.
    + left. exists j. split_and!; [by apply in_delete_where | done | constructor | done].
  - intros j' [Hj' _]%in_delete_where. left. by exists j'.
Qed.

Lemma keeps_move p f final db :
  (forall j, In j (db_jobs db) -> row_ok j -> p j = true -> row_move f final j) ->
  keeps db (fst (move_to_archive p f final db)).
Proof.
  intros H.
  assert (fst (move_to_archive p f final db) = set_db_uuid_seq (db_uuid_seq db)
            (set_db_archive (db_archive db ++ archive_rows p f final db)
               (set_db_jobs (delete_where p (db_jobs db)) db))) as -> by reflexivity.
  apply keeps_jobs. intros [J _ _ _ _ _]. apply wf_jobs_move; [|done].
  intros j Hj. apply H; [done|]. pose proof (wf_rows _ _ _ J) as Hr. rewrite Forall_forall in Hr. auto.
Qed.

(** ** INSERT INTO jobs *)

(** A fresh row starts submitted or queued. *)
Definition initial_state (s : SubmitSpec) : Prop := s_state s = SUBMITTED \/ s_state s = QUEUED.

Lemma inserted_row_ok db id s rf : initial_state s -> row_ok (inserted_job db id s rf).
Proof.
  intros Hs. assert (~ is_Some (@None N)) as Hn by (intros [? ?]; done).
  assert (~ is_Some (@None string)) as Hn' by (intros [? ?]; done).
  destruct Hs as [E|E]; split; simpl; rewrite E; (split || idtac); try done; by intros [? ?].
Qed.

Lemma omap_snoc {A B} (t : A -> option B) l x :
  omap t (l ++ [x]) = omap t l ++ match t x with Some b => [b] | None => [] end.
Proof.
  induction l as [|y l IH]; [rewrite app_nil_l, omap_cons; by destruct (t x)|].
  rewrite <- app_comm_cons, !omap_cons, IH. by destruct (t y).
Qed.

Lemma NoDup_snoc {A} (l : list A) x : List.NoDup l -> ~ In x l -> List.NoDup (l ++ [x]).
Proof.
  intros Hl Hx. rewrite <- NoDup_ListNoDup in *. rewrite <- list_elem_of_In in Hx.
  rewrite <- Permutation_cons_append. by constructor.
Qed.

Definition no_conflict (s : SubmitSpec) (jobs : list Job) : Prop :=
  forall j, In j jobs -> dedup_conflict s j = false.

Lemma no_conflict_dedup s jobs db id rf :
  no_conflict s jobs ->
  List.NoDup (omap (fun j : Job => dedup_of j) jobs) ->
  List.NoDup (omap (fun j : Job => dedup_of j) (jobs ++ [inserted_job db id s rf])).
Proof.
  intros Hc Hnd. rewrite omap_snoc. unfold dedup_of at 2. simpl.
  destruct (s_dedup_key s) as [k|] eqn:E; [|by rewrite app_nil_r].
  apply NoDup_snoc; [done|]. intros (j & Hj & Hd)%in_omap. specialize (Hc j Hj).
  unfold dedup_conflict in Hc. unfold dedup_of in Hd. rewrite E in Hc.
  destruct (c_dedup_key j) as [k'|]; [|done]. injection Hd as Ht Hk. simpl in Hc.
  rewrite Ht, Hk, !String.eqb_refl in Hc. done.
Qed.

Lemma keeps_insert s rf db :
  initial_state s -> no_conflict s (db_jobs db) -> keeps db (fst (insert_job s rf db)).
Proof.
  intros Hs Hc.
  assert (fst (insert_job s rf db) = set_db_uuid_seq (N.succ (db_uuid_seq db))
            (set_db_archive (db_archive db)
               (set_db_jobs (db_jobs db ++ [inserted_job db (db_uuid_seq db) s rf]) db))) as ->
    by reflexivity.
  apply keeps_jobs. intros [[Hr Ha Hi Hil Ht Htl Hd] _ _ _ _ _].
  set (j := inserted_job db (db_uuid_seq db) s rf).
  assert (map job_id (db_jobs db ++ [j]) ++ map archived_id (db_archive db)
          ≡ₚ (map job_id (db_jobs db) ++ map archived_id (db_archive db)) ++ [db_uuid_seq db]) as Hids.
  { rewrite map_app, <- !app_assoc. apply Permutation_app; [done|]. apply Permutation_app_comm. }
  split; [split|split].
  - apply Forall_app. split; [done|]. constructor; [by apply inserted_row_ok | constructor].
  - done.
  - rewrite <- NoDup_ListNoDup in *. rewrite Hids, NoDup_ListNoDup.
    apply NoDup_snoc; [by rewrite <- NoDup_ListNoDup|]. intros Hin. rewrite Forall_forall in Hil.
    specialize (Hil _ Hin). simpl in Hil. lia.
  - rewrite Hids. apply Forall_app. split; [eapply Forall_lt_mono; [|done]; lia | repeat constructor; lia].
  - rewrite omap_snoc. simpl. by rewrite app_nil_r.
  - rewrite omap_snoc. simpl. rewrite app_nil_r. eapply Forall_lt_mono; [|done]; lia.
  - by apply no_conflict_dedup.
  - lia.
  - exists []. by rewrite app_nil_r.
  - intros j' Hj'. left. exists j'. split_and!; [apply in_or_app; by left | done | constructor | done].
  - intros j' [Hj'|[<-|[]]]%in_app_or; [left; by exists j' | right; simpl; lia].
Qed.

(** ** The statements, one by one *)

Lemma not_Some_None {A} : ~ is_Some (@None A).
Proof. by intros [? ?]. Qed.
#[local] Hint Resolve not_Some_None : core.

Lemma lease_guard_spec i t j :
  lease_guard i t j = true <->
  c_id j = i /\ j_lease_token j = Some t /\ j_state j = RUNNING.
Proof.
  unfold lease_guard, opt_N_eqb. rewrite !andb_true_iff, N.eqb_eq, bool_decide_eq_true, JobState_eqb_eq.
  tauto.
Qed.

(** [row_ok] by cases on the state. *)
Lemma row_ok_shape j :
  row_ok j <->
  match j_state j with
  | RUNNING => is_Some (j_lease_token j) /\ j_wait_key j = None
  | WAITING => j_lease_token j = None /\ is_Some (j_wait_key j)
  | SUBMITTED | QUEUED => j_lease_token j = None /\ j_wait_key j = None
  | _ => False
  end.
Proof.
  split.
  - intros [Hl Hr Hw]. destruct (j_lease_token j) as [t|], (j_wait_key j) as [w|];
      destruct (j_state j) eqn:E; try done; split; eauto; exfalso;
      first [ destruct (proj1 Hr eq_refl); done | destruct (proj1 Hw eq_refl); done
            | by pose proof (proj2 Hr ltac:(eauto)) | by pose proof (proj2 Hw ltac:(eauto)) ].
  - destruct (j_state j) eqn:E; try done; intros [Ht Hw]; split; rewrite E, ?Ht, ?Hw; try done;
      split; intros Hx; try done; by destruct Hx.
Qed.

(** Discharge the row obligation of an UPDATE of rows in a known state. *)
Ltac row_tac Hok Est :=
  apply row_ok_shape in Hok; rewrite Est in Hok; destruct Hok as [? ?];
  split; simpl; rewrite ?Est; try done; try (by left); try (by right);
  try (apply rtc_once; reflexivity); try (by apply rtc_refl);
  try (intros _; apply row_ok_shape; simpl; rewrite ?Est; by split);
  try (intros [? _]; congruence).

Lemma keeps_fail i t run_at entry db : keeps db (fst (sql_fail i t run_at entry db)).
Proof.
  apply keeps_update. intros j _ Hok (_ & Htok & Est)%lease_guard_spec. row_tac Hok Est.
Qed.

Lemma keeps_heartbeat i t db : keeps db (fst (sql_heartbeat i t db)).
Proof.
  apply keeps_update. intros j _ Hok (_ & Htok & Est)%lease_guard_spec. row_tac Hok Est.
Qed.

Lemma keeps_wait_park i t k timeout db : keeps db (fst (sql_wait_park i t k timeout db)).
Proof.
  apply keeps_update. intros j _ Hok (_ & Htok & Est)%lease_guard_spec. row_tac Hok Est.
Qed.

Lemma keeps_complete i t r db : keeps db (fst (sql_complete i t r SUCCEEDED db)).
Proof.
  unfold sql_complete. pose proof (keeps_move (lease_guard i t) (set_j_result r) SUCCEEDED db) as H.
  destruct (move_to_archive _ _ _ _) as [db' rows]. apply H.
  intros j _ _ (_ & _ & Est)%lease_guard_spec. by split; simpl; rewrite ?Est.
Qed.

Lemma keeps_fail_die i t e db : keeps db (fst (sql_fail_die i t e db)).
Proof.
  unfold sql_fail_die. pose proof (keeps_move (lease_guard i t) (append_error e) DEAD db) as H.
  destruct (move_to_archive _ _ _ _) as [db' rows]. apply H.
  intros j _ _ (_ & _ & Est)%lease_guard_spec. by split; simpl; rewrite ?Est.
Qed.

(** Every live state may be cancelled. *)
Lemma row_move_cancel j : row_ok j -> row_move (fun j => j) CANCELLED j.
Proof. intros [Hl _ _]. split; try done. by destruct (j_state j). Qed.

Lemma keeps_cancel i db : keeps db (fst (sql_cancel i db)).
Proof.
  unfold sql_cancel. pose proof (keeps_move (cancellable i) (fun j => j) CANCELLED db) as H.
  destruct (move_to_archive _ _ _ _) as [db' rows]. apply H. intros j _ Hok _. by apply row_move_cancel.
Qed.

Lemma keeps_cascade_cancel i db : keeps db (fst (sql_cascade_cancel i db)).
Proof.
  unfold sql_cascade_cancel.
  pose proof (keeps_move (fun j => existsb (N.eqb (c_id j)) (cone i db)) (fun j => j) CANCELLED db) as H.
  destruct (move_to_archive _ _ _ _) as [db' rows]. apply H. intros j _ Hok _. by apply row_move_cancel.
Qed.

(** An UPDATE that leaves the state, the lease and the wait key alone. *)
Lemma row_update_same f j :
  j_cols (f j) = j_cols j -> j_state (f j) = j_state j ->
  j_lease_token (f j) = j_lease_token j -> j_wait_key (f j) = j_wait_key j ->
  j_remaining_deps (f j) <= j_remaining_deps j ->
  row_update f j.
Proof.
  intros Hc Hs Ht Hw Hr. split; [done | | rewrite Hs; apply rtc_refl | by right |].
  - rewrite !row_ok_shape. by rewrite Hs, Ht, Hw.
  - unfold stranded. rewrite Hs. intuition lia.
Qed.

Lemma keeps_cancel_running i db : keeps db (fst (sql_cancel_running i db)).
Proof. apply keeps_update. intros j _ _ _. by apply row_update_same. Qed.

Lemma keeps_set_claimed_by l db : keeps db (fst (sql_set_claimed_by l db)).
Proof.
  apply keeps_update. intros j _ _ _.
  apply row_update_same; destruct (List.find _ l) as [[[? ?] ?]|]; done.
Qed.

(** The guard under which [decrement_deps] promotes a row. *)
Definition promotes (now : time) (j : Job) : bool :=
  (j_remaining_deps j - 1 =? 0) && JobState_eqb (j_state j) SUBMITTED && (j_run_at j <=? now).

Lemma decremented_state now j :
  j_state (decremented now j) = if promotes now j then QUEUED else j_state j.
Proof. reflexivity. Qed.

Lemma row_update_decremented now j : row_ok j -> row_update (decremented now) j.
Proof.
  intros Hok. destruct (promotes now j) eqn:E.
  - assert (j_state j = SUBMITTED) as Est.
    { unfold promotes in E. bool_prop. by state_cases. }
    apply row_ok_shape in Hok. rewrite Est in Hok.
    split; rewrite ?decremented_state, ?E, ?Est; [done | | by apply rtc_once | by right |].
    + intros _. apply row_ok_shape. by rewrite decremented_state, E.
    + intros [_ Hr]. unfold promotes in E. bool_prop. lia.
  - apply row_update_same; try done; [by rewrite decremented_state, E | simpl; lia].
Qed.

Lemma keeps_decrement_deps i db : keeps db (fst (sql_decrement_deps i db)).
Proof. apply keeps_update. intros j _ Hok _. by apply row_update_decremented. Qed.

Lemma keeps_resume p payload db :
  (forall j, In j (db_jobs db) -> p j = true -> j_state j = WAITING) ->
  keeps db (update_jobs p (resume payload (db_now db)) db).
Proof.
  intros H. apply keeps_update. intros j Hj Hok Hp. pose proof (H j Hj Hp) as Est. row_tac Hok Est.
Qed.

Lemma in_ids_sub l jobs j :
  (forall x, In x l -> In x jobs) -> List.NoDup (map job_id jobs) ->
  In j jobs -> in_ids l j = true -> In j l.
Proof.
  intros Hsub Hnd Hj (e & He & Heq)%existsb_exists. bool_prop.
  assert (e = j) as <-; [|done]. by apply (NoDup_map_inj job_id jobs); auto.
Qed.

Lemma wf_job_ids db : wf db -> List.NoDup (map job_id (db_jobs db)).
Proof. intros [[_ _ H _ _ _ _] _ _ _ _ _]. by apply NoDup_app_remove_r in H. Qed.

Lemma in_limit {A} n (l : list A) x : In x (limit n l) -> In x l.
Proof. apply in_take. Qed.

Lemma expired_waits_spec lk lim db j :
  In j (expired_waits lk lim db) ->
  In j (db_jobs db) /\ j_state j = WAITING /\ sql_lt (j_wait_expires_at j) (db_now db) = true.
Proof.
  intros H%in_limit. apply order_by_In in H. apply in_sel in H as [Hj Hp]. bool_prop. by state_cases.
Qed.

(** [keeps] may be proved under the invariant. *)
Lemma keeps_wf db db' : (wf db -> keeps db db') -> keeps db db'.
Proof. intros H Hwf. by apply H. Qed.

Lemma keeps_sweep_waits lk lim db : keeps db (fst (sql_sweep_waits lk lim db)).
Proof.
  apply keeps_wf. intros Hwf. apply keeps_resume. intros j Hj Hin.
  apply (expired_waits_spec lk lim db). eapply in_ids_sub; [| by apply wf_job_ids | done | done].
  intros x Hx. by apply expired_waits_spec in Hx as [? _].
Qed.

Lemma in_head {A} (l : list A) x : head l = Some x -> In x l.
Proof. destruct l; [done|]. intros [= ->]. by left. Qed.

Lemma signal_target_spec lk tenant k db j :
  signal_target lk tenant k db = Some j ->
  In j (db_jobs db) /\ j_state j = WAITING /\ c_tenant j = tenant /\ j_wait_key j = Some k
  /\ locked_job lk (c_id j) = false.
Proof.
  intros H%in_head. apply order_by_In in H. apply in_sel in H as [Hj Hp]. bool_prop. state_cases.
  destruct (j_wait_key j); simpl in *; [|done]. bool_prop. by subst.
Qed.

Lemma keeps_signal lk tenant k payload db : keeps db (fst (sql_signal lk tenant k payload db)).
Proof.
  apply keeps_wf. intros Hwf. unfold sql_signal.
  destruct (signal_target lk tenant k db) as [t|] eqn:E; [|done].
  apply signal_target_spec in E as (Ht & Hst & _). apply keeps_resume. intros j Hj Hid. bool_prop.
  assert (j = t) as ->; [|done]. by apply (NoDup_map_inj job_id (db_jobs db)); auto using wf_job_ids.
Qed.

Lemma keeps_submit s db : initial_state s -> keeps db (fst (sql_submit s db)).
Proof.
  intros Hs. unfold sql_submit. destruct (List.find _ _) as [j|] eqn:E; [done|].
  pose proof (keeps_insert s None db Hs) as H. destruct (insert_job s None db). apply H.
  intros j Hj. by apply (find_none _ _ E).
Qed.

(** An INSERT without a dedup key never conflicts. *)
Lemma no_key_no_conflict s jobs : s_dedup_key s = None -> no_conflict s jobs.
Proof. intros E j _. unfold dedup_conflict. rewrite E. destruct (c_dedup_key j); apply andb_false_r. Qed.

Lemma keeps_continuation s db :
  s_state s = QUEUED -> s_dedup_key s = None -> keeps db (fst (sql_complete_continuation s db)).
Proof. intros. apply keeps_insert; [by right | by apply no_key_no_conflict]. Qed.

Lemma keeps_resubmit i tenant db : keeps db (fst (sql_resubmit i tenant db)).
Proof.
  unfold sql_resubmit. destruct (List.find _ _) as [a|] eqn:E; [|done].
  pose proof (keeps_insert (resubmit_spec a) (Some i) db) as H.
  destruct (insert_job _ _ db). apply H; [by right | by apply no_key_no_conflict].
Qed.

Lemma expired_leases_spec lk lim g db j :
  In j (expired_leases lk lim g db) ->
  In j (db_jobs db) /\ j_state j = RUNNING /\ abandoned g db j = true
  /\ (j_cancel_requested j = true \/ j_attempt j < c_max_attempts j).
Proof.
  intros H%in_limit. apply order_by_In in H. apply in_sel in H as [Hj Hp]. bool_prop. state_cases.
  split_and!; try done. destruct (j_cancel_requested j); [by left|]. right.
  match goal with H : (false || _) = true |- _ => simpl in H end. by bool_prop.
Qed.

Lemma in_ids_expired lk lim g db j :
  wf db -> In j (db_jobs db) -> in_ids (expired_leases lk lim g db) j = true ->
  In j (expired_leases lk lim g db).
Proof.
  intros Hwf Hj Hin. eapply in_ids_sub; [| by apply wf_job_ids | done | done].
  intros x Hx. by apply expired_leases_spec in Hx as [? _].
Qed.

(** A counter table with other non-negative values. *)
Lemma keeps_counters db m :
  (map_Forall (fun _ n => 0 <= n) (db_group_running db) -> map_Forall (fun _ n => 0 <= n) m) ->
  keeps db (set_db_group_running m db).
Proof. intros H. apply keeps_frame; [by repeat split | done | done]. Qed.

Lemma release_counters_nonneg rows m :
  map_Forall (fun _ n => 0 <= n) m -> map_Forall (fun _ n => 0 <= n) (release_counters rows m).
Proof.
  intros Hm k n. unfold release_counters. rewrite map_lookup_imap.
  destruct (m !! k) as [r|] eqn:E; simpl; [|done]. intros [= <-].
  specialize (Hm k r E). simpl in Hm. destruct (_ =? 0); lia.
Qed.

Lemma keeps_sweep_leases lk lim g db : keeps db (fst (sql_sweep_leases lk lim g db)).
Proof.
  apply keeps_wf. intros Hwf. unfold sql_sweep_leases.
  set (exp := expired_leases lk lim g db).
  pose proof (keeps_move (fun j : Job => in_ids exp j && j_cancel_requested j) (fun j => j)
                CANCELLED db) as H1.
  destruct (move_to_archive _ _ _ _) as [db1 rows] eqn:E1. simpl in H1 |- *.
  etrans; [apply H1; intros j _ Hok _; by apply row_move_cancel|].
  etrans; [|apply keeps_counters, release_counters_nonneg].
  apply keeps_update. intros j Hj Hok Hp. bool_prop.
  assert (In j (db_jobs db)) as Hj'.
  { unfold move_to_archive in E1. injection E1 as <- _. simpl in Hj. by apply in_delete_where in Hj as [? _]. }
  pose proof (in_ids_expired lk lim g db j Hwf Hj' ltac:(done)) as (_ & Est & _)%expired_leases_spec.
  row_tac Hok Est.
Qed.

Lemma keeps_decrement_group k n db : keeps db (fst (sql_decrement_group k n db)).
Proof.
  apply keeps_counters. intros Hm k' v. rewrite lookup_alter.
  destruct (decide (k = k')) as [<-|Hne]; [|by apply Hm].
  destruct (db_group_running db !! k) as [r|] eqn:E; simpl; [|done]. intros [= <-]. lia.
Qed.

Lemma keeps_reconcile db : keeps db (fst (sql_reconcile_groups db)).
Proof.
  apply keeps_counters. intros Hm k v. rewrite map_lookup_imap.
  destruct (db_group_running db !! k); simpl; [|done]. intros [= <-]. unfold actual_running. lia.
Qed.

(** The dependent must be an existing job: a name already drawn. *)
Lemma keeps_insert_dependency i u a db :
  (i < db_uuid_seq db)%N -> keeps db (fst (sql_insert_dependency i u a db)).
Proof.
  intros Hi. unfold sql_insert_dependency. simpl. destruct (existsb _ _) eqn:E; [done|].
  intros [J G L C S [D1 D2]]. split; [split; simpl; try done|split; simpl; try lia].
  - rewrite !map_app. simpl. split.
    2:{ apply Forall_app. split; [done|]. by repeat constructor. }
    apply NoDup_snoc; [done|]. intros (d & Hd & Hin)%in_map_iff.
    injection Hd as E1 E2. rewrite <- not_true_iff_false in E. apply E, existsb_exists.
    exists d. split; [done|]. unfold dep_key_eqb. simpl. by rewrite E1, E2, !N.eqb_refl.
  - apply jobs_evolve_refl.
  - exists []. by rewrite app_nil_r.
  - intros g Hg. by exists g.
  - intros s Hs. by exists s.
Qed.

Lemma keeps_record_event i ev det db : keeps db (fst (sql_record_event i ev det db)).
Proof.
  intros [J G [Es El Ep] C S D]. split; [split; simpl; try done|split; simpl; try lia].
  - split.
    + assert (forall l, StronglySorted (fun a b => ev_id a < ev_id b) l ->
                Forall (fun e => 0 < ev_id e < db_event_seq db) l ->
                forall e, ev_id e = db_event_seq db ->
                StronglySorted (fun a b => ev_id a < ev_id b) (l ++ [e])) as Hsnoc.
      { induction 1 as [|x l Hl IH Hx]; simpl; intros Hlt e He; [repeat constructor|].
        invert Hlt. constructor; [by apply IH|]. apply Forall_app. split; [done|]. repeat constructor. lia. }
      by apply Hsnoc.
    + apply Forall_app. split; [eapply Forall_impl; [|exact El]; simpl; lia|]. repeat constructor; simpl; lia.
    + lia.
  - apply jobs_evolve_refl.
  - by eexists.
  - intros g Hg. by exists g.
  - intros s Hs. by exists s.
Qed.

(** ** Gates *)

Lemma keeps_gates db gates seq :
  (db_uuid_seq db <= seq)%N ->
  (wf_gates (db_gates db) (db_uuid_seq db) -> wf_gates gates seq /\
     (forall g, In g (db_gates db) -> exists g', In g' gates /\ gate_later g g')) ->
  keeps db (set_db_gates gates (set_db_uuid_seq seq db)).
Proof.
  intros Hs H [J G L C [S1 S2] [D1 D2]]. destruct (H G) as [G' E'].
  split; [split; simpl; try done|split; simpl; try lia].
  - by eapply wf_jobs_mono.
  - split; [done | by eapply Forall_lt_mono].
  - split; [done | by eapply Forall_lt_mono].
  - by apply jobs_evolve_seq.
  - exists []. by rewrite app_nil_r.
  - done.
  - intros s Hs'. by exists s.
Qed.

Lemma keeps_create_gate tenant ctx policy n q oc db :
  0 < n -> keeps db (fst (sql_create_gate tenant ctx policy n q oc db)).
Proof.
  intros Hn. apply (keeps_gates db); [lia|]. intros [Hg Hi Hl]. split; [split|].
  - apply Forall_app. split; [done|]. constructor; [|constructor]. split; simpl; try lia; try done.
    intros _ Hq. unfold decided, gate_decision, quorum_positive in *. simpl in *.
    destruct (String.eqb policy "all_success"); [apply andb_false_iff; left; lia|].
    destruct (String.eqb policy "all_terminal"); [lia|]. destruct q; simpl; lia.
  - rewrite map_app. simpl. apply NoDup_snoc; [done|]. rewrite Forall_forall in Hl. intros Hin.
    specialize (Hl _ Hin). simpl in Hl. lia.
  - rewrite map_app. apply Forall_app. split; [eapply Forall_lt_mono; [|done]; lia|].
    repeat constructor. simpl. lia.
  - intros g Hgin. exists g. split; [apply in_or_app; by left | done].
Qed.

Lemma bumped_gate_later now cs cf g : gate_later g (bumped_gate now cs cf g).
Proof.
  split; simpl; try done; try lia; try (destruct cs; lia); try (destruct cf; lia).
  intros t E. by rewrite E.
Qed.

Lemma bumped_gate_ok now cs cf g : cs && cf = false -> gate_ok g -> gate_ok (bumped_gate now cs cf g).
Proof.
  intros Hc [He Hs Hf Hn Ho Hu].
  assert (g_fired_at (bumped_gate now cs cf g) = None ->
          decided (bumped_gate now cs cf g) || (g_expected_children g <=? g_completed_children g + 1)
          = false) as Hres.
  { unfold decided. simpl. destruct (g_fired_at g); simpl; [done|].
    destruct (gate_decision _ _ _ _ _ _ || _); done. }
  split; try (simpl; lia); try (destruct cs; simpl; lia); try (destruct cf; simpl; lia).
  - destruct cs, cf; try done; simpl; lia.
  - intros Hfn. specialize (Hres Hfn). bool_prop. simpl. lia.
  - intros Hfn _. specialize (Hres Hfn). by bool_prop.
Qed.

Lemma keeps_bump_gate i cs cf db : cs && cf = false -> keeps db (fst (sql_bump_gate i cs cf db)).
Proof.
  intros Hc.
  assert (fst (sql_bump_gate i cs cf db) = set_db_gates
    (update_where (fun g => N.eqb (g_id g) i) (bumped_gate (db_now db) cs cf) (db_gates db))
    (set_db_uuid_seq (db_uuid_seq db) db)) as -> by reflexivity.
  apply keeps_gates; [lia|]. intros [Hg Hi Hl].
  assert (map g_id (update_where (fun g => N.eqb (g_id g) i) (bumped_gate (db_now db) cs cf) (db_gates db))
          = map g_id (db_gates db)) as Eid by (by apply map_update_where).
  split; [split; rewrite ?Eid; try done|].
  - apply Forall_update_where; [done|]. intros g _ Hok _. by apply bumped_gate_ok.
  - intros g Hgin. exists (if N.eqb (g_id g) i then bumped_gate (db_now db) cs cf g else g). split.
    + apply in_update_where. by exists g.
    + destruct (N.eqb _ _); [apply bumped_gate_later | done].
Qed.

(** ** Signals *)

Lemma keeps_signals db sigs seq :
  (db_uuid_seq db <= seq)%N ->
  (List.NoDup (map sg_id (db_signals db)) /\
     Forall (fun i => (i < db_uuid_seq db)%N) (map sg_id (db_signals db)) ->
   List.NoDup (map sg_id sigs) /\ Forall (fun i => (i < seq)%N) (map sg_id sigs)) ->
  (forall s, In s (db_signals db) -> exists s', In s' sigs /\ signal_later s s') ->
  keeps db (set_db_signals sigs (set_db_uuid_seq seq db)).
Proof.
  intros Hs H E' [J G L C S [D1 D2]]. split; [split; simpl; try done|split; simpl; try lia].
  - by eapply wf_jobs_mono.
  - by eapply wf_gates_mono.
  - by apply H.
  - split; [done | by eapply Forall_lt_mono].
  - by apply jobs_evolve_seq.
  - exists []. by rewrite app_nil_r.
  - intros g Hg. by exists g.
  - done.
Qed.

Lemma keeps_signal_insert tenant k p by_ db : keeps db (fst (sql_signal_insert tenant k p by_ db)).
Proof.
  apply (keeps_signals db); [lia| |].
  - intros [Hn Hl]. rewrite !map_app. split.
    + simpl. apply NoDup_snoc; [done|]. rewrite Forall_forall in Hl. intros Hin.
      specialize (Hl _ Hin). simpl in Hl. lia.
    + apply Forall_app. split; [eapply Forall_lt_mono; [|done]; lia|]. repeat constructor. simpl. lia.
  - intros s Hs. exists s. split; [apply in_or_app; by left | done].
Qed.

Lemma pending_signal_spec lk tenant k db s :
  pending_signal lk tenant k db = Some s ->
  In s (db_signals db) /\ sg_tenant s = tenant /\ sg_wait_key s = k /\ sg_consumed_at s = None
  /\ locked_signal lk (sg_id s) = false.
Proof.
  intros H%in_head. apply order_by_In in H. apply in_sel in H as [Hj Hp]. bool_prop.
  by destruct (sg_consumed_at s).
Qed.

Lemma keeps_wait_consume lk tenant k db : keeps db (fst (sql_wait_consume lk tenant k db)).
Proof.
  apply keeps_wf. intros Hwf. unfold sql_wait_consume.
  destruct (pending_signal lk tenant k db) as [s|] eqn:E; [|done].
  apply pending_signal_spec in E as (Hs & _ & _ & Hc & _).
  destruct Hwf as [_ _ _ _ [Hnd Hlt] _].
  change (set_db_signals ?l db) with (set_db_signals l (set_db_uuid_seq (db_uuid_seq db) db)).
  apply (keeps_signals db _ (db_uuid_seq db)); [lia| |].
  - intros [Hn Hl]. by rewrite !map_update_where.
  - intros s0 Hs0. exists (if N.eqb (sg_id s0) (sg_id s) then set_sg_consumed_at (Some (db_now db)) s0 else s0).
    split; [apply in_update_where; by exists s0|].
    destruct (N.eqb_spec (sg_id s0) (sg_id s)) as [Eq|]; [|done].
    assert (s0 = s) as -> by (by apply (NoDup_map_inj sg_id (db_signals db))).
    repeat split; try done. intros t. by rewrite Hc.
Qed.
