(* ===== verification/ClaimFacts.v ===== *)
(** * What a claim guarantees

    Facts about the window functions, then about the candidate set, then that
    the two claim statements keep the invariant. *)

From S2P Require Import Prelude PyStr Errors States Json Records Database Queries Claim Invariant.
From S2P Require Import Steps.
Open Scope Z_scope.
Open Scope list_scope.

(** ** Window functions *)

Section Windows.
Context {A : Type} (same : A -> A -> bool).

Lemma number_rows_fst seen l : map fst (number_rows same seen l) = l.
Proof. revert seen. induction l as [|x l IH]; intros seen; simpl; [done|]. by rewrite IH. Qed.

Lemma number_rows_pos seen l r : In r (number_rows same seen l) -> 1 <= snd r.
Proof.
  revert seen. induction l as [|x l IH]; intros seen; simpl; [done|]. intros [<-|H]; [simpl; lia|].
  by apply (IH (x :: seen)).
Qed.

Hypothesis same_sym : forall x y, same x y = same y x.
Hypothesis same_trans : forall x y z, same x y = true -> same y z = true -> same x z = true.

Lemma same_class x y : same x y = true -> forall z, same x z = same y z.
Proof.
  intros Hxy z. destruct (same x z) eqn:E1, (same y z) eqn:E2; try done.
  - rewrite <- E2. symmetry. apply (same_trans y x z); [by rewrite same_sym | done].
  - rewrite <- E1. apply (same_trans x y z); done.
Qed.

(** At most [n] rows of one partition have a row number up to [n]. *)
Lemma number_rows_bound x n seen l :
  Z.of_nat (count (fun r => same x (fst r) && (snd r <=? n)) (number_rows same seen l))
  <= Z.max 0 (n - Z.of_nat (count (same x) seen)).
Proof.
  revert seen. induction l as [|y l IH]; intros seen; [unfold count; simpl; lia|].
  simpl number_rows. rewrite count_cons. specialize (IH (y :: seen)).
  rewrite count_cons in IH. cbn [fst snd].
  destruct (same x y) eqn:E; cbn [andb] in *; [|lia].
  assert (count (same y) seen = count (same x) seen) as ->.
  { apply count_ext. intros z _. by rewrite (same_class x y E). }
  destruct (Z.leb_spec (Z.of_nat (S (count (same x) seen))) n); lia.
Qed.
End Windows.

Lemma row_number_In same rows j n : In (j, n) (row_number same rows) -> In j rows.
Proof.
  intros H. apply (in_map fst) in H. unfold row_number in H. rewrite number_rows_fst in H.
  by apply order_by_In in H.
Qed.

Lemma rn_of_Some same rows jobs j n :
  (forall x, In x rows -> In x jobs) -> List.NoDup (map job_id jobs) -> In j jobs ->
  rn_of (row_number same rows) j = Some n -> In (j, n) (row_number same rows).
Proof.
  intros Hsub Hnd Hj. unfold rn_of. destruct (List.find _ _) as [[x m]|] eqn:E; [|done].
  intros [= <-]. apply find_some in E as [Hin Hid]. simpl in *. bool_prop.
  assert (x = j) as <-; [|done]. apply (NoDup_map_inj job_id jobs); auto.
  apply Hsub. by eapply row_number_In.
Qed.

(** Rows of one partition whose row number is at most [n] are at most [n]. *)
Lemma ranked_bound same rows jobs x n l :
  (forall a b, same a b = same b a) ->
  (forall a b c, same a b = true -> same b c = true -> same a c = true) ->
  (forall j, In j rows -> In j jobs) -> List.NoDup (map job_id jobs) ->
  List.NoDup l ->
  (forall j, In j l -> In j jobs /\ same x j = true /\
     exists m, rn_of (row_number same rows) j = Some m /\ m <= n) ->
  Z.of_nat (length l) <= Z.max 0 n.
Proof.
  intros Hsym Htr Hsub Hnd Hl Hall.
  pose proof (number_rows_bound same Hsym Htr x n [] (order_by claim_le rows)) as Hb.
  change (count (same x) []) with 0%nat in Hb. rewrite Z.sub_0_r in Hb.
  etrans; [|exact Hb]. apply inj_le. unfold count.
  rewrite <- (length_map fst). apply NoDup_incl_length; [done|]. intros j Hj.
  destruct (Hall j Hj) as (Hjj & Hs & m & Hm & Hle).
  apply in_map_iff. exists (j, m). split; [done|]. apply in_sel. split.
  - by eapply rn_of_Some.
  - simpl. rewrite Hs. simpl. by apply Z.leb_le.
Qed.

Lemma same_rate_sym a b : same_rate a b = same_rate b a.
Proof. unfold same_rate. apply bool_decide_ext. naive_solver. Qed.
Lemma same_rate_trans a b c : same_rate a b = true -> same_rate b c = true -> same_rate a c = true.
Proof. unfold same_rate. rewrite !bool_decide_eq_true. congruence. Qed.
Lemma same_group_sym a b : same_group a b = same_group b a.
Proof. unfold same_group. apply bool_decide_ext. naive_solver. Qed.
Lemma same_group_trans a b c : same_group a b = true -> same_group b c = true -> same_group a c = true.
Proof. unfold same_group. rewrite !bool_decide_eq_true. congruence. Qed.
Lemma same_ceiling_sym a b : same_ceiling a b = same_ceiling b a.
Proof.
  unfold same_ceiling. rewrite (bool_decide_ext (group_of a = group_of b) (group_of b = group_of a))
    by naive_solver. f_equal. by destruct (c_max_concurrent_per_group a), (c_max_concurrent_per_group b).
Qed.
Lemma same_ceiling_trans a b c :
  same_ceiling a b = true -> same_ceiling b c = true -> same_ceiling a c = true.
Proof.
  unfold same_ceiling. rewrite !andb_true_iff, !bool_decide_eq_true, !Bool.eqb_true_iff.
  intros [-> ->] [-> ->]. done.
Qed.

(** ** The candidate set *)

Section Candidates.
Context (lk : locks) (tags exhausted : list string) (lim : Z) (claimed_by : string)
        (per_group_cap : Z) (quotas : gmap string Z).
Context (db : DB) (Hwf : wf db).

Abbreviation cand := (candidate lk tags exhausted lim per_group_cap quotas db).
Abbreviation rr := (rate_ranked lk tags exhausted lim quotas db).

Lemma rate_ranked_spec j n :
  In j (db_jobs db) -> rn_of rr j = Some n ->
  quotas <> ∅ /\ ready tags exhausted db j = true /\ is_Some (c_rate_class j).
Proof.
  intros Hj Hn. unfold rate_ranked in Hn.
  apply (rn_of_Some _ _ (db_jobs db)) in Hn;
    [| intros x Hx; by apply in_sel in Hx as [? _] | by apply wf_job_ids | done].
  apply row_number_In, in_sel in Hn as [_ Hp]. bool_prop. unfold quotas_empty in *.
  split_and!; [by eapply bool_decide_eq_false | done | by destruct (c_rate_class j); eauto].
Qed.

Inductive source (j : Job) : Prop :=
| FromUnlimited : In j (ungrouped_unlimited lk tags exhausted lim quotas db) -> source j
| FromLimited : In j (ungrouped_limited lk tags exhausted lim quotas db) -> source j
| FromGrouped : In j (grouped lk tags exhausted lim per_group_cap quotas db) -> source j.

Lemma candidate_source j : In j cand -> source j.
Proof.
  intros H%in_limit. apply order_by_In in H. rewrite !in_app_iff in H.
  destruct H as [H|[H|H]]; [by apply FromUnlimited | by apply FromLimited | by apply FromGrouped].
Qed.

Lemma unlimited_spec j :
  In j (ungrouped_unlimited lk tags exhausted lim quotas db) ->
  In j (db_jobs db) /\ ready tags exhausted db j = true /\ c_group_key j = None
  /\ unlocked lk j = true /\ (c_rate_class j = None \/ quotas = ∅).
Proof.
  intros H%in_limit. apply order_by_In, in_sel in H as [Hj Hp]. unfold is_grouped, quotas_empty in Hp.
  bool_prop. split_and!; try done; [by destruct (c_group_key j)|].
  destruct (c_rate_class j); [right|by left]. simpl in *. by eapply bool_decide_eq_true.
Qed.

Lemma limited_spec j :
  In j (ungrouped_limited lk tags exhausted lim quotas db) ->
  In j (db_jobs db) /\ ready tags exhausted db j = true /\ c_group_key j = None
  /\ unlocked lk j = true /\ quotas <> ∅
  /\ exists rc n, c_rate_class j = Some rc /\ rn_of rr j = Some n /\ n <= quota quotas rc.
Proof.
  intros H%in_limit. apply order_by_In, in_sel in H as [Hj Hp]. unfold is_grouped, within_quota in Hp.
  bool_prop. destruct (rn_of rr j) as [n|] eqn:En; [|done].
  destruct (rate_ranked_spec j n Hj En) as (Hq & Hr & _).
  destruct (c_rate_class j) as [rc|] eqn:Erc; [|done]. bool_prop.
  split_and!; try done; [by destruct (c_group_key j) | eauto].
Qed.

Lemma grouped_base_sub j :
  In j (grouped_base lk tags exhausted lim quotas db) -> In j (db_jobs db).
Proof. by intros [? _]%in_sel. Qed.

Lemma rn_grouped_base same j n :
  In j (db_jobs db) ->
  rn_of (row_number same (grouped_base lk tags exhausted lim quotas db)) j = Some n ->
  In j (grouped_base lk tags exhausted lim quotas db) /\ In (j, n)
    (row_number same (grouped_base lk tags exhausted lim quotas db)).
Proof.
  intros Hj Hn. apply (rn_of_Some _ _ (db_jobs db)) in Hn;
    [| apply grouped_base_sub | by apply wf_job_ids | done].
  split; [by eapply row_number_In | done].
Qed.

Lemma grouped_spec j :
  In j (grouped lk tags exhausted lim per_group_cap quotas db) ->
  In j (db_jobs db) /\ ready tags exhausted db j = true /\ is_Some (c_group_key j)
  /\ unlocked lk j = true
  /\ (exists n, rn_in_group lk tags exhausted lim quotas db j = Some n /\ n <= per_group_cap)
  /\ (forall cap, c_max_concurrent_per_group j = Some cap ->
        exists running n, slot lk tags exhausted lim quotas db j = Some running
          /\ rn_in_ceiling_group lk tags exhausted lim quotas db j = Some n
          /\ n <= Z.max 0 (cap - running))
  /\ (quotas = ∅ \/ c_rate_class j = None \/
      exists rc n, c_rate_class j = Some rc /\ rn_of rr j = Some n /\ n <= quota quotas rc).
Proof.
  intros H%in_limit. apply order_by_In, in_sel in H as [Hj Hp]. bool_prop.
  match goal with H : le_opt _ _ = true |- _ => unfold le_opt in H;
    destruct (rn_in_group lk tags exhausted lim quotas db j) as [n|] eqn:En; [|done] end.
  bool_prop. destruct (rn_grouped_base same_group j n Hj En) as [Hb _].
  apply in_sel in Hb as [_ Hb]. bool_prop. split_and!; try done.
  - unfold is_grouped in *. by destruct (c_group_key j); eauto.
  - eauto.
  - intros cap Ecap. unfold under_ceiling in *. rewrite Ecap in *.
    destruct (slot lk tags exhausted lim quotas db j) as [running|]; [|done]. unfold le_opt in *.
    destruct (rn_in_ceiling_group lk tags exhausted lim quotas db j) as [m|]; [|done]. bool_prop. eauto.
  - unfold quotas_empty, within_quota in *.
    destruct (decide (quotas = ∅)) as [|Hq]; [by left|right].
    rewrite (bool_decide_eq_false_2 _ Hq) in *. simpl in *.
    destruct (c_rate_class j) as [rc|]; [right|by left]. simpl in *.
    destruct (rn_of rr j) as [m|] eqn:Em; [|done]. bool_prop. eauto.
Qed.

Lemma candidate_spec j :
  In j cand -> In j (db_jobs db) /\ ready tags exhausted db j = true /\ unlocked lk j = true.
Proof.
  intros [H|H|H]%candidate_source.
  - by apply unlimited_spec in H as (? & ? & _ & ? & _).
  - by apply limited_spec in H as (? & ? & _ & ? & _).
  - by apply grouped_spec in H as (? & ? & _ & ? & _).
Qed.

(** A claimed row was queued and due, its tags are covered by the worker's and
    its rate class is not exhausted. *)
Lemma ready_spec j :
  ready tags exhausted db j = true ->
  j_state j = QUEUED /\ j_run_at j <= db_now db /\ (forall t, In t (c_runs_on j) -> In t tags)
  /\ (forall rc, c_rate_class j = Some rc -> ~ In rc exhausted).
Proof.
  unfold ready, subset, not_exhausted. intros H. bool_prop. state_cases. split_and!; try done.
  - intros t Ht. match goal with H : forallb _ _ = true |- _ => rewrite forallb_forall in H; specialize (H t Ht) end.
    unfold mem in *. match goal with H : existsb _ _ = true |- _ => apply existsb_exists in H as (x & Hx & E) end.
    by bool_prop; subst.
  - intros rc Erc Hin. rewrite Erc in *. destruct exhausted as [|e0 ex]; [done|].
    match goal with H : negb (mem _ _) = true |- _ => unfold mem in H; apply negb_true_iff in H;
      rewrite <- not_true_iff_false in H; apply H end.
    apply existsb_exists. exists rc. split; [done | by apply String.eqb_eq].
Qed.

Lemma sel_NoDup {A} (p : A -> bool) l : List.NoDup l -> List.NoDup (List.filter p l).
Proof. apply List.NoDup_filter. Qed.

Lemma limit_NoDup {A} n (l : list A) : List.NoDup l -> List.NoDup (limit n l).
Proof.
  unfold limit. rewrite <- !NoDup_ListNoDup. intros H.
  apply (sublist_NoDup _ l); [done | apply sublist_take].
Qed.

Lemma jobs_NoDup : List.NoDup (db_jobs db).
Proof. eapply NoDup_map_inv. by apply wf_job_ids. Qed.

Lemma candidate_NoDup : List.NoDup cand.
Proof.
  apply limit_NoDup, order_by_NoDup. pose proof jobs_NoDup as Hnd.
  assert (forall le p, List.NoDup (limit lim (order_by le (sel p (db_jobs db))))) as Hs.
  { intros le p. by apply limit_NoDup, order_by_NoDup, sel_NoDup. }
  rewrite <- !NoDup_ListNoDup in *. apply list.NoDup_app. split_and!.
  - rewrite NoDup_ListNoDup. apply Hs.
  - intros j Hj Hj2. rewrite !list_elem_of_In in *. apply unlimited_spec in Hj as (_ & _ & Hg & _ & Hq).
    apply in_app_or in Hj2 as [Hj2|Hj2].
    + apply limited_spec in Hj2 as (_ & _ & _ & _ & Hq' & rc & n & Hrc & _). destruct Hq; congruence.
    + apply grouped_spec in Hj2 as (_ & _ & [g Hg'] & _). congruence.
  - apply list.NoDup_app. split_and!.
    + rewrite NoDup_ListNoDup. apply Hs.
    + intros j Hj Hj2. rewrite !list_elem_of_In in *. apply limited_spec in Hj as (_ & _ & Hg & _).
      apply grouped_spec in Hj2 as (_ & _ & [g Hg'] & _). congruence.
    + rewrite NoDup_ListNoDup. apply Hs.
Qed.

(** *** Bounds *)

Lemma candidate_length : Z.of_nat (length cand) <= Z.max 0 lim.
Proof. unfold candidate, limit. rewrite length_take. lia. Qed.

(** The candidates of a class [P] that share a window partition are at most
    as many as the bound on their row numbers. *)
Lemma candidate_class (P : Job -> bool) same rows n :
  (forall a b, same a b = same b a) ->
  (forall a b c, same a b = true -> same b c = true -> same a c = true) ->
  (forall j, In j rows -> In j (db_jobs db)) ->
  (forall j, In j cand -> P j = true ->
     exists m, rn_of (row_number same rows) j = Some m /\ m <= n) ->
  (forall x j, P x = true -> P j = true -> same x j = true) ->
  Z.of_nat (count P cand) <= Z.max 0 n.
Proof.
  intros Hsym Htr Hsub Hrn Hsame. unfold count. destruct (List.filter P cand) as [|x l] eqn:El; [simpl; lia|].
  rewrite <- El. eapply (ranked_bound same rows (db_jobs db) x n); eauto using wf_job_ids.
  - apply sel_NoDup, candidate_NoDup.
  - intros j Hj. apply in_sel in Hj as [Hj HP]. split_and!; [by apply candidate_spec in Hj as [? _]| |by auto].
    apply Hsame; [|done]. assert (In x (List.filter P cand)) as Hx by (rewrite El; by left).
    by apply in_sel in Hx as [_ ?].
Qed.

(** No more than the reserved quota of one rate class. *)
Lemma candidate_quota rc :
  quotas <> ∅ ->
  Z.of_nat (count (fun j : Job => bool_decide (c_rate_class j = Some rc)) cand) <= Z.max 0 (quota quotas rc).
Proof.
  intros Hq. apply (candidate_class _ same_rate (rate_base lk tags exhausted lim quotas db));
    [apply same_rate_sym | apply same_rate_trans | by intros j [? _]%in_sel | |].
  - intros j Hj Hrc. rewrite bool_decide_eq_true in Hrc. apply candidate_source in Hj as [H|H|H].
    + apply unlimited_spec in H as (_ & _ & _ & _ & [?|?]); congruence.
    + apply limited_spec in H as (? & _ & _ & _ & _ & rc' & n & ? & ? & ?).
      assert (rc' = rc) as -> by congruence. eauto 6.
    + apply grouped_spec in H as (? & _ & _ & _ & _ & _ & [?|[?|(rc' & n & ? & ? & ?)]]); try congruence.
      assert (rc' = rc) as -> by congruence. eauto 6.
  - intros x j. unfold same_rate. rewrite !bool_decide_eq_true. congruence.
Qed.

(** No more than [per_group_cap] rows of one group key. *)
Lemma candidate_fair g :
  Z.of_nat (count (fun j : Job => bool_decide (c_group_key j = Some g)) cand) <= Z.max 0 per_group_cap.
Proof.
  apply (candidate_class _ same_group (grouped_base lk tags exhausted lim quotas db));
    [apply same_group_sym | apply same_group_trans | apply grouped_base_sub | |].
  - intros j Hj Hg. rewrite bool_decide_eq_true in Hg. apply candidate_source in Hj as [H|H|H].
    + apply unlimited_spec in H as (_ & _ & ? & _). congruence.
    + apply limited_spec in H as (_ & _ & ? & _). congruence.
    + by apply grouped_spec in H as (? & _ & _ & _ & ? & _).
  - intros x j. unfold same_group. rewrite !bool_decide_eq_true. congruence.
Qed.

Lemma capped_group_key (j : Job) k :
  capped_group j = Some k -> group_of j = Some k /\ is_Some (c_group_key j)
  /\ is_Some (c_max_concurrent_per_group j).
Proof.
  unfold capped_group. destruct (c_max_concurrent_per_group j); [|done]. unfold group_of.
  destruct (c_group_key j); [|done]. by eauto.
Qed.

(** When every capped live row of a group carries a cap of at most [C], the
    claim takes no more than [C - running] of them. *)
Lemma candidate_ceiling k C :
  (forall j : Job, In j (db_jobs db) -> capped_group j = Some k ->
     default 0 (c_max_concurrent_per_group j) <= C) ->
  Z.of_nat (count (fun j : Job => bool_decide (capped_group j = Some k)) cand)
  <= Z.max 0 (C - default 0 (db_group_running db !! k)).
Proof.
  intros Hcap.
  etrans; [apply (candidate_class _ same_ceiling (grouped_base lk tags exhausted lim quotas db)
                    (Z.max 0 (C - default 0 (db_group_running db !! k))));
           [apply same_ceiling_sym | apply same_ceiling_trans | apply grouped_base_sub | |]|lia].
  - intros j Hj Hg. rewrite bool_decide_eq_true in Hg.
    destruct (capped_group_key j k Hg) as (Hgo & [gk Hgk] & [cap Ecap]).
    apply candidate_source in Hj as [H|H|H].
    + apply unlimited_spec in H as (_ & _ & ? & _). congruence.
    + apply limited_spec in H as (_ & _ & ? & _). congruence.
    + apply grouped_spec in H as (Hj & _ & _ & _ & _ & Hc & _). specialize (Hcap j Hj Hg).
      rewrite Ecap in Hcap. destruct (Hc cap Ecap) as (running & n & Hs & Hn & Hle).
      exists n. split; [done|]. unfold slot in Hs. rewrite Hgo in Hs. destruct (existsb _ _); [|done].
      rewrite Hs. simpl in *. lia.
  - intros x j Hx Hj. rewrite bool_decide_eq_true in *.
    destruct (capped_group_key x k Hx) as (Hx1 & _ & [cx Hcx]).
    destruct (capped_group_key j k Hj) as (Hj1 & _ & [cj Hcj]).
    unfold same_ceiling. rewrite Hcx, Hcj, Hx1, Hj1. simpl. by rewrite andb_true_r, bool_decide_eq_true.
Qed.
End Candidates.

(** ** Fresh lease tokens *)

Lemma position_lt i l : existsb (fun e : Job => N.eqb (c_id e) i) l = true ->
  (position i l < N.of_nat (length l))%N.
Proof.
  induction l as [|j l IH]; simpl; [done|]. destruct (N.eqb (c_id j) i); simpl; [lia|].
  intros H. specialize (IH H). lia.
Qed.

Lemma position_inj i i' l :
  existsb (fun e : Job => N.eqb (c_id e) i) l = true ->
  existsb (fun e : Job => N.eqb (c_id e) i') l = true ->
  position i l = position i' l -> i = i'.
Proof.
  induction l as [|j l IH]; simpl; [done|].
  destruct (N.eqb_spec (c_id j) i) as [<-|], (N.eqb_spec (c_id j) i') as [<-|]; simpl; try done; try lia.
  intros. apply IH; [done|done|lia].
Qed.

Section Claimed.
Context (lk : locks) (tags exhausted : list string) (lim : Z) (claimed_by : string)
        (per_group_cap : Z) (quotas : gmap string Z).

Abbreviation candidates db := (candidate lk tags exhausted lim per_group_cap quotas db).
Abbreviation claim := (sql_claim lk tags exhausted lim claimed_by per_group_cap quotas).
Abbreviation claimed_jobs db :=
  (update_where (in_ids (candidates db)) (claimed_row claimed_by db (candidates db)) (db_jobs db)).

Lemma in_ids_candidate db j :
  wf db -> In j (db_jobs db) -> in_ids (candidates db) j = true -> In j (candidates db).
Proof.
  intros Hwf Hj Hin. eapply in_ids_sub; [| by apply wf_job_ids | done | done].
  intros x Hx. by apply candidate_spec in Hx as [? _].
Qed.

Lemma candidate_queued db j : wf db -> In j (candidates db) -> j_state j = QUEUED.
Proof. intros Hwf H. apply candidate_spec in H as (_ & Hr & _); [|done]. by apply ready_spec in Hr as [? _]. Qed.

Lemma claimed_tokens_inj db x y b :
  wf db -> In x (claimed_jobs db) -> In y (claimed_jobs db) ->
  j_lease_token x = Some b -> j_lease_token y = Some b -> job_id x = job_id y.
Proof.
  intros Hwf (x0 & Hx & ->)%in_update_where (y0 & Hy & ->)%in_update_where.
  destruct Hwf as [[_ _ _ _ Hnd Hlt _] _ _ _ _ _]. rewrite Forall_forall in Hlt.
  assert (forall z t, In z (db_jobs db) -> j_lease_token z = Some t -> (t < db_uuid_seq db)%N) as Hold.
  { intros z t Hz Ht. apply Hlt, in_omap. eauto. }
  destruct (in_ids (candidates db) x0) eqn:Ex, (in_ids (candidates db) y0) eqn:Ey; simpl.
  - intros [= <-] [= E]. change (c_id x0 = c_id y0). apply (position_inj _ _ (candidates db)); [exact Ex | exact Ey | lia].
  - intros [= <-] E. specialize (Hold _ _ Hy E). lia.
  - intros E [= <-]. specialize (Hold _ _ Hx E). lia.
  - intros Hx0 Hy0. by rewrite (omap_NoDup_inj _ _ x0 y0 b Hnd Hx Hy Hx0 Hy0).
Qed.

Lemma wf_claimed db :
  wf db ->
  wf_jobs (claimed_jobs db) (db_archive db) (db_uuid_seq db + N.of_nat (length (candidates db)))%N
  /\ jobs_evolve (db_jobs db) (db_archive db) (db_uuid_seq db) (claimed_jobs db) (db_archive db)
       (db_uuid_seq db + N.of_nat (length (candidates db)))%N.
Proof.
  intros Hwf. pose proof (claimed_tokens_inj db) as Hinj.
  assert (map job_id (claimed_jobs db) = map job_id (db_jobs db)) as Eid by (by apply map_update_where).
  assert (db_uuid_seq db <= db_uuid_seq db + N.of_nat (length (candidates db)))%N as Hle by lia.
  destruct (wf_j _ Hwf) as [Hr Ha Hi Hil Ht Htl Hd].
  split; [split|split].
  - apply Forall_update_where; [done|]. intros j Hj Hok Hin.
    apply in_ids_candidate in Hin; [|done|done]. apply candidate_queued in Hin; [|done].
    apply row_ok_shape in Hok. rewrite Hin in Hok. apply row_ok_shape. simpl. naive_solver.
  - done.
  - by rewrite Eid.
  - rewrite Eid. by eapply Forall_lt_mono.
  - apply (NoDup_omap_inj job_id); [rewrite Eid; by apply wf_job_ids|]. intros x y b Hx Hy. by apply Hinj.
  - apply Forall_forall. intros t (j & Hj & Htok)%in_omap. apply in_update_where in Hj as (j0 & Hj0 & ->).
    destruct (in_ids (candidates db) j0) eqn:Ein; simpl in Htok.
    + injection Htok as <-. pose proof (position_lt (c_id j0) (candidates db) Ein). lia.
    + rewrite Forall_forall in Htl. assert (t < db_uuid_seq db)%N by (apply Htl, in_omap; eauto). lia.
  - by rewrite omap_update_where.
  - done.
  - exists []. by rewrite app_nil_r.
  - intros j Hj. left. exists (if in_ids (candidates db) j then claimed_row claimed_by db (candidates db) j else j).
    split; [apply in_update_where; by exists j|].
    destruct (in_ids (candidates db) j) eqn:Ein; [|by split_and!; [|constructor|]]. split; [done|].
    apply in_ids_candidate in Ein; [|done|done]. apply candidate_queued in Ein; [|done].
    split; [rewrite Ein; by apply rtc_once | intros [? _]; congruence].
  - intros j' (j & Hj & ->)%in_update_where. left. exists j. split; [done|]. by destruct (in_ids _ _).
Qed.

Lemma bump_counters_lookup ks m k :
  default 0 (bump_counters ks m !! k)
  = default 0 (m !! k) + Z.of_nat (count (fun k' => bool_decide (k' = k)) ks).
Proof.
  induction ks as [|k' ks IH]; simpl; [unfold count; simpl; lia|]. rewrite count_cons.
  destruct (decide (k' = k)) as [->|Hne].
  - rewrite lookup_insert_eq, bool_decide_eq_true_2 by done. simpl. lia.
  - rewrite lookup_insert_ne, bool_decide_eq_false_2 by done. lia.
Qed.

Lemma bump_counters_nonneg ks m :
  map_Forall (fun _ n => 0 <= n) m -> map_Forall (fun _ n => 0 <= n) (bump_counters ks m).
Proof.
  intros Hm. induction ks as [|k ks IH]; simpl; [done|]. apply map_Forall_insert_2; [|done].
  destruct (bump_counters ks m !! k) as [n|] eqn:E; simpl; [|lia]. specialize (IH k n E). simpl in IH. lia.
Qed.

Lemma keeps_claim db : keeps db (fst (claim db)).
Proof.
  unfold sql_claim. destruct (claim_error _); [done|]. simpl.
  etrans; [|apply keeps_counters, bump_counters_nonneg].
  apply (keeps_jobs db). apply wf_claimed.
Qed.

Lemma keeps_prepare db : keeps db (fst (sql_prepare_group_counters tags exhausted lim quotas db)).
Proof.
  apply keeps_counters. intros Hm. induction (missing_groups _ _ _ _ db) as [|g l IH]; simpl; [done|].
  destruct (_ !! _); [done|]. by apply map_Forall_insert_2.
Qed.
End Claimed.
