(* ===== verification/Repository.v ===== *)
(** * The repository (src/symba/db/repository.py)

    Each function runs one statement (two for [claim]) and shapes the rows, as
    in the source.  The functions live in the module [repo], so that services
    read like the Python: [repo.submit], [repo.claim], ...  Identifiers are
    already decoded from their text.  An argument of type JSONB becomes the value
    the column keeps before the statement runs ([Json.jsonb]). *)

From S2P Require Import Prelude PyStr Errors States Json Records Database Queries Tables Claim.
From Stdlib Require Import QArith.
Open Scope string_scope.
Open Scope Z_scope.
Open Scope list_scope.

Module repo.

(** ** submit *)

Definition opt_int2 (o : option Z) : bool := match o with Some z => int2 z | None => true end.

(** [json.dumps] of a SubmitSpec-shaped dict fails on a [datetime]. *)
Fixpoint json_able (s : SubmitSpec) : bool :=
  match s with
  | mkSpec _ _ _ _ _ _ _ _ _ _ _ _ _ _ _ on_failure _ _ _ _ _ run_at _ _ =>
      match run_at with Some _ => false | None => true end
      && match on_failure with Some f => json_able f | None => true end
  end.

(** The JSONB values of a spec: its payload, its backoff and its failure hook. *)
Definition opt_storable (o : option dict) : bool := match o with Some d => storable (JObj d) | None => true end.

Fixpoint spec_storable (s : SubmitSpec) : bool :=
  match s with
  | mkSpec _ payload _ _ _ _ _ _ _ _ _ _ _ _ _ on_failure _ _ _ backoff _ _ _ _ =>
      storable (JObj payload) && opt_storable backoff
      && match on_failure with Some f => spec_storable f | None => true end
  end.

Fixpoint stored_spec (s : SubmitSpec) : SubmitSpec :=
  match s with
  | mkSpec task payload tenant pipeline stage ctx st prio gk cap dedup runs_on rc os tail on_failure
      rd deps ma backoff timeout run_at ttl gate =>
      mkSpec task (jsonb_members payload) tenant pipeline stage ctx st prio gk cap dedup runs_on rc os tail
        (match on_failure with Some f => Some (stored_spec f) | None => None end)
        rd deps ma (match backoff with Some b => Some (jsonb_members b) | None => None end) timeout run_at ttl gate
  end.

(** The driver encodes every argument of [_submit_args] for its column and the
    server reads it; an integer outside the column's width, a dict that is no
    JSON and a JSON text that is no JSONB raise [DataError]. *)
Definition _submit_args (s : SubmitSpec) : option SubmitSpec :=
  if int2 (s_priority s) && opt_int2 (s_max_concurrent_per_group s) && int4 (s_remaining_deps s)
     && int2 (s_max_attempts s) && int4 (s_timeout_s s) && int4 (s_lease_ttl_s s)
     && match s_on_failure s with Some f => json_able f | None => true end && spec_storable s
  then Some (stored_spec s) else None.

(** [SubmitResult(job_id, deduplicated)]; the statement always returns a row. *)
Definition submit (spec : SubmitSpec) : DBM (uuid * bool) :=
  args ← of_option DataError (_submit_args spec);
  stmt (sql_submit args).

Definition count_tenant_live (tenant : string) : DBM Z := query (sql_count_tenant_live tenant).

(** ** claim *)

Record ClaimedJob := mkClaimed {
  cj_id : uuid;
  cj_task_name : string;
  cj_tenant : string;
  cj_group_key : option string;
  cj_max_concurrent_per_group : option Z;
  cj_priority : Z;
  cj_lease_token : option uuid;
  cj_lease_ttl_s : Z;
  cj_payload : dict;
  cj_attempt : Z;
  cj_raw : Job;
  cj_checkpoint_data : option dict
}.

Definition _to_claimed (r : Job * option dict) : ClaimedJob :=
  let d := fst r in
  mkClaimed (c_id d) (c_task_name d) (c_tenant d) (c_group_key d) (c_max_concurrent_per_group d)
    (c_priority d) (j_lease_token d) (c_lease_ttl_s d) (c_payload d) (j_attempt d) d (snd r).

Definition claim (lk : locks) (worker_tags exhausted_rate_classes : list string) (lim : Z)
    (claimed_by : string) (per_group_cap : Z) (rate_quotas : gmap string Z) : DBM (list ClaimedJob) :=
  rows ← transaction (
    _ ← stmt (sql_prepare_group_counters worker_tags exhausted_rate_classes lim rate_quotas);
    sql_claim lk worker_tags exhausted_rate_classes lim claimed_by per_group_cap rate_quotas);
  mret (map _to_claimed rows).

Definition running_counts_by_worker (worker_ids : list string) : DBM (gmap string Z) :=
  match worker_ids with
  | [] => mret ∅
  | _ => query (sql_running_counts_by_worker worker_ids)
  end.

Definition set_claimed_by (assignments : list (uuid * string * uuid)) : DBM unit :=
  match assignments with
  | [] => mret tt
  | _ => stmt (sql_set_claimed_by assignments)
  end.

(** ** complete *)

Definition _terminal (d : TerminalDict) : TerminalRow :=
  mkTerminal (td_id d) (td_tenant d) (td_ctx_id d) (td_task_name d) (td_group_key d)
    (td_max_concurrent_per_group d) (td_on_success d) (default [] (td_chain_tail d))
    (td_on_failure d) (td_parent_gate_id d) (td_prior_state d) (td_pipeline d) (td_stage d)
    (default 0 (td_priority d)) (default [] (td_runs_on d)) (td_rate_class d)
    (default 60 (td_lease_ttl_s d)) (td_created_at d) (td_started_at d) (td_finished_at d).

Definition complete_move (job_id lease_token : uuid) (result : option dict) : DBM (option TerminalRow) :=
  r ← of_option DataError (jsonb_opt result);
  row ← stmt (sql_complete job_id lease_token r SUCCEEDED);
  mret (match row with Some r => Some (_terminal r) | None => None end).

(** The continuation inherits lineage and routing, not the rate class. *)
Definition insert_continuation (next_task : string) (next_on_success : option string)
    (next_chain_tail : list string) (predecessor : TerminalRow) : DBM uuid :=
  stmt (sql_complete_continuation
    (continuation_spec next_task next_on_success next_chain_tail (t_tenant predecessor)
       (t_ctx_id predecessor) (t_pipeline predecessor) (t_stage predecessor) (t_priority predecessor)
       (t_group_key predecessor) (t_max_concurrent_per_group predecessor) (t_runs_on predecessor)
       None (t_lease_ttl_s predecessor) (t_on_failure predecessor))).

(** [out.setdefault(asking_job_id, []).append(item)] *)
Fixpoint append_upstream (r : UpstreamRow) (out : list (uuid * list UpstreamRow)) :
  list (uuid * list UpstreamRow) :=
  match out with
  | [] => [(up_asking_job_id r, [r])]
  | (i, l) :: out' =>
      if N.eqb i (up_asking_job_id r) then (i, l ++ [r]) :: out' else (i, l) :: append_upstream r out'
  end.

Definition fetch_inline_upstream (job_ids : list uuid) : DBM (list (uuid * list UpstreamRow)) :=
  match job_ids with
  | [] => mret []
  | _ => rows ← query (sql_inline_upstream job_ids);
         mret (foldl (fun out r => append_upstream r out) [] rows)
  end.

(** The ids that became queued. *)
Definition decrement_deps (upstream_job_id : uuid) : DBM (list uuid) :=
  rows ← stmt (sql_decrement_deps upstream_job_id);
  mret (map fst (List.filter snd rows)).

Definition insert_dependency (job_id depends_on_job_id : uuid) (alias : option string) : DBM unit :=
  stmt (sql_insert_dependency job_id depends_on_job_id alias).

(** ** gates *)

Definition create_gate (tenant : string) (ctx_id : option string) (policy : string)
    (expected_children : Z) (quorum_n : option Z) (on_complete : SubmitSpec) : DBM uuid :=
  if int4 expected_children && match quorum_n with Some n => int4 n | None => true end
     && json_able on_complete && spec_storable on_complete
  then stmt (sql_create_gate tenant ctx_id policy expected_children quorum_n (stored_spec on_complete))
  else raise DataError.

Record GateResolution := mkResolution {
  gr_resolved : bool;
  gr_satisfied : bool;
  gr_on_complete : SubmitSpec;
  gr_tenant : string;
  gr_ctx_id : option string;
  gr_expected : Z;
  gr_succeeded : Z
}.

Definition bump_gate (gate_id : uuid) (child_succeeded child_failed : bool) : DBM (option GateResolution) :=
  row ← stmt (sql_bump_gate gate_id child_succeeded child_failed);
  mret (match row with
        | Some (g, resolved, satisfied) =>
            Some (mkResolution resolved satisfied (g_on_complete g) (g_tenant g) (g_ctx_id g)
                    (g_expected_children g) (g_succeeded_children g))
        | None => None
        end).

(** [[{job_id, task, result}, ...]] *)
Definition gate_child_results (gate_id : uuid) : DBM (list json) :=
  rows ← query (sql_gate_child_results gate_id);
  mret (map (fun '(i, task, r) =>
               JObj [("job_id", JStr (uuid_str i)); ("task", JStr task);
                     ("result", match r with Some d => JObj d | None => JNull end)]) rows).

Record GateStatusRow := mkGateStatus {
  gs_gate_id : uuid;
  gs_expected : Z;
  gs_terminal : Z;
  gs_succeeded : Z;
  gs_fired_at : option time
}.

Definition get_gate (tenant : string) (gate_id : uuid) : DBM (option GateStatusRow) :=
  row ← query (sql_get_gate tenant gate_id);
  mret (match row with
        | Some g => Some (mkGateStatus (g_id g) (g_expected_children g) (g_completed_children g)
                            (g_succeeded_children g) (g_fired_at g))
        | None => None
        end).

Definition cascade_cancel (root_job_id : uuid) : DBM (list uuid) := stmt (sql_cascade_cancel root_job_id).

(** ** heartbeat, fail, cancel *)

Definition heartbeat (job_id lease_token : uuid) : DBM (option (option time * bool)) :=
  stmt (sql_heartbeat job_id lease_token).

Definition fail_peek (job_id lease_token : uuid) : DBM (option PeekRow) :=
  query (sql_fail_peek job_id lease_token).

Definition fail_retry (job_id lease_token : uuid) (next_run_at : time) (error_entry : json)
  : DBM (option Job) :=
  e ← of_option DataError (jsonb error_entry);
  stmt (sql_fail job_id lease_token next_run_at e).

Definition fail_die (job_id lease_token : uuid) (error_entry : json) : DBM (option TerminalRow) :=
  e ← of_option DataError (jsonb error_entry);
  row ← stmt (sql_fail_die job_id lease_token e);
  mret (match row with Some r => Some (_terminal r) | None => None end).

Definition cancel_immediate (job_id : uuid) : DBM (option TerminalRow) :=
  row ← stmt (sql_cancel job_id);
  mret (match row with Some r => Some (_terminal r) | None => None end).

(** [claimed_by], or None when no running row matched or it has no worker. *)
Definition cancel_running (job_id : uuid) : DBM (option string) :=
  row ← stmt (sql_cancel_running job_id);
  mret (match row with Some claimed_by => claimed_by | None => None end).

(** ** Reads *)

Record JobRow := mkJobRow {
  jr_id : uuid;
  jr_tenant : string;
  jr_task_name : string;
  jr_state : JobState;
  jr_attempt : Z;
  jr_priority : Z;
  jr_group_key : option string;
  jr_ctx_id : option string;
  jr_claimed_by : option string;
  jr_payload : dict;
  jr_result : option dict;
  jr_error_history : list json;
  jr_created_at : time;
  jr_started_at : option time;
  jr_finished_at : option time
}.

Definition job_row (a : AnyJob) : JobRow :=
  mkJobRow (c_id a) (c_tenant a) (c_task_name a) (al_final_state a) (j_attempt a) (c_priority a)
    (c_group_key a) (c_ctx_id a) (j_claimed_by a) (c_payload a) (j_result a) (j_error_history a)
    (c_created_at a) (j_started_at a) (al_finished_at a).

Definition get_job (job_id : uuid) (tenant : string) : DBM (option JobRow) :=
  row ← query (sql_get_job job_id tenant);
  mret (match row with Some a => Some (job_row a) | None => None end).

Record ResultRow := mkResult {
  rs_id : uuid;
  rs_state : JobState;
  rs_result : option dict;
  rs_error_history : list json
}.

Definition result_row (a : AnyJob) : ResultRow :=
  mkResult (c_id a) (al_final_state a) (j_result a) (j_error_history a).

Definition get_result (job_id : uuid) (tenant : string) : DBM (option ResultRow) :=
  row ← query (sql_get_result job_id tenant);
  mret (match row with Some a => Some (result_row a) | None => None end).

Definition get_ancestor_result (asking_job_id : uuid) (task_name tenant : string)
  : DBM (option ResultRow) :=
  row ← query (sql_get_ancestor_result asking_job_id task_name tenant);
  mret (match row with Some a => Some (result_row a) | None => None end).

(** ** Group counters and the ledger *)

Definition decrement_group (tenant : string) (group_key : option string) (task_name : string) (by_ : Z)
  : DBM unit :=
  match group_key with
  | None => mret tt
  | Some g => stmt (sql_decrement_group (tenant, g, task_name) by_)
  end.

(** A detail is made of texts, or is an error entry an earlier statement of the
    transaction has stored, so the server never refuses it. *)
Definition record_event (job_id : uuid) (event : string) (detail : option dict) : DBM unit :=
  stmt (sql_record_event job_id event (jsonb_members <$> detail)).

(** ** Sweeper statements *)

Definition sweep_leases (lk : locks) (lim stale_worker_grace_s : Z) : DBM Z :=
  stmt (sql_sweep_leases lk lim stale_worker_grace_s).

(** [ExhaustedLease(job_id, lease_token)] *)
Definition list_exhausted_leases (lim stale_worker_grace_s : Z) : DBM (list (uuid * option uuid)) :=
  query (sql_list_exhausted_leases lim stale_worker_grace_s).

Definition sweep_waits (lk : locks) (lim : Z) : DBM (list uuid) := stmt (sql_sweep_waits lk lim).

Definition reconcile_group_running : DBM Z := stmt sql_reconcile_groups.

Definition mark_workers_stale (stale_after_s : Z) : DBM Z := stmt (sql_mark_workers_stale stale_after_s).

(** ** Signals *)

Definition signal_wake (lk : locks) (tenant wait_key : string) (payload : dict) : DBM (option uuid) :=
  p ← of_option DataError (jsonb_dict payload);
  stmt (sql_signal lk tenant wait_key p).

Definition signal_park (tenant wait_key : string) (payload : option dict) (signaled_by : option string)
  : DBM uuid :=
  p ← of_option DataError (jsonb_opt payload);
  stmt (sql_signal_insert tenant wait_key p signaled_by).

(** The payload, [{}] for a consumed row without one, None when no row. *)
Definition wait_consume (lk : locks) (tenant wait_key : string) : DBM (option dict) :=
  row ← stmt (sql_wait_consume lk tenant wait_key);
  mret (match row with Some p => Some (default [] p) | None => None end).

Definition wait_park (job_id lease_token : uuid) (wait_key : string) (timeout_s : Z)
  : DBM (option uuid) := stmt (sql_wait_park job_id lease_token wait_key timeout_s).

(** ** Rate classes *)

Definition distinct_rate_classes (worker_tags : list string) : DBM (list string) :=
  query (sql_distinct_rate_classes worker_tags).

Definition rate_take_pg (rate_class : string) (want : Z) : DBM Z :=
  granted ← stmt (sql_rate_take_pg rate_class want);
  mret (default 0 granted).

Definition rate_return_pg (rate_class : string) (tokens : Z) : DBM unit :=
  if tokens <=? 0 then mret tt else stmt (sql_rate_return_pg rate_class tokens).

Definition rate_classes_all : DBM (list (string * Q * Q)) := query sql_rate_classes_all.

Definition rate_class_upsert (name : string) (capacity refill_per_s : Q) : DBM unit :=
  stmt (sql_rate_class_upsert name capacity refill_per_s).

(** ** Cron *)

Definition cron_due : DBM (list CronSchedule) := query sql_cron_due.

Definition cron_advance (schedule_id : string) (new_next_fire : time)
    (expected_next_fire fired_at : option time) : DBM bool :=
  stmt (sql_cron_advance schedule_id new_next_fire expected_next_fire fired_at).

Definition list_cron (tenant : string) : DBM (list CronSchedule) := query (sql_list_cron tenant).

Definition cron_set_enabled (schedule_id tenant : string) (enabled : bool) : DBM bool :=
  stmt (sql_cron_set_enabled schedule_id tenant enabled).

Definition cron_upsert (schedule_id cron_expr task_name : string) (payload : dict) (tenant : string)
    (enabled : bool) : DBM (option CronSchedule) :=
  p ← of_option DataError (jsonb_dict payload);
  stmt (sql_cron_upsert schedule_id cron_expr task_name p tenant enabled).

Definition cron_delete (schedule_id tenant : string) : DBM bool :=
  stmt (sql_cron_delete schedule_id tenant).

(** ** Checkpoints, resubmit, workers *)

Definition checkpoint_put (job_id : uuid) (tenant : string) (data : dict) : DBM unit :=
  d ← of_option DataError (jsonb_dict data);
  stmt (sql_checkpoint_put job_id tenant d).

Definition checkpoint_get (job_id : uuid) (tenant : string) : DBM (option dict) :=
  query (sql_checkpoint_get job_id tenant).

Definition resubmit (job_id : uuid) (tenant : string) : DBM (option uuid) :=
  stmt (sql_resubmit job_id tenant).

Definition worker_upsert (worker_id : string) (tags registered_tasks : list string)
    (labels : list (string * string)) (slots slots_busy : Z) : DBM unit :=
  stmt (sql_worker_upsert worker_id tags registered_tasks (order_by jsonb_key_le labels) slots slots_busy).

Definition worker_delete (worker_id : string) : DBM unit := stmt (sql_worker_delete worker_id).

Definition list_workers : DBM (list Worker) := query sql_list_workers.

(** ** The UI read surface *)

Record JobListItem := mkListItem {
  li_id : uuid;
  li_tenant : string;
  li_task_name : string;
  li_pipeline : option string;
  li_stage : option string;
  li_state : JobState;
  li_attempt : Z;
  li_priority : Z;
  li_group_key : option string;
  li_ctx_id : option string;
  li_wait_key : option string;
  li_claimed_by : option string;
  li_error_history : list json;
  li_created_at : time;
  li_started_at : option time;
  li_finished_at : option time
}.

Definition list_jobs (tenant : string) (f : JobFilter) (lim offset : Z) : DBM (list JobListItem) :=
  rows ← query (sql_list_jobs tenant f lim offset);
  mret (map (fun a : AnyJob =>
    mkListItem (c_id a) (c_tenant a) (c_task_name a) (c_pipeline a) (c_stage a) (al_final_state a)
      (j_attempt a) (c_priority a) (c_group_key a) (c_ctx_id a) (j_wait_key a) (j_claimed_by a)
      (j_error_history a) (c_created_at a) (j_started_at a) (al_finished_at a)) rows).

Definition stats_board (tenant : string) : DBM (list (JobState * Z)) := query (sql_stats_board tenant).

Definition stats_queues (tenant : string) : DBM (list QueueStat) := query (sql_stats_queues tenant).

(** One job's timeline; the row id and context are not selected. *)
Definition job_events (job_id : uuid) (tenant : string) : DBM (list Event) :=
  rows ← query (sql_job_events job_id tenant);
  mret (map (fun e => mkEvent 0 job_id tenant None (ev_event e) (ev_at e) (ev_detail e)) rows).

Definition job_tree_edges (tenant ctx_id : string) : DBM (list Dependency) :=
  query (sql_job_tree_edges tenant ctx_id).

Definition events_since (after_id : Z) (tenant : string) (lim : Z) : DBM (list Event) :=
  query (sql_events_since after_id tenant lim).

Definition events_for_ctx (tenant ctx_id : string) (after_id lim : Z) : DBM (list Event) :=
  query (sql_events_for_ctx tenant ctx_id after_id lim).

Definition max_event_id (tenant : string) : DBM Z := query (sql_max_event_id tenant).

End repo.
