(* ===== verification/RepoFacts.v ===== *)
(** * Every repository function keeps the invariant and the history

    One lemma per function that writes, registered as hints: [stable_tac] then
    proves the same of any composition of them. *)

From S2P Require Import Prelude PyStr Errors States Json Records Database Queries Tables Claim.
From S2P Require Import Invariant Steps ClaimFacts Repository.
Open Scope Z_scope.
Open Scope list_scope.

Lemma stable_keeps_stmt {A} (f : DB -> DB * A) :
  (forall db, keeps db (fst (f db))) -> stable keeps (stmt f).
Proof. apply stable_stmt. Qed.

(** A statement on tables the invariant does not mention. *)
Ltac frame_tac := intros; apply stable_keeps_stmt; intros db; apply keeps_frame; by repeat split.

Lemma submit_unfold s db :
  repo.submit s db =
  match repo._submit_args s with
  | Some _ => let (db', r) := sql_submit (repo.stored_spec s) db in (db', Ok r)
  | None => (db, Raise DataError)
  end.
Proof.
  unfold repo.submit, repo._submit_args. destruct (_ && _); [|done]. reflexivity.
Qed.

(** What storing leaves of a spec. *)
Lemma stored_state s : s_state (repo.stored_spec s) = s_state s.
Proof. by destruct s. Qed.
Lemma stored_conflict s j : dedup_conflict (repo.stored_spec s) j = dedup_conflict s j.
Proof. by destruct s. Qed.
Lemma stored_find s jobs :
  List.find (dedup_conflict (repo.stored_spec s)) jobs = List.find (dedup_conflict s) jobs.
Proof. induction jobs as [|j jobs IH]; simpl; [done|]. by rewrite stored_conflict, IH. Qed.
Lemma stored_initial s : initial_state s -> initial_state (repo.stored_spec s).
Proof. unfold initial_state. by rewrite stored_state. Qed.
Lemma stored_no_conflict s jobs : no_conflict s jobs -> no_conflict (repo.stored_spec s) jobs.
Proof. intros H j. rewrite stored_conflict. apply H. Qed.

(** An argument that may be refused. *)
Lemma stable_arg {A B} (o : option A) (k : A -> DBM B) :
  (forall a, stable keeps (k a)) -> stable keeps (a ← of_option DataError o; k a).
Proof. intros H. apply stable_bind; [apply _ | apply stable_of_option; apply _ | done]. Qed.

Lemma stable_submit s : initial_state s -> stable keeps (repo.submit s).
Proof.
  intros Hs db. rewrite submit_unfold. destruct (repo._submit_args s); [|done].
  pose proof (keeps_submit _ db (stored_initial s Hs)) as H. by destruct (sql_submit _ db).
Qed.

Lemma stable_sql_claim lk tags ex lim by_ cap quotas :
  stable keeps (sql_claim lk tags ex lim by_ cap quotas).
Proof. intros db. apply keeps_claim. Qed.

Lemma stable_claim lk tags ex lim by_ cap quotas :
  stable keeps (repo.claim lk tags ex lim by_ cap quotas).
Proof.
  apply stable_bind; [apply _ | | intros; apply stable_ret; apply _].
  apply stable_keeps_transaction, stable_bind; [apply _ | | intros; apply stable_sql_claim].
  apply stable_keeps_stmt. intros db. apply keeps_prepare.
Qed.

Lemma stable_set_claimed_by l : stable keeps (repo.set_claimed_by l).
Proof. destruct l; [apply stable_ret; apply _|]. apply stable_keeps_stmt. intros; apply keeps_set_claimed_by. Qed.

(** A repository function that shapes the row of one statement. *)
Lemma stable_shape {A B} (m : DBM A) (f : A -> B) :
  stable keeps m -> stable keeps (a ← m; mret (f a)).
Proof. intros Hm. apply stable_bind; [apply _ | done | intros; apply stable_ret; apply _]. Qed.

Lemma stable_complete_move i t r : stable keeps (repo.complete_move i t r).
Proof. apply stable_arg. intros. apply stable_shape, stable_keeps_stmt. intros; apply keeps_complete. Qed.

Lemma stable_insert_continuation t o l p : stable keeps (repo.insert_continuation t o l p).
Proof. apply stable_keeps_stmt. intros. by apply keeps_continuation. Qed.

Lemma stable_decrement_deps i : stable keeps (repo.decrement_deps i).
Proof. apply stable_shape, stable_keeps_stmt. intros; apply keeps_decrement_deps. Qed.

(** The edges of a job whose name was drawn before. *)
Lemma keeps_insert_edges i deps db :
  (i < db_uuid_seq db)%N ->
  keeps db (fst (forM (fun '(upstream, alias) => repo.insert_dependency i upstream alias) deps db)).
Proof.
  revert db. induction deps as [|[u a] deps IH]; intros db Hi; [done|]. simpl forM.
  unfold mbind, M_bind, M_bind_def at 1, repo.insert_dependency at 1, stmt.
  pose proof (keeps_insert_dependency i u a db Hi) as H.
  assert (db_uuid_seq (fst (sql_insert_dependency i u a db)) = db_uuid_seq db) as Es
    by (unfold sql_insert_dependency; simpl; by destruct (existsb _ _)).
  destruct (sql_insert_dependency i u a db) as [db1 []]. simpl in *. rewrite <- Es in Hi.
  specialize (IH db1 Hi). unfold M_bind_def.
  destruct (forM _ deps db1) as [db2 [l|e]]; simpl in *; by etrans.
Qed.

Lemma submit_fresh s db db' i :
  repo.submit s db = (db', Ok (i, false)) -> i = db_uuid_seq db /\ db_uuid_seq db' = N.succ i.
Proof.
  rewrite submit_unfold. destruct (repo._submit_args s); [|done]. unfold sql_submit.
  destruct (List.find _ _); [done|]. simpl. by intros [= <- <-].
Qed.

Lemma stable_create_gate t c p n q oc : 0 < n -> stable keeps (repo.create_gate t c p n q oc).
Proof.
  intros Hn. unfold repo.create_gate. destruct (_ && _); [|apply stable_raise; apply _].
  apply stable_keeps_stmt. intros; by apply keeps_create_gate.
Qed.

Lemma stable_bump_gate i cs cf : cs && cf = false -> stable keeps (repo.bump_gate i cs cf).
Proof. intros. apply stable_shape, stable_keeps_stmt. intros; by apply keeps_bump_gate. Qed.

Lemma stable_cascade_cancel i : stable keeps (repo.cascade_cancel i).
Proof. apply stable_keeps_stmt. intros; apply keeps_cascade_cancel. Qed.

Lemma stable_heartbeat i t : stable keeps (repo.heartbeat i t).
Proof. apply stable_keeps_stmt. intros; apply keeps_heartbeat. Qed.

Lemma stable_fail_retry i t r e : stable keeps (repo.fail_retry i t r e).
Proof. apply stable_arg. intros. apply stable_keeps_stmt. intros; apply keeps_fail. Qed.

Lemma stable_fail_die i t e : stable keeps (repo.fail_die i t e).
Proof. apply stable_arg. intros. apply stable_shape, stable_keeps_stmt. intros; apply keeps_fail_die. Qed.

Lemma stable_cancel_immediate i : stable keeps (repo.cancel_immediate i).
Proof. apply stable_shape, stable_keeps_stmt. intros; apply keeps_cancel. Qed.

Lemma stable_cancel_running i : stable keeps (repo.cancel_running i).
Proof. apply stable_shape, stable_keeps_stmt. intros; apply keeps_cancel_running. Qed.

Lemma stable_decrement_group t g n b : stable keeps (repo.decrement_group t g n b).
Proof. destruct g; [|apply stable_ret; apply _]. apply stable_keeps_stmt. intros; apply keeps_decrement_group. Qed.

Lemma stable_record_event i e d : stable keeps (repo.record_event i e d).
Proof. apply stable_keeps_stmt. intros; apply keeps_record_event. Qed.

Lemma stable_sweep_leases lk n g : stable keeps (repo.sweep_leases lk n g).
Proof. apply stable_keeps_stmt. intros; apply keeps_sweep_leases. Qed.

Lemma stable_sweep_waits lk n : stable keeps (repo.sweep_waits lk n).
Proof. apply stable_keeps_stmt. intros; apply keeps_sweep_waits. Qed.

Lemma stable_reconcile : stable keeps repo.reconcile_group_running.
Proof. apply stable_keeps_stmt. intros; apply keeps_reconcile. Qed.

Lemma stable_signal_wake lk t k p : stable keeps (repo.signal_wake lk t k p).
Proof. apply stable_arg. intros. apply stable_keeps_stmt. intros; apply keeps_signal. Qed.

Lemma stable_signal_park t k p b : stable keeps (repo.signal_park t k p b).
Proof. apply stable_arg. intros. apply stable_keeps_stmt. intros; apply keeps_signal_insert. Qed.

Lemma stable_wait_consume lk t k : stable keeps (repo.wait_consume lk t k).
Proof. apply stable_shape, stable_keeps_stmt. intros; apply keeps_wait_consume. Qed.

Lemma stable_wait_park i t k n : stable keeps (repo.wait_park i t k n).
Proof. apply stable_keeps_stmt. intros; apply keeps_wait_park. Qed.

Lemma stable_resubmit i t : stable keeps (repo.resubmit i t).
Proof. apply stable_keeps_stmt. intros; apply keeps_resubmit. Qed.

Lemma stable_mark_workers_stale n : stable keeps (repo.mark_workers_stale n).
Proof. frame_tac. Qed.
Lemma stable_worker_upsert w t r l n b : stable keeps (repo.worker_upsert w t r l n b).
Proof. frame_tac. Qed.
Lemma stable_worker_delete w : stable keeps (repo.worker_delete w).
Proof. frame_tac. Qed.
Lemma stable_cron_advance s n e f : stable keeps (repo.cron_advance s n e f).
Proof. frame_tac. Qed.
Lemma stable_cron_set_enabled s t b : stable keeps (repo.cron_set_enabled s t b).
Proof. frame_tac. Qed.
Lemma stable_cron_delete s t : stable keeps (repo.cron_delete s t).
Proof. frame_tac. Qed.
Lemma stable_cron_upsert s e n p t b : stable keeps (repo.cron_upsert s e n p t b).
Proof.
  apply stable_arg. intros p'. apply stable_keeps_stmt. intros db. unfold sql_cron_upsert.
  destruct (List.find _ _) as [r|]; [destruct (String.eqb _ _)|]; simpl; try done;
    apply keeps_frame; by repeat split.
Qed.
Lemma stable_checkpoint_put i t d : stable keeps (repo.checkpoint_put i t d).
Proof. apply stable_arg. frame_tac. Qed.
Lemma stable_rate_class_upsert n c r : stable keeps (repo.rate_class_upsert n c r).
Proof. frame_tac. Qed.
Lemma stable_rate_take_pg c n : stable keeps (repo.rate_take_pg c n).
Proof.
  apply stable_shape, stable_keeps_stmt. intros db. unfold sql_rate_take_pg.
  destruct (_ !! _); [|done]. apply keeps_frame; by repeat split.
Qed.
Lemma stable_rate_return_pg c n : stable keeps (repo.rate_return_pg c n).
Proof. unfold repo.rate_return_pg. destruct (_ <=? _); [apply stable_ret; apply _|]. frame_tac. Qed.
Lemma stable_rate_drain c : stable keeps (stmt (sql_rate_drain c)).
Proof. frame_tac. Qed.

#[export] Hint Resolve stable_submit stable_claim stable_set_claimed_by stable_complete_move
  stable_insert_continuation stable_decrement_deps stable_create_gate
  stable_bump_gate stable_cascade_cancel stable_heartbeat stable_fail_retry stable_fail_die
  stable_cancel_immediate stable_cancel_running stable_decrement_group stable_record_event
  stable_sweep_leases stable_sweep_waits stable_reconcile stable_signal_wake stable_signal_park
  stable_wait_consume stable_wait_park stable_resubmit stable_mark_workers_stale
  stable_worker_upsert stable_worker_delete stable_cron_advance stable_cron_set_enabled
  stable_cron_delete stable_cron_upsert stable_checkpoint_put stable_rate_class_upsert
  stable_rate_take_pg stable_rate_return_pg stable_rate_drain stable_keeps_transaction : stable_db.
