(* ===== verification/World.v ===== *)
(** * One engine process and its environment

    [World] is the database together with the in-memory state of one engine:
    the worker registry, the rate limiter with the Redis it talks to, the
    matcher's cursors and the wall clock.  Services run in the monad [EM]. *)

From S2P Require Import Prelude PyStr Errors States Json Records Database Queries Tables Claim.
From S2P Require Import Invariant Steps ClaimFacts Repository RepoFacts.
From Stdlib Require Import QArith.
Open Scope string_scope.
Open Scope Z_scope.
Open Scope list_scope.

(** ** Messages to workers (the JobAssignment of proto/symba/v1) *)

Record AssignedSpec := mkAssignedSpec {
  as_task_name : string;
  as_payload_json : string;
  as_pipeline : string;
  as_stage : string;
  as_ctx_id : string;
  as_group_key : string;
  as_dedup_key : string;
  as_runs_on : list string;
  as_rate_class : string;
  as_priority : Z;
  as_timeout_s : Z;
  as_lease_ttl_s : Z;
  as_max_concurrent_per_group : Z
}.

Record JobAssignment := mkAssignment {
  asg_job_id : uuid;
  asg_tenant : string;
  asg_spec : AssignedSpec;
  asg_state : JobState;
  asg_attempt : Z;
  asg_upstream : list (string * uuid * string);
  asg_lease_token : option uuid;
  asg_lease_expires_at : option time;
  asg_checkpoint_json : option string;
  asg_event_payload_json : option string
}.

(** ** Worker registry (services/registry.py)

    [WorkerConn] objects are shared between the registry, the Claim stream that
    owns one and the matcher's snapshots, and updated in place: they live in a
    store, and the registry maps a worker id to the object it holds now.

    The source bounds the assignment queue at 1024, and a put into a full queue
    waits until the stream has taken an item.  [wc_queue] has no bound: it holds
    the items of the queue followed by the item of a put that waits, in the order
    the stream takes them.  The model of a pass is thus that of a pass whose puts
    all return; a pass that waits in a put for ever does not end. *)

Record WorkerConn := mkConn {
  wc_worker_id : string;
  wc_tags : gset string;
  wc_free_slots : Z;
  wc_labels : list (string * string);
  wc_registered_tasks : gset string;
  wc_slots_total : Z;
  wc_persisted_at : time;
  wc_queue : list JobAssignment
}.

Abbreviation ref := nat.

Record Registry := mkRegistry {
  rg_store : gmap ref WorkerConn;
  rg_workers : list (string * ref);
  rg_known_slots_total : gmap string Z;
  rg_wake : bool
}.

(** ** Rate limiter (services/rate_limiter.py) *)

Record ClassCfg := mkCfg { cfg_capacity : Q; cfg_refill_per_s : Q }.

(** The hash [tokens, ts] of a bucket, and when the key expires by the clock of
    the Redis server (never, for a key without a time to live). *)
Record Bucket := mkBucket { bk_tokens : Q; bk_ts : Q; bk_expires : option Q }.

(** What the engine keeps in Redis: the buckets and the checkpoint cache; [rd_up]
    is false while commands fail with RedisError, [rd_now] is its clock in seconds. *)
Record Redis := mkRedis {
  rd_up : bool;
  rd_buckets : gmap string Bucket;
  rd_checkpoints : gmap string dict;
  rd_now : Q
}.

Record RateLimiter := mkLimiter {
  rl_redis : option Redis;
  rl_cfg : gmap string ClassCfg;
  rl_degraded : bool
}.

(** ** The world *)

Record World := mkWorld {
  w_db : DB;
  w_registry : Registry;
  w_limiter : RateLimiter;
  w_cursors : list (list string * string);
  w_clock : time
}.

Definition set_w_db (v : DB) (w : World) : World :=
  mkWorld v (w_registry w) (w_limiter w) (w_cursors w) (w_clock w).
Definition set_w_registry (v : Registry) (w : World) : World :=
  mkWorld (w_db w) v (w_limiter w) (w_cursors w) (w_clock w).
Definition set_w_limiter (v : RateLimiter) (w : World) : World :=
  mkWorld (w_db w) (w_registry w) v (w_cursors w) (w_clock w).
Definition set_w_cursors (v : list (list string * string)) (w : World) : World :=
  mkWorld (w_db w) (w_registry w) (w_limiter w) v (w_clock w).

Definition EM (A : Type) : Type := M exn World A.

(** [async with pool.acquire() as conn: m] *)
Definition on_db {A} (m : DBM A) : EM A := fun w =>
  let (db', r) := m (w_db w) in (set_w_db db' w, r).

(** [async with pool.acquire() as conn, conn.transaction(): m] *)
Definition in_tx {A} (m : DBM A) : EM A := on_db (transaction m).

(** [registry.wake.set()] *)
Definition wake_set : EM unit := modify (fun w =>
  let g := w_registry w in
  set_w_registry (mkRegistry (rg_store g) (rg_workers g) (rg_known_slots_total g) true) w).

(** [datetime.now(UTC)], [time.time()] and [monotonic()] *)
Definition clock : EM time := gets w_clock.

(** [if b: m] *)
Definition when (b : bool) (m : EM unit) : EM unit := if b then m else mret tt.

(** [try: m except E: h], for the exceptions [p] selects. *)
Definition try_except {A} (p : exn -> bool) (m h : EM A) : EM A := fun w =>
  match m w with
  | (w', Raise e) => if p e then h w' else (w', Raise e)
  | r => r
  end.

(** ** Configuration (config.py), the part services read *)

Record SymbaConfig := mkConfig {
  max_result_kb : Z;
  max_payload_kb : Z;
  max_chain_len : Z;
  max_fanout_children : Z;
  tenant_queued_cap : Z;
  query_max_page : Z;
  sweeper_interval_s : Z;
  sweeper_batch_size : Z;
  worker_stale_after_heartbeats : Z;
  worker_heartbeat_interval_s : Z;
  min_tick_ms : Z;
  max_tick_ms : Z;
  max_per_group_per_batch : Z;
  max_upstream_inline_kb : Z
}.

Definition default_config : SymbaConfig := mkConfig 64 256 50 100000 0 1000 5 1000 3 15 10 250 0 256.

(** ** Stability of the database across services *)

Definition db_keeps (w w' : World) : Prop := keeps (w_db w) (w_db w').

#[global] Instance db_keeps_preorder : PreOrder db_keeps.
Proof.
  split; [intros w; unfold db_keeps; reflexivity|].
  intros w1 w2 w3 H1 H2. unfold db_keeps in *. by etrans.
Qed.

Lemma stable_on_db {A} (m : DBM A) : stable keeps m -> stable db_keeps (on_db m).
Proof. intros Hm w. unfold on_db, db_keeps. specialize (Hm (w_db w)). by destruct (m (w_db w)). Qed.

(** A program that reads. *)
Definition reads_only {A} (m : EM A) : Prop := forall w, fst (m w) = w.

Lemma set_w_db_id w : set_w_db (w_db w) w = w.
Proof. by destruct w. Qed.

Lemma reads_on_db {A} (m : DBM A) : (forall db, fst (m db) = db) -> reads_only (on_db m).
Proof. intros H w. unfold on_db. specialize (H (w_db w)). destruct (m (w_db w)) as [db' r]. simpl in *. rewrite H. apply set_w_db_id. Qed.

Lemma stable_in_tx {A} (m : DBM A) : stable keeps m -> stable db_keeps (in_tx m).
Proof. intros. by apply stable_on_db, stable_keeps_transaction. Qed.

(** A step that does not write the database. *)
Lemma stable_modify_mem f :
  (forall w, w_db (f w) = w_db w) -> stable db_keeps (modify f : EM unit).
Proof. intros Hf w. unfold db_keeps. simpl. by rewrite Hf. Qed.

Lemma stable_wake_set : stable db_keeps wake_set.
Proof. by apply stable_modify_mem. Qed.

Lemma stable_when b m : stable db_keeps m -> stable db_keeps (when b m).
Proof. intros. destruct b; [done | apply stable_ret; apply _]. Qed.

Lemma stable_clock : stable db_keeps clock.
Proof. apply stable_gets. apply _. Qed.

Lemma stable_try_except {A} p (m h : EM A) :
  stable db_keeps m -> stable db_keeps h -> stable db_keeps (try_except p m h).
Proof.
  intros Hm Hh w. unfold try_except. specialize (Hm w). destruct (m w) as [w' [a|e]]; simpl in *; [done|].
  destruct (p e); [|done]. by etrans.
Qed.

#[export] Hint Resolve stable_on_db stable_in_tx stable_wake_set stable_when stable_clock
  stable_try_except : stable_db.

(** [stable_tac] on services also enters transactions and handlers. *)
Ltac stable_tac ::=
  repeat (first [ solve [eauto with stable_db] | stable_step | apply stable_try_except
                | apply stable_in_tx | apply stable_on_db ]).
