(* ===== verification/RateLimiter.v ===== *)
(** * Token buckets (src/symba/services/rate_limiter.py)

    The two Lua scripts, then the class.  A float is a rational.  A bucket is a hash
    [tokens, ts] that expires an hour after the last take; an absent bucket reads
    as a full one. *)

From S2P Require Import Prelude PyStr Errors States Json Records Database Queries Tables Invariant.
From S2P Require Import Repository RepoFacts World.
From Stdlib Require Import QArith Qround Qminmax Lqa.
Open Scope string_scope.
Open Scope Z_scope.

(** ** The Lua scripts *)

(** What a command finds under the key at server time [rnow]. *)
Definition unexpired (rnow : Q) (data : option Bucket) : option Bucket :=
  match data with
  | Some b => match bk_expires b with
              | Some e => if Qle_bool e rnow then None else Some b
              | None => Some b
              end
  | None => None
  end.

(** [_LUA_REFILL_TAKE] on the bucket: the hash it leaves, which expires an hour
    later ([PEXPIRE]), and the tokens granted.  [now] is the engine's clock, [rnow]
    the server's. *)
Definition lua_refill_take (capacity refill now rnow : Q) (want : Z) (data : option Bucket) : Bucket * Z :=
  let '(tokens, ts) := match unexpired rnow data with
                       | Some b => (bk_tokens b, bk_ts b)
                       | None => (capacity, now)
                       end in
  let elapsed := if Qle_bool 0 (now - ts) then (now - ts)%Q else 0%Q in
  let tokens := qmin capacity (tokens + elapsed * refill)%Q in
  let granted := Qfloor (qmin tokens (inject_Z want)) in
  (mkBucket (tokens - inject_Z granted)%Q now (Some (rnow + 3600)%Q), granted).

(** [_LUA_RETURN]; an absent bucket is left absent, and the time to live stays. *)
Definition lua_return (capacity : Q) (give : Z) (rnow : Q) (data : option Bucket) : option Bucket :=
  match unexpired rnow data with
  | Some b => Some (mkBucket (qmin capacity (bk_tokens b + inject_Z give)%Q) (bk_ts b) (bk_expires b))
  | None => None
  end.

(** [HSET key tokens 0 ts now]: a key there keeps its time to live, a new one has
    none. *)
Definition hset_empty (now rnow : Q) (data : option Bucket) : option Bucket :=
  Some (mkBucket 0 now (match unexpired rnow data with Some b => bk_expires b | None => None end)).

(** ** RateLimiter *)

(** The clock in seconds, as [time.time()]. *)
Definition seconds (t : time) : Q := (inject_Z t / inject_Z 1000000)%Q.

Definition set_limiter (f : RateLimiter -> RateLimiter) : EM unit :=
  modify (fun w => set_w_limiter (f (w_limiter w)) w).

Definition set_degraded (b : bool) (l : RateLimiter) : RateLimiter := mkLimiter (rl_redis l) (rl_cfg l) b.

Definition set_buckets (f : gmap string Bucket -> gmap string Bucket) (l : RateLimiter) : RateLimiter :=
  mkLimiter (match rl_redis l with
             | Some r => Some (mkRedis (rd_up r) (f (rd_buckets r)) (rd_checkpoints r) (rd_now r))
             | None => None
             end) (rl_cfg l) (rl_degraded l).

(** The granted tokens, or None on a Redis failure. *)
Definition _redis_take (rate_class : string) (cfg : ClassCfg) (want : Z) : EM (option Z) :=
  l ← gets w_limiter;
  now ← clock;
  match rl_redis l with
  | Some r =>
      if rd_up r then
        let '(bucket, granted) :=
          lua_refill_take (cfg_capacity cfg) (cfg_refill_per_s cfg) (seconds now) (rd_now r) want
            (rd_buckets r !! rate_class) in
        _ ← set_limiter (set_buckets (fun m => <[rate_class := bucket]> m));
        _ ← when (rl_degraded l) (set_limiter (set_degraded false));
        mret (Some granted)
      else
        _ ← when (negb (rl_degraded l)) (set_limiter (set_degraded true));
        mret None
  | None => mret None
  end.

Definition reserve (rate_class : string) (want : Z) : EM Z :=
  if want <=? 0 then mret 0
  else
    l ← gets w_limiter;
    match rl_cfg l !! rate_class with
    | None => mret want
    | Some cfg =>
        taken ← match rl_redis l with Some _ => _redis_take rate_class cfg want | None => mret None end;
        match taken with
        | Some granted => mret granted
        | None => on_db (repo.rate_take_pg rate_class want)
        end
    end.

(** True while commands reach Redis; its clock. *)
Definition redis_up (l : RateLimiter) : bool :=
  match rl_redis l with Some r => rd_up r | None => false end.
Definition redis_now (l : RateLimiter) : Q := match rl_redis l with Some r => rd_now r | None => 0%Q end.

Definition release (rate_class : string) (tokens : Z) : EM unit :=
  l ← gets w_limiter;
  match rl_cfg l !! rate_class with
  | None => mret tt
  | Some cfg =>
      if tokens <=? 0 then mret tt
      else if redis_up l then
        set_limiter (set_buckets (partial_alter (lua_return (cfg_capacity cfg) tokens (redis_now l)) rate_class))
      else on_db (repo.rate_return_pg rate_class tokens)
  end.

Definition drain (rate_class : string) : EM unit :=
  l ← gets w_limiter;
  now ← clock;
  match rl_cfg l !! rate_class with
  | None => mret tt
  | Some _ =>
      if redis_up l then set_limiter (set_buckets (partial_alter (hset_empty (seconds now) (redis_now l)) rate_class))
      else on_db (stmt (sql_rate_drain rate_class))
  end.

Definition set_cfg (c : gmap string ClassCfg) (l : RateLimiter) : RateLimiter :=
  mkLimiter (rl_redis l) c (rl_degraded l).

Definition load : EM unit :=
  rows ← on_db repo.rate_classes_all;
  set_limiter (set_cfg (list_to_map (map (fun '(n, c, r) => (n, mkCfg c r)) rows))).

Definition upsert (name : string) (capacity refill_per_s : Q) : EM unit :=
  _ ← on_db (repo.rate_class_upsert name capacity refill_per_s);
  set_limiter (fun l => set_cfg (<[name := mkCfg capacity refill_per_s]> (rl_cfg l)) l).

Definition list_classes : EM (list (string * Q * Q)) := on_db repo.rate_classes_all.

(** The level of every configured class, without taking. *)
Definition snapshot_tokens : EM (gmap string Q) :=
  l ← gets w_limiter;
  db ← gets w_db;
  let from_redis := map_imap (fun name cfg =>
    Some (match rl_redis l with
          | Some r => if rd_up r then match unexpired (rd_now r) (rd_buckets r !! name) with
                                      | Some b => bk_tokens b
                                      | None => cfg_capacity cfg
                                      end
                      else cfg_capacity cfg
          | None => cfg_capacity cfg
          end)) (rl_cfg l) in
  let use_pg := match rl_redis l with None => true | Some _ => rl_degraded l end in
  mret (if use_pg
        then map_imap (fun name level => Some (match db_rate_classes db !! name with
                                               | Some rc => rc_tokens rc
                                               | None => level
                                               end)) from_redis
        else from_redis).

(** ** Stability *)

Lemma stable_set_limiter f : stable db_keeps (set_limiter f).
Proof. by apply stable_modify_mem. Qed.
#[export] Hint Resolve stable_set_limiter : stable_db.

Lemma stable_query_keeps {A} (f : DB -> A) : stable keeps (query f).
Proof. apply stable_query. apply _. Qed.
#[export] Hint Resolve stable_query_keeps : stable_db.

Lemma stable_redis_take c cfg n : stable db_keeps (_redis_take c cfg n).
Proof. unfold _redis_take. stable_tac. Qed.
#[export] Hint Resolve stable_redis_take : stable_db.

Lemma stable_reserve c n : stable db_keeps (reserve c n).
Proof. unfold reserve. stable_tac. Qed.
Lemma stable_release c n : stable db_keeps (release c n).
Proof. unfold release. stable_tac. Qed.
Lemma stable_drain c : stable db_keeps (drain c).
Proof. unfold drain. stable_tac. Qed.
Lemma stable_load : stable db_keeps load.
Proof. unfold load. stable_tac. Qed.
Lemma stable_upsert n c r : stable db_keeps (upsert n c r).
Proof. unfold upsert. stable_tac. Qed.
#[export] Hint Resolve stable_reserve stable_release stable_drain stable_load stable_upsert : stable_db.
