(* ===== verification/RegistryService.v ===== *)
(** * Worker registry (src/symba/services/registry.py)

    The registry's operations on the store of shared [WorkerConn] objects; an
    object is named by its reference, so that [current is not expected] is a
    comparison of references.  The persistence hooks are those of
    [_build_registry] in src/symba/transport/state.py. *)

From S2P Require Import Prelude PyStr Errors States Json Records Database Queries Tables Claim.
From S2P Require Import Invariant Steps ClaimFacts Repository RepoFacts World RateLimiter.
Open Scope string_scope.
Open Scope Z_scope.
Open Scope list_scope.

(** ** Python dicts in insertion order *)

Fixpoint od_get (k : string) (d : list (string * ref)) : option ref :=
  match d with
  | [] => None
  | (k', v) :: d' => if String.eqb k k' then Some v else od_get k d'
  end.

Fixpoint od_set (k : string) (v : ref) (d : list (string * ref)) : list (string * ref) :=
  match d with
  | [] => [(k, v)]
  | (k', v') :: d' => if String.eqb k k' then (k, v) :: d' else (k', v') :: od_set k v d'
  end.

Fixpoint od_pop (k : string) (d : list (string * ref)) : list (string * ref) :=
  match d with
  | [] => []
  | (k', v') :: d' => if String.eqb k k' then d' else (k', v') :: od_pop k d'
  end.

Definition set_conn (f : WorkerConn -> WorkerConn) (r : ref) (g : Registry) : Registry :=
  mkRegistry (alter f r (rg_store g)) (rg_workers g) (rg_known_slots_total g) (rg_wake g).

Definition set_persisted_at (t : time) (c : WorkerConn) : WorkerConn :=
  mkConn (wc_worker_id c) (wc_tags c) (wc_free_slots c) (wc_labels c) (wc_registered_tasks c)
    (wc_slots_total c) t (wc_queue c).

(** [sorted(s)] *)
Definition sorted_set (s : gset string) : list string := order_by String.leb (elements s).

Module WorkerRegistry.

(** The object a reference names. *)
Definition conn_of (g : Registry) (r : ref) : option WorkerConn := rg_store g !! r.

(** The hooks [_build_registry] wires (transport/state.py): a failed write is
    contained. *)
Definition _upsert (worker_id : string) (tags registered_tasks : list string) (labels : list (string * string))
    (slots slots_busy : Z) : EM unit :=
  try_except (fun _ => true)
    (on_db (repo.worker_upsert worker_id tags registered_tasks labels slots slots_busy)) (mret tt).

Definition _delete (worker_id : string) : EM unit :=
  try_except (fun _ => true) (on_db (repo.worker_delete worker_id)) (mret tt).

(** Fired outside the lock. *)
Definition _persist_upsert (r : ref) : EM unit :=
  now ← clock;
  g ← gets w_registry;
  match conn_of g r with
  | Some c =>
      _ ← modify (fun w => set_w_registry (set_conn (set_persisted_at now) r (w_registry w)) w);
      _upsert (wc_worker_id c) (sorted_set (wc_tags c)) (sorted_set (wc_registered_tasks c)) (wc_labels c)
        (wc_slots_total c) (Z.max 0 (wc_slots_total c - wc_free_slots c))
  | None => mret tt
  end.

Definition set_slots_total (n : Z) (c : WorkerConn) : WorkerConn :=
  mkConn (wc_worker_id c) (wc_tags c) (wc_free_slots c) (wc_labels c) (wc_registered_tasks c)
    n (wc_persisted_at c) (wc_queue c).

(** The in-memory part of [register]: the object [r] becomes the worker's. *)
Definition register_mem (r : ref) (c : WorkerConn) (g : Registry) : Registry :=
  let total := Z.max (Z.max (wc_slots_total c) (wc_free_slots c))
                 (default 0 (rg_known_slots_total g !! wc_worker_id c)) in
  mkRegistry (<[r := set_slots_total total c]> (rg_store g))
    (od_set (wc_worker_id c) r (rg_workers g))
    (<[wc_worker_id c := total]> (rg_known_slots_total g)) true.

(** [register(conn)] for the object [c] at reference [r]. *)
Definition register (r : ref) (c : WorkerConn) : EM unit :=
  _ ← modify (fun w => set_w_registry (register_mem r c (w_registry w)) w);
  _persist_upsert r.

(** [current is None or (expected is not None and current is not expected)] *)
Definition superseded (current : option ref) (expected : option ref) : bool :=
  match current with
  | None => true
  | Some r => match expected with Some e => negb (Nat.eqb r e) | None => false end
  end.

Definition unregister (worker_id : string) (expected : option ref) : EM bool :=
  g ← gets w_registry;
  if superseded (od_get worker_id (rg_workers g)) expected then mret false
  else
    _ ← modify (fun w =>
          let g := w_registry w in
          set_w_registry (mkRegistry (rg_store g) (od_pop worker_id (rg_workers g))
                            (rg_known_slots_total g) (rg_wake g)) w);
    _ ← _delete worker_id;
    mret true.

(** The update of the object, and whether the read model must be refreshed. *)
Definition updated_conn (free_slots : Z) (tags tasks : option (gset string)) (c : WorkerConn) : WorkerConn :=
  mkConn (wc_worker_id c) (default (wc_tags c) tags) free_slots (wc_labels c)
    (default (wc_registered_tasks c) tasks) (Z.max (wc_slots_total c) free_slots)
    (wc_persisted_at c) (wc_queue c).

Definition must_persist (now : time) (free_slots : Z) (tags tasks : option (gset string)) (c : WorkerConn)
  : bool :=
  let became_idle := (free_slots =? wc_slots_total c) && negb (wc_free_slots c =? wc_slots_total c) in
  let metadata_changed :=
    (wc_slots_total c <? free_slots)
    || match tags with Some t => bool_decide (t <> wc_tags c) | None => false end
    || match tasks with Some t => bool_decide (t <> wc_registered_tasks c) | None => false end in
  metadata_changed || became_idle || (secs 1 <=? now - wc_persisted_at c).

Definition update_slots_mem (worker_id : string) (r : ref) (free_slots : Z) (tags tasks : option (gset string)) (c : WorkerConn)
    (g : Registry) : Registry :=
  mkRegistry (<[r := updated_conn free_slots tags tasks c]> (rg_store g)) (rg_workers g)
    (if wc_slots_total c <? free_slots
     then <[worker_id := free_slots]> (rg_known_slots_total g) else rg_known_slots_total g)
    (rg_wake g || ((wc_free_slots c =? 0) && (0 <? free_slots))).

Definition update_slots (worker_id : string) (free_slots : Z) (tags tasks : option (gset string))
    (expected : option ref) : EM bool :=
  g ← gets w_registry;
  now ← clock;
  if superseded (od_get worker_id (rg_workers g)) expected then mret false
  else
    match od_get worker_id (rg_workers g) with
    | Some r =>
        match conn_of g r with
        | Some c =>
            _ ← modify (fun w => set_w_registry (update_slots_mem worker_id r free_slots tags tasks c (w_registry w)) w);
            _ ← when (must_persist now free_slots tags tasks c) (_persist_upsert r);
            mret true
        | None => mret false
        end
    | None => mret false
    end.

(** References of the workers with capacity, in registration order. *)
Definition snapshot_available : EM (list ref) :=
  g ← gets w_registry;
  mret (List.filter (fun r => match conn_of g r with Some c => 0 <? wc_free_slots c | None => false end)
          (map snd (rg_workers g))).

Definition count : EM Z := g ← gets w_registry; mret (Z.of_nat (length (rg_workers g))).

End WorkerRegistry.

(** ** Stability *)

Lemma stable_set_registry f : stable db_keeps (modify (fun w => set_w_registry (f (w_registry w)) w) : EM unit).
Proof. by apply stable_modify_mem. Qed.
#[export] Hint Resolve stable_set_registry : stable_db.

Lemma stable_pop_worker worker_id : stable db_keeps (modify (fun w =>
  let g := w_registry w in
  set_w_registry (mkRegistry (rg_store g) (od_pop worker_id (rg_workers g))
                    (rg_known_slots_total g) (rg_wake g)) w) : EM unit).
Proof. by apply stable_modify_mem. Qed.
#[export] Hint Resolve stable_pop_worker : stable_db.

Lemma stable_persist r : stable db_keeps (WorkerRegistry._persist_upsert r).
Proof. unfold WorkerRegistry._persist_upsert, WorkerRegistry._upsert. stable_tac. Qed.
#[export] Hint Resolve stable_persist : stable_db.

Lemma stable_register r c : stable db_keeps (WorkerRegistry.register r c).
Proof. unfold WorkerRegistry.register. stable_tac. Qed.
Lemma stable_unregister w e : stable db_keeps (WorkerRegistry.unregister w e).
Proof. unfold WorkerRegistry.unregister, WorkerRegistry._delete. stable_tac. Qed.
Lemma stable_update_slots w n t k e : stable db_keeps (WorkerRegistry.update_slots w n t k e).
Proof. unfold WorkerRegistry.update_slots. stable_tac. Qed.
Lemma stable_snapshot : stable db_keeps WorkerRegistry.snapshot_available.
Proof. unfold WorkerRegistry.snapshot_available. stable_tac. Qed.
#[export] Hint Resolve stable_register stable_unregister stable_update_slots stable_snapshot : stable_db.
