(* ===== verification/Failure.v ===== *)
(** * Safe worker-failure records (src/symba/core/failure.py)

    The regular expressions of the module as matchers on code points below 256,
    their substitutions, and the entry that reaches [error_history]. *)

From S2P Require Import Prelude PyStr Json Records.
From Stdlib Require Import Ascii String QArith Lqa.
Open Scope string_scope.
Open Scope nat_scope.
Open Scope list_scope.
Open Scope bool_scope.

(** ** Character classes *)

Definition between (lo hi : N) (c : ascii) : bool := ((lo <=? code c) && (code c <=? hi))%N.
Definition one_of (s : string) (c : ascii) : bool := existsb (Ascii.eqb c) (list_ascii_of_string s).

Definition is_upper (c : ascii) : bool := between 65 90 c.
Definition is_lower (c : ascii) : bool := between 97 122 c.
Definition is_alpha (c : ascii) : bool := is_upper c || is_lower c.
Definition is_alnum (c : ascii) : bool := is_alpha c || is_digit c.
Definition is_hex (c : ascii) : bool := is_digit c || between 65 70 c || between 97 102 c.

(** [\w] of a Python [str] pattern, for code points below 256. *)
Definition is_word (c : ascii) : bool :=
  is_alnum c || one_of "_" c || existsb (N.eqb (code c)) [170; 178; 179; 181; 185; 186; 188; 189; 190]%N
  || between 192 214 c || between 216 246 c || between 248 255 c.

Fixpoint all_chars (p : ascii -> bool) (s : string) : bool :=
  match s with EmptyString => true | String c s' => p c && all_chars p s' end.

Definition len_between (lo hi : nat) (s : string) : bool :=
  (lo <=? String.length s)%nat && (String.length s <=? hi)%nat.

(** ** The [fullmatch] patterns *)

Definition type_first (c : ascii) : bool := is_alpha c || one_of "_" c.

(** [[A-Za-z_][A-Za-z0-9_.]{0,127}] *)
Definition _TYPE_RE (s : string) : bool :=
  match s with
  | String c s' => type_first c && all_chars (fun c => is_alnum c || one_of "_." c) s' && len_between 0 127 s'
  | EmptyString => false
  end.

(** [[a-fA-F0-9]{1,64}] *)
Definition _HEX_RE (s : string) : bool := all_chars is_hex s && len_between 1 64 s.

(** [[A-Za-z0-9._:/-]{1,128}] *)
Definition _SAFE_IDENTIFIER_RE (s : string) : bool :=
  all_chars (fun c => is_alnum c || one_of "._:/-" c) s && len_between 1 128 s.

(** [[A-Za-z_][A-Za-z0-9_.-]{0,127}] *)
Definition _SAFE_MODULE_RE (s : string) : bool :=
  match s with
  | String c s' => type_first c && all_chars (fun c => is_alnum c || one_of "_.-" c) s' && len_between 0 127 s'
  | EmptyString => false
  end.

(** ** Substitution *)

(** A match at a position: the replacement, the text after the match and the
    last character matched. *)
Abbreviation matcher := (option ascii -> string -> option (string * string * ascii)).

(** [re.sub]: leftmost matches, left to right; [prev] is the character before.
    A match consumes a character, so the length of the text bounds the steps. *)
Fixpoint sub_go (m : matcher) (fuel : nat) (prev : option ascii) (s : string) : string :=
  match fuel, s with
  | S f, String c s' =>
      match m prev s with
      | Some (rep, rest, last) => (rep ++ sub_go m f (Some last) rest)%string
      | None => String c (sub_go m f (Some c) s')
      end
  | _, _ => s
  end.

Definition sub (m : matcher) (s : string) : string := sub_go m (S (String.length s)) None s.

(** The longest run of [p]. *)
Fixpoint run (p : ascii -> bool) (s : string) : string * string :=
  match s with
  | String c s' => if p c then let (r, t) := run p s' in (String c r, t) else ("", s)
  | EmptyString => ("", "")
  end.

Definition last_char (s : string) : option ascii :=
  match rev_string s with String c _ => Some c | EmptyString => None end.

Definition head_char (s : string) : option ascii :=
  match s with String c _ => Some c | EmptyString => None end.

Definition word_opt (o : option ascii) : bool := match o with Some c => is_word c | None => false end.

(** [\b] between two characters. *)
Definition boundary (a b : option ascii) : bool := xorb (word_opt a) (word_opt b).

Definition lower_ascii (c : ascii) : ascii := if is_upper c then ascii_of_N (code c + 32) else c.

(** Match a lower-case literal without regard to case; the rest of the text. *)
Fixpoint ci_literal (l s : string) : option string :=
  match l, s with
  | EmptyString, _ => Some s
  | String a l', String c s' => if Ascii.eqb (lower_ascii c) a then ci_literal l' s' else None
  | _, EmptyString => None
  end.

Definition bearer_char (c : ascii) : bool := is_alnum c || one_of "._~+/=-" c.

(** [(?i)\bbearer\s+[A-Za-z0-9._~+/=-]{6,}], replaced by [Bearer [redacted]]. *)
Definition _BEARER_RE : matcher := fun prev s =>
  if boundary prev (head_char s) then
    match ci_literal "bearer" s with
    | Some t =>
        let (sp, u) := run is_space t in
        let (tok, rest) := run bearer_char u in
        match last_char tok with
        | Some c => if (1 <=? String.length sp)%nat && (6 <=? String.length tok)%nat
                    then Some ("Bearer [redacted]", rest, c) else None
        | None => None
        end
    | None => None
    end
  else None.

(** Give characters of the run (reversed) back until it ends at a word boundary. *)
Fixpoint backtrack (min : nat) (rr rest : string) : option (string * ascii) :=
  match rr with
  | String c rr' =>
      if (min <=? String.length rr)%nat && boundary (Some c) (head_char rest) then Some (rest, c)
      else backtrack min rr' (String c rest)
  | EmptyString => None
  end.

Fixpoint first_literal (ls : list string) (s : string) : option string :=
  match ls with
  | [] => None
  | l :: ls' => match ci_literal l s with Some t => Some t | None => first_literal ls' s end
  end.

(** [(?i)\b(?:sk|pk|api)-[A-Za-z0-9_-]{8,}\b], replaced by [[redacted]]. *)
Definition _SECRET_TOKEN_RE : matcher := fun prev s =>
  if boundary prev (head_char s) then
    match first_literal ["sk-"; "pk-"; "api-"] s with
    | Some t =>
        let (tok, rest) := run (fun c => is_alnum c || one_of "_-" c) t in
        match backtrack 8 (rev_string tok) rest with
        | Some (rest', c) => Some ("[redacted]", rest', c)
        | None => None
        end
    | None => None
    end
  else None.

(** [a[_-]?b] *)
Definition joined (a b s : string) : option string :=
  match ci_literal a s with
  | Some (String c t as u) => if one_of "_-" c then ci_literal b t else ci_literal b u
  | Some EmptyString => ci_literal b ""
  | None => None
  end.

Definition or_else {A} (x y : option A) : option A := match x with Some _ => x | None => y end.

(** The first group of [_SECRET_ASSIGNMENT_RE]; the text after it. *)
Definition secret_name (s : string) : option string :=
  or_else (joined "api" "key" s)
    (or_else (ci_literal "authorization" s)
       (or_else (joined "access" "token" s)
          (or_else (joined "refresh" "token" s)
             (or_else (ci_literal "secret" s) (ci_literal "password" s))))).

(** The text before a suffix. *)
Definition before (s suffix : string) : string := substring 0 (String.length s - String.length suffix) s.

(** A name, a colon or an equals sign within optional white space, and a value
    up to white space, comma or semicolon: the value is redacted, the rest kept. *)
Definition _SECRET_ASSIGNMENT_RE : matcher := fun prev s =>
  if boundary prev (head_char s) then
    match secret_name s with
    | Some t =>
        match snd (run is_space t) with
        | String c u =>
            if one_of ":=" c then
              let v := snd (run is_space u) in
              let (val, rest) := run (fun c => negb (is_space c || one_of ",;" c)) v in
              match last_char val with
              | Some l => Some ((before s v ++ "[redacted]")%string, rest, l)
              | None => None
              end
            else None
        | EmptyString => None
        end
    | None => None
    end
  else None.

(** ** _safe_message *)

(** [str.casefold] *)
Fixpoint casefold (s : string) : string :=
  match s with
  | EmptyString => ""
  | String c s' =>
      if is_upper c || between 192 214 c || between 216 222 c
      then String (ascii_of_N (code c + 32)) (casefold s')
      else if (code c =? 223)%N then String "s" (String "s" (casefold s'))
      else String c (casefold s')
  end.

(** [m in s] *)
Fixpoint contains (m s : string) : bool :=
  startswith m s || match s with String _ s' => contains m s' | EmptyString => false end.

Definition dq : string := quote.

Definition _STRUCTURED_BODY_MARKERS : list string :=
  ["response body"; "response_body"; "response content"; "response_content"; "'headers':";
   (dq ++ "headers" ++ dq ++ ":")%string; "headers="; "'body':"; (dq ++ "body" ++ dq ++ ":")%string;
   "body="; "{'error':"; ("{" ++ dq ++ "error" ++ dq ++ ":")%string; "<html"; "<!doctype"].

Definition _MESSAGE_CAP : nat := 2048.

Definition compact_message (message : string) : string :=
  sub _SECRET_ASSIGNMENT_RE (sub _SECRET_TOKEN_RE (sub _BEARER_RE (String.concat " " (split_ws message)))).

(** The texts that make a message unfit to be stored. *)
Definition unsafe_marker (lowered : string) : bool :=
  existsb (fun m => contains m lowered) _STRUCTURED_BODY_MARKERS
  || contains "http://" lowered || contains "https://" lowered.

Definition _safe_message (message : string) (approved : bool) : string :=
  if negb approved then "Worker task failed"
  else
    let compact := compact_message message in
    if String.eqb compact "" || unsafe_marker (casefold compact)
       || startswith "{" compact || startswith "[" compact
    then "Worker task failed"
    else substring 0 _MESSAGE_CAP compact.

(** ** Retry hints and metadata *)

Open Scope Z_scope.

(** [float(z)] for an integer of the accepted range. *)
Definition float_of_int (z : Z) : pyfloat := mkFloat (Finite (inject_Z z)) (py_str_Z z ++ ".0")%string.

(** A JSON value that may be absent ([None]). *)
Definition normalize_retry_after (value : option json) : option pyfloat :=
  let check := fun f => match fl_value f with
                        | Finite q => if negb (Qle_bool 0 q) || negb (Qle_bool q 86400) then None else Some f
                        | _ => None
                        end in
  match value with
  | Some (JInt z) => check (float_of_int z)
  | Some (JFloat f) => check f
  | _ => None
  end.

(** The numeric value of a normalised hint. *)
Definition float_q (f : pyfloat) : Q := match fl_value f with Finite q => q | _ => 0%Q end.

Definition safe_identifier (metadata : dict) (key : string) (safe : dict) : dict :=
  match dict_get key metadata with
  | Some (JStr s) => if _SAFE_IDENTIFIER_RE s then dict_set key (JStr s) safe else safe
  | Some (JInt z) => if _SAFE_IDENTIFIER_RE (py_str_Z z) then dict_set key (JStr (py_str_Z z)) safe else safe
  | _ => safe
  end.

Definition sanitize_error_metadata (metadata : dict) : dict :=
  let safe := match dict_get "status_code" metadata with
              | Some (JInt z) => if (100 <=? z) && (z <=? 599) then [("status_code", JInt z)] else []
              | _ => []
              end in
  let safe := safe_identifier metadata "request_id" (safe_identifier metadata "error_code" safe) in
  let safe := match dict_get "module" metadata with
              | Some (JStr s) => if _SAFE_MODULE_RE s then dict_set "module" (JStr s) safe else safe
              | _ => safe
              end in
  match normalize_retry_after (dict_get "retry_after_s" metadata) with
  | Some f => dict_set "retry_after_s" (JFloat f) safe
  | None => safe
  end.

Definition build_error_entry (now : time) (error_type message stack_hash : string) (retryable message_safe : bool)
    (metadata : dict) : dict :=
  let entry := [("type", JStr (if _TYPE_RE error_type then error_type else "WorkerError"));
                ("message", JStr (_safe_message message message_safe));
                ("stack_hash", JStr (if _HEX_RE stack_hash then stack_hash else ""));
                ("retryable", JBool retryable);
                ("at", JStr (isoformat now))] in
  match sanitize_error_metadata metadata with
  | [] => entry
  | safe => entry ++ [("metadata", JObj safe)]
  end.

(** ** The fuel of [sub] is enough *)

Definition consumes (m : matcher) : Prop :=
  forall prev s rep rest l, m prev s = Some (rep, rest, l) -> (String.length rest < String.length s)%nat.

Lemma sub_go_fuel m : consumes m -> forall f f' prev s,
  (String.length s < f)%nat -> (String.length s < f')%nat -> sub_go m f prev s = sub_go m f' prev s.
Proof.
  intros Hm. induction f as [|f IH]; intros f' prev s Hf Hf'; [lia|]. destruct f' as [|f']; [lia|].
  destruct s as [|c s']; [done|]. cbn [sub_go]. simpl in Hf, Hf'.
  destruct (m prev (String c s')) as [[[rep rest] l]|] eqn:E.
  - apply Hm in E. simpl in E. f_equal. apply IH; lia.
  - f_equal. apply IH; lia.
Qed.

Lemma run_length p s : (String.length (fst (run p s)) + String.length (snd (run p s)) = String.length s)%nat.
Proof.
  induction s as [|c s IH]; simpl; [done|]. destruct (p c); simpl; [|done].
  destruct (run p s) as [r t]. simpl in *. lia.
Qed.

Lemma ci_literal_length l s t : ci_literal l s = Some t -> (String.length t + String.length l = String.length s)%nat.
Proof.
  revert s. induction l as [|a l IH]; intros s; simpl; [intros [= ->]; lia|].
  destruct s as [|c s]; [done|]. destruct (Ascii.eqb _ _); [|done]. intros E%IH. simpl. lia.
Qed.

Lemma first_literal_length ls s t : first_literal ls s = Some t -> (String.length t <= String.length s)%nat.
Proof.
  induction ls as [|l ls IH]; simpl; [done|]. destruct (ci_literal l s) eqn:E; [|done].
  intros [= ->]. apply ci_literal_length in E. lia.
Qed.

Lemma backtrack_length n rr rest t c :
  (1 <= n)%nat -> backtrack n rr rest = Some (t, c) -> (String.length t < String.length rr + String.length rest)%nat.
Proof.
  intros Hn. revert rest. induction rr as [|x rr IH]; intros rest; simpl; [done|].
  destruct (_ && _).
  - intros [= <- <-]. lia.
  - intros E%IH. simpl in E. lia.
Qed.

Lemma rev_string_length s : String.length (rev_string s) = String.length s.
Proof.
  unfold rev_string. assert (forall acc, String.length (rev_append_string s acc)
    = (String.length s + String.length acc)%nat) as H.
  { induction s as [|c s IH]; intros acc; simpl; [done|]. rewrite IH. simpl. lia. }
  rewrite H. simpl. lia.
Qed.

Lemma last_char_pos s c : last_char s = Some c -> (1 <= String.length s)%nat.
Proof.
  unfold last_char. intros H. rewrite <- rev_string_length. destruct (rev_string s); [done|simpl; lia].
Qed.

Lemma bearer_consumes : consumes _BEARER_RE.
Proof.
  intros prev s rep rest l. unfold _BEARER_RE. destruct (boundary _ _); [|done].
  destruct (ci_literal "bearer" s) as [t|] eqn:Et; [|done]. apply ci_literal_length in Et.
  pose proof (run_length is_space t) as H1. destruct (run is_space t) as [sp u].
  pose proof (run_length bearer_char u) as H2. destruct (run bearer_char u) as [tok v]. simpl in *.
  destruct (last_char tok); [|done]. destruct (_ && _); [|done]. intros [= _ <- _]. lia.
Qed.

Lemma secret_token_consumes : consumes _SECRET_TOKEN_RE.
Proof.
  intros prev s rep rest l. unfold _SECRET_TOKEN_RE. destruct (boundary _ _); [|done].
  destruct (first_literal _ s) as [t|] eqn:Et; [|done]. apply first_literal_length in Et.
  pose proof (run_length (fun c => is_alnum c || one_of "_-" c) t) as H1.
  destruct (run _ t) as [tok v]. simpl in H1.
  destruct (backtrack 8 (rev_string tok) v) as [[r c]|] eqn:Eb; [|done]. intros [= _ <- _].
  apply backtrack_length in Eb; [|lia]. rewrite rev_string_length in Eb. lia.
Qed.

Lemma secret_name_length s t : secret_name s = Some t -> (String.length t <= String.length s)%nat.
Proof.
  assert (forall a b s t, joined a b s = Some t -> (String.length t <= String.length s)%nat) as Hj.
  { clear. intros a b s t. unfold joined. destruct (ci_literal a s) as [u|] eqn:E; [|done].
    apply ci_literal_length in E. destruct u as [|c u]; [|destruct (one_of _ _)];
      intros H%ci_literal_length; simpl in *; lia. }
  assert (forall l s t, ci_literal l s = Some t -> (String.length t <= String.length s)%nat) as Hc.
  { clear. intros l s t H%ci_literal_length. lia. }
  assert (forall (x y : option string), or_else x y = Some t -> x = Some t \/ y = Some t) as Ho.
  { intros [x|] y; simpl; auto. }
  unfold secret_name. intros H. repeat (apply Ho in H as [H|H]; [by eauto|]). by eauto.
Qed.

Lemma secret_assignment_consumes : consumes _SECRET_ASSIGNMENT_RE.
Proof.
  intros prev s rep rest l. unfold _SECRET_ASSIGNMENT_RE. destruct (boundary _ _); [|done].
  destruct (secret_name s) as [t|] eqn:Et; [|done]. apply secret_name_length in Et.
  pose proof (run_length is_space t) as H1. destruct (run is_space t) as [sp [|c u]]; simpl in *; [done|].
  destruct (one_of ":=" c); [|done]. pose proof (run_length is_space u) as H2.
  destruct (run is_space u) as [sp2 v]. simpl in *.
  pose proof (run_length (fun c => negb (is_space c || one_of ",;" c)) v) as H3.
  destruct (run _ v) as [val w]. simpl in *. destruct (last_char val) as [x|] eqn:El; [|done].
  apply last_char_pos in El. intros [= _ <- _]. lia.
Qed.

(** ** What may reach [error_history] *)

Lemma startswith_app m p x : startswith m p = true -> startswith m (p ++ x)%string = true.
Proof.
  unfold startswith. revert p. induction m as [|a m IH]; intros p; [by destruct p, x|].
  destruct p as [|c p]; [done|]. change ((String c p ++ x)%string) with (String c (p ++ x)%string). simpl.
  destruct (ascii_dec a c); [apply IH | done].
Qed.

Lemma contains_app m p x : contains m p = true -> contains m (p ++ x)%string = true.
Proof.
  induction p as [|c p IH].
  - intros H. change (("" ++ x)%string) with x. simpl in H. rewrite orb_false_r in H.
    assert (m = "") as -> by (destruct m; [done|discriminate]). by destruct x.
  - intros H. change ((String c p ++ x)%string) with (String c (p ++ x)%string).
    cbn [contains] in *. apply orb_true_iff in H as [H|H]; apply orb_true_iff; [left|right; auto].
    by apply (startswith_app m (String c p) x).
Qed.

Lemma casefold_prefix n s : exists x, casefold s = (casefold (substring 0 n s) ++ x)%string.
Proof.
  revert n. induction s as [|c s IH]; intros n; [exists ""; by destruct n|].
  destruct n as [|n]; [by exists (casefold (String c s))|]. destruct (IH n) as [x Hx].
  cbn [substring casefold]. exists x. rewrite Hx.
  destruct (_ || _); [done|]. by destruct (_ =? _)%N.
Qed.

Lemma unsafe_marker_prefix n s :
  unsafe_marker (casefold s) = false -> unsafe_marker (casefold (substring 0 n s)) = false.
Proof.
  destruct (casefold_prefix n s) as [x ->]. intros H. apply not_true_iff_false. intros H'.
  apply not_true_iff_false in H. apply H. unfold unsafe_marker in *.
  rewrite !orb_true_iff, !existsb_exists in *.
  destruct H' as [[(m & Hm & Hc)|Hc]|Hc]; [left; left; exists m | left; right | right]; auto using contains_app.
Qed.

Lemma substring_length n s : (String.length (substring 0 n s) <= n)%nat.
Proof. revert n. induction s as [|c s IH]; intros [|n]; simpl; try lia. specialize (IH n). lia. Qed.

Lemma safe_message_spec message approved :
  (String.length (_safe_message message approved) <= _MESSAGE_CAP)%nat
  /\ unsafe_marker (casefold (_safe_message message approved)) = false
  /\ (approved = false -> _safe_message message approved = "Worker task failed").
Proof.
  unfold _safe_message. destruct approved; simpl negb; cbv iota.
  - set (c := compact_message message). destruct (_ || _) eqn:E.
    + split_and!; [unfold _MESSAGE_CAP; simpl; lia | by vm_compute | done].
    + rewrite !orb_false_iff in E. destruct E as [[[_ E] _] _].
      split_and!; [apply substring_length | by apply unsafe_marker_prefix | done].
  - split_and!; [unfold _MESSAGE_CAP; simpl; lia | by vm_compute | done].
Qed.

Definition metadata_keys : list string := ["status_code"; "error_code"; "request_id"; "module"; "retry_after_s"].
Definition entry_keys : list string := ["type"; "message"; "stack_hash"; "retryable"; "at"; "metadata"].

Lemma dict_set_keys k v d x : In x (map fst (dict_set k v d)) -> x = k \/ In x (map fst d).
Proof.
  induction d as [|[k' v'] d IH]; simpl; [naive_solver|].
  destruct (String.eqb_spec k k'); simpl; naive_solver.
Qed.

Lemma safe_identifier_keys md k d x : In x (map fst (safe_identifier md k d)) -> x = k \/ In x (map fst d).
Proof.
  unfold safe_identifier. destruct (dict_get k md) as [[]|]; try (by right);
    destruct (_SAFE_IDENTIFIER_RE _); try (by right); apply dict_set_keys.
Qed.

Lemma sanitize_keys md k : In k (map fst (sanitize_error_metadata md)) -> In k metadata_keys.
Proof.
  unfold sanitize_error_metadata, metadata_keys. intros H.
  assert (forall d (o : option json) (f : string -> bool) x,
    In x (map fst (match o with Some (JStr s) => if f s then dict_set "module" (JStr s) d else d | _ => d end))
    -> x = "module" \/ In x (map fst d)) as Hmod.
  { intros d o f x. destruct o as [[]|]; try (by right). destruct (f s); [apply dict_set_keys | by right]. }
  assert (forall d (o : option pyfloat) x,
    In x (map fst (match o with Some f => dict_set "retry_after_s" (JFloat f) d | None => d end))
    -> x = "retry_after_s" \/ In x (map fst d)) as Hretry.
  { intros d [f|] x; [apply dict_set_keys | by right]. }
  apply Hretry in H as [->|H]; [simpl; tauto|]. apply Hmod in H as [->|H]; [simpl; tauto|].
  apply safe_identifier_keys in H as [->|H]; [simpl; tauto|].
  apply safe_identifier_keys in H as [->|H]; [simpl; tauto|].
  destruct (dict_get "status_code" md) as [[]|]; try done. destruct (_ && _); [|done].
  destruct H as [<-|[]]. simpl. tauto.
Qed.

Lemma normalize_retry_after_range v f :
  normalize_retry_after v = Some f -> (0 <= float_q f /\ float_q f <= 86400)%Q.
Proof.
  assert (forall f f', match fl_value f with
    | Finite q => if negb (Qle_bool 0 q) || negb (Qle_bool q 86400) then None else Some f
    | _ => None end = Some f' -> (0 <= float_q f' /\ float_q f' <= 86400)%Q) as H.
  { intros x x'. unfold float_q. destruct (fl_value x) as [q| | |] eqn:E; try done.
    destruct (Qle_bool 0 q) eqn:E1, (Qle_bool q 86400) eqn:E2; simpl; try done.
    intros [= <-]. rewrite E. by apply Qle_bool_iff in E1, E2. }
  unfold normalize_retry_after. destruct v as [[]|]; try done; apply H.
Qed.
