(* ===== verification/JobService.v ===== *)
(** * Worker-facing job life cycle (src/symba/services/job_service.py)

    [complete], [fail] (retry or die), [heartbeat] and [get_result], with the
    gate settlement they share.  Logging, metrics and tracing spans are left
    out.  [u] is the draw of [random.random()] behind a jittered backoff. *)

From S2P Require Import Prelude PyStr Errors States Chain Policies Failure Json Records Database.
From S2P Require Import Queries Tables Claim Invariant Steps ClaimFacts Repository RepoFacts World.
From S2P Require Import RateLimiter.
From Stdlib Require Import QArith.
Open Scope string_scope.
Open Scope Z_scope.
Open Scope list_scope.

Module JobService.

(** ** _next_run_at *)

(** A JSON number used in float arithmetic; a bool counts as 0 or 1. *)
Definition number (j : json) : option Q :=
  match j with
  | JInt z => Some (inject_Z z)
  | JBool b => Some (if b then 1%Q else 0%Q)
  | JFloat f => match fl_value f with Finite q => Some q | _ => None end
  | _ => None
  end.

(** [bool(x)] *)
Definition json_truthy (j : json) : bool :=
  match j with
  | JNull => false
  | JBool b => b
  | JInt z => negb (z =? 0)
  | JFloat f => match fl_value f with Finite q => negb (Qeq_bool q 0) | _ => true end
  | JStr s => negb (String.eqb s "")
  | JArr l => match l with [] => false | _ => true end
  | JObj l => match l with [] => false | _ => true end
  end.

Definition is_int (o : option json) : bool :=
  match o with Some (JInt _) | Some (JBool _) => true | _ => false end.

Definition get_number (k : string) (dflt : Q) (cfg : dict) : option Q :=
  match dict_get k cfg with Some j => number j | None => Some dflt end.

(** [BackoffPolicy(base_s=cfg.get(...), ...)]; None when a field is no number. *)
Definition policy_of (cfg : dict) : option Retry.BackoffPolicy :=
  base ← get_number "base_s" 1 cfg;
  fac ← get_number "factor" 2 cfg;
  cap ← get_number "cap_s" 300 cfg;
  Some (Retry.mkBackoff base fac cap
          (match dict_get "jitter" cfg with Some j => json_truthy j | None => true end)).

(** [policy.delay(attempt)]; with an integer base and factor the power is an
    unbounded integer, otherwise a float that can overflow. *)
Definition policy_delay (cfg : dict) (p : Retry.BackoffPolicy) (attempt : Z) (u : Q) : result exn Q :=
  if is_int (dict_get "base_s" cfg) && is_int (dict_get "factor" cfg) && (0 <=? attempt) then
    let ceil := Retry.py_min (Retry.cap_s p) (Retry.base_s p * Qpower (Retry.factor p) attempt)%Q in
    Ok (if negb (Retry.jitter p) then ceil else (0 + (ceil - 0) * u)%Q)
  else match Retry.delay p attempt u with
       | Ok d => Ok d
       | Raise Retry.NegativeAttempt => Raise ValueError
       | Raise Retry.PowOverflow => Raise OverflowError
       end.

(** The range of [datetime], in microseconds. *)
Definition datetime_min : time := -62135596800000000.
Definition datetime_max : time := 253402300799999999.

Definition _next_run_at (now : time) (u : Q) (attempt : Z) (backoff : option dict)
    (minimum_delay_s : option Q) : result exn time :=
  let cfg := default [] backoff in
  match policy_of cfg with
  | None => Raise TypeError
  | Some p =>
      match policy_delay cfg p attempt u with
      | Raise e => Raise e
      | Ok d =>
          let d := match minimum_delay_s with Some m => Retry.py_max d m | None => d end in
          let t := now + Retry.timedelta_us d in
          if (datetime_min <=? t) && (t <=? datetime_max) then Ok t else Raise OverflowError
      end
  end.

(** ** Gate settlement *)

Definition _merge_gate_manifest (on_complete : SubmitSpec) (gate_id : uuid)
    (resolution : repo.GateResolution) (results : list json) : SubmitSpec :=
  set_s_payload
    (dict_set "__gate__"
       (JObj [("gate_id", JStr (uuid_str gate_id)); ("results", JArr results);
              ("expected", JInt (repo.gr_expected resolution));
              ("succeeded", JInt (repo.gr_succeeded resolution))])
       (s_payload on_complete)) on_complete.

(** [SubmitSpec of d with the tenant and context of the gate or of the dead job, queued] *)
Definition materialize (tenant : string) (ctx_id : option string) (d : SubmitSpec) : SubmitSpec :=
  set_s_state QUEUED (set_s_ctx_id ctx_id (set_s_tenant tenant d)).

Definition _settle_gate (parent_gate_id : option uuid) (child_succeeded child_failed : bool) : DBM bool :=
  match parent_gate_id with
  | None => mret false
  | Some gate =>
      r ← repo.bump_gate gate child_succeeded child_failed;
      match r with
      | None => mret false
      | Some res =>
          if negb (repo.gr_resolved res) then mret false
          else if negb (repo.gr_satisfied res) then
            match s_on_failure (repo.gr_on_complete res) with
            | Some failure =>
                _ ← repo.submit (set_s_group_key (Some (uuid_str gate))
                                   (materialize (repo.gr_tenant res) (repo.gr_ctx_id res) failure));
                mret true
            | None => mret true
            end
          else
            results ← repo.gate_child_results gate;
            _ ← repo.submit (materialize (repo.gr_tenant res) (repo.gr_ctx_id res)
                               (_merge_gate_manifest (repo.gr_on_complete res) gate res results));
            mret true
      end
  end.

(** ** complete *)

(** The size of a result over the cap. *)
Definition oversized (cap : Z) (result : option dict) : option Z :=
  match result with
  | Some r => let size := json_size (JObj r) in if cap <? size then Some size else None
  | None => None
  end.

(** The transaction: the flipped dependents, whether the gate resolved and the
    continuation. *)
Definition complete_tx (job_id lease_token : uuid) (result : option dict) (drop_chain_tail skipped : bool)
  : DBM (list uuid * bool * option uuid) :=
  term ← repo.complete_move job_id lease_token result;
  match term with
  | None => raise (err StaleLease [("job_id", CtxId job_id)])
  | Some term =>
      _ ← repo.decrement_group (t_tenant term) (t_group_key term) (t_task_name term) 1;
      continuation ←
        (if drop_chain_tail then mret None
         else match advance (t_on_success term) (t_chain_tail term) with
              | Some step =>
                  i ← repo.insert_continuation (next_task step) (on_success step) (chain_tail step) term;
                  mret (Some i)
              | None => mret None
              end);
      flipped ← repo.decrement_deps job_id;
      _ ← repo.record_event job_id (if skipped then "skipped" else "succeeded") None;
      gate_resolved ← _settle_gate (t_parent_gate_id term) (negb skipped) false;
      mret (flipped, gate_resolved, continuation)
  end.

Definition complete (cfg : SymbaConfig) (job_id lease_token : uuid) (result : option dict)
    (drop_chain_tail skipped : bool) : EM bool :=
  let cap := max_result_kb cfg * 1024 in
  match oversized cap result with
  | Some size =>
    raise (err ResultTooLarge [("job_id", CtxId job_id); ("size_bytes", CtxInt size);
                               ("cap_bytes", CtxInt cap)])
  | None =>
    r ← in_tx (complete_tx job_id lease_token result drop_chain_tail skipped);
    let '(flipped, gate_resolved, continuation) := r in
    _ ← when (negb (match flipped with [] => true | _ => false end) || gate_resolved
              || match continuation with Some _ => true | None => false end) wake_set;
    mret true
  end.

(** ** fail *)

Record FailOutcome := mkOutcome { accepted : bool; will_retry : bool }.

Definition retry_tx (now : time) (u : Q) (job_id lease_token : uuid) (peek : PeekRow) (entry : dict)
    (safe_retry_after : option Q) : DBM unit :=
  match _next_run_at now u (pk_attempt peek) (pk_backoff peek) safe_retry_after with
  | Raise e => raise e
  | Ok next_run_at =>
      row ← repo.fail_retry job_id lease_token next_run_at (JObj entry);
      match row with
      | None => raise (err StaleLease [("job_id", CtxId job_id)])
      | Some r =>
          _ ← repo.decrement_group (c_tenant (j_cols r)) (c_group_key (j_cols r)) (c_task_name (j_cols r)) 1;
          repo.record_event job_id "retry_scheduled" (Some entry)
      end
  end.

(** One ledger row per cancelled dependent, naming the root. *)
Definition audit_cascade (root : uuid) (cancelled : list uuid) : DBM unit :=
  _ ← forM (fun dep => repo.record_event dep "dependency_cancelled"
                         (Some [("root_cause", JStr (uuid_str root))])) cancelled;
  mret tt.

(** Returns whether the gate resolved or a hook was submitted. *)
Definition die_tx (job_id lease_token : uuid) (entry : dict) : DBM bool :=
  term ← repo.fail_die job_id lease_token (JObj entry);
  match term with
  | None => raise (err StaleLease [("job_id", CtxId job_id)])
  | Some term =>
      _ ← repo.decrement_group (t_tenant term) (t_group_key term) (t_task_name term) 1;
      gate_resolved ← _settle_gate (t_parent_gate_id term) false true;
      hooked ← match t_on_failure term with
               | Some hook =>
                   _ ← repo.submit (materialize (t_tenant term) (t_ctx_id term) hook);
                   mret true
               | None => mret false
               end;
      cancelled ← repo.cascade_cancel job_id;
      _ ← audit_cascade job_id cancelled;
      _ ← repo.record_event job_id "dead" (Some entry);
      mret (gate_resolved || hooked)
  end.

(** [worker_max_attempts or peek["max_attempts"]] *)
Definition attempt_limit (worker_max : option Z) (stored : Z) : Z :=
  match worker_max with Some n => if n =? 0 then stored else n | None => stored end.

(** The arguments of one Fail call. *)
Record FailArgs := mkFail {
  fa_error_type : string;
  fa_error_message : string;
  fa_stack_hash : string;
  fa_retryable : bool;
  fa_worker_max_attempts : option Z;
  fa_error_message_safe : bool;
  fa_error_metadata : dict;
  fa_rate_limited : bool;
  fa_retry_after_s : option pyfloat
}.

Definition fail_entry (now : time) (a : FailArgs) : dict :=
  let metadata := match fa_retry_after_s a with
                  | Some f => dict_set "retry_after_s" (JFloat f) (fa_error_metadata a)
                  | None => fa_error_metadata a
                  end in
  build_error_entry now (fa_error_type a) (fa_error_message a) (fa_stack_hash a) (fa_retryable a)
    (fa_error_message_safe a) metadata.

(** [normalize_retry_after(entry.get("metadata", {}).get("retry_after_s"))] *)
Definition entry_retry_after (entry : dict) : option Q :=
  match dict_get "metadata" entry with
  | Some (JObj md) => float_q <$> normalize_retry_after (dict_get "retry_after_s" md)
  | _ => None
  end.

(** The transaction: (will_retry, wake, rate_class). *)
Definition fail_tx (now : time) (u : Q) (job_id lease_token : uuid) (a : FailArgs)
  : DBM (bool * bool * option string) :=
  let entry := fail_entry now a in
  peek ← repo.fail_peek job_id lease_token;
  match peek with
  | None => raise (err StaleLease [("job_id", CtxId job_id)])
  | Some peek =>
      let max_attempts := attempt_limit (fa_worker_max_attempts a) (pk_max_attempts peek) in
      if Retry.should_retry (pk_attempt peek) max_attempts (fa_retryable a) then
        _ ← retry_tx now u job_id lease_token peek entry (entry_retry_after entry);
        mret (true, false, pk_rate_class peek)
      else
        woke ← die_tx job_id lease_token entry;
        mret (false, woke, pk_rate_class peek)
  end.

(** After the commit: drain the bucket on a 429, wake the dispatcher. *)
Definition after_fail (a : FailArgs) (r : bool * bool * option string) : EM FailOutcome :=
  let '(retry, woke, rate_class) := r in
  _ ← match truthy rate_class with
      | Some rc => when (fa_rate_limited a) (try_except (fun _ => true) (drain rc) (mret tt))
      | None => mret tt
      end;
  if retry then mret (mkOutcome true true)
  else
    _ ← when woke wake_set;
    mret (mkOutcome true false).

Definition fail (u : Q) (job_id lease_token : uuid) (a : FailArgs) : EM FailOutcome :=
  now ← clock;
  r ← in_tx (fail_tx now u job_id lease_token a);
  after_fail a r.

(** ** heartbeat, get_result *)

Definition heartbeat (job_id lease_token : uuid) : EM (option time * bool) :=
  row ← on_db (repo.heartbeat job_id lease_token);
  of_option (err StaleLease [("job_id", CtxId job_id)]) row.

Definition get_result (job_id : uuid) (tenant : string) (task_name : option string) : EM (string * bool) :=
  row ← on_db (match truthy task_name with
               | Some t => repo.get_ancestor_result job_id t tenant
               | None => repo.get_result job_id tenant
               end);
  mret (match row with
        | Some r => match repo.rs_result r with
                    | Some d => (dumps (JObj d), true)
                    | None => ("", false)
                    end
        | None => ("", false)
        end).

End JobService.
