(* ===== verification/SubmitService.v ===== *)
(** * Control-plane submit and read (src/symba/services/submit_service.py) *)

From S2P Require Import Prelude PyStr Errors States Chain Json Records Database Queries Tables.
From S2P Require Import Claim Invariant Steps ClaimFacts Repository RepoFacts World RateLimiter.
Open Scope string_scope.
Open Scope Z_scope.
Open Scope list_scope.

Module SubmitService.

Record SubmitOutcome := mkSubmitOutcome { job_ids : list uuid; deduplicated : list bool }.

Definition _initial_state (now : time) (spec : SubmitSpec) : JobState :=
  let has_deps := 0 <? s_remaining_deps spec in
  let is_deferred := match s_run_at spec with Some t => now <? t | None => false end in
  if has_deps || is_deferred then SUBMITTED else QUEUED.

Definition chain_len (spec : SubmitSpec) : Z :=
  (match truthy (s_on_success spec) with Some _ => 1 | None => 0 end)
  + Z.of_nat (length (s_chain_tail spec)).

(** Validates the caps; returns the spec with its derived fields. *)
Definition _prepare (cfg : SymbaConfig) (now : time) (spec : SubmitSpec) : result exn SubmitSpec :=
  let size := json_size (JObj (s_payload spec)) in
  let cap := max_payload_kb cfg * 1024 in
  if cap <? size then
    Raise (err PayloadTooLarge [("task_name", CtxStr (s_task_name spec)); ("size_bytes", CtxInt size);
                                ("cap_bytes", CtxInt cap)])
  else if max_chain_len cfg <? chain_len spec then
    Raise (err ChainTooLong [("task_name", CtxStr (s_task_name spec));
                             ("chain_len", CtxInt (chain_len spec)); ("cap", CtxInt (max_chain_len cfg))])
  else
    let spec1 := match s_depends_on spec with
                 | [] => spec
                 | deps => if s_remaining_deps spec =? 0
                           then set_s_remaining_deps (Z.of_nat (length deps)) spec else spec
                 end in
    Ok (set_s_state (_initial_state now spec1) spec1).

(** [for spec in specs: self._prepare(spec)] *)
Fixpoint prepare_all (cfg : SymbaConfig) (now : time) (specs : list SubmitSpec)
  : result exn (list SubmitSpec) :=
  match specs with
  | [] => Ok []
  | s :: rest =>
      match _prepare cfg now s with
      | Raise e => Raise e
      | Ok s' => match prepare_all cfg now rest with Ok l => Ok (s' :: l) | Raise e => Raise e end
      end
  end.

(** [Counter(spec.tenant for spec in specs)], in insertion order. *)
Fixpoint counter_add (t : string) (c : list (string * Z)) : list (string * Z) :=
  match c with
  | [] => [(t, 1)]
  | (t', n) :: c' => if String.eqb t t' then (t', n + 1) :: c' else (t', n) :: counter_add t c'
  end.

Definition batch_by_tenant (specs : list SubmitSpec) : list (string * Z) :=
  foldl (fun c s => counter_add (s_tenant s) c) [] specs.

Definition _enforce_tenant_caps (cfg : SymbaConfig) (specs : list SubmitSpec) : DBM unit :=
  _ ← forM (fun '(tenant, adding) =>
        current ← repo.count_tenant_live tenant;
        if tenant_queued_cap cfg <? current + adding then
          raise (err TenantQuotaExceeded
                   [("tenant", CtxStr tenant); ("current", CtxInt current);
                    ("cap", CtxInt (tenant_queued_cap cfg));
                    ("retry_after_s", CtxInt (sweeper_interval_s cfg))])
        else mret tt) (batch_by_tenant specs);
  mret tt.

(** One spec of the batch: insert, then its dependency edges unless deduplicated. *)
Definition submit_one (spec : SubmitSpec) : DBM (uuid * bool) :=
  r ← repo.submit spec;
  if snd r : bool then mret r
  else
    _ ← forM (fun '(upstream, alias) => repo.insert_dependency (fst r) upstream alias) (s_depends_on spec);
    mret r.

Definition submit_tx (cfg : SymbaConfig) (specs : list SubmitSpec) : DBM (list (uuid * bool)) :=
  _ ← (if 0 <? tenant_queued_cap cfg then _enforce_tenant_caps cfg specs else mret tt);
  forM submit_one specs.

Definition any_queued (specs : list SubmitSpec) (rs : list (uuid * bool)) : bool :=
  existsb (fun p => negb (snd (snd p)) && JobState_eqb (s_state (fst p)) QUEUED) (zip specs rs).

Definition submit (cfg : SymbaConfig) (specs : list SubmitSpec) : EM SubmitOutcome :=
  match specs with
  | [] => mret (mkSubmitOutcome [] [])
  | _ =>
      now ← clock;
      match prepare_all cfg now specs with
      | Raise e => raise e
      | Ok prepared =>
          rs ← in_tx (submit_tx cfg prepared);
          _ ← when (any_queued prepared rs) wake_set;
          mret (mkSubmitOutcome (map fst rs) (map snd rs))
      end
  end.

(** [job_id] is None when the text is no UUID. *)
Definition get_job (job_id : option uuid) (tenant : string) : EM repo.JobRow :=
  match job_id with
  | None => raise (err NotFound [("tenant", CtxStr tenant)])
  | Some i =>
      row ← on_db (repo.get_job i tenant);
      of_option (err NotFound [("job_id", CtxId i); ("tenant", CtxStr tenant)]) row
  end.

End SubmitService.
