(* ===== verification/QueryService.v ===== *)
(** * Read, stats and schedule surface (src/symba/services/query_service.py)

    Logging is left out.  [is_valid] stands for [croniter.is_valid]. *)

From S2P Require Import Prelude PyStr Errors States Json Records Database Queries Tables Claim.
From S2P Require Import Invariant Steps ClaimFacts Repository RepoFacts World.
Open Scope string_scope.
Open Scope Z_scope.
Open Scope list_scope.

Module QueryService.

Definition _MAX_PAGE : Z := 500.

Definition jobs (tenant : string) (f : JobFilter) (lim offset : Z) : EM (list repo.JobListItem) :=
  on_db (repo.list_jobs tenant f (Z.max 1 (Z.min lim _MAX_PAGE)) (Z.max 0 offset)).

Definition board (tenant : string) : EM (list (JobState * Z)) := on_db (repo.stats_board tenant).
Definition queues (tenant : string) : EM (list QueueStat) := on_db (repo.stats_queues tenant).
Definition workers : EM (list Worker) := on_db repo.list_workers.
Definition cron (tenant : string) : EM (list CronSchedule) := on_db (repo.list_cron tenant).

Definition schedule_not_found (schedule_id tenant : string) : exn :=
  err NotFound [("job_id", CtxStr schedule_id); ("tenant", CtxStr tenant)].

Definition set_cron_enabled (schedule_id tenant : string) (enabled : bool) : EM CronSchedule :=
  rows ← on_db (ok ← repo.cron_set_enabled schedule_id tenant enabled;
                if negb ok then raise (schedule_not_found schedule_id tenant)
                else repo.list_cron tenant);
  of_option (schedule_not_found schedule_id tenant)
    (List.find (fun r => String.eqb (cr_schedule_id r) schedule_id) rows).

Section Validation.
Context (is_valid : string -> bool).

Definition upsert_cron (schedule_id cron_expr task_name : string) (payload : option dict)
    (tenant : string) (enabled : bool) : EM CronSchedule :=
  if negb (is_valid cron_expr) then
    raise (Symba (mkSymbaError ValidationError
                    (Some ("invalid cron expression: " ++ py_repr cron_expr)%string)
                    [("cron_expr", CtxStr cron_expr)]))
  else
    row ← on_db (repo.cron_upsert schedule_id cron_expr task_name (default [] payload) tenant enabled);
    of_option (Symba (mkSymbaError PermissionDenied
                        (Some ("schedule " ++ py_repr schedule_id ++ " is owned by another tenant")%string)
                        [("schedule_id", CtxStr schedule_id)])) row.
End Validation.

Definition delete_cron (schedule_id tenant : string) : EM unit :=
  ok ← on_db (repo.cron_delete schedule_id tenant);
  if negb ok then raise (schedule_not_found schedule_id tenant) else mret tt.

Definition events (job_id : uuid) (tenant : string) : EM (list Event) := on_db (repo.job_events job_id tenant).
Definition tree (ctx_id tenant : string) : EM (list Dependency) := on_db (repo.job_tree_edges tenant ctx_id).

End QueryService.
