(* ===== verification/EventStream.v ===== *)
(** * Live event stream (src/symba/services/event_stream.py)

    One poller tails the ledger and copies each new row into the bounded queue
    of every subscriber of its tenant.  Subscribers are objects compared by
    identity; a name stands for the object.  Polling reads the database only. *)

From S2P Require Import Prelude Errors States Json Records Database Queries Tables Claim.
From S2P Require Import Invariant Steps ClaimFacts Repository.
Open Scope string_scope.
Open Scope Z_scope.
Open Scope list_scope.

Module EventStream.

Definition _BATCH : Z := 500.
Definition _QUEUE_MAX : nat := 256.

Record Subscriber := mkSubscriber { sub_id : nat; sub_tenant : string; sub_queue : list Event }.

Record Stream := mkStream { es_subscribers : list Subscriber; es_after_id : Z }.

(** [put_nowait(row)], dropping the oldest row of a full queue. *)
Definition offer (row : Event) (q : list Event) : list Event :=
  if (length q <? _QUEUE_MAX)%nat then q ++ [row] else tail q ++ [row].

Definition _fan_out (row : Event) (subs : list Subscriber) : list Subscriber :=
  map (fun s => if String.eqb (sub_tenant s) (ev_tenant row)
                then mkSubscriber (sub_id s) (sub_tenant s) (offer row (sub_queue s)) else s) subs.

(** The result of a query that cannot raise. *)
Definition answer {A} (dflt : A) (m : DBM A) (db : DB) : A :=
  match snd (m db) with Ok a => a | Raise _ => dflt end.

Definition head_id (db : DB) : Z := answer 0 (repo.max_event_id "default") db.

(** [start]: the cursor begins at the head of the ledger. *)
Definition start (db : DB) (s : Stream) : Stream := mkStream (es_subscribers s) (head_id db).

Definition _poll_once (db : DB) (s : Stream) : Stream :=
  match es_subscribers s with
  | [] => mkStream [] (head_id db)
  | subs =>
      let rows := answer [] (repo.events_since (es_after_id s) "default" _BATCH) db in
      match rev rows with
      | [] => s
      | r :: _ => mkStream (foldl (fun ss row => _fan_out row ss) subs rows) (ev_id r)
      end
  end.

Definition snapshot_for_ctx (tenant ctx_id : string) (after_id lim : Z) (db : DB) : list Event :=
  answer [] (repo.events_for_ctx tenant ctx_id after_id lim) db.

(** Entering and leaving [subscribe]; reading one row as the connection does. *)
Definition subscribe (id : nat) (tenant : string) (s : Stream) : Stream :=
  mkStream (es_subscribers s ++ [mkSubscriber id tenant []]) (es_after_id s).

Definition unsubscribe (id : nat) (s : Stream) : Stream :=
  mkStream (delete_where (fun x => Nat.eqb (sub_id x) id) (es_subscribers s)) (es_after_id s).

End EventStream.
