(* ===== verification/FanOutService.v ===== *)
(** * Fan-out and gates (src/symba/services/fanout_service.py) *)

From S2P Require Import Prelude PyStr Errors States Gates Json Records Database Queries Tables.
From S2P Require Import Claim Invariant Steps ClaimFacts Repository RepoFacts World RateLimiter.
Open Scope string_scope.
Open Scope Z_scope.
Open Scope list_scope.

Module FanOutService.

Record FanOutOutcome := mkFanOut { child_job_ids : list uuid; fo_gate_id : uuid }.

(** The number of 'quorum(n)', None for the count-less policies; the outer
    None is [ValueError]. *)
Definition _quorum_n (policy : string) : option (option Z) :=
  if String.eqb policy "all_success" || String.eqb policy "all_terminal" then Some None
  else match quorum_text policy with
       | Some t => match py_int t with Some n => Some (Some n) | None => None end
       | None => None
       end.

(** A child as it is inserted: tenant, context and gate overwritten, queued. *)
Definition child_spec (tenant : string) (ctx_id : option string) (gate_id : uuid) (c : SubmitSpec)
  : SubmitSpec :=
  set_s_state QUEUED (set_s_parent_gate_id (Some gate_id)
    (set_s_ctx_id ctx_id (set_s_tenant tenant c))).

Definition fan_out_tx (tenant : string) (ctx_id : option string) (children : list SubmitSpec)
    (on_complete : SubmitSpec) (policy : string) (quorum_n : option Z)
  : DBM (uuid * list (uuid * bool)) :=
  gate_id ← repo.create_gate tenant ctx_id policy (Z.of_nat (length children)) quorum_n on_complete;
  rs ← forM (fun c => repo.submit (child_spec tenant ctx_id gate_id c)) children;
  mret (gate_id, rs).

Definition fan_out (cfg : SymbaConfig) (tenant : string) (ctx_id : option string)
    (children : list SubmitSpec) (on_complete : SubmitSpec) (policy : string) : EM FanOutOutcome :=
  match children with
  | [] => raise ValueError
  | _ =>
      if max_fanout_children cfg <? Z.of_nat (length children) then
        raise (err FanOutTooLarge [("count", CtxInt (Z.of_nat (length children)));
                                   ("cap", CtxInt (max_fanout_children cfg))])
      else
        match _quorum_n policy with
        | None => raise ValueError
        | Some quorum_n =>
            r ← in_tx (fan_out_tx tenant ctx_id children on_complete policy quorum_n);
            _ ← when (existsb (fun p : uuid * bool => negb (snd p)) (snd r)) wake_set;
            mret (mkFanOut (map fst (snd r)) (fst r))
        end
  end.

Definition gate_status (tenant : string) (gate_id : uuid) : EM (option repo.GateStatusRow) :=
  on_db (repo.get_gate tenant gate_id).

End FanOutService.
