(* ===== verification/SignalService.v ===== *)
(** * Signal and wait rendezvous (src/symba/services/signal_service.py) *)

From S2P Require Import Prelude PyStr Errors States Json Records Database Queries Tables Claim.
From S2P Require Import Invariant Steps ClaimFacts Repository RepoFacts World RateLimiter.
Open Scope string_scope.
Open Scope Z_scope.
Open Scope list_scope.

Module SignalService.

Record WaitOutcome := mkWait { resumed_immediately : bool; wait_payload : option dict }.
Record SignalOutcome := mkSignalOutcome { delivered : bool; signal_job_id : option uuid }.

Definition key_detail (wait_key : string) : option dict := Some [("wait_key", JStr wait_key)].

Definition signal_tx (lk : locks) (tenant wait_key : string) (payload : option dict)
    (signaled_by : option string) : DBM SignalOutcome :=
  woken ← repo.signal_wake lk tenant wait_key (default [] payload);
  match woken with
  | Some i =>
      _ ← repo.record_event i "signal_received" (key_detail wait_key);
      mret (mkSignalOutcome true (Some i))
  | None =>
      _ ← repo.signal_park tenant wait_key (Some (default [] payload)) signaled_by;
      mret (mkSignalOutcome false None)
  end.

Definition signal (lk : locks) (tenant wait_key : string) (payload : option dict)
    (signaled_by : option string) : EM SignalOutcome :=
  o ← in_tx (signal_tx lk tenant wait_key payload signaled_by);
  _ ← when (delivered o) wake_set;
  mret o.

Definition wait_tx (lk : locks) (job_id lease_token : uuid) (tenant wait_key : string) (timeout_s : Z)
  : DBM WaitOutcome :=
  payload ← repo.wait_consume lk tenant wait_key;
  match payload with
  | Some p =>
      _ ← repo.record_event job_id "signal_consumed" (key_detail wait_key);
      mret (mkWait true (Some p))
  | None =>
      parked ← repo.wait_park job_id lease_token wait_key timeout_s;
      match parked with
      | None => raise (err StaleLease [("job_id", CtxId job_id)])
      | Some _ =>
          _ ← repo.record_event job_id "waiting" (key_detail wait_key);
          mret (mkWait false None)
      end
  end.

Definition wait (lk : locks) (job_id lease_token : uuid) (tenant wait_key : string) (timeout_s : Z)
  : EM WaitOutcome := in_tx (wait_tx lk job_id lease_token tenant wait_key timeout_s).

End SignalService.
