(* ===== verification/CancelService.v ===== *)
(** * Cancel (src/symba/services/cancel_service.py), resubmit
    (src/symba/services/resubmit_service.py) and checkpoints
    (src/symba/services/checkpoint_service.py) *)

From S2P Require Import Prelude PyStr Errors States Json Records Database Queries Tables Claim.
From S2P Require Import Invariant Steps ClaimFacts Repository RepoFacts World RateLimiter.
From S2P Require Import JobService.
Open Scope string_scope.
Open Scope Z_scope.
Open Scope list_scope.

Module CancelService.

Record CancelOutcome := mkCancel {
  cancelled : bool;
  was_running : bool;
  cascaded : list uuid;
  note : string
}.

Definition _cascade (root_job_id : uuid) : DBM (list uuid) :=
  ids ← repo.cascade_cancel root_job_id;
  _ ← JobService.audit_cascade root_job_id ids;
  mret ids.

Definition cancel_tx (job_id : uuid) (cascade : bool) : DBM CancelOutcome :=
  term ← repo.cancel_immediate job_id;
  match term with
  | Some _ =>
      _ ← repo.record_event job_id "cancelled" None;
      ids ← (if cascade then _cascade job_id else mret []);
      mret (mkCancel true false ids "archived")
  | None =>
      claimed_by ← repo.cancel_running job_id;
      match claimed_by with
      | Some w =>
          _ ← repo.record_event job_id "cancel_requested" (Some [("worker", JStr w)]);
          ids ← (if cascade then _cascade job_id else mret []);
          mret (mkCancel true true ids "cancel_requested")
      | None => mret (mkCancel false false [] "noop")
      end
  end.

Definition cancel (job_id : uuid) (cascade : bool) : EM CancelOutcome := in_tx (cancel_tx job_id cascade).

End CancelService.

Module ResubmitService.

Record ResubmitOutcome := mkResubmit { new_job_id : uuid; resubmitted_from : uuid }.

Definition resubmit (job_id : uuid) (tenant : string) : EM ResubmitOutcome :=
  new_id ← on_db (repo.resubmit job_id tenant);
  match new_id with
  | None => raise (err NotFound [("job_id", CtxId job_id); ("tenant", CtxStr tenant)])
  | Some i =>
      _ ← wake_set;
      mret (mkResubmit i job_id)
  end.

(** An id that is not found is skipped. *)
Definition resubmit_many (job_ids : list uuid) (tenant : string) : EM (list ResubmitOutcome) :=
  outcomes ← forM (fun i => try_except (is_class NotFound)
                             (o ← resubmit i tenant; mret [o]) (mret [])) job_ids;
  mret (List.concat outcomes).

End ResubmitService.

Module CheckpointService.

(** [ckpt:{tenant}:{job_id}] *)
Definition _key (tenant : string) (job_id : uuid) : string :=
  ("ckpt:" ++ tenant ++ ":" ++ uuid_str job_id)%string.

Definition set_checkpoint_cache (k : string) (d : dict) (l : RateLimiter) : RateLimiter :=
  mkLimiter (match rl_redis l with
             | Some r => Some (mkRedis (rd_up r) (rd_buckets r) (<[k := d]> (rd_checkpoints r)) (rd_now r))
             | None => None
             end) (rl_cfg l) (rl_degraded l).

Definition _redis_set (tenant : string) (job_id : uuid) (data : dict) : EM unit :=
  l ← gets w_limiter;
  if redis_up l then set_limiter (set_checkpoint_cache (_key tenant job_id) data) else mret tt.

Definition _redis_get (tenant : string) (job_id : uuid) : EM (option dict) :=
  l ← gets w_limiter;
  mret (match rl_redis l with
        | Some r => if rd_up r then rd_checkpoints r !! _key tenant job_id else None
        | None => None
        end).

Definition put (job_id : uuid) (tenant : string) (data : dict) : EM unit :=
  _ ← on_db (repo.checkpoint_put job_id tenant data);
  _redis_set tenant job_id data.

Definition get (job_id : uuid) (tenant : string) : EM (option dict) :=
  cached ← _redis_get tenant job_id;
  match cached with
  | Some d => mret (Some d)
  | None => on_db (repo.checkpoint_get job_id tenant)
  end.

End CheckpointService.
