(* ===== verification/Matcher.v ===== *)
(** * The matcher (src/symba/services/matcher.py)

    One claim pass: capacity, rate tokens, claim, fairness shaping, round-robin
    assignment and attribution.  The pass is a sequence of transactions
    and changes of memory run to its end; [Interleaving] puts other calls in
    between.  Metrics and tracing are left out. *)

From S2P Require Import Prelude PyStr Errors States Chain Json Records Database Queries Tables.
From S2P Require Import Claim Invariant Steps ClaimFacts Repository RepoFacts World RateLimiter.
From S2P Require Import RegistryService.
Open Scope string_scope.
Open Scope Z_scope.
Open Scope list_scope.

Module Matcher.

Import repo.

(** ** Fairness shaping *)

(** [job.group_key or job.id] *)
Definition bucket_key (j : ClaimedJob) : string := default (uuid_str (cj_id j)) (truthy (cj_group_key j)).

(** [buckets[key].append(j)], buckets in insertion order. *)
Fixpoint add_bucket (k : string) (j : ClaimedJob) (b : list (string * list ClaimedJob))
  : list (string * list ClaimedJob) :=
  match b with
  | [] => [(k, [j])]
  | (k', l) :: b' => if String.eqb k k' then (k', l ++ [j]) :: b' else (k', l) :: add_bucket k j b'
  end.

Definition buckets (jobs : list ClaimedJob) : list (string * list ClaimedJob) :=
  foldl (fun b j => add_bucket (bucket_key j) j b) [] jobs.

(** One round pops the head of every queue and drops the emptied ones; every
    round pops a job, so the number of jobs bounds the rounds. *)
Fixpoint rounds {A} (fuel : nat) (queues : list (list A)) : list A :=
  match fuel with
  | O => []
  | S f =>
      match queues with
      | [] => []
      | _ => omap head queues
             ++ rounds f (List.filter (fun q => match q with [] => false | _ => true end) (map tail queues))
      end
  end.

Definition _round_robin_by_group (jobs : list ClaimedJob) : list ClaimedJob :=
  rounds (length jobs) (map snd (buckets jobs)).

(** [sorted(by_priority, reverse=True)] *)
Definition priorities (jobs : list ClaimedJob) : list Z :=
  order_by (fun a b => b <=? a) (remove_dups (map cj_priority jobs)).

Definition _fairness_shape (jobs : list ClaimedJob) : list ClaimedJob :=
  List.flat_map (fun p => _round_robin_by_group (List.filter (fun j => cj_priority j =? p) jobs))
    (priorities jobs).

(** ** Messages *)

Definition result_json (r : option dict) : string := dumps (JObj (default [] r)).

Definition _cap_upstream (producers : list UpstreamRow) (cap_bytes : Z) : list UpstreamRow :=
  let total := foldr (fun p acc => json_size (JObj (default [] (up_result p))) + acc) 0 producers in
  if total <=? cap_bytes then producers else [].

Definition _to_assignment (job : ClaimedJob) (upstream : list UpstreamRow) : JobAssignment :=
  let raw := cj_raw job in
  let spec := mkAssignedSpec (cj_task_name job) (dumps (JObj (cj_payload job)))
    (default "" (c_pipeline raw)) (default "" (c_stage raw)) (default "" (c_ctx_id raw))
    (default "" (cj_group_key job)) (default "" (c_dedup_key raw)) (c_runs_on raw)
    (default "" (c_rate_class raw)) (cj_priority job) (c_timeout_s raw) (cj_lease_ttl_s job)
    (default 0 (cj_max_concurrent_per_group job)) in
  mkAssignment (cj_id job) (cj_tenant job) spec RUNNING (cj_attempt job)
    (map (fun u => (up_key u, up_producer_job_id u, result_json (up_result u))) upstream)
    (cj_lease_token job) (j_lease_expires_at raw)
    (match cj_checkpoint_data job with Some d => Some (dumps (JObj d)) | None => None end)
    (match j_event_payload raw with Some d => Some (dumps (JObj d)) | None => None end).

(** ** Round-robin assignment *)

(** A worker of the snapshot: its id and its object. *)
Abbreviation slotw := (string * ref)%type.

(** Advance [idx] over the ring until a worker with remaining capacity, at most
    once around. *)
Fixpoint probe (tries idx : nat) (workers : list slotw) (remaining : gmap string Z) : option slotw * nat :=
  match tries with
  | O => (None, idx)
  | S t =>
      match workers !! (idx mod length workers)%nat with
      | Some w => if 0 <? default 0 (remaining !! fst w) then (Some w, S idx)
                  else probe t (S idx) workers remaining
      | None => (None, idx)
      end
  end.

Record AssignState := mkAssign {
  a_idx : nat;
  a_remaining : gmap string Z;
  a_placed : list (ClaimedJob * slotw)
}.

Definition place (workers : list slotw) (st : AssignState) (job : ClaimedJob) : AssignState :=
  match probe (length workers) (a_idx st) workers (a_remaining st) with
  | (Some w, idx) =>
      mkAssign idx (<[fst w := default 0 (a_remaining st !! fst w) - 1]> (a_remaining st))
        (a_placed st ++ [(job, w)])
  | (None, idx) => mkAssign idx (a_remaining st) (a_placed st)
  end.

Definition assign_all (workers : list slotw) (start : nat) (capacity : gmap string Z)
    (jobs : list ClaimedJob) : AssignState :=
  foldl (place workers) (mkAssign start capacity []) jobs.

Definition _MAX_WORKER_CURSORS : nat := 1024.

(** [d[k] = v; d.move_to_end(k)] and the eviction of the oldest cursor. *)
Definition set_cursor (k : list string) (v : string) (c : list (list string * string))
  : list (list string * string) :=
  let c1 := List.filter (fun kv => negb (bool_decide (fst kv = k))) c ++ [(k, v)] in
  if (_MAX_WORKER_CURSORS <? length c1)%nat then tail c1 else c1.

Definition get_cursor (k : list string) (c : list (list string * string)) : string :=
  match List.find (fun kv => bool_decide (fst kv = k)) c with Some kv => snd kv | None => "" end.

(** [bisect_right(ids, x)] on the sorted ids. *)
Definition bisect_right (ids : list string) (x : string) : nat :=
  length (List.filter (fun i => String.leb i x) ids).

Definition upstream_of (i : uuid) (m : list (uuid * list UpstreamRow)) : list UpstreamRow :=
  match List.find (fun kv => N.eqb (fst kv) i) m with Some kv => snd kv | None => [] end.

(** Hand one assignment to the worker's object. *)
Definition push (a : JobAssignment) (c : WorkerConn) : WorkerConn :=
  mkConn (wc_worker_id c) (wc_tags c) (Z.max 0 (wc_free_slots c - 1)) (wc_labels c)
    (wc_registered_tasks c) (wc_slots_total c) (wc_persisted_at c) (wc_queue c ++ [a]).

Definition worker_le (a b : slotw) : bool := String.leb (fst a) (fst b).

(** Returns the number assigned and the attribution triples. *)
Definition _assign_round_robin (cfg : SymbaConfig) (tag_key : list string) (jobs : list ClaimedJob)
    (workers : list slotw) (upstream : list (uuid * list UpstreamRow)) (capacity : gmap string Z)
  : EM (Z * list (uuid * string * uuid)) :=
  match jobs, workers with
  | [], _ | _, [] => mret (0, [])
  | _, _ =>
      cursors ← gets w_cursors;
      let ring := order_by worker_le workers in
      let start := bisect_right (map fst ring) (get_cursor tag_key cursors) in
      let placed := a_placed (assign_all ring start capacity jobs) in
      let cap_bytes := max_upstream_inline_kb cfg * 1024 in
      _ ← forM (fun p : ClaimedJob * slotw =>
            let '(job, w) := p in
            modify (fun s : World =>
              set_w_cursors (set_cursor tag_key (fst w) (w_cursors s))
                (set_w_registry
                   (set_conn (push (_to_assignment job (_cap_upstream (upstream_of (cj_id job) upstream) cap_bytes)))
                      (snd w) (w_registry s)) s))) placed;
      mret (Z.of_nat (length placed),
            map (fun p : ClaimedJob * slotw =>
                   (cj_id (fst p), fst (snd p), default 0%N (cj_lease_token (fst p)))) placed)
  end.

(** ** Tag groups, capacity and tokens *)

(** [groups[tuple(sorted(w.tags))].append(w)] *)
Fixpoint add_group (k : list string) (w : slotw) (g : list (list string * list slotw))
  : list (list string * list slotw) :=
  match g with
  | [] => [(k, [w])]
  | (k', l) :: g' => if bool_decide (k = k') then (k', l ++ [w]) :: g' else (k', l) :: add_group k w g'
  end.

Definition _group_by_tags (ws : list (slotw * gset string)) : list (list string * list slotw) :=
  foldl (fun g w => add_group (sorted_set (snd w)) (fst w) g) [] ws.

Definition _per_group_cap (cfg : SymbaConfig) (lim : Z) : Z :=
  if 0 <? max_per_group_per_batch cfg then max_per_group_per_batch cfg else Z.max 2 (lim / 8).

Definition capacity_of (running : gmap string Z) (c : WorkerConn) : Z :=
  Z.min (wc_free_slots c) (Z.max 0 (wc_slots_total c - default 0 (running !! wc_worker_id c))).

Fixpoint reserve_loop (classes : list string) (lim : Z) : EM (list string * gmap string Z) :=
  match classes with
  | [] => mret ([], ∅)
  | rc :: rest =>
      granted ← reserve rc lim;
      more ← reserve_loop rest lim;
      mret (if granted <=? 0 then (rc :: fst more, snd more)
            else (fst more, <[rc := granted]> (snd more)))
  end.

Definition _reserve_rate_tokens (tags : list string) (lim : Z) : EM (list string * gmap string Z) :=
  classes ← on_db (distinct_rate_classes tags);
  reserve_loop classes lim.

Definition consumed (rc : string) (claimed : list ClaimedJob) : Z :=
  Z.of_nat (Prelude.count (fun j => bool_decide (c_rate_class (cj_raw j) = Some rc)) claimed).

Definition _return_unused_tokens (reserved : gmap string Z) (claimed : list ClaimedJob) : EM unit :=
  _ ← forM (fun kv : string * Z =>
        let unused := snd kv - consumed (fst kv) claimed in
        if 0 <? unused then release (fst kv) unused else mret tt) (map_to_list reserved);
  mret tt.

(** Contained: when the statement fails, the rows keep the label of the claim. *)
Definition _persist_attribution (lk : locks) (attribution : list (uuid * string * uuid)) : EM unit :=
  match attribution with
  | [] => mret tt
  | _ => try_except (fun _ => true)
           (if restamp_fails lk attribution then raise ConnectionError else on_db (set_claimed_by attribution)) (mret tt)
  end.

(** [f"engine:{tags or 'untagged'}"] *)
Definition engine_label (tags : list string) : string :=
  match tags with
  | [] => "engine:untagged"
  | _ => ("engine:[" ++ String.concat ", " (map py_repr tags) ++ "]")%string
  end.

Definition conns_of (g : Registry) (ws : list slotw) : list WorkerConn := omap (fun w => rg_store g !! snd w) ws.

Definition _match_tag_group (lk : locks) (cfg : SymbaConfig) (tags : list string) (workers : list slotw) : EM Z :=
  running ← on_db (running_counts_by_worker (map fst workers));
  g ← gets w_registry;
  let capacity := list_to_map (map (fun c => (wc_worker_id c, capacity_of running c)) (conns_of g workers))
                  : gmap string Z in
  let lim := foldr (fun kv acc => snd kv + acc) 0 (map_to_list capacity) in
  if lim <=? 0 then mret 0
  else
    r ← _reserve_rate_tokens tags lim;
    let '(exhausted, reserved) := r in
    claimed ← in_tx (claim lk tags exhausted lim (engine_label tags) (_per_group_cap cfg lim) reserved);
    _ ← _return_unused_tokens reserved claimed;
    match claimed with
    | [] => mret 0
    | _ =>
        upstream ← on_db (fetch_inline_upstream (map cj_id claimed));
        a ← _assign_round_robin cfg tags (_fairness_shape claimed) workers upstream capacity;
        _ ← _persist_attribution lk (snd a);
        mret (fst a)
    end.

Definition pass_ (lk : locks) (cfg : SymbaConfig) : EM Z :=
  refs ← WorkerRegistry.snapshot_available;
  g ← gets w_registry;
  let ws := omap (fun r => match rg_store g !! r with
                           | Some c => Some ((wc_worker_id c, r), wc_tags c)
                           | None => None
                           end) refs in
  counts ← forM (fun kv : list string * list slotw => _match_tag_group lk cfg (fst kv) (snd kv))
             (_group_by_tags ws);
  mret (foldr Z.add 0 counts).

End Matcher.
