(* ===== verification/Loops.v ===== *)
(** * Periodic loops (src/symba/services/loops.py)

    The bodies of the passes and the adaptive tick.  A pass that raises is
    contained by the loop ([contained]); sleeping, logging and the gauge refresh
    are left out.  [croniter] is a parameter: [next_after expr t] is the first
    occurrence after [t], or None when the expression is rejected. *)

From S2P Require Import Prelude PyStr Errors States Json Records Database Queries Tables Claim.
From S2P Require Import Invariant Steps ClaimFacts Repository RepoFacts World RateLimiter.
From S2P Require Import RegistryService JobService SubmitService Matcher.
From Stdlib Require Import QArith.
Open Scope string_scope.
Open Scope Z_scope.
Open Scope list_scope.

(** [try: did_work = pass_() > 0 except Exception: ...] *)
Definition contained (m : EM Z) : EM bool :=
  try_except (fun _ => true) (n ← m; mret (0 <? n)) (mret false).

Module Dispatcher.

Definition pass_ (lk : locks) (cfg : SymbaConfig) : EM Z := Matcher.pass_ lk cfg.

(** The tick after a pass, in milliseconds. *)
Definition next_tick_ms (cfg : SymbaConfig) (tick_ms : Z) (did_work : bool) : Z :=
  if did_work then min_tick_ms cfg else Z.min (tick_ms * 2) (max_tick_ms cfg).

(** The ticks of a run of passes, given whether each did work. *)
Definition ticks (cfg : SymbaConfig) (work : list bool) : Z :=
  foldl (next_tick_ms cfg) (min_tick_ms cfg) work.

End Dispatcher.

Module Sweeper.

Definition exhausted_args : JobService.FailArgs :=
  JobService.mkFail "LeaseAttemptsExhausted"
    "Worker lease expired after the job consumed its maximum execution attempts" "" false None true [] false None.

(** Terminalise one exhausted lease; a lease that changed hands is skipped. *)
Definition terminalize (c : uuid * option uuid) : EM Z :=
  match snd c with
  | Some tok => try_except (is_class StaleLease)
                  (_ ← JobService.fail 0 (fst c) tok exhausted_args; mret 1) (mret 0)
  | None => mret 0
  end.

(** [elected]: this engine holds the advisory lock for the pass. *)
Definition pass_ (lk : locks) (cfg : SymbaConfig) (elected : bool) : EM Z :=
  if negb elected then mret 0
  else
    let stale_after_s := worker_stale_after_heartbeats cfg * worker_heartbeat_interval_s cfg in
    candidates ← on_db (repo.list_exhausted_leases (sweeper_batch_size cfg) stale_after_s);
    done ← forM terminalize candidates;
    let exhausted := foldr Z.add 0 done in
    reclaimed ← on_db (repo.sweep_leases lk (sweeper_batch_size cfg) stale_after_s);
    expired_ids ← on_db (repo.sweep_waits lk (sweeper_batch_size cfg));
    _ ← forM (fun i => on_db (repo.record_event i "wait_timed_out" None)) expired_ids;
    _ ← on_db repo.reconcile_group_running;
    _ ← on_db (repo.mark_workers_stale stale_after_s);
    mret (reclaimed + exhausted + Z.of_nat (length expired_ids)).

End Sweeper.

Module CronService.
Section Cron.
Context (next_after : string -> time -> option time).

(** [cron:{schedule_id}:{fire_at.isoformat()}] *)
Definition cron_dedup_key (schedule_id : string) (fire_at : time) : string :=
  ("cron:" ++ schedule_id ++ ":" ++ isoformat fire_at)%string.

Definition cron_spec (s : CronSchedule) (fire_at : time) : SubmitSpec :=
  mkSpec (cr_task_name s) (cr_payload s) (cr_tenant s) None None None QUEUED 0 None None
    (Some (cron_dedup_key (cr_schedule_id s) fire_at)) [] None None [] None 0 [] 5 None 600 None 60 None.

Definition _fire (cfg : SymbaConfig) (s : CronSchedule) : EM bool :=
  now ← clock;
  match cr_next_fire s with
  | None =>
      first ← of_option ValueError (next_after (cr_cron_expr s) now);
      _ ← on_db (repo.cron_advance (cr_schedule_id s) first None (cr_last_fire s));
      mret false
  | Some fire_at =>
      if now <? fire_at then mret false
      else
        outcome ← SubmitService.submit cfg [cron_spec s fire_at];
        next ← of_option ValueError (next_after (cr_cron_expr s) fire_at);
        let next_fire := if next <? now then now else next in
        won ← on_db (repo.cron_advance (cr_schedule_id s) next_fire (cr_next_fire s) (Some fire_at));
        mret (won && negb (match SubmitService.deduplicated outcome with b :: _ => b | [] => true end))
  end.

Definition pass_ (cfg : SymbaConfig) : EM Z :=
  due ← on_db repo.cron_due;
  fired ← forM (fun s => try_except (fun _ => true) (_fire cfg s) (mret false)) due;
  mret (Z.of_nat (Prelude.count (fun b => b) fired)).

End Cron.
End CronService.

Module RateRefiller.

Definition pass_ : EM Z := _ ← load; mret 0.

End RateRefiller.
