(* ===== verification/Engine.v ===== *)
(** * The engine as a transition system

    [step] is one thing that can happen to a deployment: one transaction of any
    engine, a worker or client call or a pass of a loop run to its end, a change
    of the engine's memory, the clocks advancing, Redis going down or coming back.
    Every call is any call: arguments, lock situations and outcomes (returned or
    raised) are unconstrained.  Because the transactions of a call are steps of
    their own, calls of several engines interleave at transaction boundaries and
    an engine may stop between any two of them.  [reachable] closes the relation
    from the empty database. *)

From S2P Require Import Prelude PyStr Errors States Json Records Database Queries Tables Claim.
From S2P Require Import Invariant Steps ClaimFacts Repository RepoFacts World RateLimiter.
From S2P Require Import RegistryService JobService SubmitService FanOutService SignalService.
From S2P Require Import CancelService Matcher Loops QueryService.
From Stdlib Require Import QArith.
Open Scope Z_scope.
Open Scope list_scope.

(** ** Services keep the invariant and the history *)

Lemma materialize_initial t c d : initial_state (JobService.materialize t c d).
Proof. by right. Qed.
Lemma group_initial g s : initial_state s -> initial_state (set_s_group_key g s).
Proof. done. Qed.
Lemma child_initial t c g s : initial_state (FanOutService.child_spec t c g s).
Proof. by right. Qed.
#[export] Hint Resolve materialize_initial group_initial child_initial : stable_db.

Lemma stable_gate_child_results g : stable keeps (repo.gate_child_results g).
Proof. unfold repo.gate_child_results. stable_tac. Qed.
#[export] Hint Resolve stable_gate_child_results : stable_db.

Lemma stable_settle_gate g cs cf : cs && cf = false -> stable keeps (JobService._settle_gate g cs cf).
Proof. intros. unfold JobService._settle_gate. stable_tac. Qed.
#[export] Hint Resolve stable_settle_gate : stable_db.

Lemma stable_complete_tx i t r d s : stable keeps (JobService.complete_tx i t r d s).
Proof.
  unfold JobService.complete_tx. stable_tac. apply stable_settle_gate. apply andb_false_r.
Qed.
#[export] Hint Resolve stable_complete_tx : stable_db.

Lemma stable_complete cfg i t r d s : stable db_keeps (JobService.complete cfg i t r d s).
Proof. unfold JobService.complete. stable_tac. Qed.

Lemma stable_audit_cascade i l : stable keeps (JobService.audit_cascade i l).
Proof. unfold JobService.audit_cascade. stable_tac. Qed.
#[export] Hint Resolve stable_audit_cascade : stable_db.

Lemma stable_retry_tx now u i t p e r : stable keeps (JobService.retry_tx now u i t p e r).
Proof. unfold JobService.retry_tx. stable_tac. Qed.
Lemma stable_die_tx i t e : stable keeps (JobService.die_tx i t e).
Proof. unfold JobService.die_tx. stable_tac. Qed.
#[export] Hint Resolve stable_retry_tx stable_die_tx : stable_db.

Lemma stable_fail_peek i t : stable keeps (repo.fail_peek i t).
Proof. apply stable_query_keeps. Qed.
#[export] Hint Resolve stable_fail_peek : stable_db.

Lemma stable_fail_tx now u i t a : stable keeps (JobService.fail_tx now u i t a).
Proof. unfold JobService.fail_tx. stable_tac. Qed.
#[export] Hint Resolve stable_fail_tx : stable_db.

Lemma stable_after_fail a r : stable db_keeps (JobService.after_fail a r).
Proof. unfold JobService.after_fail. destruct r as [[? ?] ?]. stable_tac. Qed.
#[export] Hint Resolve stable_after_fail : stable_db.

Lemma stable_fail u i t a : stable db_keeps (JobService.fail u i t a).
Proof. unfold JobService.fail. stable_tac. Qed.
Lemma stable_service_heartbeat i t : stable db_keeps (JobService.heartbeat i t).
Proof. unfold JobService.heartbeat. stable_tac. Qed.
#[export] Hint Resolve stable_complete stable_fail stable_service_heartbeat : stable_db.

Lemma prepare_initial cfg now s s' : SubmitService._prepare cfg now s = Ok s' -> initial_state s'.
Proof.
  unfold SubmitService._prepare. destruct (_ <? _); [done|]. destruct (_ <? _); [done|].
  intros [= <-]. unfold initial_state. simpl. unfold SubmitService._initial_state.
  destruct (_ || _); auto.
Qed.

Lemma prepare_all_initial cfg now l l' : SubmitService.prepare_all cfg now l = Ok l' -> Forall initial_state l'.
Proof.
  revert l'. induction l as [|s l IH]; intros l'; simpl; [by intros [= <-]|].
  destruct (SubmitService._prepare cfg now s) as [s'|] eqn:E; [|done].
  destruct (SubmitService.prepare_all cfg now l) as [l0|]; [|done]. intros [= <-].
  constructor; [by eapply prepare_initial | by apply IH].
Qed.

Lemma stable_count_tenant t : stable keeps (repo.count_tenant_live t).
Proof. apply stable_query_keeps. Qed.
#[export] Hint Resolve stable_count_tenant : stable_db.

Lemma stable_enforce cfg l : stable keeps (SubmitService._enforce_tenant_caps cfg l).
Proof. unfold SubmitService._enforce_tenant_caps. stable_tac. Qed.
#[export] Hint Resolve stable_enforce : stable_db.

Lemma stable_submit_one s : initial_state s -> stable keeps (SubmitService.submit_one s).
Proof.
  intros Hs db. unfold SubmitService.submit_one, mbind, M_bind, M_bind_def at 1.
  pose proof (stable_submit s Hs db) as H.
  destruct (repo.submit s db) as [db1 [[i [|]]|e]] eqn:E; simpl in *; try done.
  apply submit_fresh in E as [-> Hq].
  pose proof (keeps_insert_edges (db_uuid_seq db) (s_depends_on s) db1) as H1. unfold M_bind_def.
  destruct (forM _ _ db1) as [db2 [l|e]]; simpl in *; (etrans; [exact H | apply H1; lia]).
Qed.

Lemma stable_submit_tx cfg l : Forall initial_state l -> stable keeps (SubmitService.submit_tx cfg l).
Proof.
  intros Hl. unfold SubmitService.submit_tx. apply stable_bind; [apply _ | stable_tac | intros _].
  apply stable_forM; [apply _|]. intros s Hs. rewrite Forall_forall in Hl. by apply stable_submit_one, Hl.
Qed.

Lemma stable_service_submit cfg l : stable db_keeps (SubmitService.submit cfg l).
Proof.
  unfold SubmitService.submit. destruct l as [|s l]; [stable_tac|].
  apply stable_bind; [apply _ | apply stable_clock | intros now].
  destruct (SubmitService.prepare_all cfg now (s :: l)) as [l'|] eqn:E; [|stable_tac].
  apply prepare_all_initial in E. apply stable_bind; [apply _ | | intros; stable_tac].
  by apply stable_in_tx, stable_submit_tx.
Qed.
#[export] Hint Resolve stable_service_submit : stable_db.

Lemma stable_fan_out_tx t c ch oc p q : ch <> [] -> stable keeps (FanOutService.fan_out_tx t c ch oc p q).
Proof.
  intros H. unfold FanOutService.fan_out_tx. stable_tac. apply stable_create_gate. destruct ch; simpl; [done | lia].
Qed.

Lemma stable_fan_out cfg t c ch oc p : stable db_keeps (FanOutService.fan_out cfg t c ch oc p).
Proof.
  unfold FanOutService.fan_out. destruct ch as [|x ch]; [stable_tac|].
  destruct (_ <? _); [stable_tac|]. destruct (FanOutService._quorum_n p); [|stable_tac].
  apply stable_bind; [apply _ | | intros; stable_tac]. by apply stable_in_tx, stable_fan_out_tx.
Qed.

Lemma stable_signal lk t k p b : stable db_keeps (SignalService.signal lk t k p b).
Proof. unfold SignalService.signal, SignalService.signal_tx. stable_tac. Qed.
Lemma stable_wait lk i t n k s : stable db_keeps (SignalService.wait lk i t n k s).
Proof. unfold SignalService.wait, SignalService.wait_tx. apply stable_in_tx. stable_tac. Qed.

Lemma stable_cascade i : stable keeps (CancelService._cascade i).
Proof. unfold CancelService._cascade. stable_tac. Qed.
#[export] Hint Resolve stable_cascade : stable_db.

Lemma stable_cancel i c : stable db_keeps (CancelService.cancel i c).
Proof. unfold CancelService.cancel, CancelService.cancel_tx. apply stable_in_tx. stable_tac. Qed.
Lemma stable_service_resubmit i t : stable db_keeps (ResubmitService.resubmit i t).
Proof. unfold ResubmitService.resubmit. stable_tac. Qed.
#[export] Hint Resolve stable_service_resubmit : stable_db.
Lemma stable_resubmit_many l t : stable db_keeps (ResubmitService.resubmit_many l t).
Proof. unfold ResubmitService.resubmit_many. stable_tac. Qed.
Lemma stable_checkpoint_service_put i t d : stable db_keeps (CheckpointService.put i t d).
Proof. unfold CheckpointService.put, CheckpointService._redis_set. stable_tac. Qed.

Lemma stable_set_mem f : (forall w, w_db (f w) = w_db w) -> stable db_keeps (modify f : EM unit).
Proof. apply stable_modify_mem. Qed.

Lemma stable_assign cfg k j w u c : stable db_keeps (Matcher._assign_round_robin cfg k j w u c).
Proof.
  unfold Matcher._assign_round_robin. destruct j; [stable_tac|]. destruct w; [stable_tac|].
  stable_tac. all: by apply stable_modify_mem.
Qed.
Lemma stable_reserve_loop l n : stable db_keeps (Matcher.reserve_loop l n).
Proof. induction l; simpl; stable_tac. Qed.
Lemma stable_fetch_upstream l : stable keeps (repo.fetch_inline_upstream l).
Proof. unfold repo.fetch_inline_upstream. stable_tac. Qed.
Lemma stable_running_counts l : stable keeps (repo.running_counts_by_worker l).
Proof. unfold repo.running_counts_by_worker. stable_tac. Qed.
#[export] Hint Resolve stable_assign stable_reserve_loop stable_fetch_upstream stable_running_counts : stable_db.

Lemma stable_reserve_tokens t n : stable db_keeps (Matcher._reserve_rate_tokens t n).
Proof. unfold Matcher._reserve_rate_tokens. stable_tac. Qed.
Lemma stable_return_tokens r l : stable db_keeps (Matcher._return_unused_tokens r l).
Proof. unfold Matcher._return_unused_tokens. stable_tac. Qed.
Lemma stable_persist_attribution lk l : stable db_keeps (Matcher._persist_attribution lk l).
Proof. unfold Matcher._persist_attribution. stable_tac. Qed.
#[export] Hint Resolve stable_reserve_tokens stable_return_tokens stable_persist_attribution : stable_db.

Lemma stable_match_group lk cfg t ws : stable db_keeps (Matcher._match_tag_group lk cfg t ws).
Proof. unfold Matcher._match_tag_group. stable_tac. Qed.
#[export] Hint Resolve stable_match_group : stable_db.

Lemma stable_dispatch lk cfg : stable db_keeps (Dispatcher.pass_ lk cfg).
Proof. unfold Dispatcher.pass_, Matcher.pass_. stable_tac. Qed.

Lemma stable_terminalize c : stable db_keeps (Sweeper.terminalize c).
Proof. unfold Sweeper.terminalize. destruct (snd c); stable_tac. Qed.
#[export] Hint Resolve stable_terminalize : stable_db.

Lemma stable_sweep lk cfg e : stable db_keeps (Sweeper.pass_ lk cfg e).
Proof. unfold Sweeper.pass_. stable_tac. Qed.

Lemma stable_fire na cfg s : stable db_keeps (CronService._fire na cfg s).
Proof. unfold CronService._fire. stable_tac. Qed.
#[export] Hint Resolve stable_fire : stable_db.
Lemma stable_cron na cfg : stable db_keeps (CronService.pass_ na cfg).
Proof. unfold CronService.pass_. stable_tac. Qed.

(** ** Steps *)

Lemma stable_upsert_cron v s e n p t b : stable db_keeps (QueryService.upsert_cron v s e n p t b).
Proof. unfold QueryService.upsert_cron. stable_tac. Qed.

Lemma stable_enable_cron s t b : stable db_keeps (QueryService.set_cron_enabled s t b).
Proof. unfold QueryService.set_cron_enabled. stable_tac. Qed.

Lemma stable_delete_cron s t : stable db_keeps (QueryService.delete_cron s t).
Proof. unfold QueryService.delete_cron. stable_tac. Qed.

(** The programs a deployment runs. *)
Inductive runs : forall A : Type, EM A -> Prop :=
| run_complete cfg i t r d s : runs bool (JobService.complete cfg i t r d s)
| run_fail u i t a : runs JobService.FailOutcome (JobService.fail u i t a)
| run_heartbeat i t : runs (option time * bool) (JobService.heartbeat i t)
| run_submit cfg l : runs SubmitService.SubmitOutcome (SubmitService.submit cfg l)
| run_fan_out cfg t c ch oc p : runs FanOutService.FanOutOutcome (FanOutService.fan_out cfg t c ch oc p)
| run_signal lk t k p b : runs SignalService.SignalOutcome (SignalService.signal lk t k p b)
| run_wait lk i t n k s : runs SignalService.WaitOutcome (SignalService.wait lk i t n k s)
| run_cancel i c : runs CancelService.CancelOutcome (CancelService.cancel i c)
| run_resubmit i t : runs ResubmitService.ResubmitOutcome (ResubmitService.resubmit i t)
| run_resubmit_many l t : runs (list ResubmitService.ResubmitOutcome) (ResubmitService.resubmit_many l t)
| run_checkpoint_put i t d : runs unit (CheckpointService.put i t d)
| run_register r c : runs unit (WorkerRegistry.register r c)
| run_unregister w e : runs bool (WorkerRegistry.unregister w e)
| run_update_slots w n t k e : runs bool (WorkerRegistry.update_slots w n t k e)
| run_dispatch lk cfg : runs Z (Dispatcher.pass_ lk cfg)
| run_sweep lk cfg e : runs Z (Sweeper.pass_ lk cfg e)
| run_cron na cfg : runs Z (CronService.pass_ na cfg)
| run_refill : runs Z RateRefiller.pass_
| run_rate_upsert n c r : runs unit (RateLimiter.upsert n c r)
| run_cron_upsert v s e n p t b : runs CronSchedule (QueryService.upsert_cron v s e n p t b)
| run_cron_enable s t b : runs CronSchedule (QueryService.set_cron_enabled s t b)
| run_cron_delete s t : runs unit (QueryService.delete_cron s t).

(** The transactions services run: a [conn.transaction()] block, or a statement
    that commits by itself. *)
Inductive txn : forall A : Type, DBM A -> Prop :=
| tx_complete i t r d s : txn _ (transaction (JobService.complete_tx i t r d s))
| tx_fail now u i t a : txn _ (transaction (JobService.fail_tx now u i t a))
| tx_heartbeat i t : txn _ (repo.heartbeat i t)
| tx_submit cfg l : Forall initial_state l -> txn _ (transaction (SubmitService.submit_tx cfg l))
| tx_fan_out t c ch oc p q : ch <> [] -> txn _ (transaction (FanOutService.fan_out_tx t c ch oc p q))
| tx_signal lk t k p b : txn _ (transaction (SignalService.signal_tx lk t k p b))
| tx_wait lk i t n k s : txn _ (transaction (SignalService.wait_tx lk i t n k s))
| tx_cancel i c : txn _ (transaction (CancelService.cancel_tx i c))
| tx_resubmit i t : txn _ (repo.resubmit i t)
| tx_checkpoint_put i t d : txn _ (repo.checkpoint_put i t d)
| tx_worker_upsert w t r l n b : txn _ (repo.worker_upsert w t r l n b)
| tx_worker_delete w : txn _ (repo.worker_delete w)
| tx_claim lk tags ex lim by_ cap q : txn _ (transaction (repo.claim lk tags ex lim by_ cap q))
| tx_set_claimed_by l : txn _ (repo.set_claimed_by l)
| tx_sweep_leases lk n g : txn _ (repo.sweep_leases lk n g)
| tx_sweep_waits lk n : txn _ (repo.sweep_waits lk n)
| tx_record_event i e d : txn _ (repo.record_event i e d)
| tx_reconcile : txn _ repo.reconcile_group_running
| tx_mark_stale n : txn _ (repo.mark_workers_stale n)
| tx_cron_advance s n e f : txn _ (repo.cron_advance s n e f)
| tx_cron_upsert s e n p t b : txn _ (repo.cron_upsert s e n p t b)
| tx_cron_set_enabled s t b : txn _ (repo.cron_set_enabled s t b)
| tx_cron_delete s t : txn _ (repo.cron_delete s t)
| tx_rate_take c n : txn _ (repo.rate_take_pg c n)
| tx_rate_return c n : txn _ (repo.rate_return_pg c n)
| tx_rate_drain c : txn _ (stmt (sql_rate_drain c))
| tx_rate_upsert n c r : txn _ (repo.rate_class_upsert n c r).

Inductive step : World -> World -> Prop :=
| step_tx A (m : DBM A) w : txn A m -> step w (fst (on_db m w))
| step_run A (m : EM A) w : runs A m -> step w (fst (m w))
| step_clock w t c :
    db_now (w_db w) <= t ->
    step w (mkWorld (set_db_now t (w_db w)) (w_registry w) (w_limiter w) (w_cursors w) c)
| step_engine w g l cs :  (* another engine, a restart, Redis failing or expiring keys *)
    step w (mkWorld (w_db w) g l cs (w_clock w)).

Definition empty_db (now : time) : DB := mkDB [] [] [] [] [] ∅ ∅ [] [] [] ∅ now 1 1.

Inductive reachable : World -> Prop :=
| reach_init now g l cs c : reachable (mkWorld (empty_db now) g l cs c)
| reach_step w w' : reachable w -> step w w' -> reachable w'.

Lemma runs_stable A (m : EM A) : runs A m -> stable db_keeps m.
Proof.
  destruct 1; eauto using stable_complete, stable_fail, stable_service_heartbeat, stable_service_submit,
    stable_fan_out, stable_signal, stable_wait, stable_cancel, stable_service_resubmit,
    stable_resubmit_many, stable_checkpoint_service_put, stable_register, stable_unregister,
    stable_update_slots, stable_dispatch, stable_sweep, stable_cron, stable_upsert,
    stable_upsert_cron, stable_enable_cron, stable_delete_cron; stable_tac.
Qed.

Lemma txn_keeps A (m : DBM A) : txn A m -> stable keeps m.
Proof.
  destruct 1; try (apply stable_keeps_transaction);
    unfold SignalService.signal_tx, SignalService.wait_tx, CancelService.cancel_tx;
    eauto using stable_submit_tx, stable_fan_out_tx; stable_tac.
Qed.

Lemma keeps_clock db t : db_now db <= t -> keeps db (set_db_now t db).
Proof.
  intros Ht [J G E C S D]. split; [by split|]. split; simpl; try done; try lia.
  - apply jobs_evolve_refl.
  - exists []. by rewrite app_nil_r.
  - intros g Hg. by exists g.
  - intros s Hs. by exists s.
Qed.

Lemma step_keeps w w' : step w w' -> keeps (w_db w) (w_db w').
Proof.
  destruct 1 as [A m w Hm|A m w Hm|w t c Ht|w g l cs]; simpl.
  - by apply (stable_on_db m), txn_keeps.
  - by apply runs_stable.
  - by apply keeps_clock.
  - reflexivity.
Qed.

Lemma steps_keep w w' : rtc step w w' -> keeps (w_db w) (w_db w').
Proof. induction 1 as [|w1 w2 w3 H1 _ IH]; [reflexivity|]. etrans; [by apply step_keeps | done]. Qed.

Lemma wf_empty now : wf (empty_db now).
Proof. split; try split; simpl; try constructor; apply map_Forall_empty. Qed.

Lemma reachable_wf_db w : reachable w -> wf (w_db w).
Proof. induction 1; [apply wf_empty|]. by eapply step_keeps. Qed.

Lemma reachable_rtc w w' : reachable w -> rtc step w w' -> reachable w'.
Proof. intros Hw H. induction H as [|x y z Hxy _ IH]; [done|]. apply IH. by eapply reach_step. Qed.
