(* ===== verification/Exec.v ===== *)
(** * Executing operations

    Shared lemmas of the property files: statements that match no row or one
    row, and running a transaction to a known end. *)

From S2P Require Import Prelude PyStr Errors States Json Records Database Queries Tables Claim.
From S2P Require Import Invariant Steps ClaimFacts Repository RepoFacts World.
Open Scope string_scope.
Open Scope Z_scope.
Open Scope list_scope.

(** ** Statements that match no row *)

Lemma sel_none {A} (p : A -> bool) l : (forall x, In x l -> p x = false) -> List.filter p l = [].
Proof.
  intros H. induction l as [|x l IH]; [done|]. simpl. rewrite (H x) by (by left).
  apply IH. intros y Hy. apply H. by right.
Qed.

Lemma delete_none {A} (p : A -> bool) l : (forall x, In x l -> p x = false) -> delete_where p l = l.
Proof.
  intros H. unfold delete_where. induction l as [|x l IH]; [done|]. simpl.
  rewrite (H x) by (by left). simpl. f_equal. apply IH. intros y Hy. apply H. by right.
Qed.

Lemma update_none {A} (p : A -> bool) f l : (forall x, In x l -> p x = false) -> update_where p f l = l.
Proof.
  intros H. unfold update_where. rewrite <- (map_id l) at 2. apply map_ext_in. intros x Hx.
  by rewrite (H x Hx).
Qed.

Lemma db_eta_jobs db : set_db_jobs (db_jobs db) db = db.
Proof. by destruct db. Qed.
Lemma db_eta_archive db : set_db_archive (db_archive db) db = db.
Proof. by destruct db. Qed.
Lemma rollback_refl db : rollback db db = db.
Proof. by destruct db. Qed.
Lemma world_eta w : set_w_db (w_db w) w = w.
Proof. by destruct w. Qed.

Lemma move_none p f final db :
  (forall j, In j (db_jobs db) -> p j = false) -> move_to_archive p f final db = (db, []).
Proof.
  intros H. unfold move_to_archive. rewrite (sel_none p), (delete_none p) by done. simpl.
  rewrite app_nil_r. f_equal. by destruct db.
Qed.

Lemma update_jobs_none p f db :
  (forall j, In j (db_jobs db) -> p j = false) -> update_jobs p f db = db.
Proof. intros H. unfold update_jobs. rewrite update_none by done. apply db_eta_jobs. Qed.

Lemma in_tx_raise {A} (m : DBM A) w e :
  m (w_db w) = (w_db w, Raise e) -> in_tx m w = (w, Raise e).
Proof.
  intros H. unfold in_tx, on_db, transaction. rewrite H, rollback_refl. by rewrite world_eta.
Qed.

(** Execute the monad's plumbing. *)
Ltac run :=
  unfold of_option, mbind, M_bind, M_bind_def, mret, M_ret, M_ret_def, stmt, query, gets, raise, modify;
  cbn beta iota zeta.


Lemma in_tx_ok {A} (m : DBM A) w db' a :
  m (w_db w) = (db', Ok a) -> in_tx m w = (set_w_db db' w, Ok a).
Proof. intros H. unfold in_tx, on_db, transaction. by rewrite H. Qed.

(** ** Statements that match one row *)

Lemma sel_one {A B} (key : A -> B) (p : A -> bool) l x :
  List.NoDup (map key l) -> In x l -> p x = true ->
  (forall y, In y l -> p y = true -> key y = key x) -> List.filter p l = [x].
Proof.
  intros Hnd Hx Hp Hu. induction l as [|y l IH]; [done|]. simpl in *. invert Hnd.
  destruct Hx as [->|Hx].
  - rewrite Hp. f_equal. apply sel_none. intros y Hy. destruct (p y) eqn:E; [|done].
    exfalso. apply H1. rewrite <- (Hu y (or_intror Hy) E). by apply in_map.
  - destruct (p y) eqn:E.
    + exfalso. apply H1. rewrite (Hu y (or_introl eq_refl) E). by apply in_map.
    + apply IH; auto.
Qed.

Lemma wf_live_lt db j : wf db -> In j (db_jobs db) -> (c_id j < db_uuid_seq db)%N.
Proof.
  intros Hwf Hj. pose proof (wf_ids_lt _ _ _ (wf_j _ Hwf)) as H. rewrite Forall_forall in H.
  apply (H (job_id j)). rewrite in_app_iff. left. by apply in_map.
Qed.

Section Lease.
Context (db : DB) (i t : uuid) (j : Job).
Hypothesis Hwf : wf db.
Hypothesis Hj : In j (db_jobs db).
Hypothesis Hl : lease_guard i t j = true.

Lemma lease_id : c_id j = i.
Proof. unfold lease_guard in Hl. by bool_prop. Qed.

Lemma lease_ids k : In k (db_jobs db) -> c_id k = i -> k = j.
Proof.
  intros Hk E. apply (NoDup_map_inj job_id (db_jobs db)); auto; [by apply wf_job_ids|].
  unfold job_id. by rewrite E, lease_id.
Qed.

Lemma lease_sel : List.filter (lease_guard i t) (db_jobs db) = [j].
Proof.
  apply (sel_one job_id); auto; [by apply wf_job_ids|]. intros y _ Hy. unfold job_id.
  unfold lease_guard in Hy. rewrite lease_id. by bool_prop.
Qed.

Lemma lease_others k : In k (db_jobs db) -> c_id k <> i -> lease_guard i t k = false.
Proof. intros Hk Hn. unfold lease_guard. destruct (N.eqb_spec (c_id k) i); done. Qed.

Lemma lease_delete k :
  In k (delete_where (lease_guard i t) (db_jobs db)) <-> In k (db_jobs db) /\ c_id k <> i.
Proof.
  unfold delete_where. rewrite filter_In. split; intros [Hk H]; split; try done.
  - intros E. rewrite (lease_ids k Hk E), Hl in H. done.
  - by rewrite lease_others.
Qed.
End Lease.

(** ** Submitting one spec *)

Lemma submit_new s db :
  repo._submit_args s <> None -> no_conflict s (db_jobs db) ->
  repo.submit s db = (set_db_jobs (db_jobs db ++ [inserted_job db (db_uuid_seq db) (repo.stored_spec s) None])
                        (set_db_uuid_seq (N.succ (db_uuid_seq db)) db), Ok (db_uuid_seq db, false)).
Proof.
  intros Ha Hc. rewrite submit_unfold. destruct (repo._submit_args s); [|done]. unfold sql_submit.
  rewrite stored_find. destruct (List.find _ _) as [j|] eqn:E; [|done]. apply find_some in E as [Hj E].
  by rewrite (Hc j Hj) in E.
Qed.

Lemma submit_refused s db : repo._submit_args s = None -> repo.submit s db = (db, Raise DataError).
Proof. intros H. rewrite submit_unfold. by rewrite H. Qed.

Lemma submit_duplicate s db j :
  repo._submit_args s <> None -> List.find (dedup_conflict s) (db_jobs db) = Some j ->
  repo.submit s db = (db, Ok (c_id j, true)).
Proof.
  intros Ha E. rewrite submit_unfold. destruct (repo._submit_args s); [|done]. unfold sql_submit. by rewrite stored_find, E.
Qed.
