(* ===== verification/Lifecycle.v ===== *)
(** * Life-cycle guarantees of every reachable deployment

    Consequences of [Engine.step_keeps] for any interleaving of calls, loop
    passes, clock ticks and engine restarts. *)

From S2P Require Import Prelude PyStr Errors States Json Records Database Queries Tables Claim.
From S2P Require Import Invariant Steps ClaimFacts Repository RepoFacts World RateLimiter.
From S2P Require Import RegistryService JobService SubmitService FanOutService SignalService.
From S2P Require Import CancelService Matcher Loops Engine.
From Stdlib Require Import QArith.
Open Scope string_scope.
Open Scope Z_scope.
Open Scope list_scope.

(** ** A concrete deployment for the witnesses *)

Definition idle_registry : Registry := mkRegistry ∅ [] ∅ false.
Definition no_limiter : RateLimiter := mkLimiter None ∅ false.
Definition world0 : World := mkWorld (empty_db 0) idle_registry no_limiter [] 0.

Definition demo_spec : SubmitSpec := default_spec "resize" [("n", JInt 1)].

(** One job submitted, then claimed by a dispatcher pass of a one-slot worker. *)
Definition demo_conn : WorkerConn := mkConn "w1" ∅ 1 [] ∅ 1 0 [].
Definition world1 : World := fst (SubmitService.submit default_config [demo_spec] world0).
Definition world2 : World := fst (WorkerRegistry.register 0%nat demo_conn world1).
Definition world3 : World := fst (Dispatcher.pass_ no_locks default_config world2).
Definition world4 : World := fst (JobService.complete default_config 1 2 (Some []) false false world3).

Lemma world0_reachable : reachable world0.
Proof. apply reach_init. Qed.
Lemma world1_reachable : reachable world1.
Proof. eapply reach_step; [apply world0_reachable | apply step_run, run_submit]. Qed.
Lemma world2_reachable : reachable world2.
Proof. eapply reach_step; [apply world1_reachable | apply step_run, run_register]. Qed.
Lemma world3_reachable : reachable world3.
Proof. eapply reach_step; [apply world2_reachable | apply step_run, run_dispatch]. Qed.
Lemma world3_world4 : rtc step world3 world4.
Proof. apply rtc_once, step_run, run_complete. Qed.

Example world3_running :
  map (fun j : Job => (j_state j, j_lease_token j, j_claimed_by j)) (db_jobs (w_db world3))
  = [(RUNNING, Some 2%N, Some "w1")].
Proof. vm_compute. reflexivity. Qed.

(** The one live row of [world3]. *)
Definition job3 : Job := Eval vm_compute in
  default (inserted_job (w_db world0) 0 demo_spec None) (head (db_jobs (w_db world3))).

Lemma world3_jobs : db_jobs (w_db world3) = [job3].
Proof. vm_compute. reflexivity. Qed.

Lemma world3_job : In job3 (db_jobs (w_db world3)).
Proof. rewrite world3_jobs. left. reflexivity. Qed.

Lemma world3_wf : wf (w_db world3).
Proof. apply reachable_wf_db, world3_reachable. Qed.

Example world4_archived :
  map (fun a => (c_id (a_job a), a_final_state a)) (db_archive (w_db world4)) = [(1%N, SUCCEEDED)].
Proof. vm_compute. reflexivity. Qed.

(** A fan-out of one child over a gate, claimed and completed. *)
Definition gate0 : World :=
  fst (FanOutService.fan_out default_config "default" None [demo_spec] (default_spec "merge" [])
         "all_success" world0).
Definition gate1 : World := fst (WorkerRegistry.register 0%nat demo_conn gate0).
Definition gate2 : World := fst (Dispatcher.pass_ no_locks default_config gate1).
Definition gate3 : World := fst (JobService.complete default_config 2 3 None false false gate2).

Lemma gate0_reachable : reachable gate0.
Proof. eapply reach_step; [apply world0_reachable | apply step_run, run_fan_out]. Qed.
Lemma gate2_reachable : reachable gate2.
Proof.
  eapply reach_step; [|apply step_run, run_dispatch].
  eapply reach_step; [apply gate0_reachable | apply step_run, run_register].
Qed.
Lemma gate3_reachable : reachable gate3.
Proof. eapply reach_step; [apply gate2_reachable | apply step_run, run_complete]. Qed.

Example gate3_fired :
  map (fun g => (g_completed_children g, g_fired_at g)) (db_gates (w_db gate3)) = [(1, Some 0)]
  /\ map (fun j : Job => (c_task_name j, j_state j)) (db_jobs (w_db gate3)) = [("merge", QUEUED)].
Proof. vm_compute. split; reflexivity. Qed.

(** ** Theorems *)

(** C1. Every database a deployment can reach, whatever calls, loop passes,
    single transactions of interleaved calls, clock movements, crashes and
    restarts led to it, satisfies the invariant: hot rows are live and archived rows terminal by a legal last transition, ids are
    unique across both tables, a row has a lease token exactly while running
    and a wait key exactly while waiting, lease tokens and live dedup keys are
    unique, gate counts are consistent and an unresolved gate is undecided,
    ledger ids increase in the order the (serialised) transactions run, group
    counters are not negative. *)
Theorem reachable_invariant w : reachable w -> wf (w_db w).
Proof. apply reachable_wf_db. Qed.

Lemma reachable_invariant_witness : reachable world3 /\ wf (w_db world3).
Proof. split; [apply world3_reachable | apply (reachable_invariant world3), world3_reachable]. Defined.

(** C3. History is never rewritten: whatever happens, a later database still has
    every archived row and every entry of the audit ledger the earlier one had,
    unaltered and as often, beside what was added; and no two ledger entries
    share an id.  Nothing is said of the order of ids: it is the order of the draws,
    not of the commits. *)
Theorem history_append_only w w' :
  reachable w -> rtc step w w' ->
  (exists rows, Permutation (db_archive (w_db w')) (db_archive (w_db w) ++ rows))
  /\ (exists evs, Permutation (db_events (w_db w')) (db_events (w_db w) ++ evs))
  /\ List.NoDup (map ev_id (db_events (w_db w'))).
Proof.
  intros Hr Hs. destruct (steps_keep w w' Hs (reachable_wf_db w Hr)) as [Hwf [J _ _ [evs He] _ _]].
  destruct (je_archive _ _ _ _ _ _ J) as [rows Ea]. split_and!; [exists rows; by rewrite Ea | exists evs; by rewrite He|].
  pose proof (wf_event_order _ _ (wf_e _ Hwf)) as H. clear He.
  induction H as [|x l _ IH Hx]; simpl; [constructor | constructor; [|done]].
  intros (y & Hy & Hin)%in_map_iff. rewrite List.Forall_forall in Hx. specialize (Hx y Hin). simpl in *. lia.
Qed.

Lemma history_append_only_witness :
  (exists rows, Permutation (db_archive (w_db world4)) (db_archive (w_db world3) ++ rows))
  /\ (exists evs, Permutation (db_events (w_db world4)) (db_events (w_db world3) ++ evs))
  /\ List.NoDup (map ev_id (db_events (w_db world4))).
Proof. apply (history_append_only world3 world4); [apply world3_reachable | apply world3_world4]. Defined.

Lemma archived_id_unique db a a' :
  wf db -> In a (db_archive db) -> In a' (db_archive db) -> archived_id a = archived_id a' -> a = a'.
Proof.
  intros Hwf Ha Ha' E. apply (NoDup_map_inj archived_id (db_archive db)); auto.
  eapply NoDup_app_remove_l. apply (wf_ids _ _ _ (wf_j _ Hwf)).
Qed.

Lemma archived_not_live db a j :
  wf db -> In a (db_archive db) -> In j (db_jobs db) -> c_id j <> archived_id a.
Proof.
  intros Hwf Ha Hj E. pose proof (wf_ids _ _ _ (wf_j _ Hwf)) as H.
  rewrite <- NoDup_ListNoDup in H. apply list.NoDup_app in H as (_ & H & _).
  apply (H (c_id j)); rewrite list_elem_of_In, in_map_iff; eauto.
Qed.

(** C4. A terminal state is final: once archived, a job stays archived with the
    same row, is never live again and is never archived a second time. *)
Theorem terminal_is_final w w' a :
  reachable w -> rtc step w w' -> In a (db_archive (w_db w)) ->
  In a (db_archive (w_db w'))
  /\ (forall j, In j (db_jobs (w_db w')) -> c_id j <> archived_id a)
  /\ (forall a', In a' (db_archive (w_db w')) -> archived_id a' = archived_id a -> a' = a).
Proof.
  intros Hr Hs Ha. destruct (steps_keep w w' Hs (reachable_wf_db w Hr)) as [Hwf [[_ [rows Er] _ _] _ _ _ _ _]].
  assert (In a (db_archive (w_db w'))) as Ha' by (rewrite Er; apply in_or_app; by left).
  split_and!; [done | |].
  - intros j Hj. by eapply archived_not_live.
  - intros a' H E. by eapply archived_id_unique.
Qed.

Lemma terminal_is_final_witness :
  exists a, In a (db_archive (w_db world4))
    /\ (forall j, In j (db_jobs (w_db world4)) -> c_id j <> archived_id a).
Proof.
  assert (reachable world4) as Hr.
  { eapply reach_step; [apply world3_reachable | apply step_run, run_complete]. }
  destruct (db_archive (w_db world4)) as [|a l] eqn:E; [vm_compute in E; discriminate|].
  exists a. split; [left; reflexivity|].
  apply (terminal_is_final world4 world4 a Hr); [apply rtc_refl | rewrite E; left; reflexivity].
Defined.

(** A resolved gate stays resolved at the same instant, and its policy,
    width and continuation never change: no later step can fire it again. *)
Theorem gate_fires_at_most_once w w' g t :
  reachable w -> rtc step w w' -> In g (db_gates (w_db w)) -> g_fired_at g = Some t ->
  exists g', In g' (db_gates (w_db w')) /\ g_id g' = g_id g /\ g_fired_at g' = Some t
    /\ g_policy g' = g_policy g /\ g_expected_children g' = g_expected_children g
    /\ g_on_complete g' = g_on_complete g
    /\ (forall g2, In g2 (db_gates (w_db w')) -> g_id g2 = g_id g -> g2 = g').
Proof.
  intros Hr Hs Hg Ht. destruct (steps_keep w w' Hs (reachable_wf_db w Hr)) as [Hwf [_ _ _ _ HG _]].
  destruct (HG g Hg) as (g' & Hg' & []). exists g'. split_and!; auto.
  intros g2 Hg2 E. apply (NoDup_map_inj g_id (db_gates (w_db w'))); auto; [|congruence].
  apply (wf_gate_ids _ _ (wf_g _ Hwf)).
Qed.

Lemma gate_fires_at_most_once_witness :
  exists g, In g (db_gates (w_db gate3)) /\ exists g', In g' (db_gates (w_db gate3))
    /\ g_fired_at g' = Some 0.
Proof.
  destruct (db_gates (w_db gate3)) as [|g l] eqn:E; [vm_compute in E; discriminate|].
  assert (In g (db_gates (w_db gate3))) as Hg by (rewrite E; left; reflexivity).
  assert (g_fired_at g = Some 0) as Hf.
  { assert (head (db_gates (w_db gate3)) = Some g) as H by (rewrite E; reflexivity).
    vm_compute in H. injection H as <-. reflexivity. }
  exists g. split; [left; reflexivity|].
  destruct (gate_fires_at_most_once gate3 gate3 g 0 gate3_reachable (rtc_refl _ _) Hg Hf)
    as (g' & Hg' & _ & Hf' & _).
  exists g'. rewrite E in Hg'. split; assumption.
Defined.
