(* ===== verification/Interleaving.v ===== *)
(** * Calls are sequences of transactions

    Every call and every pass of [Engine] moves the world by transactions,
    changes of the engine's memory and nothing else: running a call to its end in
    one step, as [step_run] does, adds no behaviour to the interleaving of
    transactions. *)

From S2P Require Import Prelude PyStr Errors States Json Records Database Queries Tables Claim.
From S2P Require Import Invariant Steps ClaimFacts Repository RepoFacts World RateLimiter RegistryService.
From S2P Require Import JobService SubmitService QueryService FanOutService SignalService CancelService.
From S2P Require Import Matcher Loops Engine Exec Lifecycle.
From Stdlib Require Import QArith.
Open Scope string_scope.
Open Scope Z_scope.
Open Scope list_scope.

(** The finest interleaving: transactions of any engine, memory, clocks. *)
Inductive tstep : World -> World -> Prop :=
| ts_tx A (m : DBM A) w : txn A m -> tstep w (fst (on_db m w))
| ts_clock w t c :
    db_now (w_db w) <= t ->
    tstep w (mkWorld (set_db_now t (w_db w)) (w_registry w) (w_limiter w) (w_cursors w) c)
| ts_memory w g l cs : tstep w (mkWorld (w_db w) g l cs (w_clock w)).

Inductive treachable : World -> Prop :=
| treach_init now g l cs c : treachable (mkWorld (empty_db now) g l cs c)
| treach_step w w' : treachable w -> tstep w w' -> treachable w'.

Lemma tstep_step w w' : tstep w w' -> step w w'.
Proof. destruct 1; [by apply step_tx | by apply step_clock | apply step_engine]. Qed.

(** A program whose effect is a sequence of transactions and memory changes. *)
Abbreviation by_txns := (stable (rtc tstep)).

(** ** The pieces of a call *)

Lemma by_txns_db {A} (m : DBM A) : txn A m -> by_txns (on_db m).
Proof. intros H w. by apply rtc_once, ts_tx. Qed.

Lemma by_txns_in_tx {A} (m : DBM A) : txn A (transaction m) -> by_txns (in_tx m).
Proof. apply by_txns_db. Qed.

Lemma by_txns_read {A} (m : DBM A) : (forall db, fst (m db) = db) -> by_txns (on_db m).
Proof.
  intros H w. unfold on_db. specialize (H (w_db w)). destruct (m (w_db w)) as [db r]. simpl in *. subst db.
  destruct w. apply rtc_refl.
Qed.

Lemma by_txns_memory f :
  (forall w, w_db (f w) = w_db w /\ w_clock (f w) = w_clock w) -> by_txns (modify f : EM unit).
Proof.
  intros H w. simpl. destruct (H w) as [H1 H2]. destruct (f w) as [db g l cs c]. simpl in *. subst.
  destruct w. apply rtc_once, ts_memory.
Qed.

Lemma by_txns_try {A} p (m h : EM A) : by_txns m -> by_txns h -> by_txns (try_except p m h).
Proof.
  intros Hm Hh w. unfold try_except. specialize (Hm w). destruct (m w) as [w' [a|e]]; simpl in *; [done|].
  destruct (p e); [|done]. by etrans.
Qed.

Lemma by_txns_when b m : by_txns m -> by_txns (when b m).
Proof. intros H. unfold when. destruct b; [done|]. intros w. apply rtc_refl. Qed.

Lemma by_txns_wake : by_txns wake_set.
Proof. by apply by_txns_memory. Qed.

Lemma by_txns_clock : by_txns clock.
Proof. intros w. apply rtc_refl. Qed.

Lemma by_txns_limiter f : by_txns (set_limiter f).
Proof. by apply by_txns_memory. Qed.

#[local] Hint Constructors txn : stable_db.
#[local] Hint Resolve by_txns_wake by_txns_clock by_txns_limiter : stable_db.

Ltac txns := repeat (first
  [ solve [eauto with stable_db] | stable_step | apply by_txns_try | apply by_txns_when
  | solve [apply by_txns_in_tx; eauto with stable_db]
  | solve [apply by_txns_db; eauto with stable_db]
  | solve [apply by_txns_read; intros db; reflexivity]
  | solve [match goal with |- stable _ (on_db (_ ?l)) => apply by_txns_read; intros db; by destruct l end]
  | solve [by apply by_txns_memory] ]).

(** ** Services *)

Lemma by_txns_complete cfg i t r d s : by_txns (JobService.complete cfg i t r d s).
Proof. unfold JobService.complete. txns. Qed.

Lemma by_txns_reserve c n : by_txns (reserve c n).
Proof. unfold reserve, _redis_take. txns. Qed.
Lemma by_txns_release c n : by_txns (release c n).
Proof. unfold release. txns. Qed.
Lemma by_txns_drain c : by_txns (drain c).
Proof. unfold drain. txns. Qed.
#[local] Hint Resolve by_txns_reserve by_txns_release by_txns_drain : stable_db.

Lemma by_txns_fail u i t a : by_txns (JobService.fail u i t a).
Proof.
  unfold JobService.fail, JobService.after_fail. txns.
Qed.
Lemma by_txns_heartbeat i t : by_txns (JobService.heartbeat i t).
Proof. unfold JobService.heartbeat. txns. Qed.

Lemma by_txns_submit cfg l : by_txns (SubmitService.submit cfg l).
Proof.
  unfold SubmitService.submit. destruct l as [|s l]; [txns|].
  apply stable_bind; [apply _ | apply by_txns_clock | intros now].
  destruct (SubmitService.prepare_all cfg now (s :: l)) as [l'|] eqn:E; [|txns].
  apply prepare_all_initial in E. apply stable_bind; [apply _ | | intros; txns].
  by apply by_txns_in_tx, tx_submit.
Qed.

Lemma by_txns_fan_out cfg t c ch oc p : by_txns (FanOutService.fan_out cfg t c ch oc p).
Proof.
  unfold FanOutService.fan_out. destruct ch as [|x ch]; [txns|].
  destruct (_ <? _); [txns|]. destruct (FanOutService._quorum_n p); [|txns].
  apply stable_bind; [apply _ | | intros; txns]. by apply by_txns_in_tx, tx_fan_out.
Qed.

Lemma by_txns_signal lk t k p b : by_txns (SignalService.signal lk t k p b).
Proof. unfold SignalService.signal. txns. Qed.
Lemma by_txns_wait lk i t n k s : by_txns (SignalService.wait lk i t n k s).
Proof. unfold SignalService.wait. txns. Qed.
Lemma by_txns_cancel i c : by_txns (CancelService.cancel i c).
Proof. unfold CancelService.cancel. txns. Qed.
Lemma by_txns_resubmit i t : by_txns (ResubmitService.resubmit i t).
Proof. unfold ResubmitService.resubmit. txns. Qed.
#[local] Hint Resolve by_txns_complete by_txns_fail by_txns_heartbeat by_txns_submit by_txns_fan_out by_txns_signal
  by_txns_wait by_txns_cancel by_txns_resubmit : stable_db.

Lemma by_txns_resubmit_many l t : by_txns (ResubmitService.resubmit_many l t).
Proof. unfold ResubmitService.resubmit_many. txns. Qed.
Lemma by_txns_checkpoint i t d : by_txns (CheckpointService.put i t d).
Proof. unfold CheckpointService.put, CheckpointService._redis_set. txns. Qed.

Lemma by_txns_persist r : by_txns (WorkerRegistry._persist_upsert r).
Proof. unfold WorkerRegistry._persist_upsert, WorkerRegistry._upsert. txns. Qed.
#[local] Hint Resolve by_txns_persist : stable_db.
Lemma by_txns_register r c : by_txns (WorkerRegistry.register r c).
Proof. unfold WorkerRegistry.register. txns. Qed.
Lemma by_txns_unregister w e : by_txns (WorkerRegistry.unregister w e).
Proof. unfold WorkerRegistry.unregister, WorkerRegistry._delete. txns. Qed.
Lemma by_txns_update_slots w n t k e : by_txns (WorkerRegistry.update_slots w n t k e).
Proof. unfold WorkerRegistry.update_slots. txns. Qed.
#[local] Hint Resolve by_txns_resubmit_many by_txns_checkpoint by_txns_register by_txns_unregister by_txns_update_slots : stable_db.

(** ** Passes *)

Lemma by_txns_reserve_tokens t n : by_txns (Matcher._reserve_rate_tokens t n).
Proof.
  unfold Matcher._reserve_rate_tokens. txns. induction a; simpl; txns.
Qed.
Lemma by_txns_return_tokens r l : by_txns (Matcher._return_unused_tokens r l).
Proof. unfold Matcher._return_unused_tokens. txns. Qed.
Lemma by_txns_attribution lk l : by_txns (Matcher._persist_attribution lk l).
Proof. unfold Matcher._persist_attribution. txns. Qed.
Lemma by_txns_assign cfg k j w u c : by_txns (Matcher._assign_round_robin cfg k j w u c).
Proof. unfold Matcher._assign_round_robin. destruct j; [txns|]. destruct w; txns. Qed.
#[local] Hint Resolve by_txns_reserve_tokens by_txns_return_tokens by_txns_attribution by_txns_assign : stable_db.

Lemma by_txns_match_group lk cfg t ws : by_txns (Matcher._match_tag_group lk cfg t ws).
Proof. unfold Matcher._match_tag_group. txns. Qed.
#[local] Hint Resolve by_txns_match_group : stable_db.
Lemma by_txns_dispatch lk cfg : by_txns (Dispatcher.pass_ lk cfg).
Proof. unfold Dispatcher.pass_, Matcher.pass_, WorkerRegistry.snapshot_available. txns. Qed.

Lemma by_txns_terminalize c : by_txns (Sweeper.terminalize c).
Proof. unfold Sweeper.terminalize. txns. Qed.
#[local] Hint Resolve by_txns_dispatch by_txns_terminalize : stable_db.
Lemma by_txns_sweep lk cfg e : by_txns (Sweeper.pass_ lk cfg e).
Proof. unfold Sweeper.pass_. txns. Qed.

Lemma by_txns_fire na cfg s : by_txns (CronService._fire na cfg s).
Proof. unfold CronService._fire. txns. Qed.
#[local] Hint Resolve by_txns_sweep by_txns_fire : stable_db.
Lemma by_txns_cron na cfg : by_txns (CronService.pass_ na cfg).
Proof. unfold CronService.pass_. txns. Qed.
Lemma by_txns_refill : by_txns RateRefiller.pass_.
Proof. unfold RateRefiller.pass_, load. txns. Qed.
Lemma by_txns_rate_upsert n c r : by_txns (RateLimiter.upsert n c r).
Proof. unfold RateLimiter.upsert. txns. Qed.

(** ** Cron administration *)

Lemma by_txns_upsert_cron v s e n p t b : by_txns (QueryService.upsert_cron v s e n p t b).
Proof. unfold QueryService.upsert_cron. txns. Qed.

(** The read after the statement of [set_cron_enabled] moves nothing. *)
Lemma by_txns_enable_cron s t b : by_txns (QueryService.set_cron_enabled s t b).
Proof.
  unfold QueryService.set_cron_enabled. apply stable_bind; [apply _ | | intros; txns].
  intros w. eapply rtc_once, eq_rect; [apply (ts_tx _ _ w (tx_cron_set_enabled s t b))|].
  unfold on_db, mbind, M_bind, M_bind_def. destruct (repo.cron_set_enabled s t b (w_db w)) as [db [[]|e]]; done.
Qed.

Lemma by_txns_delete_cron s t : by_txns (QueryService.delete_cron s t).
Proof. unfold QueryService.delete_cron. txns. Qed.

(** ** Every step *)

Lemma runs_by_txns A (m : EM A) : runs A m -> by_txns m.
Proof.
  destruct 1; eauto using by_txns_cron, by_txns_refill, by_txns_rate_upsert, by_txns_upsert_cron,
    by_txns_enable_cron, by_txns_delete_cron with stable_db.
Qed.

Lemma step_tsteps w w' : step w w' -> rtc tstep w w'.
Proof.
  destruct 1; [by apply rtc_once, ts_tx | by apply runs_by_txns | by apply rtc_once, ts_clock
  | apply rtc_once, ts_memory].
Qed.

Lemma treachable_rtc w w' : treachable w -> rtc tstep w w' -> treachable w'.
Proof. intros Hw. induction 1; eauto using treachable. Qed.

(** C2. Running each call and pass to its end in one step adds nothing to the
    interleaving of transactions, and takes nothing away: a world reached by
    calls run whole is reached by committing transactions one at a time, each of
    any call of any engine, with memory lost or changed in between; and back.
    The invariant and the properties of reachable worlds therefore hold for
    every interleaving of concurrent calls, and when an engine dies between two
    transactions of a call. *)
Theorem calls_refine_transactions w :
  (reachable w <-> treachable w) /\
  (forall A (m : EM A), runs A m -> rtc tstep w (fst (m w))).
Proof.
  split; [split|].
  - induction 1 as [|w w' _ IH Hs]; [by apply treach_init|]. eauto using treachable_rtc, step_tsteps.
  - induction 1 as [|w w' _ IH Hs]; [by apply reach_init|]. eapply reach_step; eauto using tstep_step.
  - intros A m Hm. by apply runs_by_txns.
Qed.

(** The dispatcher pass of [world2], run whole, is a path of its transactions,
    and the world it reaches is one of the interleaving. *)
Lemma calls_refine_transactions_witness : treachable world3 /\ rtc tstep world2 world3.
Proof.
  split.
  - apply (calls_refine_transactions world3), world3_reachable.
  - apply (calls_refine_transactions world2), run_dispatch.
Defined.

(** A behaviour only the interleaving has: the engine dies after a pass has
    committed its claim and before it has handed the job out.  The row is running
    under the engine's own label, no worker holds it, and the lease sweep of
    another engine takes it back once the lease has run out. *)
Definition crashed : World :=
  set_w_registry idle_registry
    (fst (on_db (transaction (repo.claim no_locks [] [] 1 "engine:untagged" 2 ∅)) world2)).

Lemma crashed_reachable : treachable crashed.
Proof.
  eapply treach_step; [|apply (ts_memory _ idle_registry no_limiter [])].
  eapply treach_step; [|apply ts_tx, tx_claim].
  apply (treachable_rtc world0); [apply treach_init|].
  etrans; [apply (runs_by_txns _ _ (run_submit default_config [demo_spec]))|].
  apply (runs_by_txns _ _ (run_register 0%nat demo_conn)).
Qed.

Example crash_is_reclaimed :
  map (fun j : Job => (j_state j, j_claimed_by j)) (db_jobs (w_db crashed)) = [(RUNNING, Some "engine:untagged")]
  /\ map (fun j : Job => (j_state j, j_claimed_by j))
       (db_jobs (fst (repo.sweep_leases no_locks 10 0 (set_db_now 61000000 (w_db crashed))))) = [(QUEUED, None)].
Proof. vm_compute. split; reflexivity. Qed.

(** ** What one transaction does to a row *)

(** The edges a transaction may take: of a row that stays live, of a row it
    archives, and the states of the rows it inserts. *)
Record edges := mkEdges {
  stays : JobState -> JobState -> bool;
  leaves : JobState -> JobState -> bool;
  enters : JobState -> bool
}.

(** The statements of one transaction compose without making new edges. *)
Class Closed (e : edges) := {
  closed_stays a b c : stays e a b = true -> stays e b c = true -> stays e a c = true;
  closed_leaves a b c : stays e a b = true -> leaves e b c = true -> leaves e a c = true;
  closed_enters a b : enters e a = true -> stays e a b = true -> enters e b = true
}.

Definition step_to (e : edges) (a b : JobState) : Prop := b = a \/ stays e a b = true.

Record moved (e : edges) (db db' : DB) : Prop := mkMoved {
  mv_rows : forall j, In j (db_jobs db) ->
    (exists j', In j' (db_jobs db') /\ j_cols j' = j_cols j /\ step_to e (j_state j) (j_state j'))
    \/ (exists a, In a (db_archive db') /\ j_cols (a_job a) = j_cols j
          /\ leaves e (j_state j) (a_final_state a) = true);
  mv_archive : forall a, In a (db_archive db) -> In a (db_archive db');
  mv_new : forall j', In j' (db_jobs db') ->
    (exists j, In j (db_jobs db) /\ j_cols j = j_cols j' /\ step_to e (j_state j) (j_state j'))
    \/ enters e (j_state j') = true
}.

Section Moved.
Context (e : edges) `{!Closed e}.

Lemma step_to_trans a b c : step_to e a b -> step_to e b c -> step_to e a c.
Proof. intros [->|H1] [->|H2]; unfold step_to; eauto using closed_stays. Qed.

#[export] Instance moved_preorder : PreOrder (moved e).
Proof.
  split.
  - intros db. split; [|done|]; intros j Hj; left; exists j; by split_and!; [| |left].
  - intros db db1 db2 [R1 A1 N1] [R2 A2 N2]. split; [|auto|].
    + intros j Hj. destruct (R1 j Hj) as [(j1 & Hj1 & C1 & S1)|(a & Ha & C & F)]; [|right; exists a; auto].
      destruct (R2 j1 Hj1) as [(j2 & Hj2 & C2 & S2)|(a & Ha & C & F)]; [left|right].
      * exists j2. split_and!; [done | congruence | by eapply step_to_trans].
      * exists a. split_and!; [done | congruence|]. destruct S1 as [E|S1]; [by rewrite <- E | by eapply closed_leaves].
    + intros j2 Hj2. destruct (N2 j2 Hj2) as [(j1 & Hj1 & C2 & S2)|H]; [|by right].
      destruct (N1 j1 Hj1) as [(j & Hj & C1 & S1)|H]; [left|right].
      * exists j. split_and!; [done | congruence | by eapply step_to_trans].
      * destruct S2 as [->|S2]; [done | by eapply closed_enters].
Qed.

Lemma moved_same db db' : db_jobs db' = db_jobs db -> db_archive db' = db_archive db -> moved e db db'.
Proof.
  intros Ej Ea. split; rewrite ?Ej, ?Ea; [|done|]; intros j Hj; left; exists j; by split_and!; [| |left].
Qed.

Lemma moved_update p f db :
  (forall j, In j (db_jobs db) -> p j = true -> j_cols (f j) = j_cols j /\ step_to e (j_state j) (j_state (f j))) ->
  moved e db (update_jobs p f db).
Proof.
  intros H.
  assert (forall j, In j (db_jobs db) -> j_cols (if p j then f j else j) = j_cols j
            /\ step_to e (j_state j) (j_state (if p j then f j else j))) as H'.
  { intros j Hj. destruct (p j) eqn:E; [by apply H | by split; [|left]]. }
  split; [|done|].
  - intros j Hj. left. exists (if p j then f j else j). split; [apply in_update_where; by exists j | by apply H'].
  - intros j' (j & Hj & ->)%in_update_where. left. exists j. destruct (H' j Hj). by split_and!.
Qed.

Lemma moved_archive p f final db :
  (forall j, In j (db_jobs db) -> p j = true -> j_cols (f j) = j_cols j /\ leaves e (j_state j) final = true) ->
  moved e db (fst (move_to_archive p f final db)).
Proof.
  intros H. split; simpl.
  - intros j Hj. destruct (p j) eqn:E; [right|left].
    + destruct (H j Hj E). exists (mkArchived (f j) (db_now db) final). split_and!; try done.
      apply in_app_iff. right. apply in_map_iff. exists j. split; [done|]. by apply in_sel.
    + exists j. split_and!; [by apply in_delete_where | done | by left].
  - intros a Ha. apply in_app_iff. by left.
  - intros j [Hj _]%in_delete_where. left. exists j. by split_and!; [| |left].
Qed.

Lemma moved_insert sp rf db : enters e (s_state sp) = true -> moved e db (fst (insert_job sp rf db)).
Proof.
  intros H. split; simpl; [|done|].
  - intros j Hj. left. exists j. split_and!; [apply in_app_iff; by left | done | by left].
  - intros j [Hj|[<-|[]]]%in_app_iff; [left; exists j; by split_and!; [| |left] | by right].
Qed.

Lemma moves_stmt {A} (f : DB -> DB * A) : (forall db, moved e db (fst (f db))) -> stable (moved e) (stmt f).
Proof. apply stable_stmt. Qed.

Lemma moves_shape {A B} (m : DBM A) (f : A -> B) : stable (moved e) m -> stable (moved e) (a ← m; mret (f a)).
Proof. intros Hm. apply stable_bind; [apply _ | done | intros; apply stable_ret; apply _]. Qed.

Lemma moves_arg {A B} (o : option A) (k : A -> DBM B) :
  (forall a, stable (moved e) (k a)) -> stable (moved e) (a ← of_option DataError o; k a).
Proof. intros H. apply stable_bind; [apply _ | apply stable_of_option; apply _ | done]. Qed.

Lemma moved_transaction {A} (m : DBM A) db : moved e db (fst (m db)) -> moved e db (fst (transaction m db)).
Proof.
  unfold transaction. destruct (m db) as [db' [a|x]]; simpl; [done|]. intros _. by apply moved_same.
Qed.

Lemma moves_transaction {A} (m : DBM A) : stable (moved e) m -> stable (moved e) (transaction m).
Proof. intros H db. apply moved_transaction, H. Qed.

(** Statements that write neither table. *)
Lemma moves_frame {A} (f : DB -> DB * A) :
  (forall db, db_jobs (fst (f db)) = db_jobs db /\ db_archive (fst (f db)) = db_archive db) -> stable (moved e) (stmt f).
Proof. intros H. apply moves_stmt. intros db. by apply moved_same; apply H. Qed.

Lemma moves_query {A} (f : DB -> A) : stable (moved e) (query f).
Proof. apply stable_gets. apply _. Qed.

Lemma moves_decrement_group t g n b : stable (moved e) (repo.decrement_group t g n b).
Proof. destruct g; [by apply moves_frame | apply stable_ret; apply _]. Qed.
Lemma moves_record_event i ev d : stable (moved e) (repo.record_event i ev d).
Proof. by apply moves_frame. Qed.
Lemma moves_bump_gate i cs cf : stable (moved e) (repo.bump_gate i cs cf).
Proof. apply moves_shape, moves_frame. intros db. unfold sql_bump_gate. by destruct (List.find _ _). Qed.
Lemma moves_create_gate t c p n q oc : stable (moved e) (repo.create_gate t c p n q oc).
Proof. unfold repo.create_gate. destruct (_ && _); [by apply moves_frame | apply stable_raise; apply _]. Qed.
Lemma moves_insert_dependency i u a : stable (moved e) (repo.insert_dependency i u a).
Proof. apply moves_frame. intros db. unfold sql_insert_dependency. simpl. by destruct (existsb _ _). Qed.
Lemma moves_signal_park t k p b : stable (moved e) (repo.signal_park t k p b).
Proof. apply moves_arg. intros. by apply moves_frame. Qed.
Lemma moves_wait_consume lk t k : stable (moved e) (repo.wait_consume lk t k).
Proof. apply moves_shape, moves_frame. intros db. unfold sql_wait_consume. by destruct (pending_signal _ _ _ _). Qed.
Lemma moves_audit i l : stable (moved e) (JobService.audit_cascade i l).
Proof.
  unfold JobService.audit_cascade. apply stable_bind; [apply _ | | intros; apply stable_ret; apply _].
  apply stable_forM; [apply _|]. intros. apply moves_record_event.
Qed.

(** Statements that write rows. *)
Lemma moves_submit sp : enters e (s_state sp) = true -> stable (moved e) (repo.submit sp).
Proof.
  intros H db. rewrite submit_unfold. destruct (repo._submit_args sp); [|reflexivity]. unfold sql_submit.
  destruct (List.find _ _); [reflexivity|]. apply (moved_insert (repo.stored_spec sp) None db). by rewrite stored_state.
Qed.

Lemma moves_complete_move i t r : leaves e RUNNING SUCCEEDED = true -> stable (moved e) (repo.complete_move i t r).
Proof.
  intros H. apply moves_arg. intros r'. apply moves_shape, moves_stmt. intros db. unfold sql_complete.
  pose proof (moved_archive (lease_guard i t) (set_j_result r') SUCCEEDED db) as Hm.
  destruct (move_to_archive _ _ _ _) as [db' rows]. apply Hm. by intros j _ (_ & _ & ->)%lease_guard_spec.
Qed.

Lemma moves_fail_die i t x : leaves e RUNNING DEAD = true -> stable (moved e) (repo.fail_die i t x).
Proof.
  intros H. apply moves_arg. intros r'. apply moves_shape, moves_stmt. intros db. unfold sql_fail_die.
  pose proof (moved_archive (lease_guard i t) (append_error r') DEAD db) as Hm.
  destruct (move_to_archive _ _ _ _) as [db' rows]. apply Hm. by intros j _ (_ & _ & ->)%lease_guard_spec.
Qed.

Lemma moves_cascade_cancel i : (forall s, leaves e s CANCELLED = true) -> stable (moved e) (repo.cascade_cancel i).
Proof.
  intros H. apply moves_stmt. intros db. unfold sql_cascade_cancel.
  pose proof (moved_archive (fun j => existsb (N.eqb (c_id j)) (cone i db)) (fun j => j) CANCELLED db) as Hm.
  destruct (move_to_archive _ _ _ _) as [db' rows]. by apply Hm.
Qed.

Lemma moves_cancel_immediate i : (forall s, leaves e s CANCELLED = true) -> stable (moved e) (repo.cancel_immediate i).
Proof.
  intros H. apply moves_shape, moves_stmt. intros db. unfold sql_cancel.
  pose proof (moved_archive (cancellable i) (fun j => j) CANCELLED db) as Hm.
  destruct (move_to_archive _ _ _ _) as [db' rows]. by apply Hm.
Qed.

Lemma moves_cancel_running i : stable (moved e) (repo.cancel_running i).
Proof. apply moves_shape, moves_stmt. intros db. apply moved_update. by split; [|left]. Qed.

Lemma moves_heartbeat i t : stable (moved e) (repo.heartbeat i t).
Proof. apply moves_stmt. intros db. apply moved_update. by split; [|left]. Qed.

Lemma moves_set_claimed_by l : stable (moved e) (repo.set_claimed_by l).
Proof.
  destruct l as [|a l]; [apply stable_ret; apply _|]. apply moves_stmt. intros db. apply moved_update. intros j _ _.
  by destruct (List.find _ (a :: l)) as [[[? ?] ?]|]; (split; [|left]).
Qed.

Lemma moves_fail_retry i t r x : stays e RUNNING QUEUED = true -> stable (moved e) (repo.fail_retry i t r x).
Proof.
  intros H. apply moves_arg. intros x'. apply moves_stmt. intros db. apply moved_update.
  intros j _ (_ & _ & ->)%lease_guard_spec. by split; [|right].
Qed.

Lemma moves_wait_park i t k n : stays e RUNNING WAITING = true -> stable (moved e) (repo.wait_park i t k n).
Proof.
  intros H. apply moves_stmt. intros db. apply moved_update.
  intros j _ (_ & _ & ->)%lease_guard_spec. by split; [|right].
Qed.

Lemma moves_decrement_deps i : stays e SUBMITTED QUEUED = true -> stable (moved e) (repo.decrement_deps i).
Proof.
  intros H. apply moves_shape, moves_stmt. intros db. apply moved_update. intros j _ _. split; [done|].
  rewrite decremented_state. destruct (promotes (db_now db) j) eqn:E; [right|by left].
  unfold promotes in E. bool_prop. state_cases. congruence.
Qed.

Lemma moves_continuation t o l p : enters e QUEUED = true -> stable (moved e) (repo.insert_continuation t o l p).
Proof. intros H. apply moves_stmt. intros db. by apply moved_insert. Qed.

Lemma moves_resubmit i t : enters e QUEUED = true -> stable (moved e) (repo.resubmit i t).
Proof.
  intros H. apply moves_stmt. intros db. unfold sql_resubmit. destruct (List.find _ _) as [a|]; [|reflexivity].
  pose proof (moved_insert (resubmit_spec a) (Some i) db) as Hm. destruct (insert_job _ _ db). by apply Hm.
Qed.

(** The statements that pick their rows: the invariant says that a row is picked by its id. *)
Lemma moved_resume p payload db :
  stays e WAITING QUEUED = true -> (forall j, In j (db_jobs db) -> p j = true -> j_state j = WAITING) ->
  moved e db (update_jobs p (resume payload (db_now db)) db).
Proof. intros H Hp. apply moved_update. intros j Hj E. rewrite (Hp j Hj E). by split; [|right]. Qed.

Lemma moved_signal lk tenant k payload db :
  wf db -> stays e WAITING QUEUED = true -> moved e db (fst (sql_signal lk tenant k payload db)).
Proof.
  intros Hwf H. unfold sql_signal. destruct (signal_target lk tenant k db) as [t|] eqn:E; [|reflexivity].
  apply signal_target_spec in E as (Ht & Hst & _). apply moved_resume; [done|]. intros j Hj Hid. bool_prop.
  assert (j = t) as ->; [|done]. by apply (NoDup_map_inj job_id (db_jobs db)); auto using wf_job_ids.
Qed.

Lemma moved_sweep_waits lk lim db :
  wf db -> stays e WAITING QUEUED = true -> moved e db (fst (sql_sweep_waits lk lim db)).
Proof.
  intros Hwf H. apply moved_resume; [done|]. intros j Hj Hin.
  apply (expired_waits_spec lk lim db). eapply in_ids_sub; [| by apply wf_job_ids | done | done].
  intros x Hx. by apply expired_waits_spec in Hx as [? _].
Qed.

Lemma moved_sweep_leases lk lim g db :
  wf db -> stays e RUNNING QUEUED = true -> (forall s, leaves e s CANCELLED = true) ->
  moved e db (fst (sql_sweep_leases lk lim g db)).
Proof.
  intros Hwf H Hc. unfold sql_sweep_leases. set (exp := expired_leases lk lim g db).
  pose proof (moved_archive (fun j : Job => in_ids exp j && j_cancel_requested j) (fun j => j) CANCELLED db) as H1.
  destruct (move_to_archive _ _ _ _) as [db1 rows] eqn:E1. simpl in H1 |- *. etrans; [by apply H1|].
  transitivity (update_jobs (fun j => in_ids exp j && negb (j_cancel_requested j))
    (fun j => append_error (lease_expired_entry (db_now db)) (release_lease (set_j_state QUEUED j))) db1);
    [|by apply moved_same]. apply moved_update. intros j Hj Hp. bool_prop.
  assert (In j (db_jobs db)) as Hj'.
  { unfold move_to_archive in E1. injection E1 as <- _. simpl in Hj. by apply in_delete_where in Hj as [? _]. }
  pose proof (in_ids_expired lk lim g db j Hwf Hj' ltac:(done)) as (_ & Est & _)%expired_leases_spec.
  split; [done | right; by rewrite Est].
Qed.

Lemma moved_claim lk tags ex lim by_ cap q db :
  wf db -> stays e QUEUED RUNNING = true -> moved e db (fst (repo.claim lk tags ex lim by_ cap q db)).
Proof.
  intros Hwf H. unfold repo.claim, mbind at 1, M_bind, M_bind_def at 1.
  match goal with |- context [transaction ?m db] => assert (moved e db (fst (transaction m db))) as Hm end;
    [|destruct (transaction _ db) as [db' [a|x]]; exact Hm].
  apply moved_transaction. unfold mbind, M_bind, M_bind_def, stmt.
  pose proof (proj1 (keeps_prepare tags ex lim q db Hwf)) as Hwf1.
  assert (moved e db (fst (sql_prepare_group_counters tags ex lim q db))) as H1 by (by apply moved_same).
  destruct (sql_prepare_group_counters tags ex lim q db) as [db1 u]. simpl in *. etrans; [exact H1|].
  unfold sql_claim. destruct (claim_error _) as [x|]; [reflexivity|]. simpl.
  match goal with |- moved _ _ (set_db_group_running _ (set_db_uuid_seq _ ?d)) =>
    transitivity d; [|by apply moved_same] end.
  apply moved_update. intros j Hj Hin. split; [done|right].
  apply in_ids_candidate in Hin; [|done|done]. apply candidate_queued in Hin; [|done]. by rewrite Hin.
Qed.
End Moved.

#[local] Hint Resolve moves_query moves_decrement_group moves_record_event moves_bump_gate moves_create_gate
  moves_insert_dependency moves_signal_park moves_wait_consume moves_audit moves_submit moves_complete_move
  moves_fail_die moves_cascade_cancel moves_cancel_immediate moves_cancel_running moves_heartbeat
  moves_set_claimed_by moves_fail_retry moves_wait_park moves_decrement_deps moves_continuation
  moves_resubmit : moves_db.
#[local] Hint Extern 1 (stable _ (mret _)) => (apply stable_ret; apply _) : moves_db.
#[local] Hint Extern 1 (stable _ (raise _)) => (apply stable_raise; apply _) : moves_db.
#[local] Hint Extern 1 (stable _ (gets _)) => (apply stable_gets; apply _) : moves_db.
#[local] Hint Extern 1 (_ = true) => reflexivity : moves_db.
#[local] Hint Extern 1 (forall s, _ s _ = true) => (by intros []) : moves_db.

Ltac moves := repeat (first [ solve [eauto with moves_db typeclass_instances] | stable_step ]).

Definition from_to (a b x y : JobState) : bool := JobState_eqb x a && JobState_eqb y b.
Definition no_edge (_ _ : JobState) : bool := false.
Definition to_cancelled (_ y : JobState) : bool := JobState_eqb y CANCELLED.
Definition no_row (_ : JobState) : bool := false.
Definition new_row (s : JobState) : bool := JobState_eqb s SUBMITTED || JobState_eqb s QUEUED.

(** The edges of each transaction. *)
Definition complete_edges := mkEdges (from_to SUBMITTED QUEUED) (from_to RUNNING SUCCEEDED) new_row.
Definition fail_edges :=
  mkEdges (from_to RUNNING QUEUED) (fun x y => from_to RUNNING DEAD x y || to_cancelled x y) new_row.
Definition sweep_edges := mkEdges (from_to RUNNING QUEUED) to_cancelled no_row.
Definition claim_edges := mkEdges (from_to QUEUED RUNNING) no_edge no_row.
Definition wait_edges := mkEdges (from_to RUNNING WAITING) no_edge no_row.
Definition wake_edges := mkEdges (from_to WAITING QUEUED) no_edge no_row.
Definition cancel_edges := mkEdges no_edge to_cancelled no_row.
Definition insert_edges := mkEdges no_edge no_edge new_row.
Definition no_edges := mkEdges no_edge no_edge no_row.

Ltac closed_tac := split; [intros [] [] [] | intros [] [] [] | intros [] []]; done.

#[export] Instance complete_closed : Closed complete_edges.
Proof. closed_tac. Qed.
#[export] Instance fail_closed : Closed fail_edges.
Proof. closed_tac. Qed.
#[export] Instance sweep_closed : Closed sweep_edges.
Proof. closed_tac. Qed.
#[export] Instance claim_closed : Closed claim_edges.
Proof. closed_tac. Qed.
#[export] Instance wait_closed : Closed wait_edges.
Proof. closed_tac. Qed.
#[export] Instance wake_closed : Closed wake_edges.
Proof. closed_tac. Qed.
#[export] Instance cancel_closed : Closed cancel_edges.
Proof. closed_tac. Qed.
#[export] Instance insert_closed : Closed insert_edges.
Proof. closed_tac. Qed.
#[export] Instance none_closed : Closed no_edges.
Proof. closed_tac. Qed.

(** Only documented edges, and only new rows where rows start. *)
Record documented (e : edges) : Prop := mkDocumented {
  doc_stays : forall a b, stays e a b = true -> can_transition a b = true;
  doc_leaves : forall a b, is_live a = true -> leaves e a b = true -> can_transition a b = true;
  doc_enters : forall a, enters e a = true -> a = SUBMITTED \/ a = QUEUED
}.

Ltac documented_tac :=
  split; [intros [] [] | intros [] [] | intros []]; vm_compute; first [by intros | by left | by right | by auto].

Lemma moves_settle_gate e `{!Closed e} g cs cf :
  enters e QUEUED = true -> stable (moved e) (JobService._settle_gate g cs cf).
Proof. intros H. unfold JobService._settle_gate, repo.gate_child_results. moves; by apply moves_submit. Qed.

Lemma moves_complete_tx i t r d s : stable (moved complete_edges) (JobService.complete_tx i t r d s).
Proof. unfold JobService.complete_tx. moves. apply moves_settle_gate; [apply _ | reflexivity]. Qed.

Lemma moves_fail_tx now u i t a : stable (moved fail_edges) (JobService.fail_tx now u i t a).
Proof.
  unfold JobService.fail_tx, repo.fail_peek, JobService.retry_tx, JobService.die_tx. moves;
    first [apply moves_settle_gate | apply moves_submit]; first [apply _ | reflexivity].
Qed.

Lemma initial_new s : initial_state s -> new_row (s_state s) = true.
Proof. by intros [->| ->]. Qed.

Lemma moves_submit_tx cfg l : Forall initial_state l -> stable (moved insert_edges) (SubmitService.submit_tx cfg l).
Proof.
  intros Hl. unfold SubmitService.submit_tx, SubmitService._enforce_tenant_caps, repo.count_tenant_live.
  apply stable_bind; [apply _ | moves | intros _].
  apply stable_forM; [apply _|]. intros s Hs. rewrite Forall_forall in Hl. unfold SubmitService.submit_one.
  apply stable_bind; [apply _ | | intros [i []]; moves]. by apply moves_submit, initial_new, Hl.
Qed.

Lemma moves_fan_out_tx t c ch oc p q : stable (moved insert_edges) (FanOutService.fan_out_tx t c ch oc p q).
Proof. unfold FanOutService.fan_out_tx. moves. Qed.

Lemma moved_signal_tx lk t k p b db :
  wf db -> moved wake_edges db (fst (SignalService.signal_tx lk t k p b db)).
Proof.
  intros Hwf. unfold SignalService.signal_tx, mbind at 1, M_bind, M_bind_def at 1.
  assert (moved wake_edges db (fst (repo.signal_wake lk t k (default [] p) db))) as H1.
  { unfold repo.signal_wake, of_option. destruct (jsonb_dict _) as [d|]; [|reflexivity].
    pose proof (moved_signal wake_edges lk t k d db Hwf eq_refl) as H. unfold mbind, M_bind, M_bind_def, stmt. simpl.
    by destruct (sql_signal lk t k d db). }
  destruct (repo.signal_wake lk t k (default [] p) db) as [db1 [[i|]|x]]; simpl in H1; [| |exact H1];
    (etrans; [exact H1|]); match goal with |- moved _ db1 (fst (?m db1)) => assert (stable (moved wake_edges) m) as Hs end;
    try apply Hs; moves.
Qed.

Lemma moves_wait_tx lk i t n k s : stable (moved wait_edges) (SignalService.wait_tx lk i t n k s).
Proof. unfold SignalService.wait_tx. moves. Qed.

Lemma moves_cancel_tx i c : stable (moved cancel_edges) (CancelService.cancel_tx i c).
Proof. unfold CancelService.cancel_tx, CancelService._cascade. moves. Qed.

Lemma moves_documented e {A} (m : DBM A) db :
  documented e -> stable (moved e) m -> exists e, documented e /\ moved e db (fst (m db)).
Proof. intros Hd Hm. exists e. split; [done | apply Hm]. Qed.

(** Every transaction moves rows along documented edges. *)
Lemma txn_moves A (m : DBM A) db : wf db -> txn A m -> exists e, documented e /\ moved e db (fst (m db)).
Proof.
  intros Hwf Hm. destruct Hm.
  - exists complete_edges. split; [documented_tac | apply (moved_transaction complete_edges); apply moves_complete_tx].
  - exists fail_edges. split; [documented_tac | apply (moved_transaction fail_edges); apply moves_fail_tx].
  - apply (moves_documented no_edges); [documented_tac | apply (moves_heartbeat no_edges)].
  - exists insert_edges. split; [documented_tac | apply moved_transaction; by apply moves_submit_tx].
  - exists insert_edges. split; [documented_tac | apply (moved_transaction insert_edges); apply moves_fan_out_tx].
  - exists wake_edges. split; [documented_tac | apply moved_transaction; by apply moved_signal_tx].
  - exists wait_edges. split; [documented_tac | apply (moved_transaction wait_edges); apply moves_wait_tx].
  - exists cancel_edges. split; [documented_tac | apply (moved_transaction cancel_edges); apply moves_cancel_tx].
  - apply (moves_documented insert_edges); [documented_tac | by apply (moves_resubmit insert_edges)].
  - apply (moves_documented no_edges); [documented_tac |]. apply (moves_arg no_edges). intros d'. by apply (moves_frame no_edges).
  - apply (moves_documented no_edges); [documented_tac | by apply (moves_frame no_edges)].
  - apply (moves_documented no_edges); [documented_tac | by apply (moves_frame no_edges)].
  - exists claim_edges. split; [documented_tac | apply moved_transaction; by apply (moved_claim claim_edges)].
  - apply (moves_documented no_edges); [documented_tac | apply (moves_set_claimed_by no_edges)].
  - exists sweep_edges. split; [documented_tac|]. pose proof (moved_sweep_leases sweep_edges lk n g db Hwf eq_refl) as H.
    unfold repo.sweep_leases, stmt. destruct (sql_sweep_leases lk n g db). by apply H; intros [].
  - exists wake_edges. split; [documented_tac|]. pose proof (moved_sweep_waits wake_edges lk n db Hwf eq_refl) as H.
    unfold repo.sweep_waits, stmt. by destruct (sql_sweep_waits lk n db).
  - apply (moves_documented no_edges); [documented_tac | apply (moves_record_event no_edges)].
  - apply (moves_documented no_edges); [documented_tac | by apply (moves_frame no_edges)].
  - apply (moves_documented no_edges); [documented_tac | by apply (moves_frame no_edges)].
  - apply (moves_documented no_edges); [documented_tac | by apply (moves_frame no_edges)].
  - apply (moves_documented no_edges); [documented_tac |]. apply (moves_arg no_edges). intros p'. apply (moves_frame no_edges).
    intros d. unfold sql_cron_upsert. destruct (List.find _ _) as [r|]; [destruct (String.eqb _ _)|]; done.
  - apply (moves_documented no_edges); [documented_tac | by apply (moves_frame no_edges)].
  - apply (moves_documented no_edges); [documented_tac | by apply (moves_frame no_edges)].
  - apply (moves_documented no_edges); [documented_tac |]. apply (moves_shape no_edges). apply (moves_frame no_edges).
    intros d. unfold sql_rate_take_pg. by destruct (_ !! _).
  - apply (moves_documented no_edges); [documented_tac |]. unfold repo.rate_return_pg.
    destruct (_ <=? _); [apply stable_ret; apply _ | by apply (moves_frame no_edges)].
  - apply (moves_documented no_edges); [documented_tac | by apply (moves_frame no_edges)].
  - apply (moves_documented no_edges); [documented_tac | by apply (moves_frame no_edges)].
Qed.

(** C22. Jobs move by the documented state machine, one edge per transaction.  Take
    any transaction of any call or loop, on any database a deployment reaches.
    Every live job is afterwards live with the same insert-only columns, in the
    same state or one transition of TRANSITIONS further, or archived with a final
    state one transition away from the state it had.  Every live row afterwards is
    such a job or a new one, submitted or queued. *)
Theorem jobs_follow_transitions A (m : DBM A) w :
  reachable w -> txn A m ->
  let db' := fst (m (w_db w)) in
  let stepped j s := s = j_state j \/ can_transition (j_state j) s = true in
  (forall j, In j (db_jobs (w_db w)) ->
     (exists j', In j' (db_jobs db') /\ j_cols j' = j_cols j /\ stepped j (j_state j'))
     \/ (exists a, In a (db_archive db') /\ j_cols (a_job a) = j_cols j
           /\ can_transition (j_state j) (a_final_state a) = true))
  /\ (forall j', In j' (db_jobs db') ->
        (exists j, In j (db_jobs (w_db w)) /\ j_cols j = j_cols j' /\ stepped j (j_state j'))
        \/ j_state j' = SUBMITTED \/ j_state j' = QUEUED).
Proof.
  intros Hr Hm db' stepped. pose proof (reachable_wf_db w Hr) as Hwf.
  destruct (txn_moves A m (w_db w) Hwf Hm) as (e & [D1 D2 D3] & [R _ N]).
  assert (forall a b, step_to e a b -> b = a \/ can_transition a b = true) as Hst by (intros a b [?|?]; auto).
  pose proof (wf_rows _ _ _ (wf_j _ Hwf)) as Hl. rewrite List.Forall_forall in Hl. split.
  - intros j Hj. destruct (R j Hj) as [(j' & H1 & H2 & H3)|(a & H1 & H2 & H3)]; [left; exists j'|right; exists a].
    + split_and!; [done | done | by apply Hst].
    + split_and!; [done | done | apply D2; [apply (row_live _ (Hl j Hj)) | done]].
  - intros j' Hj'. destruct (N j' Hj') as [(j & H1 & H2 & H3)|H]; [left; exists j | right; by apply D3].
    split_and!; [done | done | by apply Hst].
Qed.

(** Completing the running job of [world3] archives it as succeeded. *)
Lemma jobs_follow_transitions_witness :
  exists j, In j (db_jobs (w_db world3)) /\ j_state j = RUNNING
    /\ exists a, In a (db_archive (fst (transaction (JobService.complete_tx 1 2 None false false) (w_db world3))))
         /\ can_transition (j_state j) (a_final_state a) = true.
Proof.
  destruct (jobs_follow_transitions _ _ world3 world3_reachable (tx_complete 1 2 None false false)) as [H _].
  cbv zeta in H. destruct (db_jobs (w_db world3)) as [|j l] eqn:E; [vm_compute in E; discriminate|].
  assert (Hh : head (db_jobs (w_db world3)) = Some j) by (rewrite E; reflexivity).
  exists j. split; [left; reflexivity|]. split; [vm_compute in Hh; injection Hh as <-; reflexivity|].
  destruct (H j (or_introl eq_refl)) as [(j' & Hj' & _)|(a & Ha & _ & Ht)].
  - exfalso. vm_compute in Hj'. exact Hj'.
  - exists a. split; [exact Ha | exact Ht].
Defined.
