(* ===== verification/Cascade.v ===== *)
(** * The downstream cone of a job (db/queries/cascade_cancel.sql)

    [cone] evaluates the recursive query the way the database does, one
    iteration at a time; it is proved to be exactly the live jobs that depend
    on the root through live jobs, with the fuel [cone] gives it. *)

From S2P Require Import Prelude PyStr Errors States Json Records Database Queries Tables Claim.
From S2P Require Import Invariant Steps ClaimFacts Repository RepoFacts World SubmitService Engine.
From S2P Require Import Lifecycle.
Open Scope string_scope.
Open Scope Z_scope.
Open Scope list_scope.

(** Specification: [k] waits for [root], directly or through live jobs. *)
Inductive dependent (db : DB) (root : uuid) : Job -> Prop :=
| dependent_direct k :
    In k (db_jobs db) -> depends_on_b root (db_deps db) k = true -> dependent db root k
| dependent_step u k :
    dependent db root u -> In k (db_jobs db) -> depends_on_b (c_id u) (db_deps db) k = true ->
    dependent db root k.

Lemma dependent_live db root k : dependent db root k -> In k (db_jobs db).
Proof. by destruct 1. Qed.

Lemma not_in_spec acc i : not_in acc i = true <-> ~ In i acc.
Proof.
  unfold not_in. rewrite negb_true_iff, <- not_true_iff_false, existsb_exists. split.
  - intros H Hi. apply H. exists i. by rewrite N.eqb_refl.
  - intros H (x & Hx & ->%N.eqb_eq). done.
Qed.

Lemma live_dependents_spec ups db i :
  In i (live_dependents ups db) <->
  exists k u, In k (db_jobs db) /\ c_id k = i /\ In u ups /\ depends_on_b u (db_deps db) k = true.
Proof.
  unfold live_dependents, depends_on_b. rewrite in_map_iff. split.
  - intros (k & <- & Hk). apply in_sel in Hk as [Hk (d & Hd & Hb)%existsb_exists]. bool_prop.
    match goal with H : existsb _ ups = true |- _ => apply existsb_exists in H as (u & Hu & E) end.
    bool_prop. exists k, u. split_and!; try done. apply existsb_exists. exists d. split; [done|].
    apply andb_true_iff; split; apply N.eqb_eq; congruence.
  - intros (k & u & Hk & <- & Hu & (d & Hd & Hb)%existsb_exists). bool_prop. exists k. split; [done|].
    apply in_sel. split; [done|]. apply existsb_exists. exists d. split; [done|].
    apply andb_true_iff; split; [by apply N.eqb_eq|]. apply existsb_exists. exists u.
    split; [done | by apply N.eqb_eq].
Qed.

(** ** Soundness *)

Lemma cone_loop_sound db root fuel work acc :
  (forall i, In i work -> exists k, dependent db root k /\ c_id k = i) ->
  (forall i, In i acc -> exists k, dependent db root k /\ c_id k = i) ->
  forall i, In i (cone_loop fuel work acc db) -> exists k, dependent db root k /\ c_id k = i.
Proof.
  revert work acc. induction fuel as [|f IH]; intros work acc Hw Ha i; simpl; [apply Ha|].
  destruct (sel (not_in acc) (live_dependents work db)) as [|x new] eqn:E; [apply Ha|].
  assert (forall y, In y (x :: new) -> exists k, dependent db root k /\ c_id k = y) as Hn.
  { intros y Hy. rewrite <- E in Hy. apply in_sel in Hy as [(k & u & Hk & <- & Hu & Hd)%live_dependents_spec _].
    destruct (Hw u Hu) as (v & Hv & <-). exists k. split; [|done]. by eapply dependent_step. }
  apply IH; [exact Hn|]. intros y [Hy|Hy]%in_app_iff; auto.
Qed.

(** ** Completeness: the loop ends in a closed set *)

Definition closed (db : DB) (work acc : list uuid) : Prop :=
  forall u k, In u acc -> ~ In u work -> In k (db_jobs db) ->
    depends_on_b u (db_deps db) k = true -> In (c_id k) acc.

Definition missing (acc : list uuid) (db : DB) : nat :=
  count (fun j : Job => not_in acc (c_id j)) (db_jobs db).

Lemma missing_app acc new db x :
  In x new -> ~ In x acc -> (exists k, In k (db_jobs db) /\ c_id k = x) ->
  (missing (acc ++ new) db < missing acc db)%nat.
Proof.
  intros Hx Ha (k & Hk & <-). unfold missing, count.
  induction (db_jobs db) as [|j l IH]; [done|].
  assert (forall l, length (List.filter (fun j : Job => not_in (acc ++ new) (c_id j)) l)
            <= length (List.filter (fun j : Job => not_in acc (c_id j)) l))%nat as Hle.
  { clear. induction l as [|j l IH]; simpl; [lia|].
    destruct (not_in (acc ++ new) (c_id j)) eqn:E1, (not_in acc (c_id j)) eqn:E2; simpl; try lia.
    exfalso. rewrite <- not_true_iff_false, not_in_spec in E2. rewrite not_in_spec, in_app_iff in E1.
    apply E2. auto. }
  simpl. destruct Hk as [->|Hk].
  - assert (not_in (acc ++ new) (c_id k) = false) as ->.
    { rewrite <- not_true_iff_false, not_in_spec, in_app_iff. auto. }
    assert (not_in acc (c_id k) = true) as -> by (by apply not_in_spec).
    simpl. specialize (Hle l). lia.
  - specialize (IH Hk).
    destruct (not_in (acc ++ new) (c_id j)) eqn:E1, (not_in acc (c_id j)) eqn:E2; simpl; try lia.
    exfalso. rewrite <- not_true_iff_false, not_in_spec in E2. rewrite not_in_spec, in_app_iff in E1.
    apply E2. auto.
Qed.

Lemma cone_loop_closed db fuel work acc :
  (missing acc db < fuel)%nat -> (forall i, In i work -> In i acc) -> closed db work acc ->
  closed db [] (cone_loop fuel work acc db)
  /\ (forall i, In i acc -> In i (cone_loop fuel work acc db)).
Proof.
  revert work acc. induction fuel as [|f IH]; intros work acc Hf Hw Hc; [lia|]. simpl.
  destruct (sel (not_in acc) (live_dependents work db)) as [|x new] eqn:E.
  - split; [|done]. intros u k Hu _ Hk Hd. destruct (in_dec N.eq_dec u work) as [Hwu|Hwu]; [|by eapply Hc].
    destruct (in_dec N.eq_dec (c_id k) acc) as [|Hn]; [done|]. exfalso.
    assert (In (c_id k) (sel (not_in acc) (live_dependents work db))) as Hin.
    { apply in_sel. split; [|by apply not_in_spec]. apply live_dependents_spec. eauto 6. }
    by rewrite E in Hin.
  - assert (In x (sel (not_in acc) (live_dependents work db))) as Hx by (rewrite E; by left).
    apply in_sel in Hx as [(k0 & _ & Hk0 & Hid & _)%live_dependents_spec Hx%not_in_spec].
    destruct (IH (x :: new) (acc ++ x :: new)) as [H1 H2].
    + assert (missing (acc ++ x :: new) db < missing acc db)%nat by (eapply missing_app; eauto; by left).
      lia.
    + intros i Hi. apply in_app_iff. auto.
    + intros u k Hu Hnw Hk Hd. apply in_app_iff. apply in_app_iff in Hu as [Hu|Hu]; [|done].
      destruct (in_dec N.eq_dec (c_id k) acc) as [|Hn]; [by left|].
      destruct (in_dec N.eq_dec u work) as [Hwu|Hwu]; [|left; by eapply Hc].
      right. rewrite <- E. apply in_sel. split; [|by apply not_in_spec]. apply live_dependents_spec. eauto 6.
    + split; [done|]. intros i Hi. apply H2, in_app_iff. auto.
Qed.

(** The recursive query computes the transitive live dependents, with the
    fuel [cone] gives it, whatever the dependency graph (cycles included). *)
Lemma cone_spec db root i :
  In i (cone root db) <-> exists k, dependent db root k /\ c_id k = i.
Proof.
  unfold cone.
  assert (forall i, In i (live_dependents [root] db) -> exists k, dependent db root k /\ c_id k = i) as Hb.
  { intros x (k & u & Hk & <- & [<-|[]] & Hd)%live_dependents_spec. exists k. split; [|done].
    by apply dependent_direct. }
  split; [by apply cone_loop_sound|].
  set (base := live_dependents [root] db) in *.
  destruct (cone_loop_closed db (S (length (db_jobs db))) base base) as [Hc Hin]; [| done | |].
  - unfold missing, count. pose proof (List.filter_length_le (fun j : Job => not_in base (c_id j)) (db_jobs db)). lia.
  - intros u k Hu Hn. done.
  - intros (k & Hd & <-). induction Hd as [k Hk Hd|u k Hu IH Hk Hd].
    + apply Hin, live_dependents_spec. exists k, root. split_and!; try done. by left.
    + apply (Hc (c_id u) k); [exact IH | intros [] | done | done].
Qed.

(** ** The statement *)

Definition in_cone (root : uuid) (db : DB) (j : Job) : bool := existsb (N.eqb (c_id j)) (cone root db).

Lemma in_cone_spec root db j :
  wf db -> In j (db_jobs db) -> in_cone root db j = true <-> dependent db root j.
Proof.
  intros Hwf Hj. unfold in_cone. rewrite existsb_exists. split.
  - intros (i & Hi & E). apply N.eqb_eq in E as <-. apply cone_spec in Hi as (k & Hk & E).
    assert (k = j) as <-; [|done]. apply (NoDup_map_inj job_id (db_jobs db)); [|by eapply dependent_live|done..].
    by apply wf_job_ids.
  - intros H. exists (c_id j). split; [|by apply N.eqb_eq]. apply cone_spec. eauto.
Qed.

Definition cone_rows (root : uuid) (db : DB) : list Job := sel (in_cone root db) (db_jobs db).

Lemma cone_rows_spec root db k : wf db -> In k (cone_rows root db) <-> dependent db root k.
Proof.
  intros Hwf. unfold cone_rows. rewrite in_sel. split; [intros [Hk H]; by apply in_cone_spec|].
  intros H. pose proof (dependent_live _ _ _ H) as Hk. split; [done | by apply in_cone_spec].
Qed.

Lemma cone_deleted root db k :
  wf db -> In k (delete_where (in_cone root db) (db_jobs db)) <-> In k (db_jobs db) /\ ~ dependent db root k.
Proof.
  intros Hwf. unfold delete_where. rewrite filter_In, negb_true_iff, <- not_true_iff_false.
  split; intros [Hk Hn]; (split; [done|]); by rewrite in_cone_spec in *.
Qed.

Lemma cascade_run root db :
  repo.cascade_cancel root db
  = (set_db_archive (db_archive db ++ map (fun k => mkArchived k (db_now db) CANCELLED) (cone_rows root db))
       (set_db_jobs (delete_where (in_cone root db) (db_jobs db)) db),
     Ok (map job_id (cone_rows root db))).
Proof.
  unfold repo.cascade_cancel, stmt, sql_cascade_cancel, move_to_archive. fold (in_cone root db).
  by rewrite map_map.
Qed.

(** C7. Cancelling the cone of a job is exact: the statement archives, as
    cancelled, precisely the live jobs that depend on the root directly or
    through live jobs, whatever their number and even when the graph is cyclic;
    it returns their ids, and every other row stays as it is. *)
Theorem cascade_cancel_exact db root :
  wf db ->
  exists db' ids, repo.cascade_cancel root db = (db', Ok ids)
    /\ (forall i, In i ids <-> exists k, dependent db root k /\ c_id k = i)
    /\ (forall k, In k (db_jobs db') <-> In k (db_jobs db) /\ ~ dependent db root k)
    /\ (exists rows, db_archive db' = db_archive db ++ rows
          /\ forall a, In a rows <->
               exists k, dependent db root k /\ a = mkArchived k (db_now db) CANCELLED).
Proof.
  intros Hwf. eexists _, _. split; [apply cascade_run|]. split_and!.
  - intros i. rewrite in_map_iff. split.
    + intros (k & <- & Hk). exists k. split; [by apply cone_rows_spec | done].
    + intros (k & Hk & <-). exists k. split; [done | by apply cone_rows_spec].
  - intros k. by apply cone_deleted.
  - eexists. split; [done|]. intros a. rewrite in_map_iff. split.
    + intros (k & <- & Hk). exists k. split; [by apply cone_rows_spec | done].
    + intros (k & Hk & ->). exists k. split; [done | by apply cone_rows_spec].
Qed.

(** Three jobs in a line: 1 <- 2 <- 3. *)
Definition with_deps (l : list (uuid * option string)) (s : SubmitSpec) : SubmitSpec :=
  mkSpec (s_task_name s) (s_payload s) (s_tenant s) (s_pipeline s) (s_stage s) (s_ctx_id s) (s_state s)
    (s_priority s) (s_group_key s) (s_max_concurrent_per_group s) (s_dedup_key s) (s_runs_on s)
    (s_rate_class s) (s_on_success s) (s_chain_tail s) (s_on_failure s) (s_remaining_deps s) l
    (s_max_attempts s) (s_backoff s) (s_timeout_s s) (s_run_at s) (s_lease_ttl_s s) (s_parent_gate_id s).

Definition line : World :=
  fst (SubmitService.submit default_config
         [demo_spec; with_deps [(1%N, None)] demo_spec; with_deps [(2%N, Some "up")] demo_spec] world0).

Lemma line_wf : wf (w_db line).
Proof.
  apply reachable_wf_db. eapply reach_step; [apply world0_reachable | apply step_run, run_submit].
Qed.

Example line_cone : cone 1 (w_db line) = [2%N; 3%N].
Proof. vm_compute. reflexivity. Qed.

Lemma cascade_cancel_exact_witness :
  exists db' ids, repo.cascade_cancel 1 (w_db line) = (db', Ok ids) /\ In 3%N ids.
Proof.
  destruct (cascade_cancel_exact (w_db line) 1 line_wf) as (db' & ids & H & Hids & _).
  exists db', ids. split; [exact H|]. apply Hids, cone_spec. vm_compute. right. left. reflexivity.
Defined.
