(* ===== verification/OutcomeProps.v ===== *)
(** * Leases and outcomes: what a worker's report does

    With a stale lease a report has no effect; under a current one, the whole
    effect of a terminal report, from the row of the job to its dependents,
    continuation, group counter and ledger. *)

From S2P Require Import Prelude PyStr Errors States Chain Policies Failure Json Records Database.
From S2P Require Import Queries Tables Claim Invariant Steps ClaimFacts Repository RepoFacts World.
From S2P Require Import RateLimiter RegistryService JobService SubmitService FanOutService.
From S2P Require Import SignalService CancelService Matcher Loops Engine Exec Lifecycle.
From Stdlib Require Import QArith.
Open Scope string_scope.
Open Scope Z_scope.
Open Scope list_scope.

Definition no_lease (db : DB) (i t : uuid) : Prop :=
  forall j, In j (db_jobs db) -> lease_guard i t j = false.

Definition stale (i : uuid) : exn := err StaleLease [("job_id", CtxId i)].

(** What completing under a stale lease raises: the server reads the result first. *)
Definition refusal (r : option dict) (i : uuid) : exn :=
  match jsonb_opt r with Some _ => stale i | None => DataError end.

Lemma complete_refused cfg i t r d s w :
  JobService.oversized (max_result_kb cfg * 1024) r = None -> jsonb_opt r = None ->
  JobService.complete cfg i t r d s w = (w, Raise DataError).
Proof.
  intros Hr Hs. unfold JobService.complete. rewrite Hr. eapply bind_raise, in_tx_raise.
  unfold JobService.complete_tx, repo.complete_move. by rewrite Hs.
Qed.

Lemma complete_stale cfg i t r d s w :
  no_lease (w_db w) i t -> JobService.oversized (max_result_kb cfg * 1024) r = None ->
  JobService.complete cfg i t r d s w = (w, Raise (refusal r i)).
Proof.
  intros Hn Hr. unfold refusal. destruct (jsonb_opt r) as [r'|] eqn:Es; [|by apply complete_refused].
  unfold JobService.complete. rewrite Hr. eapply bind_raise, in_tx_raise.
  unfold JobService.complete_tx, repo.complete_move, sql_complete. rewrite Es. run. by rewrite move_none.
Qed.

Lemma fail_stale u i t a w :
  no_lease (w_db w) i t -> JobService.fail u i t a w = (w, Raise (stale i)).
Proof.
  intros Hn. unfold JobService.fail. etransitivity; [by eapply bind_ok|]. eapply bind_raise, in_tx_raise.
  unfold JobService.fail_tx, repo.fail_peek, sql_fail_peek. run. by rewrite sel_none.
Qed.

Lemma heartbeat_stale i t w :
  no_lease (w_db w) i t -> JobService.heartbeat i t w = (w, Raise (stale i)).
Proof.
  intros Hn. unfold JobService.heartbeat, repo.heartbeat, on_db, sql_heartbeat. run.
  rewrite update_jobs_none, sel_none by done. by rewrite world_eta.
Qed.

Lemma wait_stale lk i t tenant k n w :
  no_lease (w_db w) i t -> pending_signal lk tenant k (w_db w) = None ->
  SignalService.wait lk i t tenant k n w = (w, Raise (stale i)).
Proof.
  intros Hn Hp. apply in_tx_raise. unfold SignalService.wait_tx, repo.wait_consume, sql_wait_consume. run.
  rewrite Hp. unfold repo.wait_park, sql_wait_park. run. by rewrite update_jobs_none, sel_none.
Qed.

(** C5. A stale lease has no effect: when no running row carries the presented
    token for the job, completing it, failing it and heartbeating it raise
    StaleLease and leave the whole deployment exactly as it was; so does
    waiting, when no signal is pending for the key.  (A result over the size cap
    is refused before that, and one that is no JSONB raises DataError instead;
    neither has an effect.) *)
Theorem stale_lease_no_effect cfg lk u i t w :
  no_lease (w_db w) i t ->
  (forall r d s, JobService.oversized (max_result_kb cfg * 1024) r = None ->
     JobService.complete cfg i t r d s w = (w, Raise (refusal r i)))
  /\ (forall a, JobService.fail u i t a w = (w, Raise (stale i)))
  /\ JobService.heartbeat i t w = (w, Raise (stale i))
  /\ (forall tenant k n, pending_signal lk tenant k (w_db w) = None ->
        SignalService.wait lk i t tenant k n w = (w, Raise (stale i))).
Proof.
  intros Hn. split_and!; intros; by eauto using complete_stale, fail_stale, heartbeat_stale, wait_stale.
Qed.

Lemma stale_lease_no_effect_witness :
  no_lease (w_db world3) 1 7
  /\ JobService.complete default_config 1 7 None false false world3 = (world3, Raise (stale 1)).
Proof.
  assert (no_lease (w_db world3) 1 7) as H.
  { intros j Hj. assert (forallb (fun j => negb (lease_guard 1 7 j)) (db_jobs (w_db world3)) = true) as Hb
      by (vm_compute; reflexivity).
    rewrite forallb_forall in Hb. apply negb_true_iff, Hb, Hj. }
  split; [exact H|]. apply (stale_lease_no_effect default_config no_locks 0 1 7 world3 H). reflexivity.
Defined.

(** * Outcomes *)

(** ** The ledger names the archived row *)

Definition event_row (db : DB) (j : Job) (event : string) (detail : option dict) : Event :=
  mkEvent (db_event_seq db) (c_id j) (c_tenant j) (c_ctx_id j) event (db_now db) detail.

Lemma find_app_none {A} (p : A -> bool) l l' :
  (forall x, In x l -> p x = false) -> List.find p (l ++ l') = List.find p l'.
Proof.
  intros H. induction l as [|x l IH]; [done|]. simpl. rewrite (H x) by (by left).
  apply IH. intros y Hy. apply H. by right.
Qed.

(** The row just archived is the one the ledger entry describes. *)
Lemma record_archived db arch a rest ev det :
  (forall k, In k (db_jobs db) -> c_id k <> archived_id a) ->
  (forall x, In x arch -> archived_id x <> archived_id a) -> db_archive db = arch ++ a :: rest ->
  sql_record_event (archived_id a) ev det db
  = (set_db_events (db_events db ++ [event_row db (a_job a) ev det])
       (set_db_event_seq (db_event_seq db + 1) db), tt).
Proof.
  intros Hj Ha E. unfold sql_record_event, jobs_all. rewrite E, map_app, !find_app_none.
  - simpl. by rewrite N.eqb_refl.
  - intros x (y & <- & Hy)%in_map_iff. apply N.eqb_neq. by apply Ha.
  - intros x (y & <- & Hy)%in_map_iff. apply N.eqb_neq. by apply Hj.
Qed.

(** ** complete *)

(** The jobs a completion starts: the next link of the chain. *)
Definition continuations (db : DB) (j : Job) (drop_chain_tail : bool) : list Job :=
  if drop_chain_tail then []
  else match advance (c_on_success j) (c_chain_tail j) with
       | Some st =>
           [inserted_job db (db_uuid_seq db)
              (continuation_spec (next_task st) (on_success st) (chain_tail st) (c_tenant j) (c_ctx_id j)
                 (c_pipeline j) (c_stage j) (c_priority j) (c_group_key j) (c_max_concurrent_per_group j)
                 (c_runs_on j) None (c_lease_ttl_s j) (c_on_failure j)) None]
       | None => []
       end.

Definition released_group (j : Job) (m : gmap gkey Z) : gmap gkey Z :=
  match group_of j with Some k => alter (fun n => Z.max 0 (n - 1)) k m | None => m end.

(** The tables only other operations write. *)
Definition other_tables (db db' : DB) : Prop :=
  db_deps db' = db_deps db /\ db_signals db' = db_signals db /\ db_checkpoints db' = db_checkpoints db
  /\ db_workers db' = db_workers db /\ db_cron_schedules db' = db_cron_schedules db
  /\ db_rate_classes db' = db_rate_classes db /\ db_now db' = db_now db.

(** A dependent that one dependency less makes ready. *)
Definition becomes_ready (now : time) (k : Job) : bool :=
  JobState_eqb (j_state (decremented now k)) QUEUED && (j_remaining_deps (decremented now k) =? 0).

(** Whether a completion of [j] starts anything. *)
Definition starts (db : DB) (j : Job) (drop : bool) : bool :=
  existsb (fun k : Job => negb (N.eqb (c_id k) (c_id j)) && depends_on_b (c_id j) (db_deps db) k
                    && becomes_ready (db_now db) k) (db_jobs db)
  || match continuations db j drop with [] => false | _ => true end.

(** What a successful completion of the row [j] leaves behind. *)
Record completed (j : Job) (r : option dict) (drop skipped : bool) (db db' : DB) : Prop := mkCompleted {
  co_archive : db_archive db' = db_archive db ++ [mkArchived (set_j_result r j) (db_now db) SUCCEEDED];
  co_live : forall k, In k (db_jobs db') <->
    (exists k0, In k0 (db_jobs db) /\ c_id k0 <> c_id j
       /\ k = if depends_on_b (c_id j) (db_deps db) k0 then decremented (db_now db) k0 else k0)
    \/ In k (continuations db j drop);
  co_events : db_events db' = db_events db
    ++ [event_row db j (if skipped then "skipped" else "succeeded") None];
  co_counters : db_group_running db' = released_group j (db_group_running db);
  co_rest : db_gates db' = db_gates db /\ other_tables db db'
}.

Lemma decrement_group_run db tenant g task :
  repo.decrement_group tenant g task 1 db
  = (set_db_group_running
       (match g with Some g => alter (fun n => Z.max 0 (n - 1)) (tenant, g, task) (db_group_running db)
        | None => db_group_running db end) db, Ok tt).
Proof. destruct g; [done|]. simpl. by destruct db. Qed.

(** The link of the chain, as the service inserts it. *)
Definition continue_chain (term : TerminalRow) (drop : bool) : DBM (option uuid) :=
  if drop then mret None
  else match advance (t_on_success term) (t_chain_tail term) with
       | Some step =>
           i ← repo.insert_continuation (next_task step) (on_success step) (chain_tail step) term;
           mret (Some i)
       | None => mret None
       end.

Definition terminal_of (r : option dict) (j : Job) (now : time) : TerminalRow :=
  mkTerminal (c_id j) (c_tenant j) (c_ctx_id j) (c_task_name j) (c_group_key j)
    (c_max_concurrent_per_group j) (c_on_success j) (c_chain_tail j) (c_on_failure j) (c_parent_gate_id j)
    None (c_pipeline j) (c_stage j) (c_priority j) (c_runs_on j) (c_rate_class j) (c_lease_ttl_s j)
    (Some (c_created_at j)) (j_started_at j) (Some now).

Lemma continue_run db j r drop :
  exists seq o, (db_uuid_seq db <= seq)%N /\
  continue_chain (terminal_of r j (db_now db)) drop db
  = (set_db_uuid_seq seq (set_db_jobs (db_jobs db ++ continuations db j drop) db), Ok o)
  /\ match o with Some _ => true | None => false end
     = match continuations db j drop with [] => false | _ => true end.
Proof.
  unfold continue_chain, continuations. simpl. destruct drop.
  { exists (db_uuid_seq db), None. split; [lia|]. rewrite app_nil_r. by destruct db. }
  destruct (advance _ _) as [st|].
  - exists (N.succ (db_uuid_seq db)), (Some (db_uuid_seq db)). split; [lia|]. done.
  - exists (db_uuid_seq db), None. split; [lia|]. rewrite app_nil_r. by destruct db.
Qed.

Lemma complete_move_run db i t j r r' :
  wf db -> In j (db_jobs db) -> lease_guard i t j = true -> jsonb_opt r = Some r' ->
  repo.complete_move i t r db
  = (set_db_archive (db_archive db ++ [mkArchived (set_j_result r' j) (db_now db) SUCCEEDED])
       (set_db_jobs (delete_where (lease_guard i t) (db_jobs db)) db),
     Ok (Some (terminal_of r' j (db_now db)))).
Proof.
  intros Hwf Hj Hl Hr. unfold repo.complete_move, sql_complete, move_to_archive. rewrite Hr. run.
  by rewrite (lease_sel db i t j).
Qed.

(** A fresh row depends on nothing. *)
Lemma fresh_independent db i s rf : wf db ->
  depends_on_b i (db_deps db) (inserted_job db (db_uuid_seq db) s rf) = false.
Proof.
  intros Hwf. destruct (wf_deps _ Hwf) as [_ Hlt]. unfold depends_on_b. apply not_true_iff_false.
  intros (d & Hd & E)%existsb_exists. bool_prop. rewrite Forall_forall in Hlt.
  specialize (Hlt (d_job_id d)). simpl in *.
  specialize (Hlt (in_map d_job_id _ _ Hd)). lia.
Qed.

Lemma decrement_deps_run db i :
  repo.decrement_deps i db
  = (update_jobs (depends_on_b i (db_deps db)) (decremented (db_now db)) db,
     Ok (map fst (List.filter snd (snd (sql_decrement_deps i db))))).
Proof. done. Qed.

Lemma continuations_fresh db j drop k :
  In k (continuations db j drop) -> c_id k = db_uuid_seq db /\ exists s, k = inserted_job db (db_uuid_seq db) s None.
Proof.
  unfold continuations. destruct drop; [done|]. destruct (advance _ _); [|done]. intros [<-|[]]. eauto.
Qed.

(** The live rows after the move, the continuation and the decrement. *)
Lemma completed_live db i t j drop k :
  wf db -> In j (db_jobs db) -> lease_guard i t j = true ->
  In k (update_where (depends_on_b i (db_deps db)) (decremented (db_now db))
          (delete_where (lease_guard i t) (db_jobs db) ++ continuations db j drop)) <->
  (exists k0, In k0 (db_jobs db) /\ c_id k0 <> i
     /\ k = if depends_on_b i (db_deps db) k0 then decremented (db_now db) k0 else k0)
  \/ In k (continuations db j drop).
Proof.
  intros Hwf Hj Hl. rewrite in_update_where.
  assert (forall x, In x (continuations db j drop) -> depends_on_b i (db_deps db) x = false) as Hc.
  { intros x (_ & s & ->)%continuations_fresh. by apply fresh_independent. }
  split.
  - intros (k0 & Hk & ->). rewrite in_app_iff, (lease_delete db i t j) in Hk by done.
    destruct Hk as [[Hk Hn]|Hk]; [left; eauto | right]. by rewrite Hc.
  - intros [(k0 & Hk & Hn & ->)|Hk]; [exists k0 | exists k].
    + rewrite in_app_iff, (lease_delete db i t j) by done. auto.
    + rewrite in_app_iff, Hc by done. auto.
Qed.

Lemma completed_live_ids db i t j drop k :
  wf db -> In j (db_jobs db) -> lease_guard i t j = true ->
  In k (update_where (depends_on_b i (db_deps db)) (decremented (db_now db))
          (delete_where (lease_guard i t) (db_jobs db) ++ continuations db j drop)) -> c_id k <> i.
Proof.
  intros Hwf Hj Hl H. apply (completed_live db i t j) in H; [|done..].
  destruct H as [(k0 & _ & Hn & ->)|Hc].
  - by destruct (depends_on_b _ _ _).
  - apply continuations_fresh in Hc as [-> _]. rewrite <- (lease_id i t j Hl).
    pose proof (wf_live_lt db j Hwf Hj). unfold job_id in *. lia.
Qed.

(** What the transaction reports of what it started. *)
Definition reported (out : list uuid * bool * option uuid) : bool :=
  let '(flipped, gate_resolved, continuation) := out in
  negb (match flipped with [] => true | _ => false end) || gate_resolved
  || match continuation with Some _ => true | None => false end.

Lemma flipped_starts db i t j drop (f : Job -> uuid) :
  wf db -> In j (db_jobs db) -> lease_guard i t j = true ->
  negb (match map fst (List.filter snd (map (fun k => (f k, becomes_ready (db_now db) k))
          (sel (depends_on_b i (db_deps db)) (delete_where (lease_guard i t) (db_jobs db) ++ continuations db j drop))))
        with [] => true | _ => false end)
  = existsb (fun k : Job => negb (N.eqb (c_id k) i) && depends_on_b i (db_deps db) k
                      && becomes_ready (db_now db) k) (db_jobs db).
Proof.
  intros Hwf Hj Hl.
  set (l := sel (depends_on_b i (db_deps db)) _). assert (forall k, In k l <-> In k (db_jobs db) /\ c_id k <> i /\ depends_on_b i (db_deps db) k = true) as Hk.
  { intros k. unfold l. rewrite in_sel, in_app_iff, (lease_delete db i t j) by done. split.
    - intros [[[? ?]|Hc] Hd]; [done|]. apply continuations_fresh in Hc as (_ & s & ->).
      by rewrite fresh_independent in Hd.
    - intros (? & ? & ?). split; [by left | done]. }
  assert (forall (l : list Job), negb (match map fst (List.filter snd (map (fun k => (f k, becomes_ready (db_now db) k)) l))
            with [] => true | _ => false end) = existsb (becomes_ready (db_now db)) l) as ->.
  { intros m. induction m as [|k m IH]; [done|]. simpl. by destruct (becomes_ready (db_now db) k). }
  apply Bool.eq_iff_eq_true. rewrite !existsb_exists. split; intros (k & Hin & Hr).
  - exists k. apply Hk in Hin as (? & ? & ->). split; [done|]. rewrite Hr. by destruct (N.eqb_spec (c_id k) i).
  - exists k. bool_prop. split; [|done]. by apply Hk.
Qed.

Lemma complete_tx_run db i t j r r' drop skipped :
  wf db -> In j (db_jobs db) -> lease_guard i t j = true -> c_parent_gate_id j = None -> jsonb_opt r = Some r' ->
  exists db' out, JobService.complete_tx i t r drop skipped db = (db', Ok out)
    /\ completed j r' drop skipped db db' /\ reported out = starts db j drop.
Proof.
  intros Hwf Hj Hl Hg Hr. pose proof (lease_id i t j Hl) as Hi.
  pose proof (complete_move_run db i t j r r' Hwf Hj Hl Hr) as E1.
  set (db1 := set_db_archive _ _) in E1.
  pose proof (decrement_group_run db1 (c_tenant j) (c_group_key j) (c_task_name j)) as E2.
  set (db2 := set_db_group_running _ _) in E2.
  destruct (continue_run db2 j r' drop) as (seq & o & Hseq & E3 & Eo). set (db3 := set_db_uuid_seq _ _) in E3.
  pose proof (decrement_deps_run db3 i) as E4. set (db4 := update_jobs _ _ _) in E4.
  set (a := mkArchived (set_j_result r' j) (db_now db) SUCCEEDED).
  assert (archived_id a = i) as Ha by done.
  pose proof (record_archived db4 (db_archive db) a [] (if skipped then "skipped" else "succeeded") None) as E5.
  rewrite Ha in E5.
  eexists _, _. split.
  - unfold JobService.complete_tx. etransitivity; [eapply bind_ok, E1|]. cbv beta iota.
    etransitivity; [eapply bind_ok, E2|]. etransitivity; [eapply bind_ok, E3|].
    etransitivity; [eapply bind_ok, E4|].
    etransitivity; [eapply bind_ok; unfold repo.record_event, stmt; change (jsonb_members <$> None) with (@None dict);
      rewrite E5; [reflexivity|..]|].
    + intros k Hk. exact (completed_live_ids db i t j drop k Hwf Hj Hl Hk).
    + intros x Hx. rewrite <- Hi. intros E. by eapply (archived_not_live db x j).
    + done.
    + simpl. rewrite Hg. reflexivity.
  - subst db4 db3 db2 db1. split; [split; simpl; try done|].
    + rewrite Hi. intros k. exact (completed_live db i t j drop k Hwf Hj Hl).
    + unfold released_group, group_of. by destruct (c_group_key j).
    + unfold reported, starts. rewrite Eo, Hi, orb_false_r. f_equal.
      exact (flipped_starts db i t j drop _ Hwf Hj Hl).
Qed.

(** The world with another database, woken or not. *)
Definition awake (b : bool) (w : World) : World := if b then fst (wake_set w) else w.

Lemma complete_done cfg i t r r' drop skipped w j :
  wf (w_db w) -> In j (db_jobs (w_db w)) -> lease_guard i t j = true -> c_parent_gate_id j = None ->
  JobService.oversized (max_result_kb cfg * 1024) r = None -> jsonb_opt r = Some r' ->
  exists db', JobService.complete cfg i t r drop skipped w
      = (awake (starts (w_db w) j drop) (set_w_db db' w), Ok true)
    /\ completed j r' drop skipped (w_db w) db'.
Proof.
  intros Hwf Hj Hl Hg Hr Hs.
  destruct (complete_tx_run (w_db w) i t j r r' drop skipped Hwf Hj Hl Hg Hs) as (db' & [[f g] c] & E & H & Eb).
  exists db'. split; [|done]. unfold JobService.complete. rewrite Hr. unfold reported in Eb.
  etransitivity; [eapply bind_ok, in_tx_ok, E|]. cbv beta iota. rewrite Eb. by destruct (starts (w_db w) j drop).
Qed.

Lemma awake_db b w : w_db (awake b w) = w_db w.
Proof. by destruct b. Qed.

(** C6. Completing a job under its current lease (a job of no gate, with a result
    within the size cap): a result the JSONB column cannot hold (NaN, an infinity,
    a NUL) raises DataError and nothing changes.  Otherwise the call returns true;
    the row leaves the live table and is archived as succeeded with the result as
    the column keeps it; every live dependent has one dependency less and is
    queued when that was the last one and it is due; the next link of the
    chain, unless dropped, is the only new row and is queued with the lineage
    and routing of its predecessor; one ledger entry names the job's tenant
    and context; the group counter goes down by one; no other table changes
    (gates, edges, signals, checkpoints, workers, schedules, rate classes); and of
    the engine's memory only the wake event does, set exactly when the completion
    made a dependent ready or started the next link. *)
Theorem complete_effect cfg i t r drop skipped w j :
  wf (w_db w) -> In j (db_jobs (w_db w)) -> lease_guard i t j = true -> c_parent_gate_id j = None ->
  JobService.oversized (max_result_kb cfg * 1024) r = None ->
  match jsonb_opt r with
  | Some r' => exists db', JobService.complete cfg i t r drop skipped w
                   = (awake (starts (w_db w) j drop) (set_w_db db' w), Ok true)
                 /\ completed j r' drop skipped (w_db w) db'
  | None => JobService.complete cfg i t r drop skipped w = (w, Raise DataError)
  end.
Proof.
  intros Hwf Hj Hl Hg Hr. destruct (jsonb_opt r) as [r'|] eqn:Es; [by apply (complete_done _ _ _ _ r') | by apply complete_refused].
Qed.

Lemma complete_effect_witness :
  exists db', JobService.complete default_config 1 2 (Some []) false false world3
      = (awake (starts (w_db world3) job3 false) (set_w_db db' world3), Ok true)
    /\ completed job3 (Some []) false false (w_db world3) db'.
Proof.
  exact (complete_effect default_config 1 2 (Some []) false false world3 job3 world3_wf world3_job
           eq_refl eq_refl eq_refl).
Defined.
