(* ===== verification/FailProps.v ===== *)
(** * Failing a job: retry or die *)

From S2P Require Import Prelude PyStr Errors States Chain Policies Failure Json Records Database.
From S2P Require Import Queries Tables Claim Invariant Steps ClaimFacts Repository RepoFacts World.
From S2P Require Import RateLimiter RegistryService JobService SubmitService FanOutService.
From S2P Require Import SignalService CancelService Matcher Loops Engine Exec Lifecycle Cascade.
From S2P Require Import OutcomeProps.
From Stdlib Require Import QArith.
Open Scope string_scope.
Open Scope Z_scope.
Open Scope list_scope.

(** ** Retry *)

(** The row a retry puts back. *)
Definition requeued (next_run_at : time) (entry : json) (j : Job) : Job :=
  append_error entry (release_lease (set_j_run_at next_run_at (set_j_state QUEUED j))).

Record retried (j : Job) (next_run_at : time) (entry : dict) (db db' : DB) : Prop := mkRetried {
  rt_live : forall k, In k (db_jobs db') <->
    k = requeued next_run_at (JObj entry) j \/ (In k (db_jobs db) /\ c_id k <> c_id j);
  rt_archive : db_archive db' = db_archive db;
  rt_events : db_events db' = db_events db ++ [event_row db j "retry_scheduled" (Some entry)];
  rt_counters : db_group_running db' = released_group j (db_group_running db)
}.

Lemma record_live db j ev det :
  List.NoDup (map job_id (db_jobs db)) -> In j (db_jobs db) ->
  sql_record_event (c_id j) ev det db
  = (set_db_events (db_events db ++ [event_row db j ev det])
       (set_db_event_seq (db_event_seq db + 1) db), tt).
Proof.
  intros Hnd Hj. unfold sql_record_event, jobs_all.
  assert (List.find (fun a : AnyJob => N.eqb (c_id a) (c_id j))
            (map (fun j : Job => mkAny j None (j_state j)) (db_jobs db)
             ++ map (fun a => mkAny (a_job a) (Some (a_finished_at a)) (a_final_state a)) (db_archive db))
          = Some (mkAny j None (j_state j))) as ->; [|done].
  induction (db_jobs db) as [|x l IH]; [done|]. simpl in *. invert Hnd. destruct Hj as [->|Hj].
  - by rewrite N.eqb_refl.
  - destruct (N.eqb_spec (c_id x) (c_id j)) as [E|_]; [|by apply IH].
    exfalso. apply H1. unfold job_id at 1. rewrite E. by apply (in_map job_id).
Qed.

Section Fail.
Context (db : DB) (i t : uuid) (j : Job).
Hypothesis Hwf : wf db.
Hypothesis Hj : In j (db_jobs db).
Hypothesis Hl : lease_guard i t j = true.

Lemma peek_run : exists p, repo.fail_peek i t db = (db, Ok (Some p))
  /\ pk_attempt p = j_attempt j /\ pk_max_attempts p = c_max_attempts j /\ pk_backoff p = c_backoff j
  /\ pk_rate_class p = c_rate_class j.
Proof.
  unfold repo.fail_peek, query, gets, sql_fail_peek. rewrite (lease_sel db i t j Hwf Hj Hl).
  eexists. split; [reflexivity | done].
Qed.

Lemma update_lease_live f k :
  In k (update_where (lease_guard i t) f (db_jobs db)) <->
  k = f j \/ (In k (db_jobs db) /\ c_id k <> i).
Proof.
  rewrite in_update_where. split.
  - intros (x & Hx & ->). destruct (N.eq_dec (c_id x) i) as [E|E].
    + rewrite (lease_ids db i t j Hwf Hj Hl x Hx E), Hl. by left.
    + rewrite (lease_others db i t x Hx E). auto.
  - intros [->|[Hk Hn]].
    + exists j. by rewrite Hl.
    + exists k. by rewrite (lease_others db i t k Hk Hn).
Qed.

Lemma retry_tx_run now u peek entry ra next :
  JobService._next_run_at now u (pk_attempt peek) (pk_backoff peek) ra = Ok next ->
  storable (JObj entry) = true ->
  exists db', JobService.retry_tx now u i t peek entry ra db = (db', Ok tt)
    /\ retried j next (jsonb_members entry) db db'.
Proof.
  intros Hn Hs. pose proof (lease_id i t j Hl) as Hi. unfold JobService.retry_tx. rewrite Hn.
  set (e := JObj (jsonb_members entry)).
  assert (repo.fail_retry i t next (JObj entry) db
    = (update_jobs (lease_guard i t) (requeued next e) db, Ok (Some (requeued next e j)))) as E1.
  { unfold repo.fail_retry, jsonb. rewrite Hs. etransitivity; [eapply bind_ok; reflexivity|].
    unfold stmt, sql_fail. by rewrite (lease_sel db i t j Hwf Hj Hl). }
  set (db1 := update_jobs _ _ _) in E1.
  pose proof (decrement_group_run db1 (c_tenant j) (c_group_key j) (c_task_name j)) as E2.
  set (db2 := set_db_group_running _ _) in E2.
  assert (List.NoDup (map job_id (db_jobs db2))) as Hnd.
  { exact (wf_job_ids _ (proj1 (keeps_fail i t next e db Hwf))). }
  pose proof (record_live db2 (requeued next e j) "retry_scheduled" (Some (jsonb_members entry)) Hnd) as E3.
  change (c_id (requeued next e j)) with (c_id j) in E3. rewrite Hi in E3.
  eexists. split.
  - etransitivity; [eapply bind_ok, E1|]. cbv beta iota. etransitivity; [eapply bind_ok, E2|].
    unfold repo.record_event, stmt. change (jsonb_members <$> Some entry) with (Some (jsonb_members entry)).
    rewrite E3; [reflexivity|]. apply update_lease_live. by left.
  - subst db2 db1. split; simpl; try done.
    + intros k. rewrite Hi. apply update_lease_live.
    + unfold released_group, group_of. by destruct (c_group_key j).
Qed.

(** An entry no JSONB column takes ends either transaction before it writes. *)
Lemma retry_tx_refused now u peek entry ra next :
  JobService._next_run_at now u (pk_attempt peek) (pk_backoff peek) ra = Ok next ->
  storable (JObj entry) = false -> JobService.retry_tx now u i t peek entry ra db = (db, Raise DataError).
Proof.
  intros Hn Hs. unfold JobService.retry_tx, repo.fail_retry, jsonb. rewrite Hn, Hs. reflexivity.
Qed.

Lemma die_tx_refused entry :
  storable (JObj entry) = false -> JobService.die_tx i t entry db = (db, Raise DataError).
Proof. intros Hs. unfold JobService.die_tx, repo.fail_die, jsonb. rewrite Hs. reflexivity. Qed.
End Fail.

(** After the commit only rate tokens and the wake flag change. *)
Lemma after_fail_run a retry woke rc w :
  exists w' m, JobService.after_fail a (retry, woke, rc) w = (w', Ok (JobService.mkOutcome true retry))
    /\ w_db w' = set_db_rate_classes m (w_db w).
Proof.
  assert (forall rc w, exists w' m, drain rc w = (w', Ok tt) /\ w_db w' = set_db_rate_classes m (w_db w)) as Hd.
  { intros c v. unfold drain. run. destruct (rl_cfg (w_limiter v) !! c).
    2:{ exists v, (db_rate_classes (w_db v)). split; [done|]. by destruct v as [[] ? ? ? ?]. }
    destruct (redis_up (w_limiter v)).
    - eexists _, (db_rate_classes (w_db v)). split; [reflexivity|]. by destruct v as [[] ? ? ? ?].
    - eexists _, _. split; reflexivity. }
  assert (forall v, w_db v = set_db_rate_classes (db_rate_classes (w_db v)) (w_db v)) as Hid
    by (by intros [[] ? ? ? ?]).
  unfold JobService.after_fail.
  assert (exists w1 m, (match truthy rc with
      | Some rc => when (JobService.fa_rate_limited a) (try_except (fun _ => true) (drain rc) (mret tt))
      | None => mret tt
      end : EM unit) w = (w1, Ok tt) /\ w_db w1 = set_db_rate_classes m (w_db w)) as (w1 & m & E & Em).
  { destruct (truthy rc) as [c|]; [|exists w; eauto]. destruct (JobService.fa_rate_limited a); [|exists w; eauto].
    destruct (Hd c w) as (w1 & m & E & Em). exists w1, m. split; [|done].
    unfold when, try_except. by rewrite E. }
  destruct retry, woke; (eexists _, m; split; [etransitivity; [eapply bind_ok, E|]; reflexivity | exact Em]).
Qed.

Definition will_retry_ (j : Job) (a : JobService.FailArgs) : bool :=
  JobService.fa_retryable a
  && (j_attempt j <? JobService.attempt_limit (JobService.fa_worker_max_attempts a) (c_max_attempts j)).

Lemma fail_tx_refused u i t a w e :
  JobService.fail_tx (w_clock w) u i t a (w_db w) = (w_db w, Raise e) ->
  JobService.fail u i t a w = (w, Raise e).
Proof.
  intros E. unfold JobService.fail. etransitivity; [by eapply bind_ok|]. by eapply bind_raise, in_tx_raise.
Qed.

Lemma should_retry_eq n m r : Retry.should_retry n m r = r && (n <? m).
Proof. by destruct r. Qed.

(** C8. A retryable failure with attempts left, reported under the current
    lease, puts the job back: the call is accepted and says so; the row is
    queued for the computed time with its lease released and the sanitized
    error entry appended to its history; no other row, and not the archive,
    changes; the group counter is released; the ledger gains one entry with
    the error.  A worker's own attempt limit, when given and not zero, replaces
    the stored one.  The entry is kept as the JSONB column keeps it; a
    report whose entry holds a NUL or a NaN is no JSONB, and raises DataError
    with nothing changed. *)
Theorem fail_retries u i t a w j next :
  wf (w_db w) -> In j (db_jobs (w_db w)) -> lease_guard i t j = true -> will_retry_ j a = true ->
  let entry := JobService.fail_entry (w_clock w) a in
  JobService._next_run_at (w_clock w) u (j_attempt j) (c_backoff j) (JobService.entry_retry_after entry)
    = Ok next ->
  if storable (JObj entry)
  then exists w', JobService.fail u i t a w = (w', Ok (JobService.mkOutcome true true))
         /\ retried j next (jsonb_members entry) (w_db w) (w_db w')
  else JobService.fail u i t a w = (w, Raise DataError).
Proof.
  intros Hwf Hj Hl Hr entry Hn. destruct (peek_run (w_db w) i t j Hwf Hj Hl) as (p & Ep & Ea & Em & Eb & Ec).
  rewrite <- Ea, <- Eb in Hn.
  destruct (storable (JObj entry)) eqn:Hs.
  2:{ eapply fail_tx_refused. unfold JobService.fail_tx. etransitivity; [eapply bind_ok, Ep|]. cbv beta iota.
      rewrite should_retry_eq, Ea, Em. unfold will_retry_ in Hr. rewrite Hr.
      by eapply bind_raise, retry_tx_refused. }
  destruct (retry_tx_run (w_db w) i t j Hwf Hj Hl _ _ _ entry _ _ Hn Hs) as (db' & Et & Hd).
  assert (JobService.fail_tx (w_clock w) u i t a (w_db w) = (db', Ok (true, false, pk_rate_class p))) as E.
  { unfold JobService.fail_tx. etransitivity; [eapply bind_ok, Ep|]. cbv beta iota.
    rewrite should_retry_eq, Ea, Em. unfold will_retry_ in Hr. rewrite Hr.
    etransitivity; [eapply bind_ok, Et|]. reflexivity. }
  destruct (after_fail_run a true false (pk_rate_class p) (set_w_db db' w)) as (w' & m & Ef & Edb).
  exists w'. split.
  - unfold JobService.fail. etransitivity; [by eapply bind_ok|].
    etransitivity; [eapply bind_ok, in_tx_ok, E|]. exact Ef.
  - rewrite Edb. destruct Hd. by split.
Qed.

Definition demo_fail (retryable : bool) : JobService.FailArgs :=
  JobService.mkFail "TimeoutError" "upstream timed out" "ab12" retryable None true [] false None.

Lemma fail_retries_witness :
  exists w' next, JobService.fail 0 1 2 (demo_fail true) world3 = (w', Ok (JobService.mkOutcome true true))
    /\ retried job3 next (jsonb_members (JobService.fail_entry (w_clock world3) (demo_fail true)))
         (w_db world3) (w_db w').
Proof.
  pose proof (fail_retries 0 1 2 (demo_fail true) world3 job3 0 world3_wf world3_job eq_refl eq_refl
    ltac:(vm_compute; reflexivity)) as H. cbv zeta in H.
  rewrite (eq_refl : storable (JObj (JobService.fail_entry (w_clock world3) (demo_fail true))) = true) in H.
  destruct H as (w' & H1 & H2). exists w', 0. split; [exact H1 | exact H2].
Defined.

(** ** Die *)

Record died (j : Job) (entry : dict) (db db' : DB) : Prop := mkDied {
  di_live : forall k, In k (db_jobs db') <->
    In k (db_jobs db) /\ c_id k <> c_id j /\ ~ dependent db (c_id j) k;
  di_rows : exists rows,
    db_archive db' = db_archive db
      ++ mkArchived (append_error (JObj entry) j) (db_now db) DEAD
      :: map (fun k => mkArchived k (db_now db) CANCELLED) rows
    /\ (forall k, In k rows <-> dependent db (c_id j) k /\ c_id k <> c_id j)
    /\ exists audit e, db_events db' = db_events db ++ audit ++ [e]
         /\ map ev_job_id audit = map job_id rows
         /\ Forall (fun x => ev_event x = "dependency_cancelled") audit
         /\ ev_job_id e = c_id j /\ ev_event e = "dead" /\ ev_detail e = Some entry
         /\ ev_tenant e = c_tenant j;
  di_counters : db_group_running db' = released_group j (db_group_running db);
  di_gates : db_gates db' = db_gates db
}.

(** The ledger entries of a cascade, one per row, in order. *)
Lemma audit_run root ids db :
  exists audit, JobService.audit_cascade root ids db
    = (set_db_events (db_events db ++ audit) (set_db_event_seq (db_event_seq db + Z.of_nat (length ids)) db), Ok tt)
    /\ map ev_job_id audit = ids /\ Forall (fun x => ev_event x = "dependency_cancelled") audit.
Proof.
  unfold JobService.audit_cascade.
  assert (forall db, exists audit r, forM (fun dep => repo.record_event dep "dependency_cancelled"
                         (Some [("root_cause", JStr (uuid_str root))])) ids db
    = (set_db_events (db_events db ++ audit) (set_db_event_seq (db_event_seq db + Z.of_nat (length ids)) db), Ok r)
    /\ map ev_job_id audit = ids /\ Forall (fun x => ev_event x = "dependency_cancelled") audit) as H.
  { induction ids as [|x ids IH]; intros d.
    - exists [], []. split; [|by split]. rewrite app_nil_r, Z.add_0_r. by destruct d.
    - simpl forM. match goal with |- context [forM ?f ids] => set (g := f) in * end.
      destruct (IH (fst (sql_record_event x "dependency_cancelled" (Some [("root_cause", JStr (uuid_str root))]) d)))
        as (audit & r & E & Em & Ef).
      eexists (mkEvent _ x _ _ "dependency_cancelled" _ _ :: audit), _.
      split; [|split; [simpl; by rewrite Em | constructor; [reflexivity | exact Ef]]].
      etransitivity; [eapply bind_ok; reflexivity|]. etransitivity; [eapply bind_ok, E|].
      unfold sql_record_event. simpl. rewrite <- app_assoc. simpl.
      replace (db_event_seq d + 1 + Z.of_nat (length ids))
        with (db_event_seq d + Z.pos (Pos.of_succ_nat (length ids))) by lia.
      reflexivity. }
  destruct (H db) as (audit & r & E & Em & Ef). exists audit. split; [|done].
  etransitivity; [eapply bind_ok, E|]. reflexivity.
Qed.

Section Die.
Context (db : DB) (i t : uuid) (j : Job).
Hypothesis Hwf : wf db.
Hypothesis Hj : In j (db_jobs db).
Hypothesis Hl : lease_guard i t j = true.

(** The cone is the same once the root itself is archived. *)
Lemma dependent_without_root db1 k :
  db_jobs db1 = delete_where (lease_guard i t) (db_jobs db) -> db_deps db1 = db_deps db ->
  dependent db1 i k <-> dependent db i k /\ c_id k <> i.
Proof.
  intros Ej Ed.
  assert (forall k, In k (db_jobs db1) <-> In k (db_jobs db) /\ c_id k <> i) as Hk
    by (intros; rewrite Ej; by apply (lease_delete db i t j)).
  split.
  - induction 1 as [k H1 H2|u k H1 [IH _] H2 H3]; rewrite Ed in *.
    + apply Hk in H1 as [H1 Hn]. split; [by apply dependent_direct | done].
    + apply Hk in H2 as [H2 Hn]. split; [by eapply dependent_step | done].
  - intros [H Hn]. induction H as [k H1 H2|u k H1 IH H2 H3].
    + apply dependent_direct; [by apply Hk | by rewrite Ed].
    + destruct (N.eq_dec (c_id u) i) as [E|E].
      * apply dependent_direct; [by apply Hk | rewrite Ed; by rewrite <- E].
      * eapply dependent_step; [by apply IH | by apply Hk | by rewrite Ed].
Qed.

Lemma fail_die_run entry :
  storable (JObj entry) = true ->
  exists term, repo.fail_die i t (JObj entry) db
    = (set_db_archive (db_archive db ++ [mkArchived (append_error (JObj (jsonb_members entry)) j) (db_now db) DEAD])
         (set_db_jobs (delete_where (lease_guard i t) (db_jobs db)) db), Ok (Some term))
    /\ t_tenant term = c_tenant j /\ t_group_key term = c_group_key j /\ t_task_name term = c_task_name j
    /\ t_parent_gate_id term = c_parent_gate_id j /\ t_on_failure term = c_on_failure j.
Proof.
  intros Hs. unfold repo.fail_die, jsonb. rewrite Hs. unfold sql_fail_die, move_to_archive. run. rewrite (lease_sel db i t j Hwf Hj Hl).
  eexists. split; [reflexivity | done].
Qed.

Lemma die_tx_run entry :
  storable (JObj entry) = true -> c_parent_gate_id j = None -> c_on_failure j = None ->
  exists db', JobService.die_tx i t entry db = (db', Ok false) /\ died j (jsonb_members entry) db db'.
Proof.
  intros Hs Hg Hh. pose proof (lease_id i t j Hl) as Hi.
  destruct (fail_die_run entry Hs) as (term & E1 & Et & Egk & Etn & Epg & Eof).
  set (db1 := set_db_archive _ _) in E1.
  assert (wf db1) as Hwf1.
  { pose proof (proj1 (keeps_fail_die i t (JObj (jsonb_members entry)) db Hwf)) as H.
    unfold sql_fail_die, move_to_archive in H. by rewrite (lease_sel db i t j Hwf Hj Hl) in H. }
  pose proof (decrement_group_run db1 (c_tenant j) (c_group_key j) (c_task_name j)) as E2.
  set (db2 := set_db_group_running _ _) in E2.
  assert (wf db2) as Hwf2.
  { pose proof (stable_decrement_group (c_tenant j) (c_group_key j) (c_task_name j) 1 db1 Hwf1) as [H _].
    by rewrite E2 in H. }
  assert (forall k, dependent db2 i k <-> dependent db i k /\ c_id k <> i) as Hdep
    by (intros; by apply dependent_without_root).
  pose proof (cascade_run i db2) as E3. set (db3 := set_db_archive _ _) in E3.
  destruct (audit_run i (map job_id (cone_rows i db2)) db3) as (audit & E4 & Ea & Ef).
  set (db4 := set_db_events _ _) in E4.
  set (a := mkArchived (append_error (JObj (jsonb_members entry)) j) (db_now db) DEAD).
  set (cancelled := map (fun k => mkArchived k (db_now db) CANCELLED) (cone_rows i db2)).
  assert (archived_id a = i) as Ha by done.
  pose proof (record_archived db4 (db_archive db) a cancelled "dead" (Some (jsonb_members entry))) as E5. rewrite Ha in E5.
  assert (forall k, In k (db_jobs db4) <-> In k (db_jobs db) /\ c_id k <> i /\ ~ dependent db i k) as Hlive.
  { intros k. change (db_jobs db4) with (delete_where (in_cone i db2) (db_jobs db2)).
    rewrite cone_deleted by done. change (db_jobs db2) with (delete_where (lease_guard i t) (db_jobs db)).
    rewrite (lease_delete db i t j Hwf Hj Hl), Hdep. tauto. }
  eexists. split.
  - unfold JobService.die_tx. etransitivity; [eapply bind_ok, E1|]. cbv beta iota. rewrite Et, Egk, Etn.
    etransitivity; [eapply bind_ok, E2|]. rewrite Epg, Hg.
    etransitivity; [eapply bind_ok; reflexivity|]. rewrite Eof, Hh.
    etransitivity; [eapply bind_ok; reflexivity|].
    etransitivity; [eapply bind_ok, E3|]. etransitivity; [eapply bind_ok, E4|].
    etransitivity; [eapply bind_ok; unfold repo.record_event, stmt;
      change (jsonb_members <$> Some entry) with (Some (jsonb_members entry)); rewrite E5; [reflexivity|..]|].
    + intros k Hk. by apply Hlive in Hk as (_ & ? & _).
    + intros x Hx. rewrite <- Hi. intros E. by eapply (archived_not_live db x j).
    + subst db4 db3 db2 db1 a cancelled. simpl. by rewrite <- app_assoc.
    + reflexivity.
  - split.
    + rewrite Hi. exact Hlive.
    + exists (cone_rows i db2). split_and!.
      * subst db4 db3 db2 db1. simpl. by rewrite <- app_assoc.
      * intros k. rewrite cone_rows_spec by done. rewrite Hi. apply Hdep.
      * eexists audit, _. split; [subst db4 db3 db2 db1; simpl; by rewrite <- app_assoc|]. by rewrite Hi.
    + simpl. unfold released_group, group_of. by destruct (c_group_key j).
    + done.
Qed.
End Die.

(** C9. A failure that is not retried (not retryable, or no attempts left),
    of a job with no gate and no failure hook, reported under the current
    lease: the call is accepted without retry; the row is archived as dead
    with the error entry appended; exactly the live jobs that depend on it,
    directly or through live jobs, are archived as cancelled; every other live
    row stays; the ledger gains one entry per cancelled job and then the
    death, with the job's tenant; the group counter is released.  A report
    whose entry is no JSONB raises DataError with nothing changed. *)
Theorem fail_dies u i t a w j :
  wf (w_db w) -> In j (db_jobs (w_db w)) -> lease_guard i t j = true -> will_retry_ j a = false ->
  c_parent_gate_id j = None -> c_on_failure j = None ->
  let entry := JobService.fail_entry (w_clock w) a in
  if storable (JObj entry)
  then exists w', JobService.fail u i t a w = (w', Ok (JobService.mkOutcome true false))
         /\ died j (jsonb_members entry) (w_db w) (w_db w')
  else JobService.fail u i t a w = (w, Raise DataError).
Proof.
  intros Hwf Hj Hl Hr Hg Hh. destruct (peek_run (w_db w) i t j Hwf Hj Hl) as (p & Ep & Ea & Em & Eb & Ec).
  intros entry. destruct (storable (JObj entry)) eqn:Hs.
  2:{ eapply fail_tx_refused. unfold JobService.fail_tx. etransitivity; [eapply bind_ok, Ep|]. cbv beta iota.
      rewrite should_retry_eq, Ea, Em. unfold will_retry_ in Hr. rewrite Hr.
      by eapply bind_raise, die_tx_refused. }
  destruct (die_tx_run (w_db w) i t j Hwf Hj Hl entry Hs Hg Hh) as (db' & Et & Hd).
  assert (JobService.fail_tx (w_clock w) u i t a (w_db w) = (db', Ok (false, false, pk_rate_class p))) as E.
  { unfold JobService.fail_tx. etransitivity; [eapply bind_ok, Ep|]. cbv beta iota.
    rewrite should_retry_eq, Ea, Em. unfold will_retry_ in Hr. rewrite Hr.
    etransitivity; [eapply bind_ok, Et|]. reflexivity. }
  destruct (after_fail_run a false false (pk_rate_class p) (set_w_db db' w)) as (w' & m & Ef & Edb).
  exists w'. split.
  - unfold JobService.fail. etransitivity; [by eapply bind_ok|].
    etransitivity; [eapply bind_ok, in_tx_ok, E|]. exact Ef.
  - rewrite Edb. destruct Hd. by split.
Qed.

Lemma fail_dies_witness :
  exists w', JobService.fail 0 1 2 (demo_fail false) world3 = (w', Ok (JobService.mkOutcome true false))
    /\ died job3 (jsonb_members (JobService.fail_entry (w_clock world3) (demo_fail false)))
         (w_db world3) (w_db w').
Proof.
  pose proof (fail_dies 0 1 2 (demo_fail false) world3 job3 world3_wf world3_job eq_refl eq_refl eq_refl eq_refl)
    as H. cbv zeta in H.
  rewrite (eq_refl : storable (JObj (JobService.fail_entry (w_clock world3) (demo_fail false))) = true) in H.
  exact H.
Defined.
