(* ===== verification/GateProps.v ===== *)
(** * Fan-out gates: policy, firing and settlement *)

From S2P Require Import Prelude PyStr Errors States Chain Gates Json Records Database Queries.
From S2P Require Import Tables Claim Invariant Steps ClaimFacts Repository RepoFacts World.
From S2P Require Import RateLimiter RegistryService JobService SubmitService FanOutService.
From S2P Require Import SignalService CancelService Matcher Loops Engine Exec Lifecycle.
Open Scope string_scope.
Open Scope Z_scope.
Open Scope list_scope.

(** ** The policy *)

Lemma post_init_spec p q :
  post_init p = Some q -> 0 < expected p /\ 0 <= succeeded p <= completed p /\ completed p <= expected p
    /\ 0 <= failed p <= completed p - succeeded p.
Proof.
  unfold post_init. destruct (Z.leb_spec (expected p) 0); [done|].
  destruct ((0 <=? succeeded p) && (succeeded p <=? completed p) && (completed p <=? expected p)) eqn:E1; [|done].
  destruct ((0 <=? failed p) && (failed p <=? completed p - succeeded p)) eqn:E2; [|done].
  intros _. bool_prop. lia.
Qed.

(** The decision the gate statement takes in SQL is the policy of
    core/gates.py: for every policy text the service accepts and every valid
    progress, whenever the core function gives a verdict the statement gives
    the same one. *)
Theorem gate_policy_agrees policy q p b :
  FanOutService._quorum_n policy = Some q -> post_init p = Some p -> is_satisfied policy p = Some b ->
  gate_decision policy q (expected p) (completed p) (succeeded p) (failed p) = b.
Proof.
  intros Hq Hp Hb. apply post_init_spec in Hp. unfold FanOutService._quorum_n, is_satisfied, gate_decision in *.
  destruct (String.eqb policy "all_success") eqn:E1.
  { injection Hb as <-. unfold all_success. f_equal. apply eq_true_iff_eq. rewrite Z.leb_le, Z.eqb_eq. lia. }
  destruct (String.eqb policy "all_terminal") eqn:E2.
  { injection Hb as <-. unfold all_terminal. apply eq_true_iff_eq. rewrite Z.leb_le, Z.eqb_eq. lia. }
  simpl in Hq. destruct (quorum_text policy) as [t|]; [|done]. simpl in Hb.
  destruct (py_int t) as [n|]; [|done]. injection Hq as <-. simpl in Hb. unfold quorum in Hb.
  destruct (n <=? 0); [done|]. by injection Hb as <-.
Qed.

Lemma gate_policy_agrees_witness :
  gate_decision "quorum(2)" (Some 2) 3 2 2 0 = true /\ gate_decision "quorum(2)" (Some 2) 3 2 1 1 = false.
Proof.
  split; [apply (gate_policy_agrees "quorum(2)" (Some 2) (mkProgress 3 2 2 0))
         |apply (gate_policy_agrees "quorum(2)" (Some 2) (mkProgress 3 2 1 1))]; vm_compute; reflexivity.
Defined.

(** ** Firing *)

Section Bump.
Context (gid : uuid).

Lemma bump_run db g cs cf :
  List.NoDup (map g_id (db_gates db)) -> In g (db_gates db) -> g_id g = gid ->
  let db' := set_db_gates (update_where (fun g => N.eqb (g_id g) gid) (bumped_gate (db_now db) cs cf)
                             (db_gates db)) db in
  repo.bump_gate gid cs cf db
  = (db', Ok (Some (repo.mkResolution (b_resolved (gate_bump cs cf g)) (b_satisfied (gate_bump cs cf g))
                      (g_on_complete g) (g_tenant g) (g_ctx_id g) (g_expected_children g)
                      (b_succeeded (gate_bump cs cf g)))))
  /\ List.NoDup (map g_id (db_gates db')) /\ In (bumped_gate (db_now db) cs cf g) (db_gates db').
Proof.
  intros Hnd Hg Hid db'. split; [|split].
  - unfold repo.bump_gate, sql_bump_gate. run.
    destruct (List.find (fun g0 : Gate => N.eqb (g_id g0) gid) (db_gates db)) as [g'|] eqn:E.
    + apply find_some in E as [Hg' E]. apply N.eqb_eq in E.
      by rewrite (NoDup_map_inj g_id (db_gates db) g' g) by congruence.
    + eapply find_none in E; [|exact Hg]. by rewrite Hid, N.eqb_refl in E.
  - subst db'. simpl. by rewrite map_update_where.
  - apply in_update_where. exists g. by rewrite Hid, N.eqb_refl.
Qed.

End Bump.

(** ** Settlement *)

(** The job a child's report starts, if any. *)
Definition follow_up (db : DB) (g : Gate) (b : GateBump) : option SubmitSpec :=
  if negb (b_resolved b) then None
  else if b_satisfied b then
    Some (JobService.materialize (g_tenant g) (g_ctx_id g)
            (set_s_payload
               (dict_set "__gate__"
                  (JObj [("gate_id", JStr (uuid_str (g_id g)));
                         ("results", JArr (map (fun '(i, task, r) =>
                            JObj [("job_id", JStr (uuid_str i)); ("task", JStr task);
                                  ("result", match r with Some d => JObj d | None => JNull end)])
                            (sql_gate_child_results (g_id g) db)));
                         ("expected", JInt (g_expected_children g)); ("succeeded", JInt (b_succeeded b))])
                  (s_payload (g_on_complete g))) (g_on_complete g)))
  else match s_on_failure (g_on_complete g) with
       | Some f => Some (set_s_group_key (Some (uuid_str (g_id g)))
                           (JobService.materialize (g_tenant g) (g_ctx_id g) f))
       | None => None
       end.



(** The rows a submission of [sp] adds: none when a live job has its dedup key. *)
Definition started (sp : SubmitSpec) (db : DB) : list Job :=
  match List.find (dedup_conflict sp) (db_jobs db) with
  | Some _ => []
  | None => [inserted_job db (db_uuid_seq db) (repo.stored_spec sp) None]
  end.

Definition counted (cs cf : bool) (gid : uuid) (db : DB) : DB :=
  set_db_gates (update_where (fun x => N.eqb (g_id x) gid) (bumped_gate (db_now db) cs cf) (db_gates db)) db.

Ltac resolution :=
  cbn beta iota delta [repo.gr_resolved repo.gr_satisfied repo.gr_on_complete repo.gr_tenant repo.gr_ctx_id negb].

(** One report on a gate: the row counts the child, and the follow-up is submitted. *)
Lemma settle_run db g cs cf :
  List.NoDup (map g_id (db_gates db)) -> In g (db_gates db) ->
  JobService._settle_gate (Some (g_id g)) cs cf db
  = match follow_up db g (gate_bump cs cf g) with
    | None => (counted cs cf (g_id g) db, Ok (b_resolved (gate_bump cs cf g)))
    | Some sp => let (db', r) := repo.submit sp (counted cs cf (g_id g) db) in
                 (db', match r with Ok _ => Ok true | Raise e => Raise e end)
    end.
Proof.
  intros Hnd Hg. set (b := gate_bump cs cf g).
  destruct (bump_run (g_id g) db g cs cf Hnd Hg eq_refl) as (E & _ & _). fold b in E.
  change (set_db_gates _ _) with (counted cs cf (g_id g) db) in E. set (db1 := counted _ _ _ _) in *.
  etransitivity; [eapply bind_ok, E|]. resolution. unfold follow_up.
  destruct (b_resolved b) eqn:Er; resolution; [|done]. destruct (b_satisfied b) eqn:Es; resolution.
  - etransitivity; [eapply bind_ok; reflexivity|].
    change (repo.gate_child_results (g_id g) db1) with (db1, Ok (sql_gate_child_results (g_id g) db)).
    cbv beta iota. set (sp := JobService.materialize _ _ _). unfold mbind, M_bind, M_bind_def.
    change (JobService.materialize _ _ (JobService._merge_gate_manifest _ _ _ _)) with sp.
    by destruct (repo.submit sp db1) as [d [r|e]].
  - destruct (s_on_failure (g_on_complete g)) as [f|]; [|done]. set (sp := set_s_group_key _ _).
    unfold mbind, M_bind, M_bind_def. by destruct (repo.submit sp db1) as [d [r|e]].
Qed.

Lemma submit_started sp db :
  repo._submit_args sp <> None ->
  exists db' r, repo.submit sp db = (db', Ok r) /\ db_jobs db' = db_jobs db ++ started sp db
    /\ db_gates db' = db_gates db.
Proof.
  intros Ha. unfold started. destruct (List.find _ _) as [j|] eqn:E.
  - exists db, (c_id j, true). rewrite app_nil_r. by rewrite (submit_duplicate sp db j Ha E).
  - eexists _, _. rewrite submit_new; [done | done |]. intros j Hj. by eapply find_none in E.
Qed.

(** A report of a child on its gate, with the transaction's databases before
    and after it and its answer: did it resolve the gate. *)
Record report := mkReport {
  rp_before : DB; rp_succeeded : bool; rp_failed : bool; rp_resolved : bool; rp_after : DB
}.

(** The reports on a gate, one after the other.  Between two of them anything
    may happen that leaves the gate's row as the earlier one wrote it. *)
Inductive reports : Gate -> list report -> Prop :=
| reports_none g : reports g []
| reports_next g db cs cf r db' g' l :
    wf db -> In g (db_gates db) -> cs && cf = false ->
    JobService._settle_gate (Some (g_id g)) cs cf db = (db', Ok r) ->
    In g' (db_gates db') -> g_id g' = g_id g -> reports g' l ->
    reports g (mkReport db cs cf r db' :: l).

(** What a report did, given the gate's row before it. *)
Definition settled (g : Gate) (p : report) : Prop :=
  let b := gate_bump (rp_succeeded p) (rp_failed p) g in
  rp_resolved p = b_resolved b
  /\ db_gates (rp_after p) = db_gates (counted (rp_succeeded p) (rp_failed p) (g_id g) (rp_before p))
  /\ db_jobs (rp_after p) = db_jobs (rp_before p)
       ++ match follow_up (rp_before p) g b with Some sp => started sp (rp_before p) | None => [] end.

Lemma settle_settled db g cs cf db' r :
  wf db -> In g (db_gates db) -> JobService._settle_gate (Some (g_id g)) cs cf db = (db', Ok r) ->
  settled g (mkReport db cs cf r db').
Proof.
  intros Hwf Hg. rewrite (settle_run db g cs cf (wf_gate_ids _ _ (wf_g _ Hwf)) Hg). unfold settled. simpl rp_before.
  simpl rp_succeeded. simpl rp_failed. simpl rp_after. simpl rp_resolved. set (b := gate_bump cs cf g).
  destruct (follow_up db g b) as [sp|] eqn:Ef.
  2:{ intros [= <- <-]. by rewrite app_nil_r. }
  assert (b_resolved b = true) as -> by (unfold follow_up in Ef; by destruct (b_resolved b)).
  destruct (repo._submit_args sp) eqn:Ha; [|by rewrite submit_refused].
  destruct (submit_started sp (counted cs cf (g_id g) db)) as (d & o & -> & Hj & Hgt); [congruence|].
  intros [= <- <-]. split_and!; [done | done | exact Hj].
Qed.

(** The row the next report finds is the one this report wrote. *)
Lemma settled_row db g cs cf db' r g' :
  wf db -> In g (db_gates db) -> settled g (mkReport db cs cf r db') ->
  In g' (db_gates db') -> g_id g' = g_id g -> g' = bumped_gate (db_now db) cs cf g.
Proof.
  intros Hwf Hg (_ & Hgt & _) Hg' Hid. simpl in Hgt. rewrite Hgt in Hg'.
  apply in_update_where in Hg' as (x & Hx & ->).
  assert (g_id x = g_id g) as E by (destruct (N.eqb (g_id x) (g_id g)); exact Hid).
  rewrite (NoDup_map_inj g_id (db_gates db) x g) by (try exact (wf_gate_ids _ _ (wf_g _ Hwf)); done).
  by rewrite N.eqb_refl.
Qed.

(** Once fired, a gate never resolves again. *)
Lemma reports_fired g l t : reports g l -> g_fired_at g = Some t -> count rp_resolved l = 0%nat.
Proof.
  intros H. revert t. induction H as [|g db cs cf r db' g' l Hwf Hg Hv E Hg' Hid Hl IH]; intros t Ht; [done|].
  pose proof (settle_settled _ _ _ _ _ _ Hwf Hg E) as Hs.
  pose proof (settled_row _ _ _ _ _ _ _ Hwf Hg Hs Hg' Hid) as ->.
  rewrite count_cons. simpl. destruct Hs as (Hr & _). simpl in Hr. rewrite Ht in Hr. subst r.
  rewrite (IH t); [done|]. simpl. by rewrite Ht.
Qed.

Lemma reports_open g l :
  reports g l -> gate_ok g -> g_fired_at g = None ->
  (count rp_resolved l <= 1)%nat
  /\ (g_expected_children g <= g_completed_children g + Z.of_nat (length l) -> count rp_resolved l = 1%nat).
Proof.
  intros H. induction H as [g|g db cs cf r db' g' l Hwf Hg Hv E Hg' Hid Hl IH]; intros Hok Ht.
  { split; [unfold count; simpl; lia|]. simpl. pose proof (gate_open _ Hok Ht). lia. }
  pose proof (settle_settled _ _ _ _ _ _ Hwf Hg E) as Hs.
  pose proof (settled_row _ _ _ _ _ _ _ Hwf Hg Hs Hg' Hid) as ->.
  pose proof (bumped_gate_ok (db_now db) cs cf g Hv Hok) as Hok'.
  destruct Hs as (Hr & _). rewrite count_cons. cbn [rp_resolved rp_succeeded rp_failed] in *. destruct r.
  - rewrite (reports_fired _ l (db_now db) Hl); [lia|]. unfold bumped_gate. by rewrite <- Hr.
  - destruct IH as [Hc Hx]; [done | unfold bumped_gate; by rewrite <- Hr |]. split; [exact Hc|].
    intros Hn. cbn [Nat.add]. apply Hx. simpl in *. lia.
Qed.

Lemma reports_settled g l :
  reports g l ->
  Forall (fun p => exists g1, In g1 (db_gates (rp_before p)) /\ g_id g1 = g_id g /\ settled g1 p) l.
Proof.
  induction 1 as [|g db cs cf r db' g' l Hwf Hg Hv E Hg' Hid Hl IH]; constructor.
  - exists g. split; [exact Hg|]. split; [done|]. by apply settle_settled.
  - rewrite <- Hid. exact IH.
Qed.

(** C10. A gate's continuation is submitted exactly once.  Take the reports of
    the children on an open gate, in any order and with any outcomes, with
    anything in between that leaves the gate's row alone.  At most one of them
    resolves the gate, and once as many children as expected have reported,
    exactly one has.  The report that resolves it adds, in its own
    transaction, the job the policy calls for and no other row: the continuation
    with the manifest of the gate when the policy is satisfied, else the
    failure job of the continuation if it has one (none is added when a live job
    has the spec's dedup key); every other report adds no row.  A report
    fails only if the job it has to start cannot be encoded, with DataError. *)
Theorem gate_fires_exactly_once db g l :
  wf db -> In g (db_gates db) -> g_fired_at g = None -> reports g l ->
  (count rp_resolved l <= 1)%nat
  /\ (g_expected_children g <= g_completed_children g + Z.of_nat (length l) -> count rp_resolved l = 1%nat)
  /\ Forall (fun p => exists g1, In g1 (db_gates (rp_before p)) /\ g_id g1 = g_id g /\ settled g1 p) l
  /\ (forall cs cf, (exists db' r, JobService._settle_gate (Some (g_id g)) cs cf db = (db', Ok r))
       \/ exists sp db', follow_up db g (gate_bump cs cf g) = Some sp /\ repo._submit_args sp = None
           /\ JobService._settle_gate (Some (g_id g)) cs cf db = (db', Raise DataError)).
Proof.
  intros Hwf Hg Ht Hl. pose proof (wf_g _ Hwf) as [Hok Hnd _]. rewrite Forall_forall in Hok.
  destruct (reports_open g l Hl (Hok g Hg) Ht) as [H1 H2].
  split_and!; [exact H1 | exact H2 | by apply reports_settled |].
  intros cs cf. rewrite (settle_run db g cs cf Hnd Hg).
  destruct (follow_up db g _) as [sp|]; [|left; by eexists _, _].
  destruct (repo._submit_args sp) eqn:Ha.
  - left. destruct (submit_started sp (counted cs cf (g_id g) db)) as (d & o & -> & _); [congruence|].
    by eexists _, _.
  - right. exists sp. rewrite submit_refused by done. eexists. eauto.
Qed.

(** The only child of a fan-out of one reports its success; a stray second report starts nothing. *)
Lemma gate_fires_exactly_once_witness :
  exists g l, In g (db_gates (w_db gate0)) /\ map rp_resolved l = [true; false]
    /\ reports g l /\ count rp_resolved l = 1%nat.
Proof.
  set (db0 := w_db gate0).
  destruct (db_gates db0) as [|g rest] eqn:E; [vm_compute in E; discriminate|].
  assert (Hh : head (db_gates db0) = Some g) by (rewrite E; reflexivity).
  assert (Hg : In g (db_gates db0)) by (rewrite E; left; reflexivity).
  pose proof (reachable_wf_db gate0 gate0_reachable) as Hwf.
  vm_compute in Hh. injection Hh as <-. set (g := mkGate _ _ _ _ _ _ _ _ _ _ _ _) in *.
  set (db1 := fst (JobService._settle_gate (Some (g_id g)) true false db0)).
  set (db2 := fst (JobService._settle_gate (Some (g_id g)) false true db1)).
  assert (Hl : reports g [mkReport db0 true false true db1; mkReport db1 false true false db2]).
  { eapply (reports_next g db0 true false true db1 (bumped_gate (db_now db0) true false g)).
    - exact Hwf.
    - exact Hg.
    - reflexivity.
    - vm_compute. reflexivity.
    - left. vm_compute. reflexivity.
    - reflexivity.
    - eapply (reports_next _ db1 false true false db2
                (bumped_gate (db_now db1) false true (bumped_gate (db_now db0) true false g))).
      + exact (proj1 (stable_settle_gate (Some (g_id g)) true false eq_refl db0 Hwf)).
      + left. vm_compute. reflexivity.
      + reflexivity.
      + vm_compute. reflexivity.
      + left. vm_compute. reflexivity.
      + reflexivity.
      + constructor. }
  destruct (gate_fires_exactly_once db0 g _ Hwf Hg eq_refl Hl) as (_ & H & _).
  eexists g, _. split; [left; reflexivity|]. split; [|split; [exact Hl|]]; [reflexivity|].
  apply H. vm_compute. discriminate.
Defined.

(** The service accepts quorum policies the core rejects: for every
    n <= 0 core/gates.py raises on quorum(n), while the service stores the
    gate, and that gate is satisfied by the first report of any child, a
    failed one included. *)
Theorem nonpositive_quorum_accepted policy n :
  FanOutService._quorum_n policy = Some (Some n) -> n <= 0 ->
  (forall p, is_satisfied policy p = None)
  /\ (forall g cs cf, gate_ok g -> g_fired_at g = None -> g_policy g = policy -> g_quorum_n g = Some n ->
        b_satisfied (gate_bump cs cf g) = true /\ b_resolved (gate_bump cs cf g) = true).
Proof.
  intros Hq Hn. unfold FanOutService._quorum_n in Hq.
  destruct (String.eqb policy "all_success") eqn:E1; [done|].
  destruct (String.eqb policy "all_terminal") eqn:E2; [done|]. simpl in Hq.
  destruct (quorum_text policy) as [t|] eqn:Et; [|done]. destruct (py_int t) as [m|] eqn:Em; [|done].
  injection Hq as ->. split.
  - intros p. unfold is_satisfied. rewrite E1, E2, Et. simpl. rewrite Em. simpl. unfold quorum.
    destruct (Z.leb_spec n 0); [done | lia].
  - intros g cs cf [He Hs _ _ _ _] Hf <- Hqn.
    assert (b_satisfied (gate_bump cs cf g) = true) as Hb.
    { simpl. unfold gate_decision. rewrite E1, E2, Hqn. simpl. apply Z.leb_le. destruct cs; lia. }
    split; [exact Hb|]. simpl in *. rewrite Hf, Hb. reflexivity.
Qed.

Lemma nonpositive_quorum_accepted_witness :
  FanOutService._quorum_n "quorum(0)" = Some (Some 0)
  /\ (forall p, is_satisfied "quorum(0)" p = None).
Proof.
  assert (H : FanOutService._quorum_n "quorum(0)" = Some (Some 0)) by (vm_compute; reflexivity).
  split; [exact H|]. exact (proj1 (nonpositive_quorum_accepted "quorum(0)" 0 H (Z.le_refl 0))).
Defined.
