(* ===== verification/ClaimProps.v ===== *)
(** * Claiming: what one dispatcher claim may and may not take

    Theorems about [repo.claim] (prepare_group_counters.sql, then claim.sql, in
    one transaction), for any lock situation, tags, exhausted classes, limit,
    fairness window and quotas. *)

From S2P Require Import Prelude PyStr Errors States Json Records Database Queries Tables Claim.
From S2P Require Import Invariant Steps ClaimFacts Repository RepoFacts World SubmitService Engine.
From S2P Require Import Exec Lifecycle.
Open Scope string_scope.
Open Scope Z_scope.
Open Scope list_scope.

Lemma NoDup_sel_map {A B} (f : A -> B) p l : List.NoDup (map f l) -> List.NoDup (map f (List.filter p l)).
Proof.
  induction l as [|x l IH]; simpl; [done|]. intros [Hx Hl]%NoDup_cons_iff. destruct (p x); simpl; [|by apply IH].
  constructor; [|by apply IH]. intros (y & Ey & [Hy _]%in_sel)%in_map_iff.
  apply Hx. rewrite <- Ey. by apply in_map.
Qed.

Section Claim.
Context (lk : locks) (tags exhausted : list string) (lim : Z) (by_ : string) (cap : Z)
        (quotas : gmap string Z).

Abbreviation claim := (repo.claim lk tags exhausted lim by_ cap quotas).

(** The database after the first statement. *)
Definition prepared (db : DB) : DB := fst (sql_prepare_group_counters tags exhausted lim quotas db).

Definition cands (db : DB) : list Job := candidate lk tags exhausted lim cap quotas (prepared db).

Lemma prepared_counters db k :
  default 0 (db_group_running (prepared db) !! k) = default 0 (db_group_running db !! k).
Proof.
  unfold prepared. simpl. induction (missing_groups _ _ _ _ db) as [|g l IH]; simpl; [done|].
  destruct (foldr _ _ l !! gr_key g) eqn:E; [done|]. destruct (decide (gr_key g = k)) as [<-|Hne].
  - rewrite lookup_insert_eq. rewrite E in IH. simpl in *. done.
  - by rewrite lookup_insert_ne.
Qed.

Lemma prepared_wf db : wf db -> wf (prepared db).
Proof. intros Hwf. by apply (keeps_prepare tags exhausted lim quotas db). Qed.

Definition taken (db : DB) : list Job := sel (in_ids (cands db)) (db_jobs db).

Lemma taken_spec db j : wf db -> In j (taken db) <-> In j (cands db).
Proof.
  intros Hwf%prepared_wf. unfold taken. rewrite in_sel. split.
  - intros [Hj Hin]. by apply (in_ids_candidate lk tags exhausted lim cap quotas (prepared db)).
  - intros Hc. pose proof (candidate_spec lk tags exhausted lim cap quotas (prepared db) Hwf j Hc) as [Hj _].
    split; [done|]. unfold in_ids. apply existsb_exists. exists j. by rewrite N.eqb_refl.
Qed.

Lemma taken_NoDup db : wf db -> List.NoDup (taken db).
Proof. intros Hwf. apply sel_NoDup. by apply (jobs_NoDup db). Qed.

Lemma taken_perm db : wf db -> Permutation (taken db) (cands db).
Proof.
  intros Hwf. apply NoDup_Permutation.
  - by apply NoDup_ListNoDup, taken_NoDup.
  - apply NoDup_ListNoDup, candidate_NoDup. by apply prepared_wf.
  - intros j. rewrite !list_elem_of_In. by apply taken_spec.
Qed.

Definition leased (db : DB) (j : Job) : Job := claimed_row by_ (prepared db) (cands db) j.

(** A claim returns, or raises and leaves the database as it was. *)
Lemma claim_run db :
  claim db =
  match claim_error (cands db) with
  | Some e => (db, Raise e)
  | None =>
      (set_db_group_running (bump_counters (omap (fun j : Job => capped_group j) (map (leased db) (taken db)))
                               (db_group_running (prepared db)))
         (set_db_uuid_seq (db_uuid_seq db + N.of_nat (length (cands db)))%N
            (set_db_jobs (update_where (in_ids (cands db)) (leased db) (db_jobs db)) db)),
       Ok (map repo._to_claimed
             (map (fun j : Job => (j, match db_checkpoints db !! c_id j with
                                      | Some c => Some (ck_data c)
                                      | None => None
                                      end)) (map (leased db) (taken db)))))
  end.
Proof.
  unfold repo.claim, transaction. run. unfold sql_claim. fold (prepared db) (cands db).
  change (sql_prepare_group_counters tags exhausted lim quotas db) with (prepared db, tt). cbv beta iota.
  unfold sql_claim. fold (cands db). destruct (claim_error (cands db)) as [e|].
  - f_equal. by destruct db.
  - reflexivity.
Qed.

Lemma claim_ok db db' cs :
  claim db = (db', Ok cs) ->
  claim_error (cands db) = None
  /\ db_jobs db' = update_where (in_ids (cands db)) (leased db) (db_jobs db)
  /\ db_group_running db' = bump_counters (omap (fun j : Job => capped_group j) (map (leased db) (taken db)))
                              (db_group_running (prepared db))
  /\ map (fun c => (repo.cj_id c, repo.cj_lease_token c, repo.cj_attempt c, repo.cj_raw c)) cs
     = map (fun j : Job => (c_id j, j_lease_token (leased db j), j_attempt j + 1, leased db j)) (taken db).
Proof.
  rewrite claim_run. destruct (claim_error (cands db)); [done|]. intros [= <- <-].
  split_and!; [done..|]. rewrite !map_map. reflexivity.
Qed.

Lemma claim_ids db db' cs : claim db = (db', Ok cs) -> map repo.cj_id cs = map job_id (taken db).
Proof.
  intros (_ & _ & _ & E)%claim_ok. apply (f_equal (map (fun x => fst (fst (fst x))))) in E.
  by rewrite !map_map in E.
Qed.

Lemma claim_raws db db' cs : claim db = (db', Ok cs) -> map repo.cj_raw cs = map (leased db) (taken db).
Proof.
  intros (_ & _ & _ & E)%claim_ok. apply (f_equal (map snd)) in E. by rewrite !map_map in E.
Qed.

(** The row behind a claimed job. *)
Lemma claim_source db db' cs c : claim db = (db', Ok cs) -> In c cs ->
  exists k, In k (taken db) /\ repo.cj_priority c = c_priority k /\ j_run_at (repo.cj_raw c) = j_run_at k.
Proof.
  rewrite claim_run. destruct (claim_error (cands db)); [done|]. intros [= _ <-] Hin.
  rewrite !map_map in Hin. apply in_map_iff in Hin as (k & <- & Hk). by exists k.
Qed.

Lemma leased_in_ids db j : wf db -> In j (taken db) -> in_ids (cands db) j = true.
Proof. intros Hwf Hj. unfold taken in Hj. by apply in_sel in Hj as [_ ?]. Qed.

(** What a claimed job was and is. *)
Record rightly_claimed (db db' : DB) (c : repo.ClaimedJob) (j : Job) : Prop := mkRightly {
  rc_row : In j (db_jobs db);
  rc_id : repo.cj_id c = c_id j;
  rc_queued : j_state j = QUEUED;
  rc_due : j_run_at j <= db_now db;
  rc_tags : forall t, In t (c_runs_on j) -> In t tags;
  rc_open : forall rc, c_rate_class j = Some rc -> ~ In rc exhausted;
  rc_unlocked : locked_job lk (c_id j) = false;
  rc_attempt : repo.cj_attempt c = j_attempt j + 1;
  rc_lease : exists tok k, repo.cj_lease_token c = Some tok /\ (db_uuid_seq db <= tok)%N
    /\ In k (db_jobs db') /\ lease_guard (c_id j) tok k = true /\ j_cols k = j_cols j
    /\ j_lease_expires_at k = Some (db_now db + secs (c_lease_ttl_s j))
}.

Lemma taken_claimed db db' cs c :
  wf db -> claim db = (db', Ok cs) -> In c cs -> exists j, In j (taken db) /\ rightly_claimed db db' c j.
Proof.
  intros Hwf Hc Hin. apply claim_ok in Hc as (_ & Ej & _ & E).
  apply (in_map (fun c => (repo.cj_id c, repo.cj_lease_token c, repo.cj_attempt c, repo.cj_raw c))) in Hin.
  rewrite E in Hin. apply in_map_iff in Hin as (j & Hj & Ht). exists j. split; [done|].
  pose proof (leased_in_ids db j Hwf Ht) as Hids.
  pose proof Ht as Hcand. rewrite taken_spec in Hcand by done.
  apply candidate_spec in Hcand as (Hjob & Hr & Hu); [|by apply prepared_wf].
  apply ready_spec in Hr as (Hq & Hd & Htags & Hrc). injection Hj as E1 E2 E3 E4.
  split; try done.
  - unfold unlocked in Hu. by bool_prop.
  - eexists _, (leased db j). rewrite <- E2. split; [reflexivity|]. split; [lia|]. split_and!; try done.
    + rewrite Ej. apply in_update_where. exists j. by rewrite Hids.
    + unfold lease_guard. simpl. rewrite N.eqb_refl. unfold opt_N_eqb. by rewrite bool_decide_true.
Qed.

Lemma claimed_distinct db db' cs : wf db -> claim db = (db', Ok cs) -> List.NoDup (map repo.cj_id cs).
Proof. intros Hwf Hc. rewrite (claim_ids _ _ _ Hc). apply (NoDup_sel_map job_id). by apply wf_job_ids. Qed.

(** No two claimed jobs share a lease. *)
Lemma claimed_leases db db' cs c1 c2 :
  wf db -> claim db = (db', Ok cs) -> In c1 cs -> In c2 cs ->
  repo.cj_lease_token c1 = repo.cj_lease_token c2 -> repo.cj_id c1 = repo.cj_id c2.
Proof.
  intros Hwf Hc H1 H2 E.
  destruct (taken_claimed db db' cs c1 Hwf Hc H1) as (j1 & T1 & [? I1 _ _ _ _ _ _ (t1 & k1 & L1 & _ & K1 & G1 & _ & _)]).
  destruct (taken_claimed db db' cs c2 Hwf Hc H2) as (j2 & T2 & [? I2 _ _ _ _ _ _ (t2 & k2 & L2 & _ & K2 & G2 & _ & _)]).
  rewrite L1, L2 in E. injection E as <-. rewrite I1, I2.
  pose proof (stable_claim lk tags exhausted lim by_ cap quotas db Hwf) as [Hwf' _]. rewrite Hc in Hwf'.
  apply lease_guard_spec in G1 as (<- & G1 & _). apply lease_guard_spec in G2 as (<- & G2 & _).
  destruct (wf_j _ Hwf') as [_ _ _ _ Ht _ _].
  by rewrite (omap_NoDup_inj _ _ k1 k2 t1 Ht K1 K2 G1 G2).
Qed.

(** C23. A claim takes only what may be taken, and gives each taken job a
    lease of its own.  It returns at most the requested number of jobs, all
    different; each was queued, due, runnable on the worker's tags, of no
    exhausted rate class and not locked by another claimer; each is now running
    under a lease token drawn after every existing one, no two alike, with one
    attempt more and the lease time of its spec; every other row is as before. *)
Theorem claim_takes_ready_jobs db db' cs :
  wf db -> claim db = (db', Ok cs) ->
  Z.of_nat (length cs) <= Z.max 0 lim
  /\ List.NoDup (map repo.cj_id cs)
  /\ (forall c, In c cs -> exists j, rightly_claimed db db' c j)
  /\ (forall c1 c2, In c1 cs -> In c2 cs -> repo.cj_lease_token c1 = repo.cj_lease_token c2 ->
        repo.cj_id c1 = repo.cj_id c2)
  /\ (forall j, In j (db_jobs db) -> ~ In (c_id j) (map repo.cj_id cs) -> In j (db_jobs db')).
Proof.
  intros Hwf Hc. pose proof (claim_ids _ _ _ Hc) as Eid. split_and!.
  - rewrite <- (length_map repo.cj_id cs), Eid, length_map, (taken_perm db Hwf).
    apply candidate_length.
  - by eapply claimed_distinct.
  - intros c Hin. destruct (taken_claimed db db' cs c Hwf Hc Hin) as (j & _ & H). eauto.
  - intros c1 c2. by apply (claimed_leases db db' cs).
  - intros j Hj Hn. apply claim_ok in Hc as (_ & -> & _ & _). apply in_update_where. exists j.
    split; [done|]. destruct (in_ids (cands db) j) eqn:Ei; [|done]. exfalso. apply Hn. rewrite Eid.
    apply (in_map job_id). unfold taken. by apply in_sel.
Qed.

(** A row stays as it is, or it was queued. *)
Lemma claim_takes_rest db db' cs j :
  wf db -> claim db = (db', Ok cs) -> In j (db_jobs db) -> In j (db_jobs db') \/ j_state j = QUEUED.
Proof.
  intros Hwf Hc Hj. pose proof (claim_ids _ _ _ Hc) as Eid.
  apply claim_ok in Hc as (_ & -> & _ & _). destruct (in_ids (cands db) j) eqn:Ei.
  - right. assert (In j (taken db)) as Ht by (unfold taken; by apply in_sel).
    rewrite taken_spec in Ht by done. apply candidate_spec in Ht as (_ & Hr & _); [|by apply prepared_wf].
    by apply ready_spec in Hr as (Hq & _).
  - left. apply in_update_where. exists j. by rewrite Ei.
Qed.
End Claim.

(** ** Work conservation *)

(** A row the [LIMIT] cut off: the page is full, and of rows before it. *)
Lemma limit_rest {A} (le : A -> A -> bool) n l x :
  (forall a b, le a b = true \/ le b a = true) ->
  (forall a b c, le a b = true -> le b c = true -> le a c = true) ->
  In x l -> ~ In x (limit n (order_by le l)) ->
  length (limit n (order_by le l)) = Z.to_nat n /\ forall y, In y (limit n (order_by le l)) -> le y x = true.
Proof.
  intros Htot Htr Hx Hn. unfold limit in *. rewrite <- (order_by_In le) in Hx.
  pose proof (order_by_sorted le Htot Htr l) as Hs.
  rewrite <- (take_drop (Z.to_nat n) (order_by le l)) in Hx, Hs. apply in_app_or in Hx as [Hx|Hx]; [done|]. split.
  - assert (length (drop (Z.to_nat n) (order_by le l)) <> 0)%nat as Hd by (by destruct (drop _ _)).
    rewrite length_drop in Hd. rewrite length_take. lia.
  - intros y Hy. eapply (StronglySorted_app_1_elem_of (fun a b => le a b = true)); [exact Hs | |]; by apply list_elem_of_In.
Qed.

Lemma claim_le_total a b : claim_le a b = true \/ claim_le b a = true.
Proof. unfold claim_le. lia. Qed.

Lemma claim_le_trans a b c : claim_le a b = true -> claim_le b c = true -> claim_le a c = true.
Proof. unfold claim_le. lia. Qed.

(** A ready row with no group and no rate class that is left out. *)
Lemma candidate_conserves lk tags exhausted lim cap quotas db j :
  wf db -> In j (db_jobs db) -> ready tags exhausted db j = true -> c_group_key j = None -> c_rate_class j = None ->
  unlocked lk j = true ->
  ~ In j (candidate lk tags exhausted lim cap quotas db) ->
  length (candidate lk tags exhausted lim cap quotas db) = Z.to_nat lim
  /\ forall k, In k (candidate lk tags exhausted lim cap quotas db) -> claim_le k j = true.
Proof.
  intros Hwf Hj Hr Hg Hc Hu Hn. set (cand := candidate _ _ _ _ _ _ db) in *.
  assert (List.NoDup cand) as Hnd by (by apply candidate_NoDup).
  assert (forall u, In u (db_jobs db) -> in_ids cand u = true -> In u cand) as Hids.
  { intros u Hdb Hid. by apply (in_ids_candidate lk tags exhausted lim cap quotas db u Hwf). }
  set (uu := ungrouped_unlimited lk tags exhausted lim quotas db).
  assert (forall u, In u uu -> In u (db_jobs db)) as Hsub by (intros u Hin; by apply unlimited_spec in Hin as [? _]).
  assert (forall u, In u uu -> ~ In u cand ->
            length cand = Z.to_nat lim /\ forall k, In k cand -> claim_le k u = true) as Hrest.
  { intros u Hu1 Hu2. apply limit_rest; auto using claim_le_total. { eauto using claim_le_trans. }
    apply in_or_app. by left. }
  destruct (in_ids uu j) eqn:Ej.
  { apply Hrest; [|done]. eapply in_ids_sub; [| by apply wf_job_ids | done | done]. exact Hsub. }
  assert (~ In j uu) as Hni.
  { intros Hin. apply not_true_iff_false in Ej. apply Ej, existsb_exists. exists j. by rewrite N.eqb_refl. }
  apply limit_rest in Hni as [Hlen Hle]; [| apply claim_le_total | eauto using claim_le_trans |].
  2: { apply in_sel. split; [done|]. unfold is_grouped. by rewrite Hr, Hg, Hc, Hu. }
  change (length uu = Z.to_nat lim) in Hlen. change (forall y, In y uu -> claim_le y j = true) in Hle.
  destruct (existsb (fun u => negb (in_ids cand u)) uu) eqn:Ef.
  - apply existsb_exists in Ef as (u & Hin & Eu%negb_true_iff). destruct (Hrest u Hin) as [Hl Hk].
    { intros Hc'. apply not_true_iff_false in Eu. apply Eu, existsb_exists. exists u. by rewrite N.eqb_refl. }
    split; [done|]. intros k Hk'. eapply claim_le_trans; [by apply Hk | by apply Hle].
  - assert (incl uu cand) as Hincl.
    { intros u Hin. apply Hids; [by apply Hsub|]. destruct (in_ids cand u) eqn:E; [done|]. exfalso.
      apply not_true_iff_false in Ef. apply Ef, existsb_exists. exists u. by rewrite E. }
    assert (List.NoDup uu) as Hnu by (apply limit_NoDup, order_by_NoDup, sel_NoDup; by apply jobs_NoDup).
    pose proof (candidate_length lk tags exhausted lim cap quotas db) as Hmax. fold cand in Hmax.
    pose proof (NoDup_incl_length Hnu Hincl) as Hmin.
    assert (length cand = Z.to_nat lim) as E by lia. split; [exact E|]. intros k Hk. apply Hle.
    assert (incl cand uu) as Hback by (apply NoDup_length_incl; [done | lia | done]). by apply Hback.
Qed.

(** A claim is work conserving and takes the best first: a queued, due job that
    runs on the worker's tags, with no group and no rate class, not locked by
    another claimer, is either taken, or the claim is full, and everything it took
    instead has a higher priority, or the same and an earlier or equal run_at. *)
Theorem claim_work_conserving lk tags exhausted lim by_ cap quotas db db' cs j :
  wf db -> 0 <= lim -> repo.claim lk tags exhausted lim by_ cap quotas db = (db', Ok cs) ->
  In j (db_jobs db) -> j_state j = QUEUED -> j_run_at j <= db_now db -> subset (c_runs_on j) tags = true ->
  c_group_key j = None -> c_rate_class j = None -> locked_job lk (c_id j) = false ->
  In (c_id j) (map repo.cj_id cs)
  \/ Z.of_nat (length cs) = lim
     /\ forall c, In c cs -> c_priority j < repo.cj_priority c
          \/ repo.cj_priority c = c_priority j /\ j_run_at (repo.cj_raw c) <= j_run_at j.
Proof.
  intros Hwf Hlim Hc Hj Hq Hrun Htags Hg Hrc Hlk. pose proof (claim_ids _ _ _ _ _ _ _ _ _ _ Hc) as Eid.
  pose proof (prepared_wf tags exhausted lim quotas db Hwf) as Hwf'.
  destruct (in_ids (cands lk tags exhausted lim cap quotas db) j) eqn:Ei.
  { left. rewrite Eid. apply (in_map job_id). unfold taken. by apply in_sel. }
  right. assert (~ In j (cands lk tags exhausted lim cap quotas db)) as Hn.
  { intros Hin. apply not_true_iff_false in Ei. apply Ei, existsb_exists. exists j. by rewrite N.eqb_refl. }
  apply candidate_conserves in Hn as [Hlen Hle]; try done.
  - fold (cands lk tags exhausted lim cap quotas db) in Hlen, Hle.
    assert (length cs = length (cands lk tags exhausted lim cap quotas db)) as El
      by (rewrite <- (length_map repo.cj_id), Eid, length_map; by rewrite (taken_perm _ _ _ _ _ _ _ Hwf)).
    split; [lia|]. intros c Hin. destruct (claim_source _ _ _ _ _ _ _ _ _ _ c Hc Hin) as (k & Hk & Ep & Er).
    rewrite taken_spec in Hk by done. specialize (Hle k Hk). unfold claim_le in Hle. rewrite Ep, Er. lia.
  - unfold ready, not_exhausted. rewrite Hq, Htags, Hrc. simpl. destruct exhausted; lia.
  - unfold unlocked. by rewrite Hlk.
Qed.

Lemma world2_wf : wf (w_db world2).
Proof. apply reachable_wf_db, world2_reachable. Qed.

Lemma claim_takes_ready_jobs_witness :
  exists db' cs, repo.claim no_locks [] [] 1 "engine" 100 ∅ (w_db world2) = (db', Ok cs)
    /\ length cs = 1%nat /\ forall c, In c cs -> exists j, rightly_claimed no_locks [] [] (w_db world2) db' c j.
Proof.
  destruct (repo.claim no_locks [] [] 1 "engine" 100 ∅ (w_db world2)) as [db' [cs|e]] eqn:E;
    [|vm_compute in E; discriminate].
  exists db', cs. split; [reflexivity|]. split.
  - vm_compute in E. injection E as <- <-. reflexivity.
  - exact (proj1 (proj2 (proj2 (claim_takes_ready_jobs no_locks [] [] 1 "engine" 100 ∅ _ _ _ world2_wf E)))).
Defined.

Lemma claim_work_conserving_witness :
  exists db' cs, repo.claim no_locks [] [] 0 "engine" 100 ∅ (w_db world2) = (db', Ok cs)
    /\ Z.of_nat (length cs) = 0.
Proof.
  destruct (repo.claim no_locks [] [] 0 "engine" 100 ∅ (w_db world2)) as [db' [cs|e]] eqn:E;
    [|vm_compute in E; discriminate].
  exists db', cs. split; [reflexivity|].
  destruct (db_jobs (w_db world2)) as [|j l] eqn:Ej; [vm_compute in Ej; discriminate|].
  assert (In j (db_jobs (w_db world2))) as Hj by (rewrite Ej; by left).
  vm_compute in Ej. injection Ej as <- <-.
  destruct (claim_work_conserving no_locks [] [] 0 "engine" 100 ∅ _ _ _ _ world2_wf ltac:(lia) E Hj eq_refl ltac:(by vm_compute)
              eq_refl eq_refl eq_refl eq_refl) as [H|[H _]]; [|exact H].
  vm_compute in E. injection E as _ <-. destruct H.
Defined.

(** No double dispatch: jobs taken by one claim are not taken again by
    the next, whatever the second claimer's tags, limits and locks. *)
Theorem claims_disjoint lk1 tags1 ex1 lim1 by1 cap1 q1 lk2 tags2 ex2 lim2 by2 cap2 q2 db db1 db2 cs1 cs2 :
  wf db -> repo.claim lk1 tags1 ex1 lim1 by1 cap1 q1 db = (db1, Ok cs1) ->
  repo.claim lk2 tags2 ex2 lim2 by2 cap2 q2 db1 = (db2, Ok cs2) ->
  forall c1 c2, In c1 cs1 -> In c2 cs2 -> repo.cj_id c1 <> repo.cj_id c2.
Proof.
  intros Hwf H1 H2 c1 c2 Hc1 Hc2 E.
  pose proof (stable_claim lk1 tags1 ex1 lim1 by1 cap1 q1 db Hwf) as [Hwf1 _]. rewrite H1 in Hwf1.
  destruct (taken_claimed _ _ _ _ _ _ _ _ _ _ _ Hwf H1 Hc1) as (j1 & _ & [? I1 _ _ _ _ _ _ (t1 & k1 & _ & _ & K1 & G1 & _ & _)]).
  destruct (taken_claimed _ _ _ _ _ _ _ _ _ _ _ Hwf1 H2 Hc2) as (j2 & _ & [K2 I2 Q2 _ _ _ _ _ _]).
  apply lease_guard_spec in G1 as (G1 & _ & Gs).
  assert (k1 = j2) as ->; [|congruence]. apply (NoDup_map_inj job_id (db_jobs db1)); try done.
  - by apply wf_job_ids.
  - unfold job_id. congruence.
Qed.

Lemma claims_disjoint_witness :
  exists db1 cs1 db2 cs2, repo.claim no_locks [] [] 1 "a" 100 ∅ (w_db world2) = (db1, Ok cs1)
    /\ repo.claim no_locks [] [] 1 "b" 100 ∅ db1 = (db2, Ok cs2)
    /\ forall c1 c2, In c1 cs1 -> In c2 cs2 -> repo.cj_id c1 <> repo.cj_id c2.
Proof.
  destruct (repo.claim no_locks [] [] 1 "a" 100 ∅ (w_db world2)) as [db1 [cs1|e]] eqn:E1;
    [|vm_compute in E1; discriminate].
  destruct (repo.claim no_locks [] [] 1 "b" 100 ∅ db1) as [db2 [cs2|e]] eqn:E2;
    [|vm_compute in E1; injection E1 as <- <-; vm_compute in E2; discriminate].
  exists db1, cs1, db2, cs2. split; [reflexivity|]. split; [exact E2|].
  exact (claims_disjoint _ _ _ _ _ _ _ _ _ _ _ _ _ _ _ _ _ _ _ world2_wf E1 E2).
Defined.

(** ** Ceilings, quotas and fairness *)

Lemma count_update {A} (P Q p : A -> bool) f l :
  (forall x, In x l -> p x = true -> P x = false /\ P (f x) = Q x) ->
  count P (update_where p f l) = (count P l + count Q (List.filter p l))%nat.
Proof.
  intros H. induction l as [|x l IH]; [done|].
  change (update_where p f (x :: l)) with ((if p x then f x else x) :: update_where p f l).
  rewrite !count_cons, IH by (intros y Hy; apply H; by right). simpl.
  destruct (p x) eqn:E; [|lia]. destruct (H x (or_introl eq_refl) E) as [-> ->]. rewrite count_cons. lia.
Qed.

Lemma count_map {A B} (P : B -> bool) (f : A -> B) l : count P (map f l) = count (fun x => P (f x)) l.
Proof. induction l as [|x l IH]; [done|]. simpl. by rewrite !count_cons, IH. Qed.

Lemma count_omap (k : gkey) (l : list Job) (f : Job -> Job) :
  (forall j, capped_group (f j) = capped_group j) ->
  count (fun k' => bool_decide (k' = k)) (omap (fun j : Job => capped_group j) (map f l))
  = count (fun j : Job => bool_decide (capped_group j = Some k)) l.
Proof.
  intros Hf. induction l as [|j l IH]; [done|]. simpl map. rewrite omap_cons, count_cons, Hf.
  destruct (capped_group j) as [k'|]; [|done]. rewrite count_cons, IH. f_equal.
  destruct (decide (k' = k)) as [->|Hne].
  - by rewrite !bool_decide_eq_true_2.
  - rewrite !bool_decide_eq_false_2; [done | congruence | done].
Qed.

Section Bounds.
Context (lk : locks) (tags exhausted : list string) (lim : Z) (by_ : string) (cap : Z)
        (quotas : gmap string Z).

Abbreviation claim := (repo.claim lk tags exhausted lim by_ cap quotas).

Definition counter (db : DB) (k : gkey) : Z := default 0 (db_group_running db !! k).

(** C11. The concurrency ceiling of a group holds across a claim.  For a group
    [k] whose live jobs allow at most [C] at a time: the claim starts at most
    C - counter of them, counts every one it starts, and so a counter that
    covers the running jobs before covers them after and never passes C. *)
Theorem claim_respects_ceiling db db' cs k C :
  wf db -> claim db = (db', Ok cs) ->
  (forall j : Job, In j (db_jobs db) -> capped_group j = Some k ->
     default 0 (c_max_concurrent_per_group j) <= C) ->
  let n := Z.of_nat (count (fun c => bool_decide (capped_group (repo.cj_raw c) = Some k)) cs) in
  n <= Z.max 0 (C - counter db k)
  /\ counter db' k = counter db k + n
  /\ actual_running db' k = actual_running db k + n
  /\ (actual_running db k <= counter db k <= C -> actual_running db' k <= counter db' k <= C).
Proof.
  intros Hwf Hc HC n. pose proof (prepared_wf tags exhausted lim quotas db Hwf) as Hwfp.
  set (P := fun j : Job => bool_decide (capped_group j = Some k)).
  assert (n = Z.of_nat (count P (taken lk tags exhausted lim cap quotas db))) as En.
  { unfold n. apply (f_equal Z.of_nat). transitivity (count P (map repo.cj_raw cs)); [by rewrite count_map|].
    rewrite (claim_raws _ _ _ _ _ _ _ _ _ _ Hc), count_map. reflexivity. }
  pose proof (candidate_ceiling lk tags exhausted lim cap quotas (prepared tags exhausted lim quotas db) Hwfp k C HC) as Hb.
  rewrite prepared_counters in Hb. fold (cands lk tags exhausted lim cap quotas db) in Hb.
  rewrite <- (count_perm _ _ _ (taken_perm lk tags exhausted lim cap quotas db Hwf)) in Hb.
  fold P in Hb. rewrite <- En in Hb. fold (counter db k) in Hb.
  apply claim_ok in Hc as (_ & Ej & Eg & _).
  assert (counter db' k = counter db k + n) as Ec.
  { unfold counter. rewrite Eg, bump_counters_lookup, prepared_counters, En. by rewrite count_omap. }
  assert (actual_running db' k = actual_running db k + n) as Ea.
  { unfold actual_running. rewrite Ej, En, <- Nat2Z.inj_add. apply (f_equal Z.of_nat), count_update.
    intros j Hj Hin. apply in_ids_candidate in Hin; [|done|done].
    apply candidate_queued in Hin; [|done]. rewrite Hin. by split. }
  split_and!; [done..|]. lia.
Qed.

(** C18. Quotas and fairness of a claim that returns, on any well-formed database and
    whatever rows other claimers have locked: with rate quotas given, the batch
    holds at most the quota of each rate class, and nothing of a class without one;
    and it holds at most the fairness window of jobs of any one group key. *)
Theorem claim_respects_quotas db db' cs :
  wf db -> claim db = (db', Ok cs) ->
  (quotas <> ∅ -> forall rc,
     Z.of_nat (count (fun c => bool_decide (c_rate_class (repo.cj_raw c) = Some rc)) cs)
     <= Z.max 0 (default 0 (quotas !! rc)))
  /\ (forall g, Z.of_nat (count (fun c => bool_decide (c_group_key (repo.cj_raw c) = Some g)) cs) <= Z.max 0 cap).
Proof.
  intros Hwf Hc. pose proof (prepared_wf tags exhausted lim quotas db Hwf) as Hwfp.
  assert (forall P : JobCols -> bool, count (fun c => P (j_cols (repo.cj_raw c))) cs
            = count (fun j => P (j_cols j)) (cands lk tags exhausted lim cap quotas db)) as E.
  { intros P. rewrite <- (count_map (fun j : Job => P (j_cols j)) repo.cj_raw).
    rewrite (claim_raws _ _ _ _ _ _ _ _ _ _ Hc), count_map.
    by rewrite <- (count_perm _ _ _ (taken_perm lk tags exhausted lim cap quotas db Hwf)). }
  split.
  - intros Hq rc. pose proof (candidate_quota lk tags exhausted lim cap quotas _ Hwfp rc Hq) as H.
    etrans; [|exact H]. apply Nat2Z.inj_le, Nat.eq_le_incl.
    exact (E (fun j => bool_decide (c_rate_class j = Some rc))).
  - intros g. pose proof (candidate_fair lk tags exhausted lim cap quotas _ Hwfp g) as H.
    etrans; [|exact H]. apply Nat2Z.inj_le, Nat.eq_le_incl.
    exact (E (fun j => bool_decide (c_group_key j = Some g))).
Qed.

(** One malformed row stops a whole tag group.  A claimable row with a
    ceiling but no group key (which no validation refuses) makes the claim
    raise and take nothing; since the database is as before, the next pass
    meets the same row. *)
Theorem ungrouped_ceiling_poisons_claim db j c :
  In j (cands lk tags exhausted lim cap quotas db) ->
  c_max_concurrent_per_group j = Some c -> c_group_key j = None ->
  exists e, claim db = (db, Raise e).
Proof.
  intros Hj Hc Hg. rewrite claim_run.
  destruct (claim_error (cands lk tags exhausted lim cap quotas db)) as [e|] eqn:E; [eauto|].
  exfalso. unfold claim_error in E. destruct (existsb _ _); [done|].
  destruct (existsb (fun j : Job => negb (is_grouped j) && _) _) eqn:E2; [done|].
  rewrite <- not_true_iff_false in E2. apply E2, existsb_exists. exists j. split; [done|].
  unfold is_grouped. by rewrite Hc, Hg.
Qed.
End Bounds.

(** ** Witnesses *)

Definition limited_spec (group : option string) (ceiling : option Z) (rate : option string) : SubmitSpec :=
  mkSpec "call" [] "default" None None None SUBMITTED 0 group ceiling None [] rate None [] None 0 [] 5 None 600
    None 60 None.

(** Three jobs of one group with a ceiling of two, all of one rate class. *)
Definition busy : World :=
  let s := limited_spec (Some "g") (Some 2) (Some "api") in
  fst (SubmitService.submit default_config [s; s; s] world0).

Lemma busy_wf : wf (w_db busy).
Proof. apply reachable_wf_db. eapply reach_step; [apply world0_reachable | apply step_run, run_submit]. Qed.

Definition api_quota : gmap string Z := {[ "api" := 2 ]}.

Example busy_claim :
  match repo.claim no_locks [] [] 10 "e" 100 ∅ (w_db busy) with
  | (_, Ok cs) => length cs = 2%nat
  | _ => False
  end.
Proof. vm_compute. reflexivity. Qed.

Definition busy_key : gkey := ("default", "g", "call").

Lemma claim_respects_ceiling_witness :
  exists db' cs, repo.claim no_locks [] [] 10 "e" 100 ∅ (w_db busy) = (db', Ok cs)
    /\ actual_running db' busy_key <= counter db' busy_key <= 2.
Proof.
  destruct (repo.claim no_locks [] [] 10 "e" 100 ∅ (w_db busy)) as [db' [cs|e]] eqn:E;
    [|vm_compute in E; discriminate].
  exists db', cs. split; [reflexivity|].
  apply (claim_respects_ceiling no_locks [] [] 10 "e" 100 ∅ _ _ _ busy_key 2 busy_wf E).
  - intros j Hj _. revert j Hj. apply Forall_forall. vm_compute. repeat constructor; discriminate.
  - vm_compute. split; discriminate.
Defined.

Lemma claim_respects_quotas_witness :
  exists db' cs, repo.claim no_locks [] [] 10 "e" 1 api_quota (w_db busy) = (db', Ok cs)
    /\ Z.of_nat (count (fun c => bool_decide (c_rate_class (repo.cj_raw c) = Some "api")) cs) <= 2
    /\ Z.of_nat (count (fun c => bool_decide (c_group_key (repo.cj_raw c) = Some "g")) cs) <= 1.
Proof.
  destruct (repo.claim no_locks [] [] 10 "e" 1 api_quota (w_db busy)) as [db' [cs|e]] eqn:E;
    [|vm_compute in E; discriminate].
  exists db', cs. split; [reflexivity|].
  destruct (claim_respects_quotas no_locks [] [] 10 "e" 1 api_quota _ _ _ busy_wf E) as [H1 H2].
  split; [|exact (H2 "g")]. apply (H1 ltac:(vm_compute; discriminate) "api").
Defined.

(** A ready job next to a job with a ceiling but no group. *)
Definition poisoned : World :=
  fst (SubmitService.submit default_config [limited_spec None None None; limited_spec None (Some 1) None] world0).

Lemma ungrouped_ceiling_poisons_claim_witness :
  exists e, repo.claim no_locks [] [] 10 "e" 100 ∅ (w_db poisoned) = (w_db poisoned, Raise e).
Proof.
  destruct (cands no_locks [] [] 10 100 ∅ (w_db poisoned)) as [|a [|b l]] eqn:E;
    [vm_compute in E; discriminate..|].
  assert (Hb : nth_error (cands no_locks [] [] 10 100 ∅ (w_db poisoned)) 1 = Some b) by (rewrite E; reflexivity).
  vm_compute in Hb. injection Hb as <-.
  eapply (ungrouped_ceiling_poisons_claim no_locks [] [] 10 "e" 100 ∅ (w_db poisoned) _ 1).
  - rewrite E. right. left. reflexivity.
  - reflexivity.
  - reflexivity.
Defined.
