(* ===== verification/SubmitProps.v ===== *)
(** * Submission: atomicity, deduplication, the tenant cap, deferred jobs *)

From S2P Require Import Prelude PyStr Errors States Chain Json Records Database Queries Tables.
From S2P Require Import Claim Invariant Steps ClaimFacts Repository RepoFacts World RateLimiter.
From S2P Require Import RegistryService JobService SubmitService FanOutService SignalService.
From S2P Require Import CancelService Matcher Loops Engine Exec Lifecycle Cascade OutcomeProps.
From S2P Require Import FailProps.
From Stdlib Require Import QArith.
Open Scope string_scope.
Open Scope Z_scope.
Open Scope list_scope.

(** ** Atomicity *)

(** The world is as before, up to names and event numbers drawn in vain. *)
Definition untouched (w w' : World) : Prop := exists db', w' = set_w_db (rollback (w_db w) db') w.

Lemma untouched_refl w : untouched w w.
Proof. exists (w_db w). by rewrite rollback_refl, world_eta. Qed.

Lemma in_tx_untouched {A} (m : DBM A) w w' e : in_tx m w = (w', Raise e) -> untouched w w'.
Proof.
  unfold in_tx, on_db, transaction. destruct (m (w_db w)) as [d [a|e']]; [done|].
  intros [= <- _]. by exists d.
Qed.

(** A transaction followed by work that cannot raise. *)
Lemma tx_then_untouched {A B} (m : DBM A) (k : A -> EM B) w w' e :
  (forall a v, exists v' b, k a v = (v', Ok b)) ->
  (in_tx m ≫= k) w = (w', Raise e) -> untouched w w'.
Proof.
  intros Hk. unfold mbind, M_bind, M_bind_def.
  destruct (in_tx m w) as [v [a|e']] eqn:E.
  - destruct (Hk a v) as (v' & b & ->). done.
  - intros [= <- _]. by eapply in_tx_untouched.
Qed.

(** C24. A call that raises has changed nothing.  When submitting a batch,
    fanning out, completing, failing, signalling, waiting or cancelling raises
    any exception, every table is as it was before the call and so is the state
    of the engine: no partial batch, no gate without children, no archived row
    without its dependents settled. *)
Theorem raised_calls_change_nothing w w' e :
  (forall cfg specs, SubmitService.submit cfg specs w = (w', Raise e) -> untouched w w')
  /\ (forall cfg t c ch oc p, FanOutService.fan_out cfg t c ch oc p w = (w', Raise e) -> untouched w w')
  /\ (forall cfg i t r d s, JobService.complete cfg i t r d s w = (w', Raise e) -> untouched w w')
  /\ (forall u i t a, JobService.fail u i t a w = (w', Raise e) -> untouched w w')
  /\ (forall lk t k p b, SignalService.signal lk t k p b w = (w', Raise e) -> untouched w w')
  /\ (forall lk i t n k s, SignalService.wait lk i t n k s w = (w', Raise e) -> untouched w w')
  /\ (forall i c, CancelService.cancel i c w = (w', Raise e) -> untouched w w').
Proof.
  assert (forall b v, exists v', when b wake_set v = (v', Ok tt)) as Hw by (intros []; eauto).
  split_and!.
  - intros cfg specs. unfold SubmitService.submit. destruct specs as [|s l]; [done|]. intros H.
    assert (forall k : time -> EM SubmitService.SubmitOutcome, (clock ≫= k) w = k (w_clock w) w) as Hk by done.
    rewrite Hk in H.
    destruct (SubmitService.prepare_all _ _ _) as [prepared|e0].
    + revert H. apply tx_then_untouched. intros rs v.
      destruct (Hw (SubmitService.any_queued prepared rs) v) as (v' & E).
      eexists _, _. etransitivity; [eapply bind_ok, E|]. reflexivity.
    + injection H as <- _. apply untouched_refl.
  - intros cfg t c ch oc p. unfold FanOutService.fan_out. destruct ch as [|x ch].
    { intros [= <- _]. apply untouched_refl. }
    destruct (_ <? _); [intros [= <- _]; apply untouched_refl|].
    destruct (FanOutService._quorum_n p); [|intros [= <- _]; apply untouched_refl].
    apply tx_then_untouched. intros r v.
    destruct (Hw (existsb (fun p : uuid * bool => negb (snd p)) (snd r)) v) as (v' & E).
    eexists _, _. etransitivity; [eapply bind_ok, E|]. reflexivity.
  - intros cfg i t r d s. unfold JobService.complete.
    destruct (JobService.oversized _ _); [intros [= <- _]; apply untouched_refl|].
    apply tx_then_untouched. intros [[f g] c] v.
    destruct (Hw (negb (match f with [] => true | _ => false end) || g
              || match c with Some _ => true | None => false end) v) as (v' & E).
    eexists _, _. etransitivity; [eapply bind_ok, E|]. reflexivity.
  - intros u i t a H. unfold JobService.fail in H.
    assert (forall k : time -> EM JobService.FailOutcome, (clock ≫= k) w = k (w_clock w) w) as Hk by done.
    rewrite Hk in H. revert H. apply tx_then_untouched. intros [[x y] rc] v.
    destruct (after_fail_run a x y rc v) as (v' & m & -> & _). eauto.
  - intros lk t k p b. apply tx_then_untouched. intros o v.
    destruct (Hw (SignalService.delivered o) v) as (v' & E).
    eexists _, _. etransitivity; [eapply bind_ok, E|]. reflexivity.
  - intros lk i t n k s. apply in_tx_untouched.
  - intros i c. apply in_tx_untouched.
Qed.

Lemma raised_calls_change_nothing_witness :
  exists e w', JobService.complete default_config 1 9 None false false world3 = (w', Raise e) /\ untouched world3 w'.
Proof.
  destruct (JobService.complete default_config 1 9 None false false world3) as [w' [b|e]] eqn:E;
    [vm_compute in E; discriminate|].
  exists e, w'. split; [reflexivity|].
  exact (proj1 (proj2 (proj2 (raised_calls_change_nothing world3 w' e))) _ _ _ _ _ _ E).
Defined.

(** ** Deferred jobs *)

(** C26. A deferred job never runs.  A job submitted with a future run time
    and no dependency is stored submitted, waiting for nothing; whatever
    happens afterwards, however late, it is still submitted or was cancelled:
    nothing ever queues it. *)
Theorem deferred_job_never_runs w w' j :
  reachable w -> rtc step w w' -> In j (db_jobs (w_db w)) -> stranded j ->
  (exists j', In j' (db_jobs (w_db w')) /\ j_cols j' = j_cols j /\ j_state j' = SUBMITTED)
  \/ (exists a, In a (db_archive (w_db w')) /\ j_cols (a_job a) = j_cols j /\ a_final_state a = CANCELLED).
Proof.
  intros Hr Hs Hj Hst. destruct (steps_keep w w' Hs (reachable_wf_db w Hr)) as [Hwf [[_ _ H _] _ _ _ _ _]].
  destruct (H j Hj) as [(j' & Hj' & Hc & _ & Hst')|(a & Ha & Hc & _ & Hst')].
  - left. exists j'. destruct (Hst' Hst). auto.
  - right. exists a. split_and!; [done..|]. destruct (Hst' Hst) as [Es _].
    pose proof (wf_archive _ _ _ (wf_j _ Hwf)) as HA. rewrite Forall_forall in HA.
    destruct (HA a Ha) as [Ht He]. unfold edge in He. rewrite Es in He.
    by destruct (a_final_state a).
Qed.

(** Due one second from now. *)
Definition deferred_spec : SubmitSpec :=
  mkSpec "later" [] "default" None None None SUBMITTED 0 None None None [] None None [] None 0 [] 5 None 600
    (Some 1000000) 60 None.

Definition deferred : World := fst (SubmitService.submit default_config [deferred_spec] world0).

(** An hour later, with an idle worker connected and a dispatcher pass. *)
Definition an_hour_later : World :=
  let w := deferred in
  mkWorld (set_db_now 3600000000 (w_db w)) (w_registry w) (w_limiter w) (w_cursors w) 3600000000.
Definition much_later : World :=
  fst (Dispatcher.pass_ no_locks default_config (fst (WorkerRegistry.register 0%nat demo_conn an_hour_later))).

Lemma deferred_job_never_runs_witness :
  exists j, In j (db_jobs (w_db deferred)) /\ stranded j
    /\ ((exists j', In j' (db_jobs (w_db much_later)) /\ j_cols j' = j_cols j /\ j_state j' = SUBMITTED)
        \/ (exists a, In a (db_archive (w_db much_later)) /\ j_cols (a_job a) = j_cols j
              /\ a_final_state a = CANCELLED)).
Proof.
  assert (reachable deferred) as Hr.
  { eapply reach_step; [apply world0_reachable | apply step_run, run_submit]. }
  assert (rtc step deferred much_later) as Hs.
  { eapply rtc_l; [apply step_clock with (t := 3600000000) (c := 3600000000); vm_compute; discriminate|].
    eapply rtc_l; [apply step_run, run_register|]. apply rtc_once, step_run, run_dispatch. }
  destruct (db_jobs (w_db deferred)) as [|j l] eqn:E; [vm_compute in E; discriminate|].
  assert (stranded j) as Hst.
  { assert (Hh : head (db_jobs (w_db deferred)) = Some j) by (rewrite E; reflexivity).
    vm_compute in Hh. injection Hh as <-. split; [reflexivity | vm_compute; discriminate]. }
  exists j. split; [left; reflexivity|]. split; [exact Hst|].
  apply (deferred_job_never_runs deferred much_later j Hr Hs); [rewrite E; left; reflexivity | exact Hst].
Defined.

(** ** One spec *)

(** Edges only touch the table of dependencies, and always succeed. *)
Lemma edges_run i deps db :
  exists edges r,
    forM (fun '(upstream, alias) => repo.insert_dependency i upstream alias) deps db
    = (set_db_deps (db_deps db ++ edges) db, Ok r)
    /\ (forall u, In u (map fst deps) ->
          exists d, In d (db_deps db ++ edges) /\ d_job_id d = i /\ d_depends_on_job_id d = u)
    /\ Forall (fun d => d_job_id d = i /\ In (d_depends_on_job_id d) (map fst deps)) edges.
Proof.
  revert db. induction deps as [|[u a] deps IH]; intros db.
  { exists [], []. split; [rewrite app_nil_r; by destruct db | by split]. }
  set (db1 := fst (sql_insert_dependency i u a db)).
  assert (exists e0, db1 = set_db_deps (db_deps db ++ e0) db
            /\ (exists d, In d (db_deps db ++ e0) /\ d_job_id d = i /\ d_depends_on_job_id d = u)
            /\ Forall (fun d => d_job_id d = i /\ d_depends_on_job_id d = u) e0) as (e0 & E1 & Hd & He).
  { subst db1. unfold sql_insert_dependency. simpl. destruct (existsb _ _) eqn:Ex.
    - exists []. split_and!; [rewrite app_nil_r; by destruct db| |done]. rewrite app_nil_r.
      apply existsb_exists in Ex as (d & Hd & Hk). unfold dep_key_eqb in Hk. bool_prop. simpl in *.
      exists d. split; [done|]. split; congruence.
    - exists [mkDep i u a]. split; [done|]. split; [|by repeat constructor].
      exists (mkDep i u a). split; [|done]. apply in_or_app. right. by left. }
  destruct (IH db1) as (e1 & r & E2 & Hu & Hf). exists (e0 ++ e1), (tt :: r). split_and!.
  - simpl forM. etransitivity; [eapply bind_ok; reflexivity|]. fold db1.
    etransitivity; [eapply bind_ok, E2|]. rewrite E1. simpl. by rewrite <- app_assoc.
  - rewrite E1 in Hu. simpl in Hu. rewrite app_assoc. intros x [<-|Hx]; [|by apply Hu].
    destruct Hd as (d & Hd & ?). exists d. split; [|done]. apply in_or_app. by left.
  - apply Forall_app. split.
    + eapply Forall_impl; [|exact He]. simpl. intros d [? ?]. auto.
    + eapply Forall_impl; [|exact Hf]. simpl. intros d [? ?]. auto.
Qed.

Section Single.
Context (cfg : SymbaConfig) (s : SubmitSpec) (w : World) (p : SubmitSpec).
Hypothesis no_cap : tenant_queued_cap cfg <= 0.
Hypothesis valid : SubmitService._prepare cfg (w_clock w) s = Ok p.
Hypothesis encodable : repo._submit_args p <> None.

Lemma single_tx_run r db' :
  SubmitService.submit_one p (w_db w) = (db', Ok r) ->
  exists w', SubmitService.submit cfg [s] w = (w', Ok (SubmitService.mkSubmitOutcome [fst r] [snd r]))
    /\ w_db w' = db' /\ w_clock w' = w_clock w.
Proof.
  intros H.
  assert (SubmitService.submit_tx cfg [p] (w_db w) = (db', Ok [r])) as Et.
  { unfold SubmitService.submit_tx. destruct (Z.ltb_spec 0 (tenant_queued_cap cfg)); [lia|].
    etransitivity; [eapply bind_ok; reflexivity|]. simpl forM. etransitivity; [eapply bind_ok, H|]. reflexivity. }
  assert (exists v', when (SubmitService.any_queued [p] [r]) wake_set (set_w_db db' w) = (v', Ok tt)
            /\ w_db v' = db' /\ w_clock v' = w_clock w) as (v' & Ew & Hdb & Hcl)
    by (destruct (SubmitService.any_queued [p] [r]); eexists; split; [reflexivity| done | reflexivity | done]).
  exists v'. split; [|done]. unfold SubmitService.submit. etransitivity; [by eapply bind_ok|]. simpl. rewrite valid.
  etransitivity; [eapply bind_ok, in_tx_ok, Et|]. etransitivity; [eapply bind_ok, Ew|]. reflexivity.
Qed.

Lemma submit_new_run :
  no_conflict p (db_jobs (w_db w)) ->
  exists w' edges, SubmitService.submit cfg [s] w
      = (w', Ok (SubmitService.mkSubmitOutcome [db_uuid_seq (w_db w)] [false]))
    /\ w_clock w' = w_clock w
    /\ db_jobs (w_db w') = db_jobs (w_db w) ++ [inserted_job (w_db w) (db_uuid_seq (w_db w)) (repo.stored_spec p) None]
    /\ db_deps (w_db w') = db_deps (w_db w) ++ edges
    /\ db_archive (w_db w') = db_archive (w_db w)
    /\ (forall u, In u (map fst (s_depends_on p)) -> exists d, In d (db_deps (w_db w) ++ edges)
          /\ d_job_id d = db_uuid_seq (w_db w) /\ d_depends_on_job_id d = u)
    /\ Forall (fun d => d_job_id d = db_uuid_seq (w_db w)
                        /\ In (d_depends_on_job_id d) (map fst (s_depends_on p))) edges.
Proof.
  intros Hc. set (db1 := set_db_jobs (db_jobs (w_db w) ++ [inserted_job (w_db w) (db_uuid_seq (w_db w)) (repo.stored_spec p) None])
                        (set_db_uuid_seq (N.succ (db_uuid_seq (w_db w))) (w_db w))).
  destruct (edges_run (db_uuid_seq (w_db w)) (s_depends_on p) db1) as (edges & r & E & Hu & Hf).
  destruct (single_tx_run (db_uuid_seq (w_db w), false) (set_db_deps (db_deps db1 ++ edges) db1))
    as (w' & Ew & Hdb & Hcl).
  { unfold SubmitService.submit_one. etransitivity; [eapply bind_ok, (submit_new p _ encodable Hc)|].
    simpl. etransitivity; [eapply bind_ok, E|]. reflexivity. }
  exists w', edges. rewrite Hdb. auto 10.
Qed.

Lemma submit_duplicate_run j :
  List.find (dedup_conflict p) (db_jobs (w_db w)) = Some j ->
  exists w', SubmitService.submit cfg [s] w = (w', Ok (SubmitService.mkSubmitOutcome [c_id j] [true]))
    /\ w_db w' = w_db w /\ w_clock w' = w_clock w.
Proof.
  intros Hf. apply (single_tx_run (c_id j, true) (w_db w)). unfold SubmitService.submit_one.
  etransitivity; [eapply bind_ok, (submit_duplicate p _ j encodable Hf)|]. reflexivity.
Qed.

End Single.


(** Two deferred-free specs with a dedup key, submitted twice. *)
Definition keyed_spec : SubmitSpec :=
  mkSpec "report" [] "default" None None None SUBMITTED 0 None None (Some "daily") [] None None [] None 0 [] 5
    None 600 None 60 None.



(** ** The tenant cap *)

Fixpoint tally (t : string) (c : list (string * Z)) : Z :=
  match c with
  | [] => 0
  | (t', n) :: c' => if String.eqb t t' then n else tally t c'
  end.

Lemma tally_add t t' c : tally t (SubmitService.counter_add t' c) = tally t c + (if String.eqb t' t then 1 else 0).
Proof.
  induction c as [|[x n] c IH]; simpl.
  - rewrite String.eqb_sym. by destruct (String.eqb t' t).
  - destruct (String.eqb_spec t' x) as [->|Hne]; simpl.
    + rewrite (String.eqb_sym x t). destruct (String.eqb t x); lia.
    + destruct (String.eqb_spec t x) as [->|]; [|done].
      destruct (String.eqb_spec t' x); [done | lia].
Qed.

Definition specs_of (t : string) (specs : list SubmitSpec) : Z :=
  Z.of_nat (count (fun s => String.eqb (s_tenant s) t) specs).

Lemma tally_batch t specs c :
  tally t (foldl (fun c s => SubmitService.counter_add (s_tenant s) c) c specs) = tally t c + specs_of t specs.
Proof.
  revert c. induction specs as [|s specs IH]; intros c; [unfold specs_of, count; simpl; lia|].
  simpl. rewrite IH, tally_add. unfold specs_of. rewrite count_cons. destruct (String.eqb _ _); lia.
Qed.

Lemma tally_In t c : tally t c <> 0 -> In (t, tally t c) c.
Proof.
  induction c as [|[x n] c IH]; simpl; [done|]. destruct (String.eqb_spec t x) as [->|]; [by left|].
  intros H. right. by apply IH.
Qed.

(** A passing check leaves the database alone and bounds every tenant of the batch. *)
Lemma enforce_ok cfg specs db db' :
  SubmitService._enforce_tenant_caps cfg specs db = (db', Ok tt) ->
  db' = db /\ forall t, 0 < specs_of t specs ->
    sql_count_tenant_live t db + specs_of t specs <= tenant_queued_cap cfg.
Proof.
  unfold SubmitService._enforce_tenant_caps.
  match goal with |- context [forM ?f] => set (body := f) end.
  assert (forall l d r, forM body l db = (d, Ok r) -> d = db /\ forall t n, In (t, n) l ->
            sql_count_tenant_live t db + n <= tenant_queued_cap cfg) as H.
  { induction l as [|[t n] l IH]; intros d r; [intros [= <- _]; by split|].
    change (forM body ((t, n) :: l)) with (b ← body (t, n); bs ← forM body l; mret (b :: bs)).
    unfold mbind at 1, M_bind, M_bind_def at 1.
    assert (body (t, n) db = if tenant_queued_cap cfg <? sql_count_tenant_live t db + n
              then (db, Raise (err TenantQuotaExceeded
                   [("tenant", CtxStr t); ("current", CtxInt (sql_count_tenant_live t db));
                    ("cap", CtxInt (tenant_queued_cap cfg));
                    ("retry_after_s", CtxInt (sweeper_interval_s cfg))])) else (db, Ok tt)) as ->.
    { unfold body, repo.count_tenant_live. run. by destruct (_ <? _). }
    destruct (Z.ltb_spec (tenant_queued_cap cfg) (sql_count_tenant_live t db + n)); [done|].
    unfold mbind, M_bind, M_bind_def. destruct (forM body l db) as [d' [r'|e]] eqn:E; [|done].
    intros [= <- _]. destruct (IH _ _ eq_refl) as [-> Hl]. split; [done|].
    intros t' n' [[= <- <-]|Hin]; [done | by apply Hl]. }
  unfold mbind, M_bind, M_bind_def. destruct (forM body _ db) as [d [r|e]] eqn:E; [|done].
  intros [= <-]. destruct (H _ _ _ E) as [-> Hl]. split; [done|]. intros t Ht. apply Hl.
  pose proof (tally_batch t specs []) as Hb. cbn [tally] in Hb. rewrite Z.add_0_l in Hb.
  unfold SubmitService.batch_by_tenant. rewrite <- Hb. apply tally_In. lia.
Qed.

Lemma submit_one_count t s db db' r :
  SubmitService.submit_one s db = (db', Ok r) ->
  sql_count_tenant_live t db' <= sql_count_tenant_live t db + (if String.eqb (s_tenant s) t then 1 else 0).
Proof.
  unfold SubmitService.submit_one, mbind, M_bind, M_bind_def at 1. rewrite submit_unfold.
  destruct (repo._submit_args s); [|done]. unfold sql_submit.
  destruct (List.find _ _) as [j|]; simpl.
  - intros [= <- _]. destruct (String.eqb _ _); lia.
  - unfold M_bind_def. match goal with |- context [forM _ _ ?d] => set (db1 := d) end.
    destruct (edges_run (db_uuid_seq db) (s_depends_on s) db1) as (edges & r' & -> & _).
    intros [= <- _]. unfold sql_count_tenant_live. simpl. rewrite count_app, count_cons.
    match goal with |- context [count ?p []] => change (count p []) with 0%nat end.
    assert (c_tenant (inserted_job db (db_uuid_seq db) (repo.stored_spec s) None) = s_tenant s) as -> by (by destruct s).
    destruct (String.eqb _ _); lia.
Qed.

Lemma submit_all_count t specs db db' rs :
  forM SubmitService.submit_one specs db = (db', Ok rs) ->
  sql_count_tenant_live t db' <= sql_count_tenant_live t db + specs_of t specs.
Proof.
  revert db rs. induction specs as [|s specs IH]; intros db rs; simpl forM.
  - intros [= <- _]. unfold specs_of, count. simpl. lia.
  - unfold mbind at 1, M_bind, M_bind_def at 1. destruct (SubmitService.submit_one s db) as [d [r|e]] eqn:E; [|done].
    unfold mbind, M_bind, M_bind_def. destruct (forM _ specs d) as [d' [rs'|e]] eqn:E'; [|done]. intros [= <- _].
    apply (submit_one_count t) in E. apply IH in E'. unfold specs_of in *. rewrite count_cons.
    destruct (String.eqb _ _); lia.
Qed.

Lemma prepare_all_tenants cfg now specs prepared t :
  SubmitService.prepare_all cfg now specs = Ok prepared -> specs_of t prepared = specs_of t specs.
Proof.
  revert prepared. induction specs as [|s specs IH]; intros prepared; simpl; [by intros [= <-]|].
  destruct (SubmitService._prepare cfg now s) as [p|] eqn:E; [|done].
  destruct (SubmitService.prepare_all cfg now specs) as [l|]; [|done]. intros [= <-].
  specialize (IH l eq_refl). unfold specs_of in *. rewrite !count_cons.
  assert (s_tenant p = s_tenant s) as ->; [|lia].
  revert E. unfold SubmitService._prepare. destruct (_ <? _); [done|]. destruct (_ <? _); [done|].
  intros [= <-]. destruct (s_depends_on s); [done|]. by destruct (_ =? 0).
Qed.

(** The tenant cap holds: with a positive cap configured, after a
    submission that returns no tenant of the batch has more live jobs than
    the cap allows. *)
Theorem tenant_cap_holds cfg specs w w' o t :
  0 < tenant_queued_cap cfg -> SubmitService.submit cfg specs w = (w', Ok o) ->
  In t (map s_tenant specs) -> sql_count_tenant_live t (w_db w') <= tenant_queued_cap cfg.
Proof.
  intros Hcap H Ht. destruct specs as [|s0 l0]; [done|]. set (specs := s0 :: l0) in *.
  assert (0 < specs_of t specs) as Hpos.
  { apply in_map_iff in Ht as (s & <- & Hs). unfold specs_of, count.
    assert (In s (List.filter (fun x => String.eqb (s_tenant x) (s_tenant s)) specs)) as Hin.
    { apply in_sel. split; [done | apply String.eqb_refl]. }
    destruct (List.filter _ specs); [done | simpl; lia]. }
  unfold SubmitService.submit in H. unfold mbind at 1, M_bind, M_bind_def at 1, clock, gets in H.
  cbn beta iota in H. fold specs in H. unfold specs at 1 in H. cbn iota in H.
  destruct (SubmitService.prepare_all cfg (w_clock w) specs) as [prepared|] eqn:Ep; [|done].
  rewrite <- (prepare_all_tenants _ _ _ _ t Ep) in Hpos.
  unfold mbind at 1, M_bind, M_bind_def at 1, in_tx, on_db, transaction in H.
  destruct (SubmitService.submit_tx cfg prepared (w_db w)) as [db' [rs|e]] eqn:Et; [|done].
  assert (w_db w' = db') as ->.
  { cbn beta iota in H. unfold mbind, M_bind, M_bind_def in H.
    destruct (SubmitService.any_queued prepared rs); simpl in H; by injection H as <- _. }
  unfold SubmitService.submit_tx in Et. destruct (Z.ltb_spec 0 (tenant_queued_cap cfg)); [|lia].
  unfold mbind, M_bind, M_bind_def in Et.
  destruct (SubmitService._enforce_tenant_caps cfg prepared (w_db w)) as [d [[]|e]] eqn:Ee; [|done].
  apply enforce_ok in Ee as [-> Hb]. apply (submit_all_count t) in Et. specialize (Hb t Hpos). lia.
Qed.

Definition capped_config : SymbaConfig := mkConfig 64 256 50 100000 2 1000 5 1000 3 15 10 250 0 256.

Lemma tenant_cap_holds_witness :
  exists w' o, SubmitService.submit capped_config [demo_spec; keyed_spec] world0 = (w', Ok o)
    /\ sql_count_tenant_live "default" (w_db w') <= 2.
Proof.
  destruct (SubmitService.submit capped_config [demo_spec; keyed_spec] world0) as [w' [o|e]] eqn:E;
    [|vm_compute in E; discriminate].
  exists w', o. split; [reflexivity|].
  apply (tenant_cap_holds capped_config [demo_spec; keyed_spec] world0 w' o "default"); [reflexivity | exact E|].
  left. reflexivity.
Defined.
