(* ===== verification/SignalProps.v ===== *)
(** * Signals: the rendezvous of signal and wait *)

From S2P Require Import Prelude PyStr Errors States Json Records Database Queries Tables Claim.
From S2P Require Import Invariant Steps ClaimFacts Repository RepoFacts World RateLimiter.
From S2P Require Import SignalService Engine Exec Lifecycle.
Open Scope string_scope.
Open Scope Z_scope.
Open Scope list_scope.

(** ** Which rows a key selects *)

Definition pending_for (lk : locks) (tenant k : string) (s : Signal) : bool :=
  String.eqb (sg_tenant s) tenant && String.eqb (sg_wait_key s) k
  && match sg_consumed_at s with None => true | Some _ => false end && negb (locked_signal lk (sg_id s)).

Definition waits_on (lk : locks) (tenant k : string) (j : Job) : bool :=
  JobState_eqb (j_state j) WAITING && String.eqb (c_tenant j) tenant
  && sql_eq (j_wait_key j) (Some k) && negb (locked_job lk (c_id j)).

Lemma head_order_none {A} (le : A -> A -> bool) l : head (order_by le l) = None <-> l = [].
Proof.
  split; [|by intros ->]. intros H. destruct (order_by le l) as [|x r] eqn:E; [|done].
  pose proof (order_by_perm le l) as Hp. rewrite E in Hp. by apply Permutation_nil in Hp.
Qed.

Lemma no_pending lk tenant k db :
  pending_signal lk tenant k db = None <-> forall s, In s (db_signals db) -> pending_for lk tenant k s = false.
Proof.
  unfold pending_signal. rewrite head_order_none. split.
  - intros H s Hs. destruct (pending_for lk tenant k s) eqn:E; [|done]. exfalso.
    assert (In s (List.filter (pending_for lk tenant k) (db_signals db))) as Hin by (by apply in_sel).
    unfold pending_for in Hin at 1. by rewrite H in Hin.
  - by apply sel_none.
Qed.

Lemma no_waiter lk tenant k db :
  signal_target lk tenant k db = None <-> forall j, In j (db_jobs db) -> waits_on lk tenant k j = false.
Proof.
  unfold signal_target. rewrite head_order_none. split.
  - intros H j Hj. destruct (waits_on lk tenant k j) eqn:E; [|done]. exfalso.
    assert (In j (List.filter (waits_on lk tenant k) (db_jobs db))) as Hin by (by apply in_sel).
    unfold waits_on in Hin at 1. by rewrite H in Hin.
  - by apply sel_none.
Qed.

(** Locks only hide rows. *)
Lemma pending_no_locks lk tenant k s : pending_for no_locks tenant k s = false -> pending_for lk tenant k s = false.
Proof. unfold pending_for. simpl. rewrite andb_true_r. by intros ->. Qed.
Lemma waits_no_locks lk tenant k j : waits_on no_locks tenant k j = false -> waits_on lk tenant k j = false.
Proof. unfold waits_on. simpl. rewrite andb_true_r. by intros ->. Qed.

(** ** Signal first *)

(** The payload of a call, as JSONB keeps it. *)
Definition sendable (p : option dict) : Prop := storable (JObj (default [] p)) = true.
Definition sent (p : option dict) : dict := jsonb_members (default [] p).

Lemma sendable_dict p : sendable p -> jsonb_dict (default [] p) = Some (sent p).
Proof. unfold sendable, jsonb_dict. by intros ->. Qed.

Lemma signal_parks lk tenant k p by_ w :
  sendable p -> signal_target lk tenant k (w_db w) = None ->
  exists w1, SignalService.signal lk tenant k p by_ w = (w1, Ok (SignalService.mkSignalOutcome false None))
    /\ w_db w1 = set_db_signals (db_signals (w_db w)
          ++ [mkSignal (db_uuid_seq (w_db w)) tenant k (Some (sent p)) by_ (db_now (w_db w)) None])
        (set_db_uuid_seq (N.succ (db_uuid_seq (w_db w))) (w_db w)).
Proof.
  intros Hp Hn. eexists. split.
  - unfold SignalService.signal. etransitivity; [eapply bind_ok, in_tx_ok|].
    + unfold SignalService.signal_tx, repo.signal_wake, sql_signal. rewrite (sendable_dict p Hp). run. rewrite Hn.
      unfold repo.signal_park, sql_signal_insert, jsonb_opt. rewrite (sendable_dict p Hp). run. reflexivity.
    + reflexivity.
  - reflexivity.
Qed.

Lemma wait_consumes lk i t tenant k n w s :
  pending_signal lk tenant k (w_db w) = Some s ->
  exists w2, SignalService.wait lk i t tenant k n w
      = (w2, Ok (SignalService.mkWait true (Some (default [] (sg_payload s)))))
    /\ db_signals (w_db w2) = update_where (fun r => N.eqb (sg_id r) (sg_id s))
                               (set_sg_consumed_at (Some (db_now (w_db w)))) (db_signals (w_db w))
    /\ db_jobs (w_db w2) = db_jobs (w_db w).
Proof.
  intros Hp. eexists. split.
  - apply in_tx_ok. unfold SignalService.wait_tx, repo.wait_consume, sql_wait_consume. run. rewrite Hp.
    reflexivity.
  - split; reflexivity.
Qed.



(** ** Wait first *)

Lemma wait_parks lk i t tenant k n w j :
  wf (w_db w) -> In j (db_jobs (w_db w)) -> lease_guard i t j = true ->
  pending_signal lk tenant k (w_db w) = None ->
  exists w1, SignalService.wait lk i t tenant k n w = (w1, Ok (SignalService.mkWait false None))
    /\ db_jobs (w_db w1) = update_where (lease_guard i t) (parked k n (db_now (w_db w))) (db_jobs (w_db w))
    /\ db_now (w_db w1) = db_now (w_db w) /\ db_signals (w_db w1) = db_signals (w_db w).
Proof.
  intros Hwf Hj Hl Hp. eexists. split.
  - apply in_tx_ok. unfold SignalService.wait_tx, repo.wait_consume, sql_wait_consume. run. rewrite Hp.
    unfold repo.wait_park, sql_wait_park. run. rewrite (lease_sel (w_db w) i t j Hwf Hj Hl). reflexivity.
  - split_and!; reflexivity.
Qed.

Lemma signal_wakes lk tenant k p by_ w x :
  sendable p -> signal_target lk tenant k (w_db w) = Some x ->
  exists w2, SignalService.signal lk tenant k p by_ w = (w2, Ok (SignalService.mkSignalOutcome true (Some (c_id x))))
    /\ db_jobs (w_db w2) = update_where (fun j : Job => N.eqb (c_id j) (c_id x))
                             (resume (sent p) (db_now (w_db w))) (db_jobs (w_db w))
    /\ db_signals (w_db w2) = db_signals (w_db w).
Proof.
  intros Hp Ht. eexists. split.
  - unfold SignalService.signal. etransitivity; [eapply bind_ok, in_tx_ok|].
    + unfold SignalService.signal_tx, repo.signal_wake, sql_signal. rewrite (sendable_dict p Hp). run. rewrite Ht. reflexivity.
    + reflexivity.
  - split; reflexivity.
Qed.



(** A stale worker can use up a signal.  Waiting checks the lease only
    when it parks: a caller whose lease is gone still consumes a pending signal
    and gets its payload, so the job's current holder will not. *)
Theorem stale_wait_consumes_signal lk i t tenant k n w s :
  (forall j, In j (db_jobs (w_db w)) -> lease_guard i t j = false) ->
  pending_signal lk tenant k (w_db w) = Some s ->
  exists w', SignalService.wait lk i t tenant k n w
      = (w', Ok (SignalService.mkWait true (Some (default [] (sg_payload s)))))
    /\ exists s', In s' (db_signals (w_db w')) /\ sg_id s' = sg_id s
         /\ sg_consumed_at s' = Some (db_now (w_db w)).
Proof.
  intros _ Hp. destruct (wait_consumes lk i t tenant k n w s Hp) as (w' & E & Hs & _).
  exists w'. split; [done|]. apply pending_signal_spec in Hp as (Hin & _).
  exists (set_sg_consumed_at (Some (db_now (w_db w))) s). split; [|done].
  rewrite Hs. apply in_update_where. exists s. by rewrite N.eqb_refl.
Qed.

Lemma stale_wait_consumes_signal_witness :
  exists w' p, SignalService.wait no_locks 1 99 "default" "go" 60
      (fst (SignalService.signal no_locks "default" "go" None None world3)) = (w', Ok (SignalService.mkWait true p)).
Proof.
  set (w := fst (SignalService.signal no_locks "default" "go" None None world3)).
  destruct (pending_signal no_locks "default" "go" (w_db w)) as [s|] eqn:E; [|vm_compute in E; discriminate].
  destruct (stale_wait_consumes_signal no_locks 1 99 "default" "go" 60 w s) as (w' & H & _); [|exact E|].
  - intros j Hj. assert (Hb : forallb (fun j => negb (lease_guard 1 99 j)) (db_jobs (w_db w)) = true)
      by (vm_compute; reflexivity).
    rewrite forallb_forall in Hb. apply negb_true_iff, Hb, Hj.
  - eexists w', _. exact H.
Defined.
