(* ===== verification/OperatorProps.v ===== *)
(** * Cancel, resubmit and the sweeper *)

From S2P Require Import Prelude PyStr Errors States Json Records Database Queries Tables Claim.
From S2P Require Import Invariant Steps ClaimFacts Repository RepoFacts World RateLimiter.
From S2P Require Import JobService CancelService Engine Exec Lifecycle OutcomeProps FailProps.
Open Scope string_scope.
Open Scope Z_scope.
Open Scope list_scope.

(** ** Cancel *)

Definition pending_state (s : JobState) : bool := existsb (JobState_eqb s) [SUBMITTED; QUEUED; WAITING].

Section Cancel.
Context (w : World) (i : uuid).
Hypothesis Hwf : wf (w_db w).

Lemma id_unique j k : In j (db_jobs (w_db w)) -> In k (db_jobs (w_db w)) -> c_id j = c_id k -> j = k.
Proof. intros Hj Hk E. apply (NoDup_map_inj job_id (db_jobs (w_db w))); auto. by apply wf_job_ids. Qed.

Lemma cancellable_sel j :
  In j (db_jobs (w_db w)) -> c_id j = i ->
  sel (cancellable i) (db_jobs (w_db w)) = if pending_state (j_state j) then [j] else [].
Proof.
  intros Hj Hi. destruct (pending_state (j_state j)) eqn:E.
  - apply (sel_one job_id); auto; [by apply wf_job_ids | |].
    + unfold cancellable. rewrite Hi, N.eqb_refl. exact E.
    + intros y _ Hy. unfold cancellable in Hy. bool_prop. unfold job_id. congruence.
  - apply sel_none. intros y Hy. unfold cancellable. destruct (N.eqb_spec (c_id y) i) as [Ey|]; [|done].
    rewrite (id_unique y j) by congruence. exact E.
Qed.

Lemma cancellable_deleted j k :
  In j (db_jobs (w_db w)) -> c_id j = i -> pending_state (j_state j) = true ->
  In k (delete_where (cancellable i) (db_jobs (w_db w))) <-> In k (db_jobs (w_db w)) /\ c_id k <> i.
Proof.
  intros Hj Hi Hp. unfold delete_where. rewrite filter_In, negb_true_iff. split; intros [Hk H]; split; try done.
  - intros E. rewrite (id_unique k j) in H by congruence. unfold cancellable in H.
    rewrite Hi, N.eqb_refl in H. unfold pending_state in Hp. simpl in *. congruence.
  - unfold cancellable. destruct (N.eqb_spec (c_id k) i); done.
Qed.

Lemma cancel_pending j :
  In j (db_jobs (w_db w)) -> c_id j = i -> pending_state (j_state j) = true ->
  exists w', CancelService.cancel i false w
      = (w', Ok (CancelService.mkCancel true false [] "archived"))
    /\ db_archive (w_db w') = db_archive (w_db w) ++ [mkArchived j (db_now (w_db w)) CANCELLED]
    /\ (forall k, In k (db_jobs (w_db w')) <-> In k (db_jobs (w_db w)) /\ c_id k <> i)
    /\ db_events (w_db w') = db_events (w_db w) ++ [event_row (w_db w) j "cancelled" None].
Proof.
  intros Hj Hi Hp. set (a := mkArchived j (db_now (w_db w)) CANCELLED).
  set (db1 := set_db_archive (db_archive (w_db w) ++ [a])
                (set_db_jobs (delete_where (cancellable i) (db_jobs (w_db w))) (w_db w))).
  assert (exists term, repo.cancel_immediate i (w_db w) = (db1, Ok (Some term))) as (term & E1).
  { unfold repo.cancel_immediate, sql_cancel, move_to_archive. run. rewrite (cancellable_sel j Hj Hi), Hp.
    eexists. reflexivity. }
  pose proof (record_archived db1 (db_archive (w_db w)) a [] "cancelled" None) as E2.
  assert (archived_id a = i) as Ha by done. rewrite Ha in E2.
  eexists. split_and!.
  + apply in_tx_ok. unfold CancelService.cancel_tx. etransitivity; [eapply bind_ok, E1|]. cbv beta iota.
    etransitivity; [eapply bind_ok; unfold repo.record_event, stmt; change (jsonb_members <$> None) with (@None dict); rewrite E2; [reflexivity|..]|].
    * intros k Hk. by apply (cancellable_deleted j) in Hk as [_ ?].
    * intros x Hx. rewrite <- Hi. intros E. by eapply (archived_not_live (w_db w) x j).
    * done.
    * reflexivity.
  + reflexivity.
  + intros k. by apply (cancellable_deleted j).
  + reflexivity.
Qed.

Lemma cancel_leased j wk :
  In j (db_jobs (w_db w)) -> c_id j = i -> j_state j = RUNNING -> j_claimed_by j = Some wk ->
  exists w', CancelService.cancel i false w
      = (w', Ok (CancelService.mkCancel true true [] "cancel_requested"))
    /\ db_archive (w_db w') = db_archive (w_db w)
    /\ (forall k, In k (db_jobs (w_db w')) <->
          k = set_j_cancel_requested true j \/ (In k (db_jobs (w_db w)) /\ c_id k <> i)).
Proof.
  intros Hj Hi Hs Hc.
  assert (repo.cancel_immediate i (w_db w) = (w_db w, Ok None)) as E1.
  { unfold repo.cancel_immediate, sql_cancel. run. rewrite move_none; [done|]. intros k Hk.
    unfold cancellable. destruct (N.eqb_spec (c_id k) i) as [Ek|]; [|done].
    rewrite (id_unique k j) by congruence. by rewrite Hs. }
  set (p := fun j : Job => N.eqb (c_id j) i && JobState_eqb (j_state j) RUNNING).
  assert (sel p (db_jobs (w_db w)) = [j]) as Es.
  { apply (sel_one job_id); auto; [by apply wf_job_ids | |].
    - unfold p. by rewrite Hi, N.eqb_refl, Hs.
    - intros y _ Hy. unfold p in Hy. bool_prop. unfold job_id. congruence. }
  assert (repo.cancel_running i (w_db w)
          = (update_jobs p (set_j_cancel_requested true) (w_db w), Ok (Some wk))) as E2.
  { unfold repo.cancel_running, sql_cancel_running. run. fold p. rewrite Es. simpl. by rewrite Hc. }
  eexists. split_and!.
  + apply in_tx_ok. unfold CancelService.cancel_tx. etransitivity; [eapply bind_ok, E1|]. cbv beta iota.
    etransitivity; [eapply bind_ok, E2|]. reflexivity.
  + reflexivity.
  + intros k. simpl. rewrite in_update_where. split.
    * intros (x & Hx & ->). destruct (N.eq_dec (c_id x) i) as [E|E].
      -- left. rewrite (id_unique x j) by congruence. unfold p. by rewrite Hi, N.eqb_refl, Hs.
      -- right. unfold p. destruct (N.eqb_spec (c_id x) i); done.
    * intros [->|[Hk Hne]]; [exists j | exists k]; (split; [done|]); unfold p.
      -- by rewrite Hi, N.eqb_refl, Hs.
      -- destruct (N.eqb_spec (c_id k) i); done.
Qed.

Lemma cancel_absent :
  (forall j, In j (db_jobs (w_db w)) -> c_id j <> i) ->
  CancelService.cancel i false w = (w, Ok (CancelService.mkCancel false false [] "noop")).
Proof.
  intros Hn. unfold CancelService.cancel. erewrite in_tx_ok; [by rewrite world_eta|].
  unfold CancelService.cancel_tx. etransitivity; [eapply bind_ok|].
  { unfold repo.cancel_immediate, sql_cancel. run. rewrite move_none; [reflexivity|]. intros k Hk.
    unfold cancellable. destruct (N.eqb_spec (c_id k) i) as [Ek|]; [|done]. by specialize (Hn k Hk). }
  cbv beta iota. etransitivity; [eapply bind_ok|].
  { unfold repo.cancel_running, sql_cancel_running. run.
    assert (forall k, In k (db_jobs (w_db w)) -> N.eqb (c_id k) i && JobState_eqb (j_state k) RUNNING = false) as Hf.
    { intros k Hk. destruct (N.eqb_spec (c_id k) i) as [Ek|]; [|done]. by specialize (Hn k Hk). }
    rewrite update_jobs_none, sel_none by done. reflexivity. }
  reflexivity.
Qed.

(** C27. Cancelling one job, by where it is.  A job not yet running is
    archived as cancelled at once; a running job is only flagged, keeping its
    lease, for its worker to see at the next heartbeat; an unknown or finished
    job is left alone and reported as such.  No other live row changes. *)
Theorem cancel_matrix :
  (forall j, In j (db_jobs (w_db w)) -> c_id j = i -> pending_state (j_state j) = true ->
     exists w', CancelService.cancel i false w
         = (w', Ok (CancelService.mkCancel true false [] "archived"))
       /\ db_archive (w_db w') = db_archive (w_db w) ++ [mkArchived j (db_now (w_db w)) CANCELLED]
       /\ (forall k, In k (db_jobs (w_db w')) <-> In k (db_jobs (w_db w)) /\ c_id k <> i)
       /\ db_events (w_db w') = db_events (w_db w) ++ [event_row (w_db w) j "cancelled" None])
  /\ (forall j wk, In j (db_jobs (w_db w)) -> c_id j = i -> j_state j = RUNNING -> j_claimed_by j = Some wk ->
     exists w', CancelService.cancel i false w
         = (w', Ok (CancelService.mkCancel true true [] "cancel_requested"))
       /\ db_archive (w_db w') = db_archive (w_db w)
       /\ (forall k, In k (db_jobs (w_db w')) <->
             k = set_j_cancel_requested true j \/ (In k (db_jobs (w_db w)) /\ c_id k <> i)))
  /\ ((forall j, In j (db_jobs (w_db w)) -> c_id j <> i) ->
     CancelService.cancel i false w = (w, Ok (CancelService.mkCancel false false [] "noop"))).
Proof. split_and!; [apply cancel_pending | apply cancel_leased | apply cancel_absent]. Qed.
End Cancel.

Lemma cancel_matrix_witness :
  exists w', CancelService.cancel 1 false world3 = (w', Ok (CancelService.mkCancel true true [] "cancel_requested")).
Proof.
  destruct (proj1 (proj2 (cancel_matrix world3 1 world3_wf)) job3 "w1" world3_job eq_refl eq_refl eq_refl)
    as (w' & H & _).
  exists w'. exact H.
Defined.

(** ** Resubmit *)

(** The row a resubmission of [a] creates. *)
Definition resubmitted (db : DB) (a : ArchivedJob) : Job :=
  inserted_job db (db_uuid_seq db) (resubmit_spec (a_job a)) (Some (archived_id a)).

Lemma resubmit_found db a :
  wf db -> In a (db_archive db) ->
  List.find (fun x : AnyJob => N.eqb (c_id x) (archived_id a) && String.eqb (c_tenant x) (c_tenant (a_job a))
               && existsb (JobState_eqb (al_final_state x)) [DEAD; CANCELLED; SUCCEEDED]) (jobs_all db)
  = Some (mkAny (a_job a) (Some (a_finished_at a)) (a_final_state a)).
Proof.
  intros Hwf Ha. pose proof (wf_archive _ _ _ (wf_j _ Hwf)) as HA. rewrite Forall_forall in HA.
  destruct (HA a Ha) as [Ht _].
  destruct (List.find _ _) as [x|] eqn:E.
  - apply find_some in E as [Hx Hp]. bool_prop. unfold jobs_all in Hx. rewrite in_app_iff, !in_map_iff in Hx.
    destruct Hx as [(j & <- & Hj)|(b & <- & Hb)].
    + exfalso. by apply (archived_not_live db a j).
    + by rewrite (archived_id_unique db b a).
  - exfalso. eapply find_none in E; [|unfold jobs_all; rewrite in_app_iff, !in_map_iff; right; eauto].
    unfold archived_id in E. simpl in E. rewrite N.eqb_refl, String.eqb_refl in E. simpl in E.
    by destruct (a_final_state a).
Qed.

(** Resubmitting a finished job starts a fresh copy and keeps the record.
    The new row is queued, due now, under a new id that points back to the old
    one, with the old task, payload, routing and chain, no attempt used, no
    dependencies, no gate and no dedup key; the archived row stays.  For a job
    that is not finished, does not exist or belongs to another tenant the call
    raises NotFound and nothing changes. *)
Theorem resubmit_effect w i tenant :
  wf (w_db w) ->
  (forall a, In a (db_archive (w_db w)) -> archived_id a = i -> c_tenant (a_job a) = tenant ->
     let j := resubmitted (w_db w) a in
     exists w', ResubmitService.resubmit i tenant w
         = (w', Ok (ResubmitService.mkResubmit (db_uuid_seq (w_db w)) i))
       /\ db_jobs (w_db w') = db_jobs (w_db w) ++ [j] /\ db_archive (w_db w') = db_archive (w_db w)
       /\ j_state j = QUEUED /\ j_attempt j = 0 /\ j_remaining_deps j = 0 /\ j_run_at j = db_now (w_db w)
       /\ c_resubmitted_from j = Some i /\ c_dedup_key j = None /\ c_parent_gate_id j = None
       /\ c_task_name j = c_task_name (a_job a) /\ c_payload j = c_payload (a_job a)
       /\ c_chain_tail j = c_chain_tail (a_job a) /\ rg_wake (w_registry w') = true)
  /\ ((forall a, In a (db_archive (w_db w)) -> archived_id a = i -> c_tenant (a_job a) <> tenant) ->
     ResubmitService.resubmit i tenant w
     = (w, Raise (err NotFound [("job_id", CtxId i); ("tenant", CtxStr tenant)]))).
Proof.
  intros Hwf. split.
  - intros a Ha <- <- j. eexists. split.
    + unfold ResubmitService.resubmit, on_db, repo.resubmit, sql_resubmit. run.
      rewrite resubmit_found by done. reflexivity.
    + split_and!; reflexivity.
  - intros Hn. unfold ResubmitService.resubmit, on_db, repo.resubmit, sql_resubmit. run.
    destruct (List.find _ _) as [x|] eqn:E.
    + exfalso. apply find_some in E as [Hx Hp]. bool_prop. unfold jobs_all in Hx.
      rewrite in_app_iff, !in_map_iff in Hx. destruct Hx as [(j & <- & Hj)|(b & <- & Hb)].
      * pose proof (wf_rows _ _ _ (wf_j _ Hwf)) as HR. rewrite Forall_forall in HR.
        pose proof (row_live _ (HR j Hj)) as Hl. simpl in *. by destruct (j_state j).
      * by apply (Hn b Hb).
    + by rewrite world_eta.
Qed.

Lemma resubmit_effect_witness :
  exists w', ResubmitService.resubmit 1 "default" world4 = (w', Ok (ResubmitService.mkResubmit 3 1)).
Proof.
  assert (reachable world4) as Hr.
  { eapply reach_step; [apply world3_reachable | apply step_run, run_complete]. }
  destruct (db_archive (w_db world4)) as [|a l] eqn:E; [vm_compute in E; discriminate|].
  assert (Hh : head (db_archive (w_db world4)) = Some a) by (rewrite E; reflexivity).
  assert (Ha : In a (db_archive (w_db world4))) by (rewrite E; left; reflexivity).
  vm_compute in Hh. injection Hh as <-.
  destruct (proj1 (resubmit_effect world4 1 "default" (reachable_wf_db world4 Hr)) _ Ha eq_refl eq_refl)
    as (w' & H & _).
  exists w'. exact H.
Defined.

(** ** The sweeper *)

Definition requeued_lease (now : time) (j : Job) : Job :=
  append_error (lease_expired_entry now) (release_lease (set_j_state QUEUED j)).

(** A running row whose lease may be taken back. *)
Definition reclaimable (lk : locks) (grace : Z) (db : DB) (j : Job) : bool :=
  JobState_eqb (j_state j) RUNNING && (j_cancel_requested j || (j_attempt j <? c_max_attempts j))
  && abandoned grace db j && negb (locked_job lk (c_id j)).

Lemma expired_all lk lim grace db j :
  Z.of_nat (count (reclaimable lk grace db) (db_jobs db)) <= lim ->
  In j (db_jobs db) -> reclaimable lk grace db j = true -> In j (expired_leases lk lim grace db).
Proof.
  intros Hn Hj Hr. unfold expired_leases, limit. fold (reclaimable lk grace db).
  rewrite take_ge; [apply order_by_In; by apply in_sel|]. rewrite order_by_length.
  unfold count in Hn. lia.
Qed.

Lemma expired_reclaimable lk lim grace db j :
  In j (expired_leases lk lim grace db) -> In j (db_jobs db) /\ reclaimable lk grace db j = true.
Proof. intros H%in_limit. apply order_by_In in H. by apply in_sel in H. Qed.

Lemma in_ids_self l (j : Job) : In j l -> in_ids l j = true.
Proof. intros H. apply existsb_exists. exists j. by rewrite N.eqb_refl. Qed.

Section Sweep.
Context (lk : locks) (lim grace : Z) (db : DB).
Hypothesis Hwf : wf db.
Let expired := expired_leases lk lim grace db.

Lemma sweep_rows k :
  In k (db_jobs (fst (sql_sweep_leases lk lim grace db))) <->
  exists j, In j (db_jobs db) /\ (in_ids expired j && j_cancel_requested j) = false
    /\ k = if in_ids expired j && negb (j_cancel_requested j) then requeued_lease (db_now db) j else j.
Proof.
  unfold sql_sweep_leases, move_to_archive. simpl. rewrite in_update_where. split.
  - intros (j & Hj & ->). apply in_delete_where in Hj as [Hj Hp]. exists j. auto.
  - intros (j & Hj & Hp & ->). exists j. split; [by apply in_delete_where | done].
Qed.

(** C28. The lease sweep takes back exactly the abandoned leases.  Only rows
    that are running, unlocked, whose lease has expired or whose worker is gone,
    and that have attempts left or a cancel request, are touched; every such
    row is, when the batch holds them all.  A touched row goes back to the
    queue without its lease and with a history entry, or, when its cancellation
    was requested, is archived as cancelled; all other rows are unchanged. *)
Theorem sweep_reclaims_abandoned j :
  In j (db_jobs db) ->
  let db' := fst (repo.sweep_leases lk lim grace db) in
  (reclaimable lk grace db j = false -> In j (db_jobs db'))
  /\ (reclaimable lk grace db j = true -> Z.of_nat (count (reclaimable lk grace db) (db_jobs db)) <= lim ->
        if j_cancel_requested j then In (mkArchived j (db_now db) CANCELLED) (db_archive db')
        else In (requeued_lease (db_now db) j) (db_jobs db')).
Proof.
  intros Hj db'. assert (db' = fst (sql_sweep_leases lk lim grace db)) as E
    by (unfold db', repo.sweep_leases, stmt; by destruct (sql_sweep_leases lk lim grace db)).
  split.
  - intros Hr. rewrite E. apply sweep_rows. exists j. split; [done|].
    destruct (in_ids expired j) eqn:Ei; [|done]. exfalso.
    apply in_ids_expired in Ei; [|done|done]. apply expired_reclaimable in Ei as [_ ?]. congruence.
  - intros Hr Hn. pose proof (in_ids_self expired j (expired_all lk lim grace db j Hn Hj Hr)) as Hin.
    rewrite E. destruct (j_cancel_requested j) eqn:Ec.
    + unfold sql_sweep_leases, move_to_archive. simpl. apply in_or_app. right. apply in_map_iff. exists j.
      split; [done|]. apply in_sel. split; [done|]. fold expired. by rewrite Hin, Ec.
    + apply sweep_rows. exists j. by rewrite Hin, Ec.
Qed.
End Sweep.

(** [world3] after the lease of its job has run out. *)
Definition expired3 : DB := Eval vm_compute in set_db_now 61000000 (w_db world3).

Lemma expired3_eq : expired3 = set_db_now 61000000 (w_db world3).
Proof. vm_compute. reflexivity. Qed.

Lemma expired3_wf : wf expired3.
Proof.
  rewrite expired3_eq. assert (Ht : db_now (w_db world3) <= 61000000) by (vm_compute; discriminate).
  exact (proj1 (keeps_clock (w_db world3) 61000000 Ht world3_wf)).
Qed.

Lemma sweep_reclaims_abandoned_witness :
  In (requeued_lease 61000000 job3) (db_jobs (fst (repo.sweep_leases no_locks 10 45 expired3))).
Proof.
  assert (Hj : In job3 (db_jobs expired3)) by (left; reflexivity).
  assert (Hr : reclaimable no_locks 45 expired3 job3 = true) by (vm_compute; reflexivity).
  assert (Hn : Z.of_nat (count (reclaimable no_locks 45 expired3) (db_jobs expired3)) <= 10)
    by (vm_compute; discriminate).
  exact (proj2 (sweep_reclaims_abandoned no_locks 10 45 expired3 expired3_wf job3 Hj) Hr Hn).
Defined.

(** Reconciling repairs every drifted counter: afterwards each group
    counter equals the number of running capped jobs of its group, and the
    call reports how many were wrong. *)
Theorem reconcile_exact db :
  exists n, repo.reconcile_group_running db
      = (set_db_group_running (map_imap (fun k _ => Some (actual_running db k)) (db_group_running db)) db, Ok n)
    /\ (forall k c, db_group_running (fst (repo.reconcile_group_running db)) !! k = Some c -> c = actual_running db k)
    /\ (n = 0 <-> forall k c, db_group_running db !! k = Some c -> c = actual_running db k).
Proof.
  eexists. split; [reflexivity|]. split.
  - intros k c. simpl. rewrite map_lookup_imap. destruct (db_group_running db !! k); simpl; [|done].
    by intros [= <-].
  - set (m := filter _ _). split.
    + intros Hs k c Hk. assert (m = ∅) as Hm by (apply map_size_empty_inv; lia).
      destruct (decide (c = actual_running db k)) as [|Hne]; [done|]. exfalso.
      assert (m !! k = Some c) as Hl by (by apply map_lookup_filter_Some). by rewrite Hm in Hl.
    + intros H. assert (m = ∅) as ->; [|by rewrite map_size_empty].
      apply map_empty_filter_2. intros k c Hk. simpl. intros Hne. by apply Hne, H.
Qed.
