(* ===== verification/RateProps.v ===== *)
(** * Token buckets: bounds, the window guarantee and backend agreement *)

From S2P Require Import Prelude PyStr Errors States Json Records Database Queries Tables Claim.
From S2P Require Import Invariant Steps ClaimFacts Repository RepoFacts World RateLimiter.
From Stdlib Require Import QArith Qround Lqa.
Open Scope string_scope.
Open Scope Q_scope.
Open Scope list_scope.

(** ** Arithmetic *)

Lemma qmin_l a b : qmin a b <= a.
Proof. unfold qmin. destruct (Qle_bool a b) eqn:E; [lra|]. destruct (Qlt_le_dec b a); [lra|].
  apply Qle_bool_iff in q. congruence. Qed.
Lemma qmin_r a b : qmin a b <= b.
Proof. unfold qmin. destruct (Qle_bool a b) eqn:E; [by apply Qle_bool_iff | lra]. Qed.
Lemma qmin_glb a b c : c <= a -> c <= b -> c <= qmin a b.
Proof. intros. unfold qmin. by destruct (Qle_bool a b). Qed.

Lemma qfloor_le_Z q z : q <= inject_Z z -> (Qfloor q <= z)%Z.
Proof. intros H. rewrite <- (Qfloor_Z z). by apply Qfloor_resp_le. Qed.
Lemma qfloor_nonneg q : 0 <= q -> (0 <= Qfloor q)%Z.
Proof. intros H. change 0%Z with (Qfloor (inject_Z 0)). by apply Qfloor_resp_le. Qed.

Section Bucket.
Context (capacity refill : Q).
Hypothesis capacity_nonneg : 0 <= capacity.
Hypothesis refill_nonneg : 0 <= refill.

(** A bucket the scripts may find: absent, or with a level in range. *)
Definition bucket_ok (b : option Bucket) : Prop :=
  match b with Some x => 0 <= bk_tokens x <= capacity | None => True end.

Lemma elapsed_nonneg now ts : 0 <= (if Qle_bool 0 (now - ts) then now - ts else 0).
Proof. destruct (Qle_bool 0 (now - ts)) eqn:E; [by apply Qle_bool_iff | lra]. Qed.

Lemma elapsed_le now ts d : now - ts <= d -> 0 <= d -> (if Qle_bool 0 (now - ts) then now - ts else 0) <= d.
Proof. intros. by destruct (Qle_bool 0 (now - ts)). Qed.

Lemma unexpired_ok rnow b : bucket_ok b -> bucket_ok (unexpired rnow b).
Proof. destruct b as [[tk ts [e|]]|]; simpl; try done. by destruct (Qle_bool e rnow). Qed.

(** One take: the level before it is the level after plus the grant, at most
    the capacity, and at most the old level plus what the time since then refills. *)
Lemma take_spec now rnow want b :
  bucket_ok b -> (0 <= want)%Z ->
  let '(b', granted) := lua_refill_take capacity refill now rnow want b in
  (0 <= granted <= want)%Z /\ 0 <= bk_tokens b' /\ bk_ts b' = now /\ bk_expires b' = Some (rnow + 3600)
  /\ bk_tokens b' + inject_Z granted <= capacity
  /\ (forall x d, unexpired rnow b = Some x -> now - bk_ts x <= d -> 0 <= d ->
        bk_tokens b' + inject_Z granted <= bk_tokens x + d * refill).
Proof.
  intros Hb%(unexpired_ok rnow) Hw. unfold lua_refill_take.
  destruct (match unexpired rnow b with Some b0 => (bk_tokens b0, bk_ts b0) | None => (capacity, now) end)
    as [tk ts] eqn:Eb.
  assert (0 <= tk <= capacity) as Htk.
  { destruct (unexpired rnow b) as [x|]; injection Eb as <- <-; [exact Hb | lra]. }
  set (el := if Qle_bool 0 (now - ts) then now - ts else 0).
  pose proof (elapsed_nonneg now ts) as Hel. fold el in Hel.
  assert (0 <= el * refill) as Her by (by apply Qmult_le_0_compat).
  set (lvl := qmin capacity (tk + el * refill)).
  assert (0 <= lvl) as Hl0 by (apply qmin_glb; lra).
  pose proof (qmin_l capacity (tk + el * refill)) as Hlc. fold lvl in Hlc.
  pose proof (qmin_r capacity (tk + el * refill)) as Hlr. fold lvl in Hlr.
  set (g := Qfloor (qmin lvl (inject_Z want))).
  assert (inject_Z g <= lvl) as Hgl.
  { unfold g. pose proof (Qfloor_le (qmin lvl (inject_Z want))). pose proof (qmin_l lvl (inject_Z want)). lra. }
  assert (0 <= g)%Z as Hg0.
  { apply qfloor_nonneg, qmin_glb; [done|]. change 0 with (inject_Z 0). by rewrite <- Zle_Qle. }
  cbn [bk_tokens bk_ts bk_expires]. split_and!; try done; try lra.
  - apply qfloor_le_Z, qmin_r.
  - intros x d E Hd Hd0. rewrite E in Eb. injection Eb as <- <-.
    assert (el * refill <= d * refill) by (apply Qmult_le_compat_r; [by apply elapsed_le | done]). lra.
Qed.

Lemma return_ok give rnow b : (0 <= give)%Z -> bucket_ok b -> bucket_ok (lua_return capacity give rnow b).
Proof.
  intros Hg Hb%(unexpired_ok rnow). unfold lua_return. destruct (unexpired rnow b) as [x|]; [|done]. simpl in *.
  assert (0 <= inject_Z give) as HgQ by (change 0 with (inject_Z 0); by rewrite <- Zle_Qle).
  split; [apply qmin_glb; lra | apply qmin_l].
Qed.

(** ** The window *)

(** The calls on one bucket: [now] is the clock of the engine that calls, [rnow]
    the server's at the call. *)
Inductive op := Take (now rnow : Q) (want : Z) | Give (rnow : Q) (n : Z) | Drain (now rnow : Q).

(** The bucket after a run of calls, with the tokens granted and returned. *)
Fixpoint run_ops (ops : list op) (b : option Bucket) : option Bucket * Z * Z :=
  match ops with
  | [] => (b, 0%Z, 0%Z)
  | Take now rnow want :: ops' =>
      let '(b', g) := lua_refill_take capacity refill now rnow want b in
      let '(bf, gs, rs) := run_ops ops' (Some b') in (bf, (g + gs)%Z, rs)
  | Give rnow n :: ops' =>
      let '(bf, gs, rs) := run_ops ops' (lua_return capacity n rnow b) in (bf, gs, (n + rs)%Z)
  | Drain now rnow :: ops' => run_ops ops' (hset_empty now rnow b)
  end.

(** Calls with counts that are not negative, at any clocks. *)
Definition op_ok (o : op) : Prop := match o with Take _ _ n | Give _ n => (0 <= n)%Z | Drain _ _ => True end.

Lemma run_ops_bounds ops b : bucket_ok b -> Forall op_ok ops -> bucket_ok (fst (fst (run_ops ops b))).
Proof.
  revert b. induction ops as [|[now rnow want|rnow n|now rnow] ops IH]; intros b Hb Ho; simpl; [done|..];
    inversion_clear Ho as [|? ? Hn Ho'].
  - pose proof (take_spec now rnow want b Hb Hn) as H.
    destruct (lua_refill_take capacity refill now rnow want b) as [b' g].
    destruct H as (Hg & Hb' & _ & _ & Hc & _).
    assert (0 <= inject_Z g) by (change 0 with (inject_Z 0); rewrite <- Zle_Qle; lia).
    specialize (IH (Some b') ltac:(simpl; lra) Ho'). by destruct (run_ops ops (Some b')) as [[bf gs] rs].
  - specialize (IH _ (return_ok n rnow b Hn Hb) Ho').
    by destruct (run_ops ops (lua_return capacity n rnow b)) as [[bf gs] rs].
  - apply IH; [simpl; lra | done].
Qed.

(** The server's clock does not run back over the calls, and an engine's
    clock is within [skew] of it. *)
Fixpoint timed (skew lo hi : Q) (ops : list op) : Prop :=
  match ops with
  | [] => lo <= hi
  | Take now rnow _ :: ops' | Drain now rnow :: ops' =>
      lo <= rnow /\ rnow - skew <= now <= rnow + skew /\ timed skew rnow hi ops'
  | Give rnow _ :: ops' => lo <= rnow /\ timed skew rnow hi ops'
  end.

Definition is_take (o : op) : bool := match o with Take _ _ _ => true | _ => false end.
Definition takes (ops : list op) : Q := inject_Z (Z.of_nat (count is_take ops)).

(** The rate a bucket can be emptied at in the long run: its refill rate, or
    one bucket per hour if that is more, since an idle bucket expires. *)
Definition emptying_rate : Q := if Qle_bool (capacity / 3600) refill then refill else capacity / 3600.

Lemma emptying_rate_spec : refill <= emptying_rate /\ capacity <= 3600 * emptying_rate.
Proof.
  assert (capacity == 3600 * (capacity / 3600)) as E by field.
  unfold emptying_rate. destruct (Qle_bool (capacity / 3600) refill) eqn:H.
  - apply Qle_bool_iff in H. split; [lra|]. rewrite E. apply Qmult_le_l; [lra | exact H].
  - destruct (Qlt_le_dec refill (capacity / 3600)) as [Hl|Hl]; [|apply Qle_bool_iff in Hl; congruence]. split; lra.
Qed.

Lemma rate_mono a b : a <= b -> emptying_rate * a <= emptying_rate * b.
Proof.
  intros H. rewrite !(Qmult_comm emptying_rate). apply Qmult_le_compat_r; [done|].
  pose proof emptying_rate_spec. lra.
Qed.

(** The state of the argument: [beta] bounds what the bucket can still grant,
    as a line of slope [emptying_rate] in the server's time.  [s] is the server's
    time when the bucket's stamp was written. *)
Definition credit (skew beta r : Q) (b : option Bucket) : Prop :=
  bucket_ok b /\ 0 <= beta + emptying_rate * r
  /\ match b with
     | None => capacity <= beta + emptying_rate * r
     | Some x => (exists s, s <= r /\ s - skew <= bk_ts x /\ bk_tokens x <= beta + emptying_rate * s)
                 /\ forall e, bk_expires x = Some e -> capacity <= beta + emptying_rate * e
     end.

Lemma credit_live skew beta r r' b :
  credit skew beta r b -> r <= r' ->
  0 <= beta + emptying_rate * r' /\ (unexpired r' b = None -> capacity <= beta + emptying_rate * r').
Proof.
  intros (_ & Hpos & Hb) Hr. pose proof (rate_mono r r' Hr). split; [lra|].
  destruct b as [x|]; simpl; [|intros; lra]. destruct Hb as [_ He]. destruct (bk_expires x) as [e|]; [|done].
  destruct (Qle_bool e r') eqn:E; [|done]. apply Qle_bool_iff, rate_mono in E. specialize (He e eq_refl). intros. lra.
Qed.

Lemma unexpired_some r b x : unexpired r b = Some x -> b = Some x.
Proof. destruct b as [[tk ts [e|]]|]; simpl; try done. by destruct (Qle_bool e r). Qed.

Lemma credit_take skew beta r b now r' want :
  0 <= skew -> credit skew beta r b -> r <= r' -> r' - skew <= now <= r' + skew -> (0 <= want)%Z ->
  let '(b', g) := lua_refill_take capacity refill now r' want b in
  credit skew (beta + 2 * (emptying_rate * skew) - inject_Z g) r' (Some b').
Proof.
  intros Hsk Hc Hr Hnow Hw. destruct (credit_live _ _ _ _ _ Hc Hr) as [Hpos Hnone]. destruct Hc as (Hb & _ & Hx).
  pose proof (take_spec now r' want b Hb Hw) as H.
  destruct (lua_refill_take capacity refill now r' want b) as [b' g].
  destruct H as (Hg & Ht & Hts & He & Hcap & Hel).
  assert (0 <= inject_Z g) as HgQ by (change 0 with (inject_Z 0); rewrite <- Zle_Qle; lia).
  pose proof (rate_mono 0 skew Hsk) as Hrs. destruct emptying_rate_spec as [Hr1 Hr2].
  assert (bk_tokens b' + inject_Z g <= beta + 2 * (emptying_rate * skew) + emptying_rate * r') as Hkey.
  { destruct (unexpired r' b) as [x|] eqn:Ex; [|specialize (Hnone eq_refl); lra].
    apply unexpired_some in Ex as ->. destruct Hx as [(s & Hs & Hstamp & Htk) _].
    specialize (Hel x (r' - s + 2 * skew) eq_refl ltac:(lra) ltac:(lra)).
    assert ((r' - s + 2 * skew) * refill <= (r' - s + 2 * skew) * emptying_rate) by (rewrite !(Qmult_comm (r' - s + 2 * skew)); apply Qmult_le_compat_r; lra).
    lra. }
  split; [simpl; lra|]. split; [lra|]. split.
  - exists r'. rewrite Hts. lra.
  - intros e. rewrite He. intros [= <-]. lra.
Qed.

Lemma credit_give skew beta r b r' n :
  credit skew beta r b -> r <= r' -> (0 <= n)%Z ->
  credit skew (beta + inject_Z n) r' (lua_return capacity n r' b).
Proof.
  intros Hc Hr Hn. destruct (credit_live _ _ _ _ _ Hc Hr) as [Hpos Hnone]. destruct Hc as (Hb & _ & Hx).
  assert (0 <= inject_Z n) as HnQ by (change 0 with (inject_Z 0); by rewrite <- Zle_Qle).
  split; [by apply return_ok|]. split; [lra|]. unfold lua_return.
  destruct (unexpired r' b) as [x|] eqn:Ex; [|specialize (Hnone eq_refl); lra].
  apply unexpired_some in Ex as ->. destruct Hx as [(s & Hs & Hstamp & Htk) He]. cbn [bk_tokens bk_ts bk_expires]. split.
  - exists s. pose proof (qmin_r capacity (bk_tokens x + inject_Z n)). lra.
  - intros e E. specialize (He e E). lra.
Qed.

Lemma credit_drain skew beta r b now r' :
  credit skew beta r b -> r <= r' -> r' - skew <= now -> credit skew beta r' (hset_empty now r' b).
Proof.
  intros Hc Hr Hnow. destruct (credit_live _ _ _ _ _ Hc Hr) as [Hpos _]. destruct Hc as (Hb & _ & Hx).
  split; [simpl; lra|]. split; [done|]. unfold hset_empty. cbn [bk_tokens bk_ts bk_expires]. split.
  - exists r'. lra.
  - destruct (unexpired r' b) as [x|] eqn:Ex; [|done]. apply unexpired_some in Ex as ->. apply Hx.
Qed.

Lemma takes_cons o ops : takes (o :: ops) == (if is_take o then 1 else 0) + takes ops.
Proof. unfold takes. rewrite count_cons, Nat2Z.inj_add, inject_Z_plus. by destruct (is_take o). Qed.

Lemma window_from skew ops beta r b hi :
  0 <= skew -> credit skew beta r b -> Forall op_ok ops -> timed skew r hi ops ->
  let '(_, granted, returned) := run_ops ops b in
  inject_Z granted - inject_Z returned
  <= beta + emptying_rate * hi + 2 * (emptying_rate * skew) * takes ops.
Proof.
  intros Hsk. revert beta r b.
  induction ops as [|[now r' want|r' n|now r'] ops IH]; intros beta r b Hc Ho Ht; simpl run_ops.
  - destruct Hc as (_ & Hpos & _). pose proof (rate_mono r hi Ht). change (takes []) with 0.
    change (inject_Z 0) with 0. lra.
  - destruct Ht as (Hr & Hnow & Ht). inversion_clear Ho as [|? ? Hw Ho'].
    pose proof (credit_take _ _ _ _ now r' want Hsk Hc Hr Hnow Hw) as Hc'.
    destruct (lua_refill_take capacity refill now r' want b) as [b' g].
    specialize (IH _ _ _ Hc' Ho' Ht). destruct (run_ops ops (Some b')) as [[bf gs] rs].
    rewrite takes_cons, !inject_Z_plus. cbn [is_take]. lra.
  - destruct Ht as (Hr & Ht). inversion_clear Ho as [|? ? Hn Ho'].
    specialize (IH _ _ _ (credit_give _ _ _ _ r' n Hc Hr Hn) Ho' Ht).
    destruct (run_ops ops _) as [[bf gs] rs]. rewrite takes_cons, inject_Z_plus. cbn [is_take]. lra.
  - destruct Ht as (Hr & Hnow & Ht). inversion_clear Ho as [|? ? _ Ho'].
    specialize (IH _ _ _ (credit_drain _ _ _ _ now r' Hc Hr (proj1 Hnow)) Ho' Ht).
    destruct (run_ops ops _) as [[bf gs] rs]. rewrite takes_cons. cbn [is_take]. lra.
Qed.

(** C39. The rate guarantee of a Redis bucket. Whatever takes, give-backs and
    drains are made, at any clocks, a bucket stays between zero and its capacity.
    And take the calls from a first take at the server's time [t0] to [t1], made
    by any engines in any interleaving, where the server's clock does not run
    back and the clock each engine passes is within [skew] of it.  The tokens
    granted and not returned are at most the capacity, plus what the window
    produces at the emptying rate, plus twice the skew's worth for every later
    take.  The emptying rate is the refill rate when it fills the bucket within
    an hour, else one capacity per hour, since the key of a bucket that
    is idle for an hour expires and then reads as full. *)
Theorem window_guarantee b :
  bucket_ok b ->
  (forall ops, Forall op_ok ops -> bucket_ok (fst (fst (run_ops ops b))))
  /\ (forall skew now t0 t1 want ops, 0 <= skew -> t0 - skew <= now <= t0 + skew -> (0 <= want)%Z ->
        Forall op_ok ops -> timed skew t0 t1 ops ->
        let '(_, granted, returned) := run_ops (Take now t0 want :: ops) b in
        inject_Z granted - inject_Z returned
        <= capacity + emptying_rate * (t1 - t0 + 2 * skew * takes ops)).
Proof.
  intros Hb. split; [intros; by apply run_ops_bounds|].
  intros skew now t0 t1 want ops Hsk Hnow Hw Ho Ht. cbn [run_ops].
  pose proof (take_spec now t0 want b Hb Hw) as H.
  destruct (lua_refill_take capacity refill now t0 want b) as [b' g].
  destruct H as (Hg & Htk & Hts & He & Hc & _).
  assert (0 <= inject_Z g) as HgQ by (change 0 with (inject_Z 0); rewrite <- Zle_Qle; lia).
  destruct emptying_rate_spec as [_ Hr2].
  assert (credit skew (capacity - inject_Z g - emptying_rate * t0) t0 (Some b')) as Hcr.
  { split; [simpl; lra|]. split; [lra|]. split; [exists t0; rewrite Hts; lra|].
    intros e. rewrite He. intros [= <-]. lra. }
  pose proof (window_from skew ops _ t0 (Some b') t1 Hsk Hcr Ho Ht) as Hwin.
  destruct (run_ops ops (Some b')) as [[bf gs] rs]. rewrite inject_Z_plus. lra.
Qed.
End Bucket.

Lemma window_guarantee_witness :
  bucket_ok 10 (fst (fst (run_ops 10 2 [Take 5 5 8; Give 6 3; Drain 3 7; Take 1 8 20] None)))
  /\ (let '(_, granted, returned) := run_ops 10 2 [Take 0 0 8; Give 0 3; Take 1 1 20] None in
      inject_Z granted - inject_Z returned <= 12).
Proof.
  destruct (window_guarantee 10 2 ltac:(lra) ltac:(lra) None I) as [H1 H2]. split.
  - apply H1. repeat constructor; simpl; lia.
  - specialize (H2 0 0 0 1 8%Z [Give 0 3; Take 1 1 20] ltac:(lra) ltac:(lra) ltac:(lia)
                  ltac:(repeat constructor; simpl; lia) ltac:(simpl; repeat split; lra)).
    destruct (run_ops 10 2 [Take 0 0 8; Give 0 3; Take 1 1 20] None) as [[bf g] r].
    eapply Qle_trans; [exact H2|]. vm_compute. discriminate.
Defined.

(** A slow bucket gives more than capacity plus refill: two hundred tokens in
    an hour and a second, where a hundred and four would be due. *)
Example slow_refill_expires :
  snd (fst (run_ops 100 (1 # 1000) [Take 0 0 100; Take 3601 3601 100] None)) = 200%Z.
Proof. reflexivity. Qed.

(** Two engines whose clocks are ten seconds apart refill the bucket at every
    turn: no time passes and fifty tokens go out of a bucket of ten. *)
Example skewed_clocks_overgrant :
  snd (fst (run_ops 10 1 [Take 10 0 10; Take 0 0 10; Take 10 0 10; Take 0 0 10; Take 10 0 10; Take 0 0 10;
                          Take 10 0 10; Take 0 0 10; Take 10 0 10] None)) = 50%Z.
Proof. reflexivity. Qed.

(** ** The two backends *)

#[global] Instance qmin_proper : Proper (Qeq ==> Qeq ==> Qeq) qmin.
Proof.
  intros a a' Ha b b' Hb. unfold qmin.
  destruct (Qle_bool a b) eqn:E1, (Qle_bool a' b') eqn:E2; try done.
  - apply Qle_bool_iff in E1. exfalso.
    assert (Qle_bool a' b' = true) by (apply Qle_bool_iff; lra). congruence.
  - apply Qle_bool_iff in E2. exfalso.
    assert (Qle_bool a b = true) by (apply Qle_bool_iff; lra). congruence.
Qed.

Lemma epoch_seconds a b : epoch a b == seconds b - seconds a.
Proof. unfold epoch, seconds, Z.sub. rewrite inject_Z_plus, inject_Z_opp. field. Qed.

(** The Postgres fallback and the Redis script are one algorithm: on the
    same bucket at the same time, with the last refill not in the future, the
    statement grants exactly the tokens the script grants and leaves the same
    level; giving tokens back leaves the same level too.  The statement's row
    does not expire: this is a key that has not either. *)
Theorem pg_matches_redis db name rc want give rnow e :
  db_rate_classes db !! name = Some rc -> (rc_refilled_at rc <= db_now db)%Z -> (0 < give)%Z ->
  let bucket := Some (mkBucket (rc_tokens rc) (seconds (rc_refilled_at rc)) e) in
  unexpired rnow bucket = bucket ->
  let '(taken, granted) :=
    lua_refill_take (rc_capacity rc) (rc_refill_per_s rc) (seconds (db_now db)) rnow want bucket in
  (exists db' rc', repo.rate_take_pg name want db = (db', Ok granted)
     /\ db_rate_classes db' !! name = Some rc' /\ rc_tokens rc' == bk_tokens taken /\ rc_refilled_at rc' = db_now db)
  /\ (exists db' rc' b, repo.rate_return_pg name give db = (db', Ok tt)
     /\ db_rate_classes db' !! name = Some rc'
     /\ lua_return (rc_capacity rc) give rnow bucket = Some b /\ rc_tokens rc' == bk_tokens b).
Proof.
  intros Hrc Hpast Hgive bucket Hlive.
  assert ((if Qle_bool 0 (seconds (db_now db) - seconds (rc_refilled_at rc))
           then seconds (db_now db) - seconds (rc_refilled_at rc) else 0)
          == epoch (rc_refilled_at rc) (db_now db)) as He.
  { rewrite epoch_seconds. destruct (Qle_bool _ _) eqn:E; [reflexivity|]. exfalso.
    assert (0 <= seconds (db_now db) - seconds (rc_refilled_at rc)) as H0.
    { rewrite <- epoch_seconds. unfold epoch. apply Qmult_le_0_compat; [|done].
      change 0 with (inject_Z 0). rewrite <- Zle_Qle. lia. }
    apply Qle_bool_iff in H0. congruence. }
  unfold lua_refill_take, lua_return. rewrite Hlive. unfold bucket. cbn [bk_tokens bk_ts]. set (el := if Qle_bool _ _ then _ else _) in *.
  set (refilled := qmin (rc_capacity rc)
         (rc_tokens rc + epoch (rc_refilled_at rc) (db_now db) * rc_refill_per_s rc)).
  assert (qmin (rc_capacity rc) (rc_tokens rc + el * rc_refill_per_s rc) == refilled) as Hr
    by (unfold refilled; by rewrite He).
  assert (Qfloor (qmin (qmin (rc_capacity rc) (rc_tokens rc + el * rc_refill_per_s rc)) (inject_Z want))
          = Qfloor (qmin refilled (inject_Z want))) as Hg by (apply Qfloor_comp; by rewrite Hr).
  split.
  - rewrite Hg. eexists _, _. split; [|split; [|split]].
    + unfold repo.rate_take_pg, sql_rate_take_pg, mbind, M_bind, M_bind_def, stmt. rewrite Hrc. reflexivity.
    + simpl. apply lookup_insert_eq.
    + simpl. fold refilled. by rewrite Hr.
    + done.
  - eexists _, _, _. split; [|split; [|split]].
    + unfold repo.rate_return_pg. destruct (Z.leb_spec give 0); [lia|]. reflexivity.
    + simpl. rewrite lookup_alter_eq, Hrc. reflexivity.
    + reflexivity.
    + reflexivity.
Qed.

Definition demo_rates : DB :=
  set_db_now 2000000 (set_db_rate_classes {[ "api" := mkRate 10 2 (5#2) 1000000 0 ]}
    (mkDB [] [] [] [] [] ∅ ∅ [] [] [] ∅ 0 1 1)).

Lemma pg_matches_redis_witness :
  exists db', repo.rate_take_pg "api" 3 demo_rates = (db', Ok 3%Z).
Proof.
  pose proof (pg_matches_redis demo_rates "api" (mkRate 10 2 (5#2) 1000000 0) 3 1 0 None eq_refl
                ltac:(vm_compute; discriminate) ltac:(lia) eq_refl) as H.
  cbv zeta in H. match type of H with context [lua_refill_take ?a ?b ?c ?d ?e ?f] =>
    destruct (lua_refill_take a b c d e f) as [bk g] eqn:E end.
  vm_compute in E. injection E as _ <-. destruct H as [(db' & rc' & H & _) _]. exists db'. exact H.
Defined.
