(* ===== verification/WorkerProps.v ===== *)
(** * Workers: registry generations and the dispatcher's tick *)

From S2P Require Import Prelude PyStr Errors States Chain Json Records Database Queries Tables.
From S2P Require Import Claim Invariant Steps ClaimFacts Repository RepoFacts World RateLimiter.
From S2P Require Import RegistryService Matcher JobService SubmitService Loops Exec.
Open Scope string_scope.
Open Scope Z_scope.
Open Scope list_scope.

(** ** The registry *)

Lemma od_get_set k k' v d : od_get k (od_set k' v d) = if String.eqb k k' then Some v else od_get k d.
Proof.
  induction d as [|[x y] d IH]; simpl.
  - by destruct (String.eqb k k').
  - destruct (String.eqb_spec k' x) as [->|Hx]; simpl.
    + by destruct (String.eqb k x).
    + rewrite IH. destruct (String.eqb_spec k x) as [->|]; [|done].
      destruct (String.eqb_spec x k'); congruence.
Qed.

Lemma od_get_pop k k' d :
  List.NoDup (map fst d) -> od_get k (od_pop k' d) = if String.eqb k k' then None else od_get k d.
Proof.
  assert (forall k d, ~ In k (map fst d) -> od_get k d = None) as Habs.
  { intros k0 d0. induction d0 as [|[x y] d0 IH]; simpl; [done|]. intros Hn.
    destruct (String.eqb_spec k0 x) as [->|]; [tauto|]. apply IH. tauto. }
  induction d as [|[x y] d IH]; simpl; [by destruct (String.eqb k k')|].
  intros [Hx Hd]%NoDup_cons_iff. destruct (String.eqb_spec k' x) as [->|Hne]; simpl.
  - destruct (String.eqb_spec k x) as [->|]; [by apply Habs | done].
  - rewrite (IH Hd). destruct (String.eqb_spec k x) as [->|]; [|done].
    destruct (String.eqb_spec x k'); congruence.
Qed.

(** Reconnecting is safe: once a worker has registered again under a new
    connection, the clean-up and the slot updates of the old connection report
    that they were superseded and change nothing; the clean-up of the current
    connection removes that worker and no other. *)
Theorem registry_generations w id r2 :
  od_get id (rg_workers (w_registry w)) = Some r2 ->
  (forall r1 n tags tasks, r1 <> r2 ->
     WorkerRegistry.unregister id (Some r1) w = (w, Ok false)
     /\ WorkerRegistry.update_slots id n tags tasks (Some r1) w = (w, Ok false))
  /\ (List.NoDup (map fst (rg_workers (w_registry w))) ->
      exists w', WorkerRegistry.unregister id (Some r2) w = (w', Ok true)
        /\ forall k, od_get k (rg_workers (w_registry w'))
                     = if String.eqb k id then None else od_get k (rg_workers (w_registry w))).
Proof.
  intros Hg. split.
  - intros r1 n tags tasks Hne.
    assert (WorkerRegistry.superseded (Some r2) (Some r1) = true) as Hs.
    { simpl. apply negb_true_iff, Nat.eqb_neq. congruence. }
    split.
    + unfold WorkerRegistry.unregister. run. by rewrite Hg, Hs.
    + unfold WorkerRegistry.update_slots, clock. run. by rewrite Hg, Hs.
  - intros Hnd. eexists. split.
    + unfold WorkerRegistry.unregister. run. rewrite Hg. simpl. rewrite Nat.eqb_refl. reflexivity.
    + intros k. simpl. by apply od_get_pop.
Qed.

Definition conn_ (id : string) : WorkerConn := mkConn id ∅ 1 [] ∅ 1 0 [].
Definition reconnected : World :=
  mkWorld (mkDB [] [] [] [] [] ∅ ∅ [] [] [] ∅ 0 1 1)
    (WorkerRegistry.register_mem 1%nat (conn_ "w1")
       (WorkerRegistry.register_mem 0%nat (conn_ "w1") (mkRegistry ∅ [] ∅ false)))
    (mkLimiter None ∅ false) [] 0.

Lemma registry_generations_witness :
  WorkerRegistry.unregister "w1" (Some 0%nat) reconnected = (reconnected, Ok false).
Proof.
  apply (proj1 (registry_generations reconnected "w1" 1%nat eq_refl) 0%nat 0 None None). discriminate.
Defined.

(** ** The tick *)

(** The dispatcher backs off and recovers: whatever the passes do, the
    pause stays between the configured minimum and maximum; after a pass that
    did work it is the minimum again; after n idle passes from there it is the
    minimum doubled n times, capped at the maximum. *)
Theorem tick_schedule cfg work n :
  0 < min_tick_ms cfg <= max_tick_ms cfg ->
  min_tick_ms cfg <= Dispatcher.ticks cfg work <= max_tick_ms cfg
  /\ Dispatcher.ticks cfg (work ++ [true]) = min_tick_ms cfg
  /\ Dispatcher.ticks cfg (work ++ true :: repeat false n) = Z.min (min_tick_ms cfg * 2 ^ Z.of_nat n) (max_tick_ms cfg).
Proof.
  intros Hc. unfold Dispatcher.ticks. split_and!.
  1-2: assert (forall t, min_tick_ms cfg <= t <= max_tick_ms cfg ->
         min_tick_ms cfg <= foldl (Dispatcher.next_tick_ms cfg) t work <= max_tick_ms cfg) as H;
       [induction work as [|b work IH]; intros t Ht; simpl; [lia|]; apply IH; destruct b; simpl; lia
       |apply H; lia].
  - by rewrite foldl_app.
  - rewrite foldl_app. cbn [foldl]. unfold Dispatcher.next_tick_ms at 2. generalize (foldl (Dispatcher.next_tick_ms cfg) (min_tick_ms cfg) work). intros _.
    induction n as [|n IH].
    + simpl. lia.
    + cbn [repeat]. rewrite repeat_cons, foldl_app, IH. cbn [foldl]. unfold Dispatcher.next_tick_ms.
      rewrite Nat2Z.inj_succ, Z.pow_succ_r by lia. lia.
Qed.

Lemma tick_schedule_witness :
  Dispatcher.ticks default_config (true :: repeat false 3) = 80
  /\ Dispatcher.ticks default_config (true :: repeat false 9) = 250.
Proof.
  assert (Hc : 0 < min_tick_ms default_config <= max_tick_ms default_config) by (simpl; lia).
  split; [exact (proj2 (proj2 (tick_schedule default_config [] 3 Hc)))
         |exact (proj2 (proj2 (tick_schedule default_config [] 9 Hc)))].
Defined.
