(* ===== verification/AssignProps.v ===== *)
(** * Shaping and assignment of a claimed batch (services/matcher.py) *)

From S2P Require Import Prelude PyStr Errors States Chain Json Records Database Queries Tables.
From S2P Require Import Claim Invariant Steps ClaimFacts Repository RepoFacts World RateLimiter.
From S2P Require Import RegistryService Matcher.
Open Scope string_scope.
Open Scope Z_scope.
Open Scope list_scope.

Import repo.

(** ** Round-robin assignment *)

Abbreviation slotw := (string * ref)%type.

(** Room left on a worker. *)
Definition room (rem : gmap string Z) (w : slotw) : Z := default 0 (rem !! fst w).

Definition rooms (rem : gmap string Z) (ws : list slotw) : Z := foldr (fun w acc => Z.max 0 (room rem w) + acc) 0 ws.

Lemma probe_some tries idx ws rem w n :
  Matcher.probe tries idx ws rem = (Some w, n) -> In w ws /\ 0 < room rem w.
Proof.
  revert idx. induction tries as [|t IH]; intros idx; simpl; [done|].
  destruct (ws !! (idx mod length ws)%nat) as [x|] eqn:E; [|done].
  destruct (Z.ltb_spec 0 (default 0 (rem !! fst x))); [|apply IH].
  intros [= <- _]. split; [|done]. apply list_elem_of_In. by eapply list_elem_of_lookup_2.
Qed.

Lemma probe_none tries idx ws rem n :
  Matcher.probe tries idx ws rem = (None, n) ->
  forall k w, (k < tries)%nat -> ws !! ((idx + k) mod length ws)%nat = Some w -> room rem w <= 0.
Proof.
  revert idx. induction tries as [|t IH]; intros idx; simpl; [lia|].
  destruct (ws !! (idx mod length ws)%nat) as [x|] eqn:E.
  - destruct (Z.ltb_spec 0 (default 0 (rem !! fst x))); [done|]. intros Hp k w Hk Hw.
    destruct k as [|k].
    + rewrite Nat.add_0_r, E in Hw. by injection Hw as <-.
    + apply (IH (S idx) Hp k w); [lia|]. by replace (S idx + k)%nat with (idx + S k)%nat by lia.
  - intros _ k w _ Hw. exfalso. destruct ws as [|y ws]; [done|].
    apply lookup_ge_None in E. pose proof (Nat.mod_upper_bound idx (length (y :: ws)) ltac:(done)). lia.
Qed.

(** One round over the ring visits every worker. *)
Lemma ring_covers len idx p : (p < len)%nat -> exists k, (k < len)%nat /\ ((idx + k) mod len = p)%nat.
Proof.
  intros Hp. exists ((p + (len - idx mod len)) mod len)%nat.
  pose proof (Nat.mod_upper_bound idx len ltac:(lia)) as Hi. split; [apply Nat.mod_upper_bound; lia|].
  rewrite Nat.Div0.add_mod_idemp_r, <- Nat.Div0.add_mod_idemp_l.
  replace (idx mod len + (p + (len - idx mod len)))%nat with (p + 1 * len)%nat by lia.
  rewrite Nat.Div0.mod_add. by apply Nat.mod_small.
Qed.

Lemma probe_finds idx ws rem :
  0 < rooms rem ws -> exists w n, Matcher.probe (length ws) idx ws rem = (Some w, n).
Proof.
  intros H. destruct (Matcher.probe (length ws) idx ws rem) as [[w|] n] eqn:E; [eauto|]. exfalso.
  assert (forall w, In w ws -> room rem w <= 0) as Hall.
  { intros w Hw. rewrite <- list_elem_of_In in Hw. apply list_elem_of_lookup in Hw as (p & Hp).
    destruct (ring_covers (length ws) idx p) as (k & Hk & Hkp); [by eapply lookup_lt_Some|].
    eapply probe_none; [exact E | exact Hk | by rewrite Hkp]. }
  clear E. unfold rooms in H. induction ws as [|w ws IH]; simpl in *; [lia|].
  specialize (Hall w (or_introl eq_refl)) as Hw. apply IH; [lia|]. intros x Hx. apply Hall. by right.
Qed.

(** Giving one slot of [w] away. *)
Lemma rooms_take rem ws w :
  List.NoDup (map fst ws) -> In w ws -> 0 < room rem w ->
  rooms (<[fst w := room rem w - 1]> rem) ws = rooms rem ws - 1.
Proof.
  unfold rooms. intros Hnd Hw Hr.
  assert (forall l, ~ In (fst w) (map fst l) ->
            foldr (fun x acc => Z.max 0 (room (<[fst w := room rem w - 1]> rem) x) + acc) 0 l
            = foldr (fun x acc => Z.max 0 (room rem x) + acc) 0 l) as Hother.
  { induction l as [|x l IH]; simpl; [done|]. intros Hn. rewrite IH by tauto. unfold room at 1.
    rewrite lookup_insert_ne; [done|]. intros E. apply Hn. left. congruence. }
  induction ws as [|x ws IH]; simpl in *; [done|]. apply NoDup_cons_iff in Hnd as [Hx Hnd].
  destruct Hw as [->|Hw].
  - rewrite (Hother ws Hx). unfold room at 1. rewrite lookup_insert_eq. simpl. unfold room in *. lia.
  - rewrite (IH Hnd Hw). unfold room at 1. rewrite lookup_insert_ne; [unfold room; lia|].
    intros E. apply Hx. rewrite <- E. by apply in_map.
Qed.

Definition load (id : string) (placed : list (ClaimedJob * slotw)) : Z :=
  Z.of_nat (count (fun p : ClaimedJob * slotw => String.eqb (fst (snd p)) id) placed).

(** What [place] keeps of a state reached from [capacity]. *)
Record assigned (ws : list slotw) (capacity : gmap string Z) (jobs : list ClaimedJob) (st : Matcher.AssignState)
  : Prop := mkAssigned {
  as_jobs : map fst (Matcher.a_placed st) `sublist_of` jobs;
  as_workers : Forall (fun p => In (snd p) ws) (Matcher.a_placed st);
  as_load : forall id, load id (Matcher.a_placed st) + default 0 (Matcher.a_remaining st !! id)
                       = default 0 (capacity !! id);
  as_rem : forall id, 0 <= default 0 (Matcher.a_remaining st !! id);
  as_rooms : rooms (Matcher.a_remaining st) ws + Z.of_nat (length (Matcher.a_placed st)) = rooms capacity ws
}.

Lemma place_assigned ws capacity jobs st j :
  List.NoDup (map fst ws) -> assigned ws capacity jobs st ->
  assigned ws capacity (jobs ++ [j]) (Matcher.place ws st j).
Proof.
  intros Hnd [Hj Hw Hl Hr Ho]. unfold Matcher.place.
  destruct (Matcher.probe _ _ _ _) as [[w|] n] eqn:E; simpl.
  - apply probe_some in E as [Hin Hpos]. fold (room (Matcher.a_remaining st) w).
    split; simpl.
    + rewrite map_app. simpl. by apply sublist_app.
    + apply Forall_app. split; [done|]. by repeat constructor.
    + intros id. unfold load in *. rewrite count_app, count_cons. specialize (Hl id). simpl.
      match goal with |- context [count ?p []] => change (count p []) with 0%nat end.
      destruct (String.eqb_spec (fst w) id) as [<-|Hne].
      * rewrite lookup_insert_eq. simpl. unfold room in *. lia.
      * rewrite lookup_insert_ne by done. lia.
    + intros id. destruct (decide (fst w = id)) as [<-|Hne].
      * rewrite lookup_insert_eq. simpl. lia.
      * by rewrite lookup_insert_ne.
    + rewrite (rooms_take _ _ _ Hnd Hin Hpos), length_app. simpl. lia.
  - split; simpl; try done. by apply sublist_inserts_r.
Qed.

Lemma assign_assigned ws start capacity jobs :
  List.NoDup (map fst ws) -> (forall id, 0 <= default 0 (capacity !! id)) ->
  assigned ws capacity jobs (Matcher.assign_all ws start capacity jobs).
Proof.
  intros Hnd Hc. unfold Matcher.assign_all.
  induction jobs as [|j jobs IH] using rev_ind.
  - split; simpl; try done; unfold load, count; simpl; intros; lia.
  - rewrite foldl_app. simpl. by apply place_assigned.
Qed.

Lemma assign_complete ws start capacity jobs :
  List.NoDup (map fst ws) -> (forall id, 0 <= default 0 (capacity !! id)) ->
  Z.of_nat (length jobs) <= rooms capacity ws ->
  map fst (Matcher.a_placed (Matcher.assign_all ws start capacity jobs)) = jobs.
Proof.
  intros Hnd Hc. induction jobs as [|j jobs IH] using rev_ind; intros Hn; [done|].
  rewrite length_app in Hn. simpl in Hn.
  destruct (assign_assigned ws start capacity jobs Hnd Hc) as [_ _ _ _ Ho].
  unfold Matcher.assign_all in *. rewrite foldl_app. simpl.
  set (st := foldl (Matcher.place ws) _ jobs) in *. specialize (IH ltac:(lia)).
  assert (length (Matcher.a_placed st) = length jobs) as Hlen by (rewrite <- (length_map fst); by rewrite IH).
  destruct (probe_finds (Matcher.a_idx st) ws (Matcher.a_remaining st) ltac:(lia)) as (w & n & E).
  unfold Matcher.place. rewrite E. simpl. by rewrite map_app, IH.
Qed.

(** Assignment of a batch over the tag group's workers: jobs are placed
    in order and at most once, only on workers of the group, and never more on
    a worker than the capacity computed for it; and when the capacities add up
    to the size of the batch, as the claim's limit makes sure, every job of
    the batch is placed. *)
Theorem assignment_fits_capacity ws start capacity jobs :
  List.NoDup (map fst ws) -> (forall id, 0 <= default 0 (capacity !! id)) ->
  let placed := Matcher.a_placed (Matcher.assign_all ws start capacity jobs) in
  map fst placed `sublist_of` jobs
  /\ (forall p, In p placed -> In (snd p) ws)
  /\ (forall id, load id placed <= default 0 (capacity !! id))
  /\ (Z.of_nat (length jobs) <= rooms capacity ws -> map fst placed = jobs).
Proof.
  intros Hnd Hc placed. destruct (assign_assigned ws start capacity jobs Hnd Hc) as [Hj Hw Hl Hr _].
  fold placed in Hj, Hw, Hl. split_and!; [done | | |].
  - rewrite Forall_forall in Hw. exact Hw.
  - intros id. specialize (Hl id). specialize (Hr id). lia.
  - by apply assign_complete.
Qed.

(** Two workers with room for two and one; the batch fits exactly. *)
Definition ring2 : list slotw := [("a", 0%nat); ("b", 1%nat)].
Definition cap2 : gmap string Z := {[ "a" := 2; "b" := 1 ]}.

Definition batch_job (i : uuid) (g : option string) (p : Z) : ClaimedJob :=
  mkClaimed i "t" "default" g None p (Some i) 60 [] 1
    (inserted_job (mkDB [] [] [] [] [] ∅ ∅ [] [] [] ∅ 0 1 1) i (default_spec "t" []) None) None.

Definition batch3 : list ClaimedJob := [batch_job 1 None 0; batch_job 2 None 0; batch_job 3 None 0].

Lemma assignment_fits_capacity_witness :
  map fst (Matcher.a_placed (Matcher.assign_all ring2 1 cap2 batch3)) = batch3.
Proof.
  apply (assignment_fits_capacity ring2 1 cap2 batch3).
  - repeat constructor; simpl; intuition discriminate.
  - intros id. unfold cap2. destruct (decide (id = "a")) as [->|Ha]; [vm_compute; discriminate|].
    rewrite lookup_insert_ne by congruence. destruct (decide (id = "b")) as [->|Hb]; [vm_compute; discriminate|].
    rewrite lookup_singleton_ne by congruence. vm_compute. discriminate.
  - vm_compute. discriminate.
Defined.

(** ** Fairness shaping *)

Lemma heads_tails {A} (queues : list (list A)) :
  Permutation (omap head queues ++ concat (map tail queues)) (concat queues).
Proof.
  induction queues as [|[|x q] qs IH]; simpl; [done | done |]. constructor.
  rewrite <- IH, !app_assoc. apply Permutation_app_tail, Permutation_app_comm.
Qed.

Lemma total_length {A} (queues : list (list A)) :
  length (concat queues) = (length (omap head queues) + length (concat (map tail queues)))%nat.
Proof. by rewrite <- heads_tails, length_app. Qed.

Lemma concat_nonempty {A} (queues : list (list A)) :
  concat (List.filter (fun q => match q with [] => false | _ => true end) queues) = concat queues.
Proof. induction queues as [|[|x q] qs IH]; simpl; [done | done | by rewrite IH]. Qed.

(** The rounds pop every job exactly once. *)
Lemma rounds_perm {A} fuel (queues : list (list A)) :
  Forall (fun q => q <> []) queues -> (length (concat queues) <= fuel)%nat ->
  Permutation (Matcher.rounds fuel queues) (concat queues).
Proof.
  revert queues. induction fuel as [|f IH]; intros queues Hne Hf.
  { destruct (concat queues) as [|x l] eqn:E; [done | simpl in Hf; lia]. }
  destruct queues as [|q qs]; [done|]. cbn [Matcher.rounds]. set (queues := q :: qs) in *.
  rewrite IH.
  - rewrite concat_nonempty. apply heads_tails.
  - apply Forall_forall. intros x [_ Hx]%filter_In. by destruct x.
  - rewrite concat_nonempty. rewrite total_length in Hf.
    assert (1 <= length (omap head queues))%nat; [|lia]. unfold queues. invert Hne. destruct q; [done|]. simpl. lia.
Qed.

Lemma add_bucket_perm k j b :
  Permutation (concat (map snd (Matcher.add_bucket k j b))) (concat (map snd b) ++ [j]).
Proof.
  induction b as [|[k' l] b IH]; simpl; [done|]. destruct (String.eqb k k'); simpl.
  - rewrite <- !app_assoc. apply Permutation_app_head. apply Permutation_app_comm.
  - rewrite IH. by rewrite app_assoc.
Qed.

Lemma add_bucket_nonempty k j b :
  Forall (fun q => q <> []) (map snd b) -> Forall (fun q => q <> []) (map snd (Matcher.add_bucket k j b)).
Proof.
  induction b as [|[k' l] b IH]; simpl; intros H; [by repeat constructor|]. invert H.
  destruct (String.eqb k k'); simpl; constructor; auto. by destruct l.
Qed.

Lemma buckets_spec jobs :
  Permutation (concat (map snd (Matcher.buckets jobs))) jobs
  /\ Forall (fun q => q <> []) (map snd (Matcher.buckets jobs)).
Proof.
  unfold Matcher.buckets. induction jobs as [|j jobs [IH1 IH2]] using rev_ind; [by split|].
  rewrite foldl_app. simpl. split; [by rewrite add_bucket_perm, IH1 | by apply add_bucket_nonempty].
Qed.

Lemma round_robin_perm jobs : Permutation (Matcher._round_robin_by_group jobs) jobs.
Proof.
  destruct (buckets_spec jobs) as [Hp Hn]. unfold Matcher._round_robin_by_group.
  rewrite rounds_perm; [done | done |]. by rewrite Hp.
Qed.

Lemma flat_map_perm (ps : list Z) jobs :
  List.NoDup ps ->
  Permutation (List.flat_map (fun p => Matcher._round_robin_by_group
                                (List.filter (fun j => cj_priority j =? p) jobs)) ps)
    (List.filter (fun j => existsb (Z.eqb (cj_priority j)) ps) jobs).
Proof.
  induction ps as [|p ps IH]; intros Hnd; simpl.
  - by rewrite filter_false.
  - apply NoDup_cons_iff in Hnd as [Hp Hnd]. rewrite round_robin_perm, (IH Hnd).
    clear IH. induction jobs as [|j jobs IHj]; simpl; [done|].
    destruct (Z.eqb_spec (cj_priority j) p) as [E|E]; simpl.
    + destruct (existsb (Z.eqb (cj_priority j)) ps) eqn:Ex.
      * exfalso. apply existsb_exists in Ex as (q & Hq & Eq). apply Z.eqb_eq in Eq. congruence.
      * by constructor.
    + destruct (existsb (Z.eqb (cj_priority j)) ps); [|done]. rewrite <- IHj.
      symmetry. apply Permutation_middle.
Qed.

Lemma priorities_spec jobs :
  List.NoDup (Matcher.priorities jobs) /\ (forall j, In j jobs -> In (cj_priority j) (Matcher.priorities jobs))
  /\ StronglySorted (fun a b => b <= a) (Matcher.priorities jobs).
Proof.
  unfold Matcher.priorities. split_and!.
  - apply order_by_NoDup, NoDup_ListNoDup, NoDup_remove_dups.
  - intros j Hj. apply order_by_In, list_elem_of_In, elem_of_remove_dups, list_elem_of_In. by apply in_map.
  - pose proof (order_by_sorted (fun a b => b <=? a)
      ltac:(intros a b; cbv beta; destruct (Z.leb_spec b a); [by left | right; apply Z.leb_le; lia])
      ltac:(intros a b c; cbv beta; rewrite !Z.leb_le; lia) (remove_dups (map cj_priority jobs))) as H.
    induction H as [|p ps _ IH Hp]; constructor; [done|].
    eapply Forall_impl; [|exact Hp]. simpl. intros x Hx. by apply Z.leb_le.
Qed.

Lemma shaped_sorted ps jobs :
  StronglySorted (fun a b => b <= a) ps ->
  StronglySorted (fun a b => cj_priority b <= cj_priority a)
    (List.flat_map (fun p => Matcher._round_robin_by_group
                              (List.filter (fun j => cj_priority j =? p) jobs)) ps).
Proof.
  assert (forall p x, In x (Matcher._round_robin_by_group (List.filter (fun j => cj_priority j =? p) jobs)) ->
            cj_priority x = p) as Hp.
  { intros p x Hx. rewrite <- list_elem_of_In, round_robin_perm, list_elem_of_In in Hx.
    apply filter_In in Hx as [_ Hx]. by apply Z.eqb_eq. }
  induction 1 as [|p ps Hs IH Hf]; simpl; [constructor|].
  pose proof (Hp p) as Hpp. induction (Matcher._round_robin_by_group _) as [|x l IHl]; simpl; [done|].
  constructor; [apply IHl; intros y Hy; apply Hpp; by right|].
  rewrite (Hpp x (or_introl eq_refl)). apply Forall_forall. intros y [Hy|Hy]%in_app_iff.
  - rewrite (Hpp y (or_intror Hy)). lia.
  - apply in_flat_map in Hy as (q & Hq & Hy). rewrite (Hp q y Hy). rewrite Forall_forall in Hf. by apply Hf.
Qed.

Lemma fairness_perm jobs : Permutation (Matcher._fairness_shape jobs) jobs.
Proof.
  destruct (priorities_spec jobs) as (Hnd & Hin & Hs). unfold Matcher._fairness_shape. rewrite flat_map_perm by done.
  rewrite forallb_filter_id; [done|]. apply forallb_forall. intros j Hj. apply existsb_exists.
  exists (cj_priority j). split; [by apply Hin | apply Z.eqb_refl].
Qed.

(** Fairness shaping reorders a claimed batch and loses nothing: the
    result is a permutation of the batch, with priorities in descending
    order. *)
Theorem fairness_shape_permutes jobs :
  Permutation (Matcher._fairness_shape jobs) jobs
  /\ StronglySorted (fun a b => cj_priority b <= cj_priority a) (Matcher._fairness_shape jobs).
Proof.
  destruct (priorities_spec jobs) as (Hnd & Hin & Hs). split; [apply fairness_perm | by apply shaped_sorted].
Qed.

(** Two groups of one priority alternate. *)
Example shaped_alternates :
  map cj_id (Matcher._fairness_shape
    [batch_job 1 (Some "a") 0; batch_job 2 (Some "a") 0; batch_job 3 (Some "b") 0; batch_job 4 None 5])
  = [4%N; 1%N; 3%N; 2%N].
Proof. vm_compute. reflexivity. Qed.
