(* ===== verification/CoreProps.v ===== *)
(** * Retry times and stored errors *)

From S2P Require Import Prelude PyStr Errors States Chain Policies Failure Json Records Database.
From S2P Require Import Queries Tables Claim Invariant Steps ClaimFacts Repository RepoFacts World.
From S2P Require Import RateLimiter JobService.
From Stdlib Require Import QArith Lqa.
Open Scope string_scope.
Open Scope Z_scope.
Open Scope list_scope.

(** ** Retry times *)

Lemma policy_delay_bounds cfg p n u d :
  Retry.well_formed p -> (0 <= u)%Q -> (u < 1)%Q -> JobService.policy_delay cfg p n u = Ok d ->
  (0 <= d /\ d <= Retry.cap_s p)%Q.
Proof.
  intros Hw Hu Hu1. unfold JobService.policy_delay. destruct (_ && _ && _) eqn:E.
  - bool_prop. set (c := Retry.py_min _ _).
    assert (0 <= c /\ c <= Retry.cap_s p)%Q as [Hc0 Hc1].
    { destruct Hw as (Hb & Hf & Hc). split; [|apply Retry.py_min_le_l].
      apply Retry.py_min_glb; [done|]. pose proof (Retry.Qpower_ge_1 (Retry.factor p) n Hf ltac:(lia)). nra. }
    destruct (Retry.jitter p); simpl; intros [= <-]; [split; nra | done].
  - destruct (Retry.delay p n u) as [d'|[]] eqn:Ed; try done. intros [= <-].
    by apply (Retry.delay_bounds p n u).
Qed.

(** When a retry is scheduled it is scheduled sensibly: for a policy with
    a non-negative base and cap and a factor of at least one, the chosen delay
    is never negative, never shorter than the worker's retry-after hint, and
    never longer than the larger of the cap and the hint, however many
    attempts were made and whatever the jitter drew; the next run is the
    clock plus that delay. *)
Theorem retry_delay_bounds now u attempt backoff hint p t :
  JobService.policy_of (default [] backoff) = Some p -> Retry.well_formed p -> (0 <= u)%Q -> (u < 1)%Q ->
  (forall x, hint = Some x -> (0 <= x)%Q) ->
  JobService._next_run_at now u attempt backoff hint = Ok t ->
  exists d, t = now + Retry.timedelta_us d /\ now <= t /\ (0 <= d)%Q
    /\ (forall x, hint = Some x -> (x <= d)%Q)
    /\ (d <= Retry.py_max (Retry.cap_s p) (default 0%Q hint))%Q.
Proof.
  intros Hp Hw Hu Hu1 Hh. unfold JobService._next_run_at. rewrite Hp.
  destruct (JobService.policy_delay _ p attempt u) as [d|] eqn:Ed; [|done].
  apply policy_delay_bounds in Ed as [Hd0 Hd1]; [|done..].
  set (d' := match hint with Some m => Retry.py_max d m | None => d end).
  destruct (_ && _); [|done]. intros [= <-]. exists d'.
  pose proof (Retry.py_max_ub (Retry.cap_s p) (default 0%Q hint)) as [Hm1 Hm2].
  assert (0 <= d')%Q as Hd'.
  { unfold d'. destruct hint as [m|]; [|done]. pose proof (Retry.py_max_ub d m) as [? _]. lra. }
  split_and!; [done | | done | |].
  - pose proof (Retry.timedelta_us_nonneg d' Hd'). lia.
  - intros x ->. unfold d'. apply Retry.py_max_ub.
  - unfold d'. destruct hint as [m|]; simpl in *; [|lra]. unfold Retry.py_max at 1.
    destruct (Qle_bool m d); lra.
Qed.

Lemma retry_delay_bounds_witness :
  exists d, 2500000 = 0 + Retry.timedelta_us d /\ (0 <= d)%Q /\ (d <= Retry.py_max 300 (5#2))%Q.
Proof.
  destruct (retry_delay_bounds 0 (1#4) 3 None (Some (5#2)) Retry.default_policy 2500000) as (d & H1 & _ & H2 & _ & H3).
  - reflexivity.
  - unfold Retry.well_formed. simpl. repeat split; lra.
  - lra.
  - lra.
  - intros x [= <-]. lra.
  - vm_compute. reflexivity.
  - exists d. split; [exact H1|]. split; [exact H2 | exact H3].
Defined.

(** ** Stored errors *)

Lemma entry_message now ty msg h r safe md :
  dict_get "message" (build_error_entry now ty msg h r safe md) = Some (JStr (_safe_message msg safe)).
Proof. unfold build_error_entry. by destruct (sanitize_error_metadata md). Qed.

(** A stored error is sanitized, whatever the worker sent: the entry has
    only the known keys; its message is at most 2048 characters, contains no
    structured-body or URL marker, and is the fixed text unless the worker
    declared it safe; its type and stack hash match their patterns or are
    replaced; its metadata has only the known keys. *)
Theorem error_entry_sanitized now a :
  let e := JobService.fail_entry now a in
  (forall k, In k (map fst e) -> In k entry_keys)
  /\ (exists m, dict_get "message" e = Some (JStr m) /\ (String.length m <= _MESSAGE_CAP)%nat
        /\ unsafe_marker (casefold m) = false
        /\ (JobService.fa_error_message_safe a = false -> m = "Worker task failed"))
  /\ (exists ty h, dict_get "type" e = Some (JStr ty) /\ dict_get "stack_hash" e = Some (JStr h)
        /\ (_TYPE_RE ty = true \/ ty = "WorkerError") /\ (_HEX_RE h = true \/ h = ""))
  /\ (forall md k, dict_get "metadata" e = Some (JObj md) -> In k (map fst md) -> In k metadata_keys).
Proof.
  intros e. unfold JobService.fail_entry in e.
  set (md0 := match JobService.fa_retry_after_s a with Some f => _ | None => _ end) in e.
  split_and!.
  - intros k. unfold e, build_error_entry. destruct (sanitize_error_metadata md0); simpl; tauto.
  - eexists. split; [apply entry_message|].
    destruct (safe_message_spec (JobService.fa_error_message a) (JobService.fa_error_message_safe a)) as (H1 & H2 & H3).
    auto.
  - exists (if _TYPE_RE (JobService.fa_error_type a) then JobService.fa_error_type a else "WorkerError").
    exists (if _HEX_RE (JobService.fa_stack_hash a) then JobService.fa_stack_hash a else "").
    unfold e, build_error_entry. split_and!; try (by destruct (sanitize_error_metadata md0)).
    + destruct (_TYPE_RE (JobService.fa_error_type a)) eqn:E; auto.
    + destruct (_HEX_RE (JobService.fa_stack_hash a)) eqn:E; auto.
  - intros md k. unfold e, build_error_entry. destruct (sanitize_error_metadata md0) as [|x l] eqn:Es; [done|].
    intros [= <-] Hk. apply (sanitize_keys md0). by rewrite Es.
Qed.
