(* ===== verification/StreamProps.v ===== *)
(** * The live event stream delivers the ledger

    [polled] interleaves any steps of the deployment with polls of the stream. *)

From S2P Require Import Prelude PyStr Errors States Json Records Database Queries Tables Claim.
From S2P Require Import Invariant Steps ClaimFacts Repository RepoFacts World RateLimiter.
From S2P Require Import JobService EventStream Engine Lifecycle.
Open Scope string_scope.
Open Scope Z_scope.
Open Scope list_scope.
Import EventStream.

Inductive polled (w : World) (s : Stream) : World -> Stream -> Prop :=
| polled_refl : polled w s w s
| polled_step w1 w2 s1 : polled w s w1 s1 -> step w1 w2 -> polled w s w2 s1
| polled_poll w1 s1 : polled w s w1 s1 -> polled w s w1 (_poll_once (w_db w1) s1).

(** The ledger rows of the polled tenant with ids in [(lo, hi]]. *)
Definition within (lo hi : Z) (e : Event) : bool :=
  (lo <? ev_id e) && String.eqb (ev_tenant e) "default" && (ev_id e <=? hi).

Definition pending (lo : Z) (e : Event) : bool := (lo <? ev_id e) && String.eqb (ev_tenant e) "default".

Definition lastn {A} (n : nat) (l : list A) : list A := drop (length l - n) l.

(** A subscriber that was sent [rows]. *)
Definition received (rows : list Event) (s : Subscriber) : Subscriber :=
  if String.eqb (sub_tenant s) "default"
  then mkSubscriber (sub_id s) (sub_tenant s) (lastn _QUEUE_MAX (sub_queue s ++ rows)) else s.

Abbreviation by_id := (StronglySorted (fun a b : Event => ev_id a < ev_id b)).

(** ** Queues *)

Lemma lastn_app {A} n (a b : list A) : lastn n (lastn n a ++ b) = lastn n (a ++ b).
Proof.
  unfold lastn. rewrite !length_app, length_drop.
  destruct (decide (length a <= n)%nat).
  - replace (length a - n)%nat with 0%nat by lia. rewrite drop_0. f_equal. lia.
  - rewrite <- (drop_app_le a b (length a - n)) by lia. rewrite drop_drop. f_equal. lia.
Qed.

Lemma offer_lastn row q :
  (length q <= _QUEUE_MAX)%nat -> offer row q = lastn _QUEUE_MAX (q ++ [row]).
Proof.
  intros Hq. unfold offer, lastn. rewrite length_app. simpl.
  destruct (Nat.ltb_spec (length q) _QUEUE_MAX).
  - replace (length q + 1 - _QUEUE_MAX)%nat with 0%nat by lia. by rewrite drop_0.
  - replace (length q + 1 - _QUEUE_MAX)%nat with 1%nat by lia. destruct q; [unfold _QUEUE_MAX in *; simpl in *; lia|].
    simpl. by rewrite drop_0.
Qed.

Lemma lastn_short {A} n (l : list A) : (length l <= n)%nat -> lastn n l = l.
Proof. intros. unfold lastn. replace (length l - n)%nat with 0%nat by lia. apply drop_0. Qed.

Lemma lastn_length {A} n (l : list A) : (length (lastn n l) <= n)%nat.
Proof. unfold lastn. rewrite length_drop. lia. Qed.

Definition bounded (s : Subscriber) : Prop := (length (sub_queue s) <= _QUEUE_MAX)%nat.

Lemma received_bounded rows s : bounded s -> bounded (received rows s).
Proof.
  intros. unfold received. destruct (String.eqb _ _); [|done]. unfold bounded. apply lastn_length.
Qed.

Lemma received_app r1 r2 s : received r2 (received r1 s) = received (r1 ++ r2) s.
Proof.
  unfold received. destruct (String.eqb (sub_tenant s) "default") eqn:E; simpl; rewrite E; [|done].
  by rewrite lastn_app, <- app_assoc.
Qed.

Lemma received_nil s : bounded s -> received [] s = s.
Proof.
  intros Hs. unfold received. destruct (String.eqb _ _); [|done].
  rewrite app_nil_r, lastn_short by done. by destruct s.
Qed.

Lemma fan_out_received row subs :
  Forall bounded subs -> ev_tenant row = "default" -> _fan_out row subs = map (received [row]) subs.
Proof.
  intros Hs Ht. apply map_ext_in. intros s Hin. rewrite Ht. unfold received.
  destruct (String.eqb _ _); [|done]. f_equal. apply offer_lastn. rewrite List.Forall_forall in Hs. by apply Hs.
Qed.

Lemma deliver_all rows subs :
  Forall bounded subs -> Forall (fun e => ev_tenant e = "default") rows ->
  foldl (fun ss row => _fan_out row ss) subs rows = map (received rows) subs.
Proof.
  revert subs. induction rows as [|row rows IH]; intros subs Hs Hr; simpl.
  - symmetry. rewrite <- (map_id subs) at 2. apply map_ext_in. intros s Hin.
    apply received_nil. rewrite List.Forall_forall in Hs. by apply Hs.
  - inversion_clear Hr. rewrite fan_out_received, IH by
      (done || (apply List.Forall_map; eapply List.Forall_impl; [|exact Hs]; intros; by apply received_bounded)).
    rewrite map_map. apply map_ext. intros s. by rewrite received_app.
Qed.

(** ** Rows of one poll *)

Lemma order_by_id (l : list Event) : by_id l -> order_by event_le l = l.
Proof.
  induction 1 as [|x l Hl IH Hx]; [done|]. simpl. rewrite IH. destruct l as [|y l]; [done|]. simpl.
  inversion_clear Hx as [|? ? Hxy _]. unfold event_le. by rewrite (proj2 (Z.leb_le _ _)) by lia.
Qed.

Lemma by_id_sel p l : by_id l -> by_id (sel p l).
Proof.
  induction 1 as [|x l Hl IH Hx]; simpl; [constructor|]. destruct (p x); [|done]. constructor; [done|].
  rewrite List.Forall_forall in *. intros y [Hy _]%in_sel. by apply Hx.
Qed.

Lemma by_id_app l1 l2 x y : by_id (l1 ++ l2) -> In x l1 -> In y l2 -> ev_id x < ev_id y.
Proof.
  induction l1 as [|z l1 IH]; simpl; [done|]. intros H Hx Hy. inversion_clear H as [|? ? Hl Hz].
  destruct Hx as [->|Hx]; [|by apply IH]. rewrite List.Forall_forall in Hz. apply Hz, in_app_iff. by right.
Qed.

Lemma sel_true {A} (p : A -> bool) l : (forall x, In x l -> p x = true) -> sel p l = l.
Proof. intros H. induction l as [|x l IH]; simpl; [done|]. rewrite H by (by left). f_equal. apply IH. intros. apply H. by right. Qed.

Lemma sel_false {A} (p : A -> bool) l : (forall x, In x l -> p x = false) -> sel p l = [].
Proof. intros H. induction l as [|x l IH]; simpl; [done|]. rewrite H by (by left). apply IH. intros. apply H. by right. Qed.

(** A prefix of a list in id order is what has ids up to its last one. *)
Lemma prefix_within (l : list Event) n r rest :
  by_id l -> rev (take n l) = r :: rest -> sel (fun e => ev_id e <=? ev_id r) l = take n l.
Proof.
  intros Hl Hr. assert (take n l = rev rest ++ [r]) as Et by (by rewrite <- (rev_involutive (take n l)), Hr).
  rewrite <- (take_drop n l) at 1. rewrite filter_app, sel_true, sel_false; [by rewrite app_nil_r| |].
  - intros x Hx. apply Z.leb_gt. rewrite <- (take_drop n l) in Hl.
    apply (by_id_app _ _ _ _ Hl); [|done]. rewrite Et, in_app_iff. right. by left.
  - intros x Hx. apply Z.leb_le. rewrite Et, in_app_iff in Hx. destruct Hx as [Hx|[<-|[]]]; [|lia].
    rewrite <- (take_drop n l), Et in Hl. rewrite <- app_assoc in Hl.
    apply Z.lt_le_incl, (by_id_app _ _ _ _ Hl); [done|]. by left.
Qed.

Lemma within_pending lo hi e : within lo hi e = pending lo e && (ev_id e <=? hi).
Proof. done. Qed.

(** The state after a poll, uniformly. *)
Lemma poll_spec db s :
  by_id (db_events db) -> es_subscribers s <> [] -> Forall bounded (es_subscribers s) ->
  let s' := _poll_once db s in
  let rows := sel (within (es_after_id s) (es_after_id s')) (db_events db) in
  es_subscribers s' = map (received rows) (es_subscribers s)
  /\ es_after_id s <= es_after_id s'
  /\ (es_after_id s' = es_after_id s \/ exists e, In e (db_events db) /\ ev_id e = es_after_id s')
  /\ rows = take (Z.to_nat _BATCH) (sel (pending (es_after_id s)) (db_events db)).
Proof.
  intros Hdb Hne Hb. set (P := sel (pending (es_after_id s)) (db_events db)).
  assert (by_id P) as HP by (by apply by_id_sel).
  assert (forall c, sel (within (es_after_id s) c) (db_events db) = sel (fun e => ev_id e <=? c) P) as Hw.
  { intros c. unfold P. induction (db_events db) as [|e l IH]; [done|]. simpl. rewrite within_pending.
    assert (by_id l) by (by inversion Hdb).
    assert (by_id (sel (pending (es_after_id s)) l)) by (by apply by_id_sel).
    destruct (pending (es_after_id s) e); simpl; [|by apply IH]. destruct (ev_id e <=? c); [f_equal|]; by apply IH. }
  assert (answer [] (repo.events_since (es_after_id s) "default" _BATCH) db = take (Z.to_nat _BATCH) P) as Ha.
  { unfold answer, repo.events_since, query. simpl. unfold sql_events_since, limit. f_equal. by apply order_by_id. }
  cbv zeta. unfold _poll_once. destruct (es_subscribers s) as [|s0 ss] eqn:Es; [done|].
  rewrite <- Es in *. rewrite Ha. destruct (rev (take (Z.to_nat _BATCH) P)) as [|r rest] eqn:Er.
  - assert (take (Z.to_nat _BATCH) P = []) as E0 by (by rewrite <- (rev_involutive (take _ P)), Er).
    rewrite Hw, E0, (sel_false _ P).
    2:{ intros x Hx. apply in_sel in Hx as [_ Hx]. unfold pending in Hx. apply andb_prop in Hx as [Hx _].
        apply Z.ltb_lt in Hx. apply Z.leb_gt. lia. }
    split_and!; [|lia|by left|done]. rewrite (map_ext_in _ (fun x => x)), map_id; [done|].
    intros x Hx. apply received_nil. rewrite List.Forall_forall in Hb. by apply Hb.
  - simpl. assert (In r P) as HrP.
    { apply (in_take (Z.to_nat _BATCH)). apply in_rev. rewrite Er. by left. }
    apply in_sel in HrP as [Hr1 Hr2]. unfold pending in Hr2. apply andb_prop in Hr2 as [Hr2 _].
    apply Z.ltb_lt in Hr2. rewrite Hw, (prefix_within P _ _ _ HP Er).
    split_and!; [|lia|right; by exists r|done]. apply deliver_all; [done|].
    apply List.Forall_forall. intros x Hx%in_take. apply in_sel in Hx as [_ Hx]. unfold pending in Hx.
    apply andb_prop in Hx as [_ Hx]. by apply String.eqb_eq.
Qed.

(** Two adjacent ranges of a ledger that grew. *)
Lemma within_grow lo mid hi evs more :
  by_id (evs ++ more) -> lo <= mid <= hi -> (mid = lo \/ exists e, In e evs /\ ev_id e = mid) ->
  sel (within lo mid) evs ++ sel (within mid hi) (evs ++ more) = sel (within lo hi) (evs ++ more).
Proof.
  intros Hs Hr Hm.
  assert (sel (within lo mid) evs = sel (within lo mid) (evs ++ more)) as ->.
  { rewrite filter_app, (sel_false _ more); [by rewrite app_nil_r|]. intros x Hx. unfold within.
    destruct Hm as [->|(e & He & <-)].
    - destruct (Z.ltb_spec lo (ev_id x)), (Z.leb_spec (ev_id x) lo); lia || by rewrite ?andb_false_r.
    - pose proof (by_id_app _ _ _ _ Hs He Hx). rewrite (proj2 (Z.leb_gt _ _)) by lia. by rewrite andb_false_r. }
  clear Hm. induction Hs as [|x l Hl IH Hx]; [done|]. simpl.
  destruct (within lo mid x) eqn:E1.
  - assert (within mid hi x = false /\ within lo hi x = true) as [-> ->].
    { unfold within in *. rewrite !andb_true_iff in E1. destruct E1 as [[H1 H2] H3].
      apply Z.ltb_lt in H1. apply Z.leb_le in H3. rewrite H2, (proj2 (Z.ltb_ge mid _)) by lia.
      by rewrite (proj2 (Z.ltb_lt lo _)), (proj2 (Z.leb_le _ hi)) by lia. }
    simpl. by rewrite IH.
  - destruct (within mid hi x) eqn:E2.
    + assert (within lo hi x = true) as ->.
      { unfold within in *. rewrite !andb_true_iff in *. destruct E2 as [[H1 H2] H3].
        apply Z.ltb_lt in H1. split; [split; [apply Z.ltb_lt; lia | done] | done]. }
      rewrite <- IH, (sel_false (within lo mid) l); [done|]. intros y Hy.
      rewrite List.Forall_forall in Hx. specialize (Hx y Hy). unfold within in *.
      rewrite !andb_true_iff in E2. destruct E2 as [[H1 _] _]. apply Z.ltb_lt in H1.
      rewrite (proj2 (Z.leb_gt _ mid)) by lia. by rewrite andb_false_r.
    + assert (within lo hi x = false) as ->; [|done].
      unfold within in *. destruct (String.eqb (ev_tenant x) "default"); rewrite ?andb_true_r, ?andb_false_r in *; [|done].
      apply andb_false_iff in E1, E2. apply andb_false_iff. rewrite !Z.ltb_ge, !Z.leb_gt in *. lia.
Qed.

(** ** Any interleaving of steps and polls *)

Lemma within_empty lo l : sel (within lo lo) l = [].
Proof.
  apply sel_false. intros x _. unfold within.
  destruct (Z.ltb_spec lo (ev_id x)), (Z.leb_spec (ev_id x) lo); (lia || by rewrite ?andb_false_r).
Qed.

Lemma reachable_by_id w : reachable w -> by_id (db_events (w_db w)).
Proof. intros H%reachable_wf_db. apply (wf_event_order _ _ (wf_e _ H)). Qed.

Record delivered (w' : World) (s s' : Stream) : Prop := mkDelivered {
  dv_reachable : reachable w';
  dv_subs : es_subscribers s'
    = map (received (sel (within (es_after_id s) (es_after_id s')) (db_events (w_db w')))) (es_subscribers s);
  dv_cursor : es_after_id s <= es_after_id s';
  dv_head : es_after_id s' = es_after_id s \/ exists e, In e (db_events (w_db w')) /\ ev_id e = es_after_id s'
}.

Lemma delivered_bounded w' s s' :
  delivered w' s s' -> Forall bounded (es_subscribers s) -> Forall bounded (es_subscribers s').
Proof.
  intros [_ -> _ _] H. apply List.Forall_map. eapply List.Forall_impl; [|exact H].
  intros. by apply received_bounded.
Qed.

Lemma delivered_step w1 w2 s s1 : delivered w1 s s1 -> step w1 w2 -> delivered w2 s s1.
Proof.
  intros [Hr Hs Hc Hh] Hstep.
  destruct (step_keeps w1 w2 Hstep (reachable_wf_db _ Hr)) as [_ [_ _ _ [more He] _ _]].
  assert (reachable w2) as Hr2 by (by eapply reach_step). pose proof (reachable_by_id _ Hr2) as Hord.
  rewrite He in Hord. split; [done| |done|].
  - rewrite Hs, He, <- (within_grow _ (es_after_id s1)), within_empty, app_nil_r by (done || lia). done.
  - destruct Hh as [->|(e & Hi & <-)]; [by left|]. right. exists e. rewrite He, in_app_iff. auto.
Qed.

Lemma delivered_poll w1 s s1 :
  delivered w1 s s1 -> es_subscribers s <> [] -> Forall bounded (es_subscribers s) ->
  delivered w1 s (_poll_once (w_db w1) s1).
Proof.
  intros Hd Hne Hb. pose proof (delivered_bounded _ _ _ Hd Hb) as Hb1. destruct Hd as [Hr Hs Hc Hh].
  pose proof (reachable_by_id _ Hr) as Hord.
  destruct (poll_spec (w_db w1) s1 Hord) as (P1 & P2 & P3 & _); [|done|].
  { rewrite Hs. by destruct (es_subscribers s). }
  set (s2 := _poll_once (w_db w1) s1) in *. split; [done| |lia|].
  - rewrite P1, Hs, map_map. apply map_ext. intros x. rewrite received_app. f_equal.
    pose proof (within_grow (es_after_id s) (es_after_id s1) (es_after_id s2) (db_events (w_db w1)) []) as H.
    rewrite app_nil_r in H. by apply H.
  - destruct P3 as [->|P3]; [done | by right].
Qed.

Lemma polled_delivered w s w' s' :
  reachable w -> es_subscribers s <> [] -> Forall bounded (es_subscribers s) ->
  polled w s w' s' -> delivered w' s s'.
Proof.
  intros Hr Hne Hb. induction 1 as [|w1 w2 s1 _ IH Hs|w1 s1 _ IH].
  - split; [done| |lia|by left]. rewrite within_empty, (map_ext_in _ (fun x => x)), map_id; [done|].
    intros x Hx. apply received_nil. rewrite List.Forall_forall in Hb. by apply Hb.
  - by eapply delivered_step.
  - by apply delivered_poll.
Qed.

(** The event stream delivers the ledger in order, each row once. However
    polls interleave with what the deployment does, a connected subscriber of
    the default tenant holds the last 256 of what it had followed by exactly
    the tenant's ledger rows between the cursor at the start and the cursor
    now, in id order; a subscriber of any other tenant was sent nothing. The
    cursor never goes back, and a poll that finds at most 500 pending rows
    leaves none behind.  This is for a ledger whose entries commit in the
    order of their ids; one that commits below the cursor is not sent. *)
Theorem stream_delivers w s w' s' sub :
  reachable w -> polled w s w' s' -> Forall bounded (es_subscribers s) -> In sub (es_subscribers s) ->
  let rows := sel (within (es_after_id s) (es_after_id s')) (db_events (w_db w')) in
  es_after_id s <= es_after_id s'
  /\ In (if String.eqb (sub_tenant sub) "default"
         then mkSubscriber (sub_id sub) (sub_tenant sub) (lastn _QUEUE_MAX (sub_queue sub ++ rows))
         else sub) (es_subscribers s')
  /\ ((count (pending (es_after_id s')) (db_events (w_db w')) <= Z.to_nat _BATCH)%nat ->
      forall e, In e (db_events (w_db w')) -> ev_tenant e = "default" ->
        ev_id e <= es_after_id (_poll_once (w_db w') s')).
Proof.
  intros Hr Hp Hb Hin rows.
  assert (es_subscribers s <> []) as Hne by (by intros E; rewrite E in Hin).
  pose proof (polled_delivered w s w' s' Hr Hne Hb Hp) as Hd.
  pose proof (delivered_bounded _ _ _ Hd Hb) as Hb'. destruct Hd as [Hr' Hs Hc Hh].
  split_and!; [done| |].
  - rewrite Hs. apply in_map_iff. by exists sub.
  - intros Hcount e He Ht.
    destruct (poll_spec (w_db w') s' (reachable_by_id _ Hr')) as (_ & P2 & _ & P4); [|done|].
    { rewrite Hs. by destruct (es_subscribers s). }
    rewrite firstn_all2 in P4 by exact Hcount.
    destruct (Z.le_gt_cases (ev_id e) (es_after_id s')) as [|Hlt]; [lia|].
    assert (In e (sel (pending (es_after_id s')) (db_events (w_db w')))) as Hin'.
    { apply in_sel. split; [done|]. unfold pending. rewrite Ht. by rewrite (proj2 (Z.ltb_lt _ _)). }
    rewrite <- P4 in Hin'. apply in_sel in Hin' as [_ Hw]. unfold within in Hw.
    apply andb_prop in Hw as [_ Hw]. by apply Z.leb_le in Hw.
Qed.

Definition stream0 : Stream := subscribe 1 "acme" (subscribe 0 "default" (start (w_db world3) (mkStream [] 0))).

Lemma stream_delivers_witness :
  let s' := _poll_once (w_db world4) stream0 in
  let rows := sel (within (es_after_id stream0) (es_after_id s')) (db_events (w_db world4)) in
  In (mkSubscriber 0 "default" (lastn _QUEUE_MAX ([] ++ rows))) (es_subscribers s')
  /\ map ev_event rows = ["succeeded"].
Proof.
  assert (polled world3 stream0 world4 (_poll_once (w_db world4) stream0)) as Hp.
  { apply polled_poll. eapply polled_step; [apply polled_refl|].
    apply (step_run _ (JobService.complete default_config 1 2 (Some []) false false)). constructor. }
  assert (Forall bounded (es_subscribers stream0)) as Hb.
  { repeat constructor; unfold bounded; simpl; lia. }
  assert (In (mkSubscriber 0 "default" []) (es_subscribers stream0)) as Hi by (left; reflexivity).
  pose proof (stream_delivers world3 stream0 world4 _ _ world3_reachable Hp Hb Hi) as (_ & H & _).
  cbv zeta. split; [exact H | vm_compute; reflexivity].
Defined.
