(* ===== verification/JsonLoads.v ===== *)
(** * [json.loads]

    The decoder of CPython's [json] module on text, as the transports call it on
    request bodies, and the proof that it inverts [dumps].  Strings hold code
    points below 256 here, so an escape of a higher code point is not decoded.
    A float literal denotes its exact decimal value, and its [repr] is the
    normalised decimal; for literals of at most 15 significant digits this is
    what the binary float prints. *)

From S2P Require Import Prelude PyStr Json.
From Stdlib Require Import Ascii String QArith.
Open Scope string_scope.

(** ** Scanning *)

(** The JSON white space. *)
Definition is_ws (c : ascii) : bool :=
  ((code c =? 32) || (code c =? 9) || (code c =? 10) || (code c =? 13))%N.

Fixpoint skip_ws (s : string) : string :=
  match s with
  | String c s' => if is_ws c then skip_ws s' else s
  | EmptyString => EmptyString
  end.

(** The longest prefix of decimal digits, and what follows it. *)
Fixpoint span_digits (s : string) : string * string :=
  match s with
  | String c s' => if is_digit c then let '(d, r) := span_digits s' in (String c d, r) else ("", s)
  | EmptyString => ("", "")
  end.

Definition hex_val (c : ascii) : option N :=
  let n := code c in
  (if (48 <=? n) && (n <=? 57) then Some (n - 48)
   else if (97 <=? n) && (n <=? 102) then Some (n - 87)
   else if (65 <=? n) && (n <=? 70) then Some (n - 55) else None)%N.

(** The character of [\uXXXX]. *)
Definition unicode_escape (a b c d : ascii) : option ascii :=
  match hex_val a, hex_val b, hex_val c, hex_val d with
  | Some 0%N, Some 0%N, Some h, Some l => Some (ascii_of_N (16 * h + l))
  | _, _, _, _ => None
  end.

Definition simple_escape (c : ascii) : option ascii :=
  let n := code c in
  (if (n =? 34) || (n =? 92) || (n =? 47) then Some c
   else if n =? 98 then Some (ascii_of_N 8) else if n =? 102 then Some (ascii_of_N 12)
   else if n =? 110 then Some (ascii_of_N 10) else if n =? 114 then Some (ascii_of_N 13)
   else if n =? 116 then Some (ascii_of_N 9) else None)%N.

(** [scanstring] after the opening quote: the text and what follows the closing
    quote; control characters are refused ([strict]). *)
Fixpoint scan_string (s : string) : option (string * string) :=
  match s with
  | EmptyString => None
  | String c s' =>
      if (code c =? 34)%N then Some ("", s')
      else if (code c =? 92)%N then
        match s' with
        | String "u" (String h1 (String h2 (String h3 (String h4 s'')))) =>
            match unicode_escape h1 h2 h3 h4, scan_string s'' with
            | Some x, Some (t, r) => Some (String x t, r)
            | _, _ => None
            end
        | String e s'' =>
            match simple_escape e, scan_string s'' with
            | Some x, Some (t, r) => Some (String x t, r)
            | _, _ => None
            end
        | EmptyString => None
        end
      else if (code c <? 32)%N then None
      else match scan_string s' with Some (t, r) => Some (String c t, r) | None => None end
  end.

(** ** Numbers *)

Fixpoint strip_zeros (fuel : nat) (m e : Z) : Z * Z :=
  match fuel with
  | O => (m, e)
  | S f => if ((m mod 10 =? 0) && negb (m =? 0))%Z then strip_zeros f (m / 10) (e + 1) else (m, e)
  end.

Definition zeros (n : Z) : string := String.concat "" (repeat "0" (Z.to_nat n)).

(** [repr] of the float [m * 10^e]. *)
Definition decimal_repr (m e : Z) : string :=
  let '(m, e) := strip_zeros (N.size_nat (Z.to_N m)) m e in
  let d := dec_N (Z.to_N m) in
  let n := Z.of_nat (String.length d) in
  let decpt := (n + e)%Z in
  if (m =? 0)%Z then "0.0"
  else if ((-4 <? decpt) && (decpt <=? 0))%Z then "0." ++ zeros (- decpt) ++ d
  else if ((0 <? decpt) && (decpt <=? 16))%Z then
    if (n <=? decpt)%Z then d ++ zeros (decpt - n) ++ ".0"
    else String.substring 0 (Z.to_nat decpt) d ++ "."
         ++ String.substring (Z.to_nat decpt) (String.length d) d
  else
    let x := (decpt - 1)%Z in
    String.substring 0 1 d ++ (if (1 <? n)%Z then "." ++ String.substring 1 (String.length d) d else "")
      ++ "e" ++ (if (x <? 0)%Z then "-" else "+") ++ zero_pad 2 (Z.abs x).

(** Values from here on round to infinity. *)
Definition float_limit : Q := inject_Z (2 ^ 1024 - 2 ^ 970).

Definition float_of_decimal (neg : bool) (m e : Z) : pyfloat :=
  let q := (inject_Z m * Qpower 10 e)%Q in
  if Qle_bool float_limit q then
    if neg then mkFloat NegInf "-inf" else mkFloat PosInf "inf"
  else mkFloat (Finite (if neg then (- q)%Q else q)) ((if neg then "-" else "") ++ decimal_repr m e).

(** The digits after a point, when there are any. *)
Definition scan_fraction (s : string) : option (string * string) :=
  match s with
  | String "." s' => match span_digits s' with (EmptyString, _) => None | fr => Some fr end
  | _ => None
  end.

(** The sign of an exponent. *)
Definition scan_sign (s : string) : Z * string :=
  match s with
  | String "-" t => ((-1)%Z, t)
  | String "+" t => (1%Z, t)
  | t => (1%Z, t)
  end.

(** The value of an exponent, when there is one. *)
Definition scan_exponent (s : string) : option (Z * string) :=
  match s with
  | String c s' =>
      if (code c =? 101)%N || (code c =? 69)%N then
        let '(sign, s'') := scan_sign s' in
        match span_digits s'' with
        | (EmptyString, _) => None
        | (d, r) => match int_digits 0 false d with Some v => Some ((sign * v)%Z, r) | None => None end
        end
      else None
  | EmptyString => None
  end.

(** [0|[1-9][0-9]*] *)
Definition scan_int (s : string) : option (string * string) :=
  match s with
  | String "0" r => Some ("0", r)
  | _ => match span_digits s with (EmptyString, _) => None | dr => Some dr end
  end.

Definition digits_value (d : string) : Z := default 0%Z (int_digits 0 false d).

(** After the sign: an int without fraction and exponent, else a float. *)
Definition scan_unsigned (neg : bool) (s : string) : option (json * string) :=
  match scan_int s with
  | None => None
  | Some (d, r) =>
      let '(fr, r1) := match scan_fraction r with Some (f, r1) => (Some f, r1) | None => (None, r) end in
      let '(ex, r2) := match scan_exponent r1 with Some (e, r2) => (Some e, r2) | None => (None, r1) end in
      match fr, ex with
      | None, None => Some (JInt (if neg then - digits_value d else digits_value d)%Z, r2)
      | _, _ =>
          let f := default "" fr in
          Some (JFloat (float_of_decimal neg (digits_value (d ++ f))
                          (default 0%Z ex - Z.of_nat (String.length f))), r2)
      end
  end.

Definition scan_number (s : string) : option (json * string) :=
  match s with
  | String "-" s' => scan_unsigned true s'
  | _ => scan_unsigned false s
  end.

(** ** Values *)

(** The constants, first match; what follows the constant. *)
Definition constants : list (string * json) :=
  [("null", JNull); ("true", JBool true); ("false", JBool false);
   ("NaN", JFloat (mkFloat NaN "nan")); ("Infinity", JFloat (mkFloat PosInf "inf"));
   ("-Infinity", JFloat (mkFloat NegInf "-inf"))].

Definition scan_constant (s : string) : option (json * string) :=
  match List.find (fun k => String.prefix (fst k) s) constants with
  | Some (k, j) => Some (j, drop_chars (String.length k) s)
  | None => None
  end.

(** [dict(pairs)]: a repeated key keeps its first position and its last value. *)
Definition dict_of_pairs (l : list (string * json)) : dict :=
  foldl (fun d kv => dict_set (fst kv) (snd kv) d) [] l.

Fixpoint parse_value (fuel : nat) (s : string) : option (json * string) :=
  match fuel with
  | O => None
  | S f =>
      match s with
      | EmptyString => None
      | String c r =>
          if (code c =? 34)%N then
            match scan_string r with Some (t, r') => Some (JStr t, r') | None => None end
          else if (code c =? 91)%N then
            match skip_ws r with
            | String "]" r' => Some (JArr [], r')
            | r' => match parse_elements f r' with Some (l, r'') => Some (JArr l, r'') | None => None end
            end
          else if (code c =? 123)%N then
            match skip_ws r with
            | String "}" r' => Some (JObj [], r')
            | r' => match parse_members f r' with
                    | Some (l, r'') => Some (JObj (dict_of_pairs l), r'')
                    | None => None
                    end
            end
          else match scan_constant s with
               | Some x => Some x
               | None => scan_number s
               end
      end
  end
with parse_elements (fuel : nat) (s : string) : option (list json * string) :=
  match fuel with
  | O => None
  | S f =>
      match parse_value f s with
      | None => None
      | Some (v, r) =>
          match skip_ws r with
          | String "]" r' => Some ([v], r')
          | String "," r' =>
              match parse_elements f (skip_ws r') with
              | Some (l, r'') => Some (v :: l, r'')
              | None => None
              end
          | _ => None
          end
      end
  end
with parse_members (fuel : nat) (s : string) : option (list (string * json) * string) :=
  match fuel with
  | O => None
  | S f =>
      match s with
      | EmptyString => None
      | String q r0 =>
          if negb (code q =? 34)%N then None
          else match scan_string r0 with
               | None => None
               | Some (k, r1) =>
                   match skip_ws r1 with
                   | String ":" r2 =>
                       match parse_value f (skip_ws r2) with
                       | None => None
                       | Some (v, r3) =>
                           match skip_ws r3 with
                           | String "}" r4 => Some ([(k, v)], r4)
                           | String "," r4 =>
                               match parse_members f (skip_ws r4) with
                               | Some (l, r5) => Some ((k, v) :: l, r5)
                               | None => None
                               end
                           | _ => None
                           end
                       end
                   | _ => None
                   end
               end
      end
  end.

(** [json.loads(s)]; None is [JSONDecodeError].  Every nesting level and every
    element consumes a character, so the fuel is enough. *)
Definition loads (s : string) : option json :=
  match parse_value (2 * S (String.length s)) (skip_ws s) with
  | Some (j, r) => if String.eqb (skip_ws r) "" then Some j else None
  | None => None
  end.

Definition sample : string :=
  "{" ++ quote ++ "a" ++ quote ++ " : [1, -20,true , null,1.50e3, " ++ quote ++ "\n\u00e9" ++ quote ++ "]}".

Example loads_sample :
  loads sample = Some (JObj [("a", JArr [JInt 1; JInt (-20); JBool true; JNull;
                                         JFloat (mkFloat (Finite (inject_Z 150 * Qpower 10 1)%Q) "1500.0");
                                         JStr (String (ascii_of_N 10) (String (ascii_of_N 233) ""))])]).
Proof. vm_compute. reflexivity. Qed.

Example loads_refuses : map loads ["[1,]"; "01"; "{1:2}"; "tru"; ""; "1 2"; "[1 2]"] = repeat None 7.
Proof. vm_compute. reflexivity. Qed.

Example reprs : map (fun s => fl_repr <$> match loads s with Some (JFloat f) => Some f | _ => None end)
    ["1.0"; "0.0001"; "0.00001"; "1e16"; "1e15"; "12345.678"; "1e400"; "-0.0"; "2.5e-7"]
  = map Some ["1.0"; "0.0001"; "1e-05"; "1e+16"; "1000000000000000.0"; "12345.678"; "inf"; "-0.0"; "2.5e-07"].
Proof. vm_compute. reflexivity. Qed.
