(* ===== verification/JsonProps.v ===== *)
(** * [json.loads] reads back every text of a value

    A text is the value printed with any white space between the tokens; the compact
    text of [json.dumps] is one. *)

From S2P Require Import Prelude PyStr Json JsonLoads.
From Stdlib Require Import Ascii String QArith.
Open Scope string_scope.

(** ** Strings *)

Lemma append_String c a b : String c a ++ b = String c (a ++ b).
Proof. done. Qed.
Lemma append_Empty b : "" ++ b = b.
Proof. done. Qed.
Lemma length_append a b : String.length (a ++ b) = (String.length a + String.length b)%nat.
Proof. induction a as [|c a IH]; [done|]. rewrite append_String. simpl. by rewrite IH. Qed.

(** What a scanner may find after a value. *)
Definition ends_number (rest : string) : bool :=
  match rest with
  | EmptyString => true
  | String c _ => negb (is_digit c) && negb (Ascii.eqb c ".") && negb (code c =? 101)%N && negb (code c =? 69)%N
                  && negb (Ascii.eqb c "-") && negb (Ascii.eqb c "+")
  end.

Lemma scan_escape_char c t :
  scan_string (escape_char c ++ t)
  = match scan_string t with Some (u, r) => Some (String c u, r) | None => None end.
Proof. destruct c as [[] [] [] [] [] [] [] []]; reflexivity. Qed.

Lemma scan_escape s rest : scan_string (escape s ++ quote ++ rest) = Some (s, rest).
Proof.
  induction s as [|c s IH]; [done|]. simpl escape. by rewrite append_assoc, scan_escape_char, IH.
Qed.

(** ** Numbers *)

Fixpoint all_digits (s : string) : bool :=
  match s with EmptyString => true | String c s' => is_digit c && all_digits s' end.

Lemma span_all d rest :
  all_digits d = true -> ends_number rest = true -> span_digits (d ++ rest) = (d, rest).
Proof.
  induction d as [|c d IH]; intros Hd Hr.
  - destruct rest as [|c rest]; [done|]. rewrite append_Empty. simpl in *.
    destruct (is_digit c); [done|]. done.
  - simpl in Hd. apply andb_prop in Hd as [Hc Hd]. rewrite append_String. simpl. rewrite Hc, IH; done.
Qed.

Lemma all_digits_dec_go f n acc : all_digits acc = true -> all_digits (dec_go f n acc) = true.
Proof.
  revert n acc. induction f as [|f IH]; intros n acc H; [done|]. cbn [dec_go].
  pose proof (N.mod_lt n 10 ltac:(lia)) as Hm.
  assert (all_digits (String (digit_char (n mod 10)) acc) = true) as H'.
  { simpl. by rewrite digit_char_is_digit, H. }
  destruct (n / 10 =? 0)%N; [done | by apply IH].
Qed.

(** The first digit of a positive number is not zero. *)
Lemma dec_go_nonzero f n acc :
  (0 < n < 2 ^ N.of_nat f)%N -> exists d s, (0 < d < 10)%N /\ dec_go f n acc = String (digit_char d) s.
Proof.
  revert n acc. induction f as [|f IH]; intros n acc H; [change (2 ^ N.of_nat 0)%N with 1%N in H; lia|]. cbn [dec_go].
  pose proof (N.mod_lt n 10 ltac:(lia)) as Hm. destruct (N.eqb_spec (n / 10) 0) as [E|E].
  - exists (n mod 10)%N, acc. split; [|done]. pose proof (N.div_mod n 10 ltac:(lia)). lia.
  - apply IH. split; [by apply N.neq_0_lt_0 | apply N_div10_lt, H].
Qed.

Lemma dec_N_shape n :
  dec_N n = "0" /\ n = 0%N \/ exists d s, (0 < d < 10)%N /\ dec_N n = String (digit_char d) s.
Proof.
  destruct (N.eq_dec n 0) as [->|Hn]; [by left|]. right. apply dec_go_nonzero.
  split; [lia | apply N_size_bound].
Qed.

Lemma digit_char_not_zero d : (0 < d < 10)%N -> digit_char d <> "0"%char.
Proof. intros H E. apply (f_equal code) in E. rewrite digit_char_code in E by lia. simpl in E. lia. Qed.

Lemma scan_int_dec n rest : ends_number rest = true -> scan_int (dec_N n ++ rest) = Some (dec_N n, rest).
Proof.
  intros Hr. destruct (dec_N_shape n) as [[-> _]|(d & s & Hd & E)]; [done|].
  assert (span_digits (dec_N n ++ rest) = (dec_N n, rest)) as Hs.
  { apply span_all; [by apply all_digits_dec_go | done]. }
  rewrite E in *. rewrite append_String in *. unfold scan_int. rewrite Hs.
  pose proof (digit_char_not_zero d Hd). destruct (digit_char d) as [[] [] [] [] [] [] [] []]; done.
Qed.

Lemma no_fraction rest : ends_number rest = true -> scan_fraction rest = None.
Proof.
  destruct rest as [|c r]; [done|]. simpl. destruct (Ascii.eqb_spec c ".") as [->|Hc].
  { by rewrite andb_false_r. }
  intros _. destruct c as [[] [] [] [] [] [] [] []]; done.
Qed.

Lemma no_exponent rest : ends_number rest = true -> scan_exponent rest = None.
Proof.
  destruct rest as [|c r]; [done|]. simpl.
  destruct (code c =? 101)%N, (code c =? 69)%N; rewrite ?andb_false_r; done.
Qed.

Lemma scan_unsigned_dec neg n rest :
  ends_number rest = true ->
  scan_unsigned neg (dec_N n ++ rest) = Some (JInt (if neg then - Z.of_N n else Z.of_N n)%Z, rest).
Proof.
  intros Hr. unfold scan_unsigned. rewrite scan_int_dec, no_fraction, no_exponent by done.
  unfold digits_value. by rewrite int_digits_dec_N.
Qed.

Lemma dec_N_head n : exists d s, (d < 10)%N /\ dec_N n = String (digit_char d) s.
Proof. by apply dec_go_head. Qed.

Lemma scan_number_int z rest :
  ends_number rest = true -> scan_number (py_str_Z z ++ rest) = Some (JInt z, rest).
Proof.
  intros Hr. unfold py_str_Z. destruct (Z.ltb_spec z 0).
  - rewrite append_String. simpl. rewrite scan_unsigned_dec by done. do 2 f_equal. f_equal. lia.
  - transitivity (scan_unsigned false (dec_N (Z.to_N z) ++ rest)).
    + destruct (dec_N_head (Z.to_N z)) as (d & s & Hd & ->). rewrite append_String.
      destruct (digit_char_neq_sign d Hd) as [Hm _].
      destruct (digit_char d) as [[] [] [] [] [] [] [] []]; done.
    + rewrite scan_unsigned_dec by done. do 2 f_equal. f_equal. lia.
Qed.

(** The text of a number begins neither as a constant nor as a container. *)
Definition number_head (s : string) : bool :=
  match s with
  | String c r => is_digit c || (Ascii.eqb c "-" && match r with String c' _ => is_digit c' | _ => false end)
  | EmptyString => false
  end.

Lemma py_str_head z rest : number_head (py_str_Z z ++ rest) = true.
Proof.
  unfold py_str_Z. destruct (z <? 0)%Z.
  - destruct (dec_N_head (Z.to_N (- z))) as (d & s & Hd & ->). rewrite !append_String. simpl.
    by rewrite digit_char_is_digit.
  - destruct (dec_N_head (Z.to_N z)) as (d & s & Hd & ->). rewrite append_String. simpl.
    by rewrite digit_char_is_digit.
Qed.

Lemma parse_number_value f s : number_head s = true -> parse_value (S f) s = scan_number s.
Proof.
  destruct s as [|c r]; [done|]. cbn [parse_value]. simpl. intros H.
  destruct r as [|c' r'].
  - rewrite andb_false_r, orb_false_r in H. destruct c as [[] [] [] [] [] [] [] []]; done.
  - destruct (is_digit c) eqn:E.
    + destruct c as [[] [] [] [] [] [] [] []]; done.
    + simpl in H. apply andb_prop in H as [Hc Hc']. apply Ascii.eqb_eq in Hc as ->.
      destruct c' as [[] [] [] [] [] [] [] []]; done.
Qed.

(** Scanning a number that ends before [rest]. *)
Lemma span_app s d r rest :
  span_digits s = (d, r) -> ends_number rest = true -> span_digits (s ++ rest) = (d, r ++ rest).
Proof.
  revert d r. induction s as [|c s IH]; intros d r; rewrite ?append_String; cbn [span_digits].
  - intros [= <- <-] Hr. apply (span_all "" rest); done.
  - destruct (is_digit c) eqn:E.
    + destruct (span_digits s) as [d' r'] eqn:Es. intros [= <- <-] Hr. by rewrite (IH d' r').
    + intros [= <- <-] Hr. done.
Qed.

Lemma fraction_app s rest :
  ends_number rest = true ->
  scan_fraction (s ++ rest)
  = match scan_fraction s with Some (f, r) => Some (f, r ++ rest) | None => None end.
Proof.
  intros Hr. destruct s as [|c s]; [by rewrite append_Empty, no_fraction|]. rewrite append_String.
  unfold scan_fraction. destruct (span_digits s) as [d r] eqn:Es.
  rewrite (span_app s d r rest Es Hr). by destruct c as [[] [] [] [] [] [] [] []]; destruct d.
Qed.

Lemma exponent_app s rest :
  ends_number rest = true ->
  scan_exponent (s ++ rest)
  = match scan_exponent s with Some (e, r) => Some (e, r ++ rest) | None => None end.
Proof.
  intros Hr. destruct s as [|c s]; [by rewrite append_Empty, no_exponent|]. rewrite append_String.
  unfold scan_exponent. destruct ((code c =? 101)%N || (code c =? 69)%N); [|done].
  assert (scan_sign (s ++ rest) = (fst (scan_sign s), snd (scan_sign s) ++ rest)) as ->.
  { destruct s as [|c' s]; [|rewrite append_String; by destruct c' as [[] [] [] [] [] [] [] []]].
    rewrite append_Empty. destruct rest as [|c' r]; [done|]. simpl in Hr.
    destruct c' as [[] [] [] [] [] [] [] []]; done. }
  destruct (scan_sign s) as [sign s']. cbn [fst snd].
  destruct (span_digits s') as [d r] eqn:Ed. rewrite (span_app s' d r rest Ed Hr).
  destruct d; [done|]. by destruct (int_digits 0 false _).
Qed.

Lemma scan_int_app s rest d r :
  scan_int s = Some (d, r) -> ends_number rest = true -> scan_int (s ++ rest) = Some (d, r ++ rest).
Proof.
  intros H Hr. destruct s as [|c s]; [done|]. rewrite append_String. unfold scan_int in *.
  destruct (span_digits (String c s)) as [d' r'] eqn:Es. pose proof (span_app _ _ _ rest Es Hr) as Ha.
  rewrite append_String in Ha. rewrite Ha.
  destruct c as [[] [] [] [] [] [] [] []]; try (destruct d'; [done|]; by injection H as <- <-).
  by injection H as <- <-.
Qed.

Lemma scan_unsigned_app neg s j r rest :
  scan_unsigned neg s = Some (j, r) -> ends_number rest = true ->
  scan_unsigned neg (s ++ rest) = Some (j, r ++ rest).
Proof.
  intros H Hr. unfold scan_unsigned in *. destruct (scan_int s) as [[d r0]|] eqn:Ei; [|done].
  rewrite (scan_int_app _ rest _ _ Ei Hr), (fraction_app r0 rest Hr).
  destruct (scan_fraction r0) as [[fr r1]|]; rewrite exponent_app by done.
  - destruct (scan_exponent r1) as [[ex r2]|]; by injection H as <- <-.
  - destruct (scan_exponent r0) as [[ex r2]|]; by injection H as <- <-.
Qed.

Lemma scan_number_app s j r rest :
  scan_number s = Some (j, r) -> number_head s = true -> ends_number rest = true ->
  scan_number (s ++ rest) = Some (j, r ++ rest).
Proof.
  intros H Hh Hr. destruct s as [|c s]; [done|]. rewrite append_String.
  destruct (Ascii.eqb_spec c "-") as [->|Hc]; [by apply scan_unsigned_app|].
  transitivity (scan_unsigned false (String c s ++ rest)).
  - rewrite append_String. destruct c as [[] [] [] [] [] [] [] []]; done.
  - apply scan_unsigned_app; [|done]. destruct c as [[] [] [] [] [] [] [] []]; done.
Qed.

Lemma number_head_app s rest : number_head s = true -> number_head (s ++ rest) = true.
Proof.
  destruct s as [|c [|c' s]]; [done| |]; rewrite !append_String; simpl.
  - rewrite andb_false_r, orb_false_r. by intros ->.
  - done.
Qed.

(** ** Values *)

Section Induction.
Context (P : json -> Prop).
Context (Hnull : P JNull) (Hbool : forall b, P (JBool b)) (Hint : forall z, P (JInt z))
  (Hfloat : forall f, P (JFloat f)) (Hstr : forall s, P (JStr s))
  (Harr : forall l, Forall P l -> P (JArr l))
  (Hobj : forall l, Forall (fun kv => P (snd kv)) l -> P (JObj l)).

Fixpoint json_nested_ind (j : json) : P j :=
  match j with
  | JNull => Hnull
  | JBool b => Hbool b
  | JInt z => Hint z
  | JFloat f => Hfloat f
  | JStr s => Hstr s
  | JArr l => Harr l ((fix go l : Forall P l :=
      match l with [] => @List.Forall_nil _ _ | x :: l' => @List.Forall_cons _ _ x l' (json_nested_ind x) (go l') end) l)
  | JObj l => Hobj l ((fix go l : Forall (fun kv => P (snd kv)) l :=
      match l with [] => @List.Forall_nil _ _ | x :: l' => @List.Forall_cons _ _ x l' (json_nested_ind (snd x)) (go l') end) l)
  end.
End Induction.

(** A float whose text is read back as itself. *)
Definition float_ok (f : pyfloat) : Prop :=
  match fl_value f with
  | Finite _ => number_head (fl_repr f) = true /\ scan_number (fl_repr f) = Some (JFloat f, "")
  | PosInf => fl_repr f = "inf"
  | NegInf => fl_repr f = "-inf"
  | NaN => fl_repr f = "nan"
  end.

(** A value Python can hold: dict keys are distinct, floats print as themselves. *)
Fixpoint json_ok (j : json) : Prop :=
  match j with
  | JFloat f => float_ok f
  | JArr l => (fix go l := match l with [] => True | x :: l' => json_ok x /\ go l' end) l
  | JObj l => List.NoDup (map fst l)
              /\ (fix go l := match l with [] => True | kv :: l' => json_ok (snd kv) /\ go l' end) l
  | _ => True
  end.

(** The fuel [parse_value] uses on the text of a value. *)
Fixpoint cost (j : json) : nat :=
  match j with
  | JArr l => S (S ((fix go l := match l with [] => O | x :: l' => S (cost x + go l') end) l))
  | JObj l => S (S ((fix go l := match l with [] => O | kv :: l' => S (cost (snd kv) + go l') end) l))
  | _ => 1%nat
  end.

Lemma dict_of_pairs_nodup l : List.NoDup (map fst l) -> dict_of_pairs l = l.
Proof.
  assert (forall d k (v : json), ~ In k (map fst d) -> dict_set k v d = (d ++ [(k, v)])%list) as Hset.
  { induction d as [|[k' v'] d IH]; intros k v Hk; simpl; [done|].
    destruct (String.eqb_spec k k') as [->|]; [simpl in Hk; tauto|]. rewrite IH; [done|]. simpl in Hk. tauto. }
  assert (forall l d, List.NoDup (map fst (d ++ l)%list) ->
            foldl (fun d kv => dict_set (fst kv) (snd kv) d) d l = (d ++ l)%list) as H.
  { clear l. intros l. induction l as [|[k v] l IH]; intros d Hd; simpl; [by rewrite app_nil_r|].
    rewrite Hset.
    - replace (d ++ (k, v) :: l)%list with ((d ++ [(k, v)]) ++ l)%list by (by rewrite <- app_assoc).
      apply IH. by rewrite <- app_assoc.
    - rewrite map_app in Hd. simpl in Hd. apply NoDup_remove_2 in Hd.
      intros Hin. apply Hd, in_app_iff. by left. }
  apply (H l []).
Qed.

(** The text of a value starts with a character no scanner skips. *)
Lemma dumps_head j rest :
  json_ok j -> exists c s, dumps j ++ rest = String c s /\ is_ws c = false /\ c <> "]"%char.
Proof.
  assert (forall s, number_head s = true -> exists c s', s ++ rest = String c s' /\ is_ws c = false /\ c <> "]"%char) as Hn.
  { intros [|c s] H; [done|]. exists c, (s ++ rest). split; [done|]. simpl in H.
    destruct c as [[] [] [] [] [] [] [] []]; split; try done; destruct s; done. }
  destruct j as [|[]|z|f|s|l|l]; intros Hok; cbn [dumps].
  1-3: eexists _, _; split; [reflexivity | split; done].
  - apply Hn. pose proof (py_str_head z "") as H. by rewrite append_empty_r in H.
  - simpl in Hok. unfold float_ok, dumps_float in *. destruct (fl_value f); [by apply Hn, Hok|..];
      eexists _, _; (split; [reflexivity | split; done]).
  - eexists _, _; split; [reflexivity | split; done].
  - eexists _, _; split; [reflexivity | split; done].
  - eexists _, _; split; [reflexivity | split; done].
Qed.

Lemma cost_arr l : cost (JArr l) = S (S (foldr (fun x n => S (cost x + n)) O l)).
Proof. reflexivity. Qed.
Lemma cost_obj l : cost (JObj l) = S (S (foldr (fun kv n => S (cost (snd kv) + n)) O l)).
Proof. reflexivity. Qed.
Lemma ok_arr l : json_ok (JArr l) <-> Forall json_ok l.
Proof.
  simpl. induction l as [|x l IH]; [split; done|]. split.
  - intros [? ?]. constructor; tauto.
  - inversion_clear 1. tauto.
Qed.
Lemma ok_obj l : json_ok (JObj l) <-> List.NoDup (map fst l) /\ Forall (fun kv => json_ok (snd kv)) l.
Proof.
  simpl. apply and_iff_compat_l. induction l as [|x l IH]; [split; done|]. split.
  - intros [? ?]. constructor; tauto.
  - inversion_clear 1. tauto.
Qed.

(** ** Texts of a JSON value

    [json_text j t]: [t] is [j] printed with any white space between the tokens. *)

Definition all_ws (w : string) : Prop := forall s, skip_ws (w ++ s) = skip_ws s.

Definition scalar (j : json) : bool := match j with JArr _ | JObj _ => false | _ => true end.

Inductive json_text : json -> string -> Prop :=
| text_scalar j : scalar j = true -> json_text j (dumps j)
| text_arr_nil w : all_ws w -> json_text (JArr []) ("[" ++ w ++ "]")
| text_arr w l t : all_ws w -> json_elements l t -> json_text (JArr l) ("[" ++ w ++ t)
| text_obj_nil w : all_ws w -> json_text (JObj []) ("{" ++ w ++ "}")
| text_obj w l t : all_ws w -> json_members l t -> json_text (JObj l) ("{" ++ w ++ t)
with json_elements : list json -> string -> Prop :=
| elements_last j t w : json_text j t -> all_ws w -> json_elements [j] (t ++ w ++ "]")
| elements_more j t w w' l ts :
    json_text j t -> all_ws w -> all_ws w' -> json_elements l ts -> json_elements (j :: l) (t ++ w ++ "," ++ w' ++ ts)
with json_members : dict -> string -> Prop :=
| members_last k j t w w' w'' :
    json_text j t -> all_ws w -> all_ws w' -> all_ws w'' ->
    json_members [(k, j)] (dumps_str k ++ w ++ ":" ++ w' ++ t ++ w'' ++ "}")
| members_more k j t w w' w'' w3 l ts :
    json_text j t -> all_ws w -> all_ws w' -> all_ws w'' -> all_ws w3 -> json_members l ts ->
    json_members ((k, j) :: l) (dumps_str k ++ w ++ ":" ++ w' ++ t ++ w'' ++ "," ++ w3 ++ ts).

Scheme text_mind := Induction for json_text Sort Prop
  with elements_mind := Induction for json_elements Sort Prop
  with members_mind := Induction for json_members Sort Prop.
Combined Scheme texts_ind from text_mind, elements_mind, members_mind.

Definition elements_cost (l : list json) : nat := foldr (fun x n => S (cost x + n)) O l.
Definition members_cost (l : dict) : nat := foldr (fun kv n => S (cost (snd kv) + n)) O l.

(** A text starts with a character no scanner skips. *)
Definition solid (bad : ascii) (t : string) : Prop :=
  exists c s, t = String c s /\ is_ws c = false /\ c <> bad.

Lemma solid_app bad t rest : solid bad t -> solid bad (t ++ rest).
Proof. intros (c & s & -> & H). exists c, (s ++ rest). by rewrite append_String. Qed.

Lemma solid_skip bad t : solid bad t -> skip_ws t = t.
Proof. intros (c & s & -> & Hw & _). simpl. by rewrite Hw. Qed.

Lemma text_solid :
  (forall j t, json_text j t -> json_ok j -> solid "]" t)
  /\ (forall l t, json_elements l t -> Forall json_ok l -> solid "]" t)
  /\ (forall l t, json_members l t -> solid "}" t).
Proof.
  apply (texts_ind (fun j t _ => json_ok j -> solid "]" t)
    (fun l t _ => Forall json_ok l -> solid "]" t) (fun l t _ => solid "}" t)).
  - intros j _ Hok. destruct (dumps_head j "" Hok) as (c & s & E & H). rewrite append_empty_r in E. by exists c, s.
  - intros. by eexists _, _.
  - intros. by eexists _, _.
  - intros. by eexists _, _.
  - intros. by eexists _, _.
  - intros j t w _ IH _ H. inversion_clear H. apply solid_app. auto.
  - intros j t w w' l ts _ IH _ _ _ _ H. inversion_clear H. apply solid_app. auto.
  - intros. by eexists _, _.
  - intros. by eexists _, _.
Qed.

(** The scanners accept what follows a value: white space and a closing character. *)
Lemma ends_ws w c s : all_ws w -> (is_ws c = false -> ends_number (String c s) = true) ->
  is_ws c = false -> ends_number (w ++ String c s) = true.
Proof.
  intros Hw H Hc. destruct w as [|a w]; [by apply H|].
  specialize (Hw (String c s)). simpl in Hw. rewrite Hc in Hw. rewrite append_String.
  destruct (is_ws a) eqn:Ea.
  - by destruct a as [[] [] [] [] [] [] [] []].
  - exfalso. injection Hw as -> Hw. apply (f_equal String.length) in Hw.
    rewrite length_append in Hw. simpl in Hw. lia.
Qed.

Lemma scalar_reads j fuel rest :
  scalar j = true -> json_ok j -> (cost j <= fuel)%nat -> ends_number rest = true ->
  parse_value fuel (dumps j ++ rest) = Some (j, rest).
Proof.
  intros Hs Hok Hc Hr. destruct fuel as [|f]; [destruct j; simpl in Hc; lia|].
  destruct j as [|[]|z|fl|s|l|l]; try done; try by destruct rest.
  - cbn [dumps]. rewrite parse_number_value by apply py_str_head. by apply scan_number_int.
  - simpl in Hok. cbn [dumps]. unfold float_ok, dumps_float in *. destruct (fl_value fl) as [q| | |] eqn:E.
    1: { destruct Hok as [Hh Hn]. rewrite parse_number_value by (by apply number_head_app).
         by apply (scan_number_app _ _ ""). }
    all: destruct fl as [v r]; simpl in *; subst; by destruct rest.
  - cbn [dumps]. unfold dumps_str. rewrite !append_assoc. change (quote ++ ?t) with (String (ascii_of_N 34) t).
    cbn [parse_value]. change (code (ascii_of_N 34) =? 34)%N with true. cbv beta iota.
    by rewrite scan_escape.
Qed.

Lemma open_array f t rest : solid "]" t ->
  parse_value (S f) (String "[" t ++ rest)
  = match parse_elements f (t ++ rest) with Some (l, r) => Some (JArr l, r) | None => None end.
Proof.
  intros (c & s & -> & Hw & Hc). rewrite !append_String. cbn [parse_value].
  change (code "[" =? 34)%N with false. change (code "[" =? 91)%N with true. cbv beta iota.
  cbn [skip_ws]. rewrite Hw. by destruct c as [[] [] [] [] [] [] [] []].
Qed.

Lemma open_object f t rest : solid "}" t ->
  parse_value (S f) (String "{" t ++ rest)
  = match parse_members f (t ++ rest) with Some (l, r) => Some (JObj (dict_of_pairs l), r) | None => None end.
Proof.
  intros (c & s & -> & Hw & Hc). rewrite !append_String. cbn [parse_value].
  change (code "{" =? 34)%N with false. change (code "{" =? 91)%N with false.
  change (code "{" =? 123)%N with true. cbv beta iota.
  cbn [skip_ws]. rewrite Hw. by destruct c as [[] [] [] [] [] [] [] []].
Qed.

(** White space after the opening character changes nothing. *)
Lemma open_ws f c w t : (c = "[" \/ c = "{")%char -> all_ws w ->
  parse_value f (String c (w ++ t)) = parse_value f (String c t).
Proof. intros [-> | ->] Hw; (destruct f as [|f]; [done|]); cbn [parse_value]; by rewrite Hw. Qed.

Lemma member_key f k w w' t r3 : all_ws w -> all_ws w' -> solid "]" t ->
  parse_members (S f) (dumps_str k ++ w ++ ":" ++ w' ++ t ++ r3)
  = match parse_value f (t ++ r3) with
    | None => None
    | Some (v, r3) =>
        match skip_ws r3 with
        | String "}" r4 => Some ([(k, v)], r4)
        | String "," r4 =>
            match parse_members f (skip_ws r4) with
            | Some (l, r5) => Some ((k, v) :: l, r5)
            | None => None
            end
        | _ => None
        end
    end.
Proof.
  intros Hw Hw' Ht. unfold dumps_str. rewrite !append_assoc. change (quote ++ ?s) with (String (ascii_of_N 34) s).
  cbn [parse_members]. change (code (ascii_of_N 34) =? 34)%N with true. cbn [negb].
  change (String (ascii_of_N 34) ?s) with (quote ++ s). rewrite scan_escape, Hw.
  change (skip_ws (":" ++ w' ++ t ++ r3)) with (String ":" (w' ++ t ++ r3)). cbv beta iota.
  by rewrite Hw', (solid_skip "]" (t ++ r3)) by (by apply solid_app).
Qed.

(** Every text of a value is read back as it. *)
Lemma text_reads :
  (forall j t, json_text j t -> json_ok j -> forall fuel rest, (cost j <= fuel)%nat -> ends_number rest = true ->
     parse_value fuel (t ++ rest) = Some (j, rest))
  /\ (forall l t, json_elements l t -> Forall json_ok l -> forall fuel rest, (S (elements_cost l) <= fuel)%nat ->
     parse_elements fuel (t ++ rest) = Some (l, rest))
  /\ (forall l t, json_members l t -> Forall (fun kv => json_ok (snd kv)) l -> forall fuel rest,
     (S (members_cost l) <= fuel)%nat -> parse_members fuel (t ++ rest) = Some (l, rest)).
Proof.
  pose proof text_solid as (Ht & He & Hm).
  apply (texts_ind
    (fun j t _ => json_ok j -> forall fuel rest, (cost j <= fuel)%nat -> ends_number rest = true ->
       parse_value fuel (t ++ rest) = Some (j, rest))
    (fun l t _ => Forall json_ok l -> forall fuel rest, (S (elements_cost l) <= fuel)%nat ->
       parse_elements fuel (t ++ rest) = Some (l, rest))
    (fun l t _ => Forall (fun kv => json_ok (snd kv)) l -> forall fuel rest,
       (S (members_cost l) <= fuel)%nat -> parse_members fuel (t ++ rest) = Some (l, rest))).
  - intros j Hj Hok fuel rest. by apply scalar_reads.
  - intros w Hw _ fuel rest Hc _. rewrite append_assoc, append_String, append_Empty, append_assoc, open_ws by auto.
    by destruct fuel; [simpl in Hc; lia|].
  - intros w l t Hw Hl IH Hok fuel rest Hc _. apply ok_arr in Hok. rewrite cost_arr in Hc.
    rewrite append_assoc, append_String, append_Empty, append_assoc, open_ws by auto.
    destruct fuel as [|f]; [lia|]. change (String "[" (t ++ rest)) with (String "[" t ++ rest).
    rewrite open_array, IH by (eauto; unfold elements_cost; lia). done.
  - intros w Hw _ fuel rest Hc _. rewrite append_assoc, append_String, append_Empty, append_assoc, open_ws by auto.
    by destruct fuel; [simpl in Hc; lia|].
  - intros w l t Hw Hl IH Hok fuel rest Hc _. apply ok_obj in Hok as [Hnd Hok]. rewrite cost_obj in Hc.
    rewrite append_assoc, append_String, append_Empty, append_assoc, open_ws by auto.
    destruct fuel as [|f]; [lia|]. change (String "{" (t ++ rest)) with (String "{" t ++ rest).
    rewrite open_object, IH by (eauto; unfold members_cost; lia). by rewrite dict_of_pairs_nodup.
  - intros j t w Hj IH Hw H fuel rest Hc. apply List.Forall_cons_iff in H as [Hok _].
    destruct fuel as [|f]; [lia|]. rewrite !append_assoc. cbn [parse_elements]. simpl in Hc.
    rewrite IH by (done || lia || by apply ends_ws). by rewrite Hw.
  - intros j t w w' l ts Hj IH Hw Hw' Hl IHl H fuel rest Hc. apply List.Forall_cons_iff in H as [Hok Hokl].
    destruct fuel as [|f]; [lia|]. rewrite !append_assoc. cbn [parse_elements]. simpl in Hc. fold (elements_cost l) in Hc.
    rewrite IH by (done || lia || by apply ends_ws). rewrite Hw.
    change (skip_ws ("," ++ ?s)) with ("," ++ s). change ("," ++ ?s) with (String "," s). cbv beta iota.
    rewrite Hw', (solid_skip "]" (ts ++ rest)) by (apply solid_app; eauto).
    by rewrite IHl by (auto; lia).
  - intros k j t w w' w'' Hj IH Hw Hw' Hw'' H fuel rest Hc. apply List.Forall_cons_iff in H as [Hok _].
    destruct fuel as [|f]; [lia|]. rewrite !append_assoc. simpl in Hc, Hok.
    rewrite member_key by eauto. rewrite IH by (done || lia || by apply ends_ws). by rewrite Hw''.
  - intros k j t w w' w'' w3 l ts Hj IH Hw Hw' Hw'' Hw3 Hl IHl H fuel rest Hc. apply List.Forall_cons_iff in H as [Hok Hokl].
    destruct fuel as [|f]; [lia|]. rewrite !append_assoc. simpl in Hc, Hok. fold (members_cost l) in Hc.
    rewrite member_key by eauto. rewrite IH by (done || lia || by apply ends_ws). rewrite Hw''.
    change (skip_ws ("," ++ ?s)) with ("," ++ s). change ("," ++ ?s) with (String "," s). cbv beta iota.
    rewrite Hw3, (solid_skip "}" (ts ++ rest)) by (apply solid_app; eauto).
    by rewrite IHl by (auto; lia).
Qed.

(** ** The fuel of [loads] *)

Lemma scalar_cost j : scalar j = true -> cost j = 1%nat.
Proof. by destruct j. Qed.

Lemma text_cost :
  (forall j t, json_text j t -> json_ok j -> (S (cost j) <= 2 * String.length t)%nat)
  /\ (forall l t, json_elements l t -> Forall json_ok l -> (S (elements_cost l) <= 2 * String.length t)%nat)
  /\ (forall l t, json_members l t -> Forall (fun kv => json_ok (snd kv)) l ->
        (S (members_cost l) <= 2 * String.length t)%nat).
Proof.
  apply (texts_ind (fun j t _ => json_ok j -> (S (cost j) <= 2 * String.length t)%nat)
    (fun l t _ => Forall json_ok l -> (S (elements_cost l) <= 2 * String.length t)%nat)
    (fun l t _ => Forall (fun kv => json_ok (snd kv)) l -> (S (members_cost l) <= 2 * String.length t)%nat)).
  - intros j Hs Hok. rewrite (scalar_cost j Hs). destruct (dumps_head j "" Hok) as (c & s & E & _).
    rewrite append_empty_r in E. rewrite E. simpl. lia.
  - intros w _ _. rewrite !length_append. simpl. lia.
  - intros w l t _ _ IH Hok. apply ok_arr in Hok. rewrite cost_arr, !length_append. unfold elements_cost in IH.
    change (String.length "[") with 1%nat. specialize (IH Hok). lia.
  - intros w _ _. rewrite !length_append. simpl. lia.
  - intros w l t _ _ IH Hok. apply ok_obj in Hok as [_ Hok]. rewrite cost_obj, !length_append. unfold members_cost in IH.
    change (String.length "{") with 1%nat. specialize (IH Hok). lia.
  - intros j t w _ IH _ H. apply List.Forall_cons_iff in H as [H _]. rewrite !length_append. simpl. specialize (IH H). lia.
  - intros j t w w' l ts _ IH _ _ _ IHl H. apply List.Forall_cons_iff in H as [H Hl]. rewrite !length_append.
    specialize (IH H). specialize (IHl Hl). change (elements_cost (j :: l)) with (S (cost j + elements_cost l)). lia.
  - intros k j t w w' w'' _ IH _ _ _ H. apply List.Forall_cons_iff in H as [H _]. rewrite !length_append.
    simpl. specialize (IH H). lia.
  - intros k j t w w' w'' w3 l ts _ IH _ _ _ _ _ IHl H. apply List.Forall_cons_iff in H as [H Hl]. rewrite !length_append.
    specialize (IH H). specialize (IHl Hl). change (members_cost ((k, j) :: l)) with (S (cost j + members_cost l)). lia.
Qed.

(** [json.loads] of any text of a value, white space around it included. *)
Lemma loads_text j t w w' : json_ok j -> json_text j t -> all_ws w -> all_ws w' -> loads (w ++ t ++ w') = Some j.
Proof.
  intros Hok Ht Hw Hw'. unfold loads. rewrite Hw.
  rewrite (solid_skip "]") by (apply solid_app; by apply (proj1 text_solid j t)).
  rewrite (proj1 text_reads j t Ht Hok).
  - specialize (Hw' ""). rewrite append_empty_r in Hw'. by rewrite Hw'.
  - pose proof (proj1 text_cost j t Ht Hok). rewrite !length_append. lia.
  - destruct w' as [|c w']; [done|]. specialize (Hw' ""). rewrite append_empty_r in Hw'. simpl in Hw'.
    destruct (is_ws c) eqn:Ec; [by destruct c as [[] [] [] [] [] [] [] []] | done].
Qed.

(** ** The compact text *)

Definition member (kv : string * json) : string := dumps_str (fst kv) ++ ": " ++ dumps (snd kv).

Lemma concat_cons sep x (y : string) l :
  String.concat sep (x :: y :: l) = x ++ sep ++ String.concat sep (y :: l).
Proof. done. Qed.

Lemma dumps_arr l : dumps (JArr l) = "[" ++ String.concat ", " (map dumps l) ++ "]".
Proof. done. Qed.
Lemma dumps_obj l : dumps (JObj l) = "{" ++ String.concat ", " (map member l) ++ "}".
Proof. cbn [dumps]. do 2 f_equal. f_equal. apply map_ext. by intros [k v]. Qed.

Lemma no_ws : all_ws "".
Proof. done. Qed.
Lemma one_space : all_ws " ".
Proof. done. Qed.

(** Texts joined by a comma and white space, before the closing character. *)
Lemma concat_elements {A} (f : A -> json) (g : A -> string) w w' l :
  all_ws w -> all_ws w' -> l <> [] -> Forall (fun x => json_text (f x) (g x)) l ->
  json_elements (map f l) (String.concat ("," ++ w) (map g l) ++ w' ++ "]").
Proof.
  intros Hw Hw' Hne H. induction H as [|x l Hx Hl IH]; [done|]. destruct l as [|y l].
  - by apply elements_last.
  - cbn [map]. rewrite concat_cons, !append_assoc.
    apply (elements_more (f x) (g x) "" w); [done | apply no_ws | done | by apply IH].
Qed.

Lemma concat_members {A} (f : A -> string * json) (g : A -> string) w w' l :
  all_ws w -> all_ws w' -> l <> [] -> Forall (fun x => json_text (snd (f x)) (g x)) l ->
  json_members (map f l)
    (String.concat ("," ++ w) (map (fun x => dumps_str (fst (f x)) ++ ": " ++ g x) l) ++ w' ++ "}").
Proof.
  intros Hw Hw' Hne H. induction H as [|x l Hx Hl IH]; [done|]. destruct l as [|y l]; cbn [map].
  - cbn [String.concat]. rewrite !append_assoc. destruct (f x) as [k v].
    apply (members_last k v (g x) "" " " w'); (done || apply no_ws || apply one_space).
  - rewrite concat_cons, !append_assoc. cbn [map] in IH. destruct (f x) as [k v].
    apply (members_more k v (g x) "" " " "" w); (done || apply no_ws || apply one_space || by apply IH).
Qed.

Lemma dumps_text j : json_text j (dumps j).
Proof.
  induction j as [|b|z|fl|s|l IH|l IH] using json_nested_ind; try by apply text_scalar.
  - destruct (decide (l = [])) as [->|Hne]; [apply (text_arr_nil ""), no_ws|].
    rewrite dumps_arr. apply (text_arr ""); [apply no_ws|].
    pose proof (concat_elements id dumps " " "" l one_space no_ws Hne IH) as H. by rewrite map_id in H.
  - destruct (decide (l = [])) as [->|Hne]; [apply (text_obj_nil ""), no_ws|].
    rewrite dumps_obj. apply (text_obj ""); [apply no_ws|].
    pose proof (concat_members id (fun kv => dumps (snd kv)) " " "" l one_space no_ws Hne IH) as H.
    by rewrite map_id in H.
Qed.

Lemma loads_dumps_ok j : json_ok j -> loads (dumps j) = Some j.
Proof.
  intros Hok. pose proof (loads_text j (dumps j) "" "" Hok (dumps_text j) no_ws no_ws) as H.
  by rewrite append_Empty, append_empty_r in H.
Qed.


Lemma ascii_text_app a b : ascii_text (a ++ b) = ascii_text a && ascii_text b.
Proof. induction a as [|c a IH]; [done|]. rewrite append_String. simpl. by rewrite IH, andb_assoc. Qed.

Lemma utf8_ascii s : ascii_text s = true -> utf8_decode s = Some s.
Proof.
  induction s as [|c s IH]; [done|]. simpl. intros [Hc Hs]%andb_prop. by rewrite Hc, IH.
Qed.

Lemma ascii_escape s : ascii_text (escape s) = true.
Proof.
  induction s as [|c s IH]; [done|]. simpl. rewrite ascii_text_app, IH, andb_true_r.
  by destruct c as [[] [] [] [] [] [] [] []].
Qed.

Lemma ascii_dec_go f n acc : ascii_text acc = true -> ascii_text (dec_go f n acc) = true.
Proof.
  revert n acc. induction f as [|f IH]; intros n acc H; [done|]. cbn [dec_go].
  pose proof (N.mod_lt n 10 ltac:(lia)) as Hm.
  assert (ascii_text (String (digit_char (n mod 10)) acc) = true) as H'.
  { simpl. rewrite digit_char_code, H, andb_true_r by done. apply N.ltb_lt. lia. }
  destruct (n / 10 =? 0)%N; [done | by apply IH].
Qed.

Lemma ascii_concat {A} (f : A -> string) l :
  Forall (fun x => ascii_text (f x) = true) l -> ascii_text (String.concat ", " (map f l)) = true.
Proof.
  induction 1 as [|x l Hx _ IH]; [done|]. destruct l as [|y l]; [done|]. cbn [map].
  rewrite concat_cons, !ascii_text_app, Hx. simpl. exact IH.
Qed.

(** Floats print in ASCII. *)
Fixpoint floats_ascii (j : json) : Prop :=
  match j with
  | JFloat f => ascii_text (dumps_float f) = true
  | JArr l => (fix go l := match l with [] => True | x :: l' => floats_ascii x /\ go l' end) l
  | JObj l => (fix go l := match l with [] => True | kv :: l' => floats_ascii (snd kv) /\ go l' end) l
  | _ => True
  end.

Lemma ascii_dumps j : floats_ascii j -> ascii_text (dumps j) = true.
Proof.
  induction j as [|[]|z|fl|s|l IH|l IH] using json_nested_ind; intros Hok.
  1-3: done.
  - cbn [dumps]. unfold py_str_Z. destruct (z <? 0)%Z; simpl; by apply ascii_dec_go.
  - done.
  - cbn [dumps]. unfold dumps_str. by rewrite !ascii_text_app, ascii_escape.
  - rewrite dumps_arr, !ascii_text_app. rewrite ascii_concat; [done|]. simpl in Hok.
    induction IH as [|x l Hx _ IHl]; constructor; destruct Hok; auto.
  - rewrite dumps_obj, !ascii_text_app. rewrite ascii_concat; [done|]. simpl in Hok.
    induction IH as [|[k v] l Hx _ IHl]; constructor; destruct Hok; auto.
    unfold member, dumps_str. by rewrite !ascii_text_app, ascii_escape, Hx.
Qed.
