(* ===== verification/NetAddr.v ===== *)
(** * Internet addresses (Python's [ipaddress])

    [ip_address], [is_loopback], [ip_network(cidr, strict=False)] and the
    membership test, for text, as the authentication code uses them. *)

From S2P Require Import Prelude PyStr JsonLoads.
From Stdlib Require Import Ascii String ZArith.
Open Scope string_scope.
Open Scope Z_scope.

Fixpoint all_chars (p : ascii -> bool) (s : string) : bool :=
  match s with EmptyString => true | String c s' => p c && all_chars p s' end.

(** [s.isascii() and s.isdigit()], for a non-empty text. *)
Definition decimal (s : string) : bool := negb (String.eqb s "") && all_chars is_digit s.

(** ** IPv4 *)

Definition parse_octet (s : string) : option Z :=
  if negb (decimal s) then None
  else if (3 <? String.length s)%nat then None
  else if negb (String.eqb s "0") && startswith "0" s then None
  else let n := digits_value s in if n <=? 255 then Some n else None.

Definition ipv4_int (s : string) : option Z :=
  match split_on "." s with
  | [a; b; c; d] =>
      match parse_octet a, parse_octet b, parse_octet c, parse_octet d with
      | Some a, Some b, Some c, Some d => Some (((a * 256 + b) * 256 + c) * 256 + d)
      | _, _, _, _ => None
      end
  | _ => None
  end.

Definition ipv4_address (s : string) : option Z := if has_char "/" s then None else ipv4_int s.

(** ** IPv6 *)

Fixpoint hex_value (acc : Z) (s : string) : option Z :=
  match s with
  | EmptyString => Some acc
  | String c s' => match hex_val c with Some d => hex_value (16 * acc + Z.of_N d) s' | None => None end
  end.

Definition parse_hextet (s : string) : option Z :=
  if String.eqb s "" || (4 <? String.length s)%nat then None else hex_value 0 s.

(** [':'.split] with a dotted tail replaced by its two 16-bit halves. *)
Definition v6_parts (s : string) : option (list (string + Z)) :=
  let parts := split_on ":" s in
  if (List.length parts <? 3)%nat then None
  else
    let tail := default EmptyString (parts !! (List.length parts - 1)%nat) in
    if has_char "." tail then
      match ipv4_int tail with
      | Some v => Some (map inl (take (List.length parts - 1) parts) ++ [inr (v / 65536); inr (v mod 65536)])%list
      | None => None
      end
    else Some (map inl parts).

Definition empty_part (p : string + Z) : bool := match p with inl s => String.eqb s "" | inr _ => false end.

Definition part_value (p : string + Z) : option Z := match p with inl s => parse_hextet s | inr v => Some v end.

(** [(ip_int << 16) | hextet] over the parts. *)
Fixpoint join_hextets (acc : Z) (l : list (string + Z)) : option Z :=
  match l with
  | [] => Some acc
  | p :: l' => match part_value p with Some v => join_hextets (65536 * acc + v) l' | None => None end
  end.

(** The indices of the empty parts strictly between the first and the last. *)
Definition inner_empty (parts : list (string + Z)) : list nat :=
  List.filter (fun i => match nth_error parts i with Some p => empty_part p | None => false end)
    (seq 1 (List.length parts - 2)).

Definition ipv6_int (s : string) : option Z :=
  match v6_parts s with
  | None => None
  | Some parts =>
      let n := List.length parts in
      let first_empty := match parts with p :: _ => empty_part p | [] => true end in
      let last_empty := match rev parts with p :: _ => empty_part p | [] => true end in
      if (9 <? n)%nat then None
      else match inner_empty parts with
           | [] => if (n =? 8)%nat && negb first_empty && negb last_empty then join_hextets 0 parts else None
           | [k] =>
               let hi := (if first_empty then k - 1 else k)%nat in
               let lo := (if last_empty then n - k - 2 else n - k - 1)%nat in
               if (first_empty && negb (hi =? 0)%nat) || (last_empty && negb (lo =? 0)%nat) then None
               else if (8 <=? hi + lo)%nat then None
               else match join_hextets 0 (take hi parts) with
                    | Some v => join_hextets (v * 65536 ^ Z.of_nat (8 - (hi + lo))) (drop (n - lo) parts)
                    | None => None
                    end
           | _ => None
           end
  end.

(** An address may carry a scope: [addr%scope]. *)
Definition ipv6_address (s : string) : option Z :=
  if has_char "/" s then None
  else match split_on "%" s with
       | [a] => ipv6_int a
       | [a; scope] => if String.eqb scope "" then None else ipv6_int a
       | _ => None
       end.

(** ** Addresses and networks *)

Inductive ip := V4 (n : Z) | V6 (n : Z).

(** None is [ValueError]. *)
Definition ip_address (s : string) : option ip :=
  match ipv4_address s with
  | Some n => Some (V4 n)
  | None => match ipv6_address s with Some n => Some (V6 n) | None => None end
  end.

Definition v4_loopback (n : Z) : bool := n / 2 ^ 24 =? 127.

Definition is_loopback (a : ip) : bool :=
  match a with
  | V4 n => v4_loopback n
  | V6 n => if n / 2 ^ 32 =? 65535 then v4_loopback (n mod 2 ^ 32) else n =? 1
  end.

(** A prefix length from a dotted netmask, or from a dotted hostmask. *)
Definition prefix_of_mask (m : Z) : option Z :=
  List.find (fun p => m =? 2 ^ 32 - 2 ^ (32 - p)) (map Z.of_nat (seq 0 33)).

Definition v4_prefix (mask : string) : option Z :=
  if decimal mask then let p := digits_value mask in if p <=? 32 then Some p else None
  else match ipv4_int mask with
       | None => None
       | Some m => match prefix_of_mask m with
                   | Some p => Some p
                   | None => prefix_of_mask (2 ^ 32 - 1 - m)
                   end
       end.

Definition v6_prefix (mask : string) : option Z :=
  if decimal mask then let p := digits_value mask in if p <=? 128 then Some p else None else None.

Definition width (a : ip) : Z := match a with V4 _ => 32 | V6 _ => 128 end.

(** The masked network address and the prefix length. *)
Definition network := (ip * Z)%type.

Definition masked (bits n p : Z) : Z := n / 2 ^ (bits - p) * 2 ^ (bits - p).

Definition ip_network (s : string) : option network :=
  match split_on "/" s with
  | [a] => match ipv4_address a with
           | Some n => Some (V4 n, 32)
           | None => match ipv6_address a with Some n => Some (V6 n, 128) | None => None end
           end
  | [a; m] =>
      match ipv4_address a, v4_prefix m with
      | Some n, Some p => Some (V4 (masked 32 n p), p)
      | _, _ => match ipv6_address a, v6_prefix m with
                | Some n, Some p => Some (V6 (masked 128 n p), p)
                | _, _ => None
                end
      end
  | _ => None
  end.

(** [addr in network]: never across versions. *)
Definition in_network (a : ip) (net : network) : bool :=
  match a, fst net with
  | V4 n, V4 b => masked 32 n (snd net) =? b
  | V6 n, V6 b => masked 128 n (snd net) =? b
  | _, _ => false
  end.

Example addresses :
  map ip_address ["127.0.0.1"; "::1"; "::ffff:127.0.0.1"; "1::"; "1:2:3:4:5:6:7:8"; "fe80::1%eth0"]
  = [Some (V4 2130706433); Some (V6 1); Some (V6 281472812449793); Some (V6 (2 ^ 112));
     Some (V6 (((((((1 * 65536 + 2) * 65536 + 3) * 65536 + 4) * 65536 + 5) * 65536 + 6) * 65536 + 7) * 65536 + 8));
     Some (V6 (65152 * 2 ^ 112 + 1))].
Proof. vm_compute. reflexivity. Qed.

Example not_addresses :
  map ip_address [""; "127.0.0.01"; "256.0.0.1"; "1.2.3"; ":::"; "1::2::3"; "12345::"; "localhost"; "::1%"]
  = repeat None 9.
Proof. vm_compute. reflexivity. Qed.

Example networks :
  map (fun s => option_map snd (ip_network s)) ["10.1.2.3/8"; "10.0.0.0/255.0.0.0"; "10.0.0.0/0.255.255.255"; "::/0"; "10.0.0.0/33"; "x/8"]
  = [Some 8; Some 8; Some 8; Some 0; None; None].
Proof. vm_compute. reflexivity. Qed.
