(* ===== verification/Auth.v ===== *)
(** * Authentication (src/symba/transport/auth.py)

    One verifier backs the HTTP middleware and the gRPC interceptor.  It turns
    the credentials of a request into a [Principal] or raises.  Fetching the
    JWKS and verifying an RS256 token is a library: [jwt_decode] gives the
    claims of a token it accepts, or the text of its exception. *)

From S2P Require Import Prelude PyStr Errors Json JsonLoads NetAddr World JobService Config.
From Stdlib Require Import Ascii String ZArith.
Open Scope string_scope.
Open Scope list_scope.

Definition _BEARER_PREFIX : string := "bearer ".
Definition _TENANT_HEADER : string := "x-symba-tenant".
Definition _DEFAULT_TENANT : string := "default".

Record Principal := mkPrincipal { p_tenant : string; p_subject : string; p_method : string }.

(** [not peer_ip] *)
Definition absent (o : option string) : bool := match o with Some s => negb (nonempty s) | None => true end.

Definition _is_loopback (peer_ip : option string) : bool :=
  match or_none (default "" peer_ip) with
  | None => true
  | Some s => match ip_address s with Some a => is_loopback a | None => false end
  end.

(** A range that does not parse is skipped. *)
Definition in_cidr (a : ip) (cidr : string) : bool :=
  match ip_network cidr with Some net => in_network a net | None => false end.

Definition _in_trusted_cidrs (peer_ip : option string) (cidrs : list string) : bool :=
  match or_none (default "" peer_ip), cidrs with
  | None, _ | _, [] => false
  | Some s, _ => match ip_address s with Some a => existsb (in_cidr a) cidrs | None => false end
  end.

(** [hmac.compare_digest] of two texts: TypeError unless both are ASCII. *)
Definition compare_digest (a b : string) : result exn bool :=
  if ascii_text a && ascii_text b then Ok (String.eqb a b) else Raise TypeError.

(** The scan goes over every secret; the last match counts. *)
Fixpoint match_secrets (cred : string) (tokens : list (string * string)) (matched : option string)
  : result exn (option string) :=
  match tokens with
  | [] => Ok matched
  | (secret, tenant) :: rest =>
      match compare_digest cred secret with
      | Ok b => match_secrets cred rest (if b then Some tenant else matched)
      | Raise e => Raise e
      end
  end.

Definition _match_shared_secret (cred : string) (tokens : list (string * string)) : result exn (option string) :=
  match_secrets cred tokens None.

Definition unauthenticated (m : string) : exn := err_msg Unauthenticated m [].

Module Authenticator.
Section Authenticator.
Context (jwt_decode : string -> string + dict).

(** [claims.get("tenant") or claims.get("sub")], when it is truthy *)
Definition claimed_tenant (claims : dict) : option json :=
  let pick k := match dict_get k claims with Some j => if JobService.json_truthy j then Some j else None | None => None end in
  match pick "tenant" with Some j => Some j | None => pick "sub" end.

Definition _verify_jwt (token : string) : result exn Principal :=
  match jwt_decode token with
  | inl reason => Raise (err_msg Unauthenticated "invalid bearer token" [("reason", CtxStr reason)])
  | inr claims =>
      match claimed_tenant claims with
      | None => Raise (unauthenticated "token missing tenant/sub claim")
      | Some tenant => Ok (mkPrincipal (str_json tenant) (str_json (default tenant (dict_get "sub" claims))) "jwt")
      end
  end.

Definition _authenticate_token (cfg : Config.AuthConfig) (authorization : option string) : result exn Principal :=
  let a := default "" authorization in
  let n := String.length _BEARER_PREFIX in
  if absent authorization || negb (String.eqb (lower (take_chars n a)) _BEARER_PREFIX)
  then Raise (unauthenticated "missing bearer credentials")
  else
    let cred := strip (drop_chars n a) in
    if negb (nonempty cred) then Raise (unauthenticated "empty bearer credentials")
    else match _match_shared_secret cred (Config.tokens cfg) with
         | Raise e => Raise e
         | Ok (Some tenant) => Ok (mkPrincipal tenant tenant "token")
         | Ok None =>
             if nonempty (Config.token_jwks_url cfg) then _verify_jwt cred
             else Raise (unauthenticated "unrecognized bearer credentials")
         end.

Definition authenticate (cfg : Config.AuthConfig) (authorization tenant_header peer_ip : option string)
  : result exn Principal :=
  if String.eqb (Config.mode cfg) "none" then
    if negb (_is_loopback peer_ip) && negb (_in_trusted_cidrs peer_ip (Config.trusted_proxy_cidrs cfg))
    then Raise (unauthenticated "auth disabled; only loopback or trusted-proxy callers are permitted")
    else Ok (mkPrincipal _DEFAULT_TENANT "local" "none")
  else if String.eqb (Config.mode cfg) "mtls" then
    let tenant := strip (default "" tenant_header) in
    if nonempty tenant then Ok (mkPrincipal tenant tenant "mtls")
    else Raise (unauthenticated "mtls mode: missing trusted tenant identity")
  else _authenticate_token cfg authorization.

(** ** The gRPC interceptor *)

(** [dict(invocation_metadata).get(k)]: the last value of a key counts. *)
Definition metadata_get (k : string) (md : list (string * string)) : option string :=
  snd <$> List.find (fun kv => String.eqb (fst kv) k) (rev md).

(** What becomes of a call: the servicer runs it, it is aborted with
    UNAUTHENTICATED and a message, or the interceptor itself raises. *)
Inductive Intercepted :=
| Continue
| AbortUnauthenticated (reason : string)
| InterceptorRaised (e : exn).

Definition intercept_service (cfg : Config.AuthConfig) (md : list (string * string)) : Intercepted :=
  if String.eqb (Config.mode cfg) "none" then Continue
  else match authenticate cfg (metadata_get "authorization" md) (metadata_get _TENANT_HEADER md) None with
       | Ok _ => Continue
       | Raise (Symba e) => if is_class Unauthenticated (Symba e) then AbortUnauthenticated (message e)
                            else InterceptorRaised (Symba e)
       | Raise e => InterceptorRaised e
       end.

End Authenticator.
End Authenticator.

Example bearer_is_case_insensitive :
  Authenticator.authenticate (fun _ => inl "no") (Config.mkAuth "token" "" [("s3cret", "acme"); ("other", "b")] [])
    (Some "BeArEr  s3cret ") None (Some "8.8.8.8")
  = Ok (mkPrincipal "acme" "acme" "token").
Proof. vm_compute. reflexivity. Qed.

Example untrusted_peer_is_refused :
  map (fun ip => match Authenticator.authenticate (fun _ => inl "") (Config.mkAuth "none" "" [] ["172.16.0.0/12"]) None None ip with
                 | Ok _ => true | Raise _ => false end)
      [None; Some "127.0.0.1"; Some "172.20.0.7"; Some "172.32.0.1"; Some "::1"; Some "unix"]
  = [true; true; true; false; true; false].
Proof. vm_compute. reflexivity. Qed.
