(* ===== verification/GrpcServer.v ===== *)
(** * The gRPC server (src/symba/transport/grpc_server.py)

    The listener and its TLS material, the channel options, and the server as
    [serve_grpc] puts it together.  [files] is the file system ([None]: OSError)
    and [bind] the port grpc reports for a listener. *)

From S2P Require Import Prelude PyStr Errors Config Auth.
From Stdlib Require Import Ascii String ZArith.
Open Scope string_scope.
Open Scope Z_scope.
Open Scope list_scope.

Module GrpcServer.

(** [value.strip()] of bytes is empty *)
Fixpoint blank_bytes (s : string) : bool :=
  match s with
  | EmptyString => true
  | String c s' => (((9 <=? code c) && (code c <=? 13) || (code c =? 32))%N && blank_bytes s')
  end.

(** What the server listens on; the TLS one has its key, its certificate chain
    and, when clients must present a certificate, the CA that signs them. *)
Inductive Listener :=
| InsecurePort (address : string)
| SecurePort (address private_key certificate_chain : string) (root_certificates : option string)
    (require_client_auth : bool).

Section Server.
Context (files : string -> option string).

Definition _read_tls_material (path : string) : result exn string :=
  match files path with
  | None => Raise RuntimeError
  | Some value => if blank_bytes value then Raise RuntimeError else Ok value
  end.

Definition _add_listening_port (cfg : Config.ServerConfig) : result exn Listener :=
  let address := ("0.0.0.0:" ++ py_str_Z (Config.grpc_port cfg))%string in
  if negb (Config.grpc_tls_enabled cfg) then Ok (InsecurePort address)
  else
    match _read_tls_material (Config.grpc_tls_key_file cfg) with
    | Raise e => Raise e
    | Ok private_key =>
        match _read_tls_material (Config.grpc_tls_cert_file cfg) with
        | Raise e => Raise e
        | Ok certificate_chain =>
            if Config.grpc_tls_require_client_auth cfg then
              match _read_tls_material (Config.grpc_tls_client_ca_file cfg) with
              | Raise e => Raise e
              | Ok ca => Ok (SecurePort address private_key certificate_chain (Some ca) true)
              end
            else Ok (SecurePort address private_key certificate_chain None false)
        end
    end.

Definition _server_options (cfg : Config.ServerConfig) : list (string * Z) :=
  let max_bytes := Config.grpc_max_message_mb cfg * 1024 * 1024 in
  [("grpc.keepalive_time_ms", Config.grpc_keepalive_time_ms cfg);
   ("grpc.keepalive_timeout_ms", Config.grpc_keepalive_timeout_ms cfg);
   ("grpc.http2.min_ping_interval_without_data_ms", Config.grpc_min_ping_interval_ms cfg);
   ("grpc.http2.min_time_between_pings_ms", Config.grpc_min_ping_interval_ms cfg);
   ("grpc.keepalive_permit_without_calls", if Config.grpc_permit_keepalive_without_calls cfg then 1 else 0);
   ("grpc.max_connection_age_ms", Config.grpc_max_connection_age_s cfg * 1000);
   ("grpc.max_connection_age_grace_ms", Config.grpc_max_connection_age_grace_s cfg * 1000);
   ("grpc.max_send_message_length", max_bytes);
   ("grpc.max_receive_message_length", max_bytes)].

Inductive Health := SERVING | NOT_SERVING.

Definition _DATA_PLANE_SERVICE : string := "symba.v1.DataPlane".
Definition _CONTROL_PLANE_SERVICE : string := "symba.v1.ClientService".
Definition _ADMIN_SERVICE : string := "symba.v1.AdminService".

(** A started server: every call goes through the interceptor of [sv_auth]. *)
Record Server := mkGrpcServer {
  sv_options : list (string * Z);
  sv_auth : Config.AuthConfig;
  sv_listener : Listener;
  sv_health : gmap string Health
}.

Definition serve_grpc (bind : Listener -> Z) (cfg : Config.SymbaConfig) : result exn Server :=
  match _add_listening_port (Config.server cfg) with
  | Raise e => Raise e
  | Ok l =>
      if bind l =? 0 then Raise RuntimeError
      else Ok (mkGrpcServer (_server_options (Config.server cfg)) (Config.auth cfg) l
                 (<[_ADMIN_SERVICE := SERVING]> (<[_CONTROL_PLANE_SERVICE := SERVING]>
                    (<[_DATA_PLANE_SERVICE := SERVING]> (<["" := SERVING]> ∅)))))
  end.

(** The [finally] of [serve_grpc]: draining, before the server stops. *)
Definition drain (s : Server) : Server :=
  mkGrpcServer (sv_options s) (sv_auth s) (sv_listener s) (<["" := NOT_SERVING]> (sv_health s)).

End Server.
End GrpcServer.
