(* ===== verification/AuthProps.v ===== *)
(** * Authentication and deployment security

    The verifier accepts exactly the documented credentials, and a production
    configuration that validates never serves an unauthenticated or plaintext
    gRPC call.  A DSN built from discrete fields gives them back. *)

From S2P Require Import Prelude PyStr Errors Json JsonLoads JsonProps NetAddr World JobService Config Auth GrpcServer.
From Stdlib Require Import Ascii String ZArith.
Open Scope string_scope.
Open Scope Z_scope.
Open Scope list_scope.
Import Authenticator.

(** The credential of a bearer header: what follows the scheme, in any case, stripped. *)
Definition bearer (authorization : option string) (cred : string) : Prop :=
  exists scheme rest, authorization = Some (scheme ++ rest)%string /\ String.length scheme = 7%nat
    /\ lower scheme = "bearer " /\ cred = strip rest /\ cred <> "".

(** A peer that mode=none trusts. *)
Definition local_peer (cidrs : list string) (peer : option string) : Prop :=
  peer = None \/ peer = Some "" \/
  exists s a, peer = Some s /\ ip_address s = Some a /\
    (is_loopback a = true \/ exists cidr net, cidr ∈ cidrs /\ ip_network cidr = Some net /\ in_network a net = true).

(** The documented mode matrix. *)
Inductive grants (jwt : string -> string + dict) (cfg : Config.AuthConfig)
    (authorization tenant_header peer : option string) : Principal -> Prop :=
| grant_local :
    Config.mode cfg = "none" -> local_peer (Config.trusted_proxy_cidrs cfg) peer ->
    grants jwt cfg authorization tenant_header peer (mkPrincipal "default" "local" "none")
| grant_identity h :
    Config.mode cfg = "mtls" -> tenant_header = Some h -> strip h <> "" ->
    grants jwt cfg authorization tenant_header peer (mkPrincipal (strip h) (strip h) "mtls")
| grant_secret cred t :
    Config.mode cfg <> "none" -> Config.mode cfg <> "mtls" -> bearer authorization cred ->
    (cred, t) ∈ Config.tokens cfg ->
    grants jwt cfg authorization tenant_header peer (mkPrincipal t t "token")
| grant_jwt cred claims t :
    Config.mode cfg <> "none" -> Config.mode cfg <> "mtls" -> bearer authorization cred ->
    cred ∉ (Config.tokens cfg).*1 -> Config.token_jwks_url cfg <> "" ->
    jwt cred = inr claims -> claimed_tenant claims = Some t ->
    grants jwt cfg authorization tenant_header peer
      (mkPrincipal (str_json t) (str_json (default t (dict_get "sub" claims))) "jwt").

Lemma nonempty_spec s : nonempty s = true <-> s <> "".
Proof. unfold nonempty. rewrite negb_true_iff, String.eqb_neq. done. Qed.

Lemma or_none_spec s : or_none s = if nonempty s then Some s else None.
Proof. done. Qed.

Lemma local_peer_spec cidrs peer :
  _is_loopback peer || _in_trusted_cidrs peer cidrs = true <-> local_peer cidrs peer.
Proof.
  unfold _is_loopback, _in_trusted_cidrs, local_peer, or_none.
  destruct peer as [s|]; simpl; [|split; [by left | done]].
  destruct (nonempty s) eqn:Hs; simpl.
  2:{ split; [|done]. intros _. right; left. f_equal. apply dec_stable. intros H.
      apply nonempty_spec in H. congruence. }
  apply nonempty_spec in Hs. rewrite orb_true_iff. destruct (ip_address s) as [a|] eqn:Ha.
  - split.
    + intros H. right; right. exists s, a. split_and!; [done..|]. destruct H as [H|H]; [by left|]. right.
      destruct cidrs as [|c0 cs]; [done|]. apply existsb_exists in H as (c & Hc & H). unfold in_cidr in H.
      destruct (ip_network c) as [net|] eqn:Hn; [|done]. exists c, net. split_and!; [|done..].
      by apply list_elem_of_In.
    + intros [?|[?|(s' & a' & [= <-] & Ha' & H)]]; [done | congruence|]. assert (a' = a) as -> by congruence.
      destruct H as [H|(c & net & Hc & Hn & H)]; [by left|]. right.
      assert (existsb (in_cidr a) cidrs = true) as Hex.
      { apply existsb_exists. exists c. unfold in_cidr. rewrite Hn. split; [by apply list_elem_of_In | done]. }
      by destruct cidrs.
  - split; [by destruct cidrs; intros [?|?]|]. intros [?|[?|(s' & a' & [= <-] & ? & _)]]; congruence.
Qed.

(** ** The scan over the shared secrets *)

Lemma match_secrets_ok cred tokens m r :
  match_secrets cred tokens m = Ok r ->
  Forall (fun st => ascii_text (fst st) = true) tokens
  /\ match r with
     | Some t => (cred, t) ∈ tokens \/ (m = Some t /\ cred ∉ tokens.*1)
     | None => m = None /\ cred ∉ tokens.*1
     end.
Proof.
  revert m. induction tokens as [|[s t] tokens IH]; intros m; simpl.
  - intros [= ->]. split; [constructor|]. destruct r; [right|]; split; set_solver.
  - unfold compare_digest. destruct (ascii_text cred && ascii_text s) eqn:Ha; [|done].
    apply andb_prop in Ha as [_ Hs]. intros H. destruct (IH _ H) as [Hall Hr]. split; [by constructor|].
    destruct (String.eqb_spec cred s) as [<-|Hne]; destruct r as [t'|].
    + destruct Hr as [Hr|[[= ->] Hn]]; left; set_solver.
    + by destruct Hr.
    + destruct Hr as [Hr|[-> Hn]]; [left; set_solver | right; set_solver].
    + destruct Hr as [-> Hn]. set_solver.
Qed.

(** It raises only on text that is not ASCII. *)
Lemma match_secrets_raise cred tokens m e :
  match_secrets cred tokens m = Raise e ->
  e = TypeError /\ tokens <> [] /\ (ascii_text cred = false \/ Exists (fun st => ascii_text (fst st) = false) tokens).
Proof.
  revert m. induction tokens as [|[s t] tokens IH]; intros m; simpl; [done|].
  unfold compare_digest. destruct (ascii_text cred) eqn:Hc; simpl.
  - destruct (ascii_text s) eqn:Hs.
    + intros H. destruct (IH _ H) as (-> & _ & [?|He]); [done|]. split_and!; [done..|]. right. by apply Exists_cons_tl.
    + intros [= <-]. split_and!; [done..|]. right. by apply Exists_cons_hd.
  - intros [= <-]. eauto.
Qed.

Lemma length_take_drop n s : (n <= String.length s)%nat ->
  (take_chars n s ++ drop_chars n s)%string = s /\ String.length (take_chars n s) = n.
Proof.
  revert s. induction n as [|n IH]; intros [|c s] H; simpl in *; [done | done | lia|].
  destruct (IH s) as [H1 H2]; [lia|]. rewrite append_String, H1, H2. done.
Qed.

Lemma take_app scheme rest :
  take_chars (String.length scheme) (scheme ++ rest) = scheme /\ drop_chars (String.length scheme) (scheme ++ rest) = rest.
Proof.
  induction scheme as [|c scheme [IH1 IH2]]; [by destruct rest|]. rewrite append_String. simpl. by rewrite IH1, IH2.
Qed.

Lemma lower_length s : String.length (lower s) = String.length s.
Proof. induction s; simpl; congruence. Qed.

Lemma take_length n s : String.length (take_chars n s) = Nat.min n (String.length s).
Proof. revert s. induction n as [|n IH]; intros [|c s]; simpl; [done..|]. by rewrite IH. Qed.

(** The header is a bearer header exactly when the two guards pass. *)
Lemma bearer_spec authorization cred :
  bearer authorization cred <->
  absent authorization || negb (String.eqb (lower (take_chars 7 (default "" authorization))) "bearer ") = false
  /\ cred = strip (drop_chars 7 (default "" authorization)) /\ cred <> "".
Proof.
  split.
  - intros (scheme & rest & -> & Hl & Hlow & -> & Hne).
    change (default "" (Some (scheme ++ rest)%string)) with (scheme ++ rest)%string. rewrite <- Hl.
    destruct (take_app scheme rest) as [-> ->]. rewrite Hlow, String.eqb_refl. cbn [negb]. rewrite orb_false_r.
    split_and!; [|done..]. by destruct scheme.
  - intros (Hg & -> & Hne). apply orb_false_elim in Hg as [Ha Hl]. destruct authorization as [s|]; [|done].
    apply negb_false_iff, String.eqb_eq in Hl. unfold default, from_option, id in *.
    assert (7 <= String.length s)%nat as Hlen.
    { pose proof (f_equal String.length Hl) as H. rewrite lower_length, take_length in H.
      change (String.length "bearer ") with 7%nat in H. lia. }
    destruct (length_take_drop 7 s Hlen) as [H1 H2]. exists (take_chars 7 s), (drop_chars 7 s).
    split_and!; [by rewrite H1 | done..].
Qed.

Lemma bearer_unique authorization c c' : bearer authorization c -> bearer authorization c' -> c = c'.
Proof. rewrite !bearer_spec. intros (_ & -> & _) (_ & -> & _). done. Qed.

Definition is_unauthenticated (e : exn) : Prop := is_class Unauthenticated e = true.

Lemma unauthenticated_class m : is_unauthenticated (unauthenticated m).
Proof. reflexivity. Qed.
#[export] Hint Resolve unauthenticated_class : core.

(** Token mode alone. *)
Lemma authenticate_token_sound jwt cfg authorization h peer p :
  Config.mode cfg <> "none" -> Config.mode cfg <> "mtls" ->
  _authenticate_token jwt cfg authorization = Ok p -> grants jwt cfg authorization h peer p.
Proof.
  intros Hn Hm. unfold _authenticate_token. change (String.length _BEARER_PREFIX) with 7%nat.
  change _BEARER_PREFIX with "bearer ".
  destruct (absent authorization || _) eqn:Hg; [done|].
  destruct (nonempty (strip _)) eqn:Hc; [|done]. simpl. apply nonempty_spec in Hc.
  assert (bearer authorization (strip (drop_chars 7 (default "" authorization)))) as Hb
    by (apply bearer_spec; split_and!; done).
  destruct (_match_shared_secret _ _) as [[t|]|e] eqn:Hm'; [| |done].
  - apply match_secrets_ok in Hm' as [_ [Hin|[? _]]]; [|done]. intros [= <-]. by eapply grant_secret.
  - apply match_secrets_ok in Hm' as [_ [_ Hnin]]. destruct (nonempty (Config.token_jwks_url cfg)) eqn:Hj; [|done].
    apply nonempty_spec in Hj. unfold _verify_jwt. destruct (jwt _) as [r|claims] eqn:Hd; [done|].
    destruct (claimed_tenant claims) as [t|] eqn:Ht; [|done]. intros [= <-]. by eapply grant_jwt.
Qed.

Lemma authenticate_token_complete jwt cfg authorization cred e :
  bearer authorization cred -> _authenticate_token jwt cfg authorization = Raise e ->
  (e = TypeError /\ (ascii_text cred = false \/ Exists (fun st => ascii_text (fst st) = false) (Config.tokens cfg)))
  \/ is_unauthenticated e /\ cred ∉ (Config.tokens cfg).*1
     /\ (forall claims t, Config.token_jwks_url cfg <> "" -> jwt cred = inr claims -> claimed_tenant claims <> Some t).
Proof.
  intros Hb. apply bearer_spec in Hb as (Hg & -> & Hne). unfold _authenticate_token.
  change (String.length _BEARER_PREFIX) with 7%nat. change _BEARER_PREFIX with "bearer ". rewrite Hg.
  apply nonempty_spec in Hne. rewrite Hne. simpl.
  destruct (_match_shared_secret _ _) as [[t|]|e'] eqn:Hm'; [done| |].
  - apply match_secrets_ok in Hm' as [_ [_ Hnin]]. unfold _verify_jwt. intros H. right.
    destruct (nonempty (Config.token_jwks_url cfg)) eqn:Hj.
    + destruct (jwt _) as [r|claims] eqn:Hd; [simplify_eq; split_and!; [done..|]; intros; congruence|].
      destruct (claimed_tenant claims) as [t|] eqn:Ht; simplify_eq. split_and!; [done..|]. intros c t' _ [= <-]. congruence.
    + simplify_eq. split_and!; [done..|]. intros c t H _. apply nonempty_spec in H. congruence.
  - apply match_secrets_raise in Hm' as (-> & _ & H). intros [= <-]. by left.
Qed.

Lemma no_bearer_unauthenticated jwt cfg authorization e :
  (forall cred, ~ bearer authorization cred) -> _authenticate_token jwt cfg authorization = Raise e -> is_unauthenticated e.
Proof.
  intros Hb. unfold _authenticate_token. change (String.length _BEARER_PREFIX) with 7%nat.
  change _BEARER_PREFIX with "bearer ".
  destruct (absent authorization || _) eqn:Hg; [by intros [= <-]|].
  destruct (nonempty (strip _)) eqn:Hc; simpl; [|by intros [= <-]].
  destruct (Hb (strip (drop_chars 7 (default "" authorization)))). apply nonempty_spec in Hc.
  apply bearer_spec. split_and!; done.
Qed.

Lemma bearer_dec authorization : (exists cred, bearer authorization cred) \/ (forall cred, ~ bearer authorization cred).
Proof.
  destruct (absent authorization || negb (String.eqb (lower (take_chars 7 (default "" authorization))) "bearer ")) eqn:Hg.
  { right. intros c Hb. apply bearer_spec in Hb as (H & _). congruence. }
  destruct (nonempty (strip (drop_chars 7 (default "" authorization)))) eqn:Hn.
  - left. eexists. apply bearer_spec. split_and!; [done..|]. by apply nonempty_spec.
  - right. intros c Hb. apply bearer_spec in Hb as (_ & -> & H). apply nonempty_spec in H. congruence.
Qed.

Lemma authenticate_sound jwt cfg authorization h peer p :
  authenticate jwt cfg authorization h peer = Ok p -> grants jwt cfg authorization h peer p.
Proof.
  unfold authenticate. destruct (String.eqb_spec (Config.mode cfg) "none") as [Hn|Hn].
  - destruct (negb _ && negb _) eqn:Hl; [done|]. intros [= <-]. apply grant_local; [done|].
    apply local_peer_spec. by destruct (_is_loopback peer), (_in_trusted_cidrs peer _).
  - destruct (String.eqb_spec (Config.mode cfg) "mtls") as [Hm|Hm].
    + destruct (nonempty (strip _)) eqn:Hne; [|done]. intros [= <-]. apply nonempty_spec in Hne.
      destruct h as [t|]; [|done]. by apply grant_identity.
    + by apply authenticate_token_sound.
Qed.

(** Two rules never grant different principals. *)
Lemma grants_functional jwt cfg authorization h peer p q :
  NoDup (Config.tokens cfg).*1 ->
  grants jwt cfg authorization h peer p -> grants jwt cfg authorization h peer q -> p = q.
Proof.
  intros Hnd Hp Hq.
  assert (forall c t c' t', bearer authorization c -> bearer authorization c' ->
    (c, t) ∈ Config.tokens cfg -> (c', t') ∈ Config.tokens cfg -> t = t') as Hsec.
  { intros c t c' t' Hb Hb' H H'. rewrite (bearer_unique _ _ _ Hb' Hb) in H'.
    apply list_elem_of_lookup in H as [i Hi], H' as [k Hk].
    assert (i = k) as ->.
    { eapply NoDup_lookup; [done | |]; rewrite list_lookup_fmap; [by rewrite Hi | by rewrite Hk]. }
    congruence. }
  destruct Hp as [| |c t H1 H2 Hb Hin|c cl t H1 H2 Hb Hnin Hj Hd Ht];
    inversion Hq as [| |c' t' H1' H2' Hb' Hin'|c' cl' t' H1' H2' Hb' Hnin' Hj' Hd' Ht']; subst; try congruence.
  - by rewrite (Hsec _ _ _ _ Hb Hb' Hin Hin').
  - destruct Hnin'. rewrite (bearer_unique _ _ _ Hb' Hb). apply list_elem_of_fmap. by exists (c, t).
  - destruct Hnin. rewrite (bearer_unique _ _ _ Hb Hb'). apply list_elem_of_fmap. by exists (c', t').
  - rewrite (bearer_unique _ _ _ Hb' Hb) in Hd'. assert (cl' = cl) as -> by congruence.
    by assert (t' = t) as -> by congruence.
Qed.

(** ** The properties *)

(** C16. The verifier decides the mode matrix exactly: for a token map with
    distinct secrets, a request is accepted as the one principal the rules grant
    (a trusted peer under none, the proxy's identity under mtls, the tenant of
    the presented secret, or else the claims of a verified JWT); a refusal is
    Unauthenticated and no rule grants the request, or a TypeError of the
    constant-time comparison on text that is not ASCII. *)
Theorem authenticate_exact jwt cfg authorization h peer :
  NoDup (Config.tokens cfg).*1 ->
  match authenticate jwt cfg authorization h peer with
  | Ok p => forall q, grants jwt cfg authorization h peer q <-> q = p
  | Raise e =>
      is_unauthenticated e /\ (forall q, ~ grants jwt cfg authorization h peer q)
      \/ e = TypeError /\ exists cred, bearer authorization cred
           /\ (ascii_text cred = false \/ Exists (fun st => ascii_text (fst st) = false) (Config.tokens cfg))
  end.
Proof.
  intros Hnd. destruct (authenticate jwt cfg authorization h peer) as [p|e] eqn:Ha.
  { apply authenticate_sound in Ha. intros q. split; [intros; by eapply grants_functional | by intros ->]. }
  unfold authenticate in Ha. destruct (String.eqb_spec (Config.mode cfg) "none") as [Hn|Hn].
  { destruct (negb _ && negb _) eqn:Hl; [|done]. injection Ha as <-. left. split; [done|].
    intros q Hq. inversion Hq as [_ Hp| | |]; try congruence. apply local_peer_spec in Hp.
    destruct (_is_loopback peer), (_in_trusted_cidrs peer _); done. }
  destruct (String.eqb_spec (Config.mode cfg) "mtls") as [Hm|Hm].
  { destruct (nonempty (strip _)) eqn:Hne; [done|]. injection Ha as <-. left. split; [done|].
    intros q Hq. inversion Hq as [|t _ -> Ht| |]; try congruence. apply nonempty_spec in Ht. simpl in *. congruence. }
  destruct (bearer_dec authorization) as [[cred Hb]|Hb].
  - destruct (authenticate_token_complete _ _ _ _ _ Hb Ha) as [[-> H]|(Hu & Hnin & Hj)]; [right; eauto|]. left.
    split; [done|]. intros q Hq. inversion Hq as [| |c t _ _ Hb' Hin|c cl t _ _ Hb' _ Hj' Hd Ht]; try congruence.
    + rewrite (bearer_unique _ _ _ Hb' Hb) in Hin. apply Hnin, list_elem_of_fmap. by exists (cred, t).
    + rewrite (bearer_unique _ _ _ Hb' Hb) in Hd. by eapply Hj.
  - left. split; [by eapply no_bearer_unauthenticated|]. intros q Hq.
    inversion Hq as [| |c t _ _ Hb'|c cl t _ _ Hb']; try congruence; by eapply Hb.
Qed.

Lemma authenticate_exact_witness :
  let cfg := Config.mkAuth "token" "" [("s3cret", "acme")] [] in
  authenticate (fun _ => inl "") cfg (Some "Bearer s3cret") None None = Ok (mkPrincipal "acme" "acme" "token")
  /\ forall q, grants (fun _ => inl "") cfg (Some "Bearer s3cret") None None q <-> q = mkPrincipal "acme" "acme" "token".
Proof.
  split; [vm_compute; reflexivity|].
  assert (NoDup (Config.tokens (Config.mkAuth "token" "" [("s3cret", "acme")] [])).*1) as Hnd
    by (simpl; apply NoDup_singleton).
  exact (authenticate_exact (fun _ => inl "") _ (Some "Bearer s3cret") None None Hnd).
Defined.

Lemma read_tls_ok files path v : GrpcServer._read_tls_material files path = Ok v ->
  files path = Some v /\ GrpcServer.blank_bytes v = false.
Proof. unfold GrpcServer._read_tls_material. destruct (files path); [|done]. destruct (GrpcServer.blank_bytes _) eqn:E; naive_solver. Qed.

(** A validated production configuration uses TLS and token or mtls. *)
Lemma production_settings c c' : Config.validate c = Ok c' -> Config.is_production c = true ->
  c' = c /\ Config.grpc_tls_enabled (Config.server c) = true
  /\ (Config.mode (Config.auth c) = "token" \/
      Config.mode (Config.auth c) = "mtls" /\ Config.grpc_tls_require_client_auth (Config.server c) = true).
Proof.
  unfold Config.validate, Config._validate_deployment_security. intros H Hp. rewrite Hp in H.
  destruct (Config._valid_roles _) as [?|?]; [|done]. destruct (Config._valid_mode _) as [m|?] eqn:Hm; [|done].
  destruct (Config._valid_cidrs _) as [?|?]; [|done]. cbn [negb] in H.
  repeat (case_match; try discriminate). simplify_eq.
  unfold Config._valid_mode, mem in Hm. simpl in Hm. destruct (Config.grpc_tls_enabled (Config.server c')); [|done].
  destruct (String.eqb (Config.mode (Config.auth c')) "token") eqn:Ht; [apply String.eqb_eq in Ht; auto|].
  destruct (String.eqb (Config.mode (Config.auth c')) "mtls") eqn:Hmt; simpl in *.
  - apply String.eqb_eq in Hmt. destruct (Config.grpc_tls_require_client_auth (Config.server c')); [auto | done].
  - destruct (String.eqb (Config.mode (Config.auth c')) "none"); simpl in *; congruence.
Qed.

(** C17. A production configuration that validates leaves no anonymous way in.
    The mode is token or mtls.  On either transport the verifier accepts a
    request only by some other method than none, and a gRPC call gets past the
    interceptor only with credentials the verifier accepts.  The gRPC server
    that boots listens with TLS on non-blank key material, with a client CA
    and mandatory client certificates under mtls.  The HTTP listener is outside
    of this: it is plain HTTP in every mode, for a proxy to front. *)
Theorem production_is_closed jwt files bind c c' :
  Config.validate c = Ok c' -> Config.is_production c = true ->
  (Config.mode (Config.auth c) = "token" \/ Config.mode (Config.auth c) = "mtls")
  /\ (forall authorization h peer p, authenticate jwt (Config.auth c) authorization h peer = Ok p ->
        p_method p <> "none")
  /\ (forall md, intercept_service jwt (Config.auth c) md = Continue ->
     exists p, authenticate jwt (Config.auth c) (metadata_get "authorization" md) (metadata_get "x-symba-tenant" md) None = Ok p
       /\ p_method p <> "none")
  /\ (forall s, GrpcServer.serve_grpc files bind c = Ok s ->
        exists addr key cert ca req, GrpcServer.sv_listener s = GrpcServer.SecurePort addr key cert ca req
          /\ GrpcServer.blank_bytes key = false /\ GrpcServer.blank_bytes cert = false
          /\ (Config.mode (Config.auth c) = "mtls" -> req = true /\ exists b, ca = Some b /\ GrpcServer.blank_bytes b = false)).
Proof.
  intros Hv Hp. destruct (production_settings c c' Hv Hp) as (_ & Htls & Hmode).
  assert (Config.mode (Config.auth c) <> "none") as Hn by (destruct Hmode as [->|[-> _]]; done).
  split; [tauto|]. split; [|split].
  - intros authorization h peer p Ha. apply authenticate_sound in Ha. by inversion Ha.
  - intros md. unfold intercept_service.
    destruct (String.eqb_spec (Config.mode (Config.auth c)) "none"); [done|].
    change _TENANT_HEADER with "x-symba-tenant".
    destruct (authenticate _ _ _ _ _) as [p|[e| | | | | | | |]] eqn:Ha; try done; [|by case_match].
    intros _. exists p. split; [done|]. apply authenticate_sound in Ha. by inversion Ha.
  - intros s. unfold GrpcServer.serve_grpc, GrpcServer._add_listening_port. rewrite Htls. cbn [negb].
    destruct (GrpcServer._read_tls_material files _) as [key|] eqn:Hk; [|done].
    destruct (GrpcServer._read_tls_material files (Config.grpc_tls_cert_file _)) as [cert|] eqn:Hc; [|done].
    apply read_tls_ok in Hk as [_ Hk], Hc as [_ Hc].
    destruct (Config.grpc_tls_require_client_auth (Config.server c)) eqn:Hr.
    + destruct (GrpcServer._read_tls_material files (Config.grpc_tls_client_ca_file _)) as [ca|] eqn:Hca; [|done].
      apply read_tls_ok in Hca as [_ Hca]. case_match; [done|]. intros [= <-]. do 5 eexists. split_and!; [done..|].
      intros _. eauto.
    + case_match; [done|]. intros [= <-]. do 5 eexists. split_and!; [done..|]. intros Hm.
      destruct Hmode as [Ht|[_ Hr']]; congruence.
Qed.

(** A production deployment with one shared secret. *)
Definition production_settings_example : Config.SymbaConfig :=
  let d := Config.default_settings in
  Config.mkSettings (Config.mkApp "symba" "" " Production " "0" "1" "0")
    (Config.mkServer 7233 7300 ["all"] 4 20000 5000 5000 true 1800 60 30 true "/tls/crt" "/tls/key" "" false)
    (Config.postgres d) (Config.redis d) (Config.defaults d) (Config.limits d) (Config.sweeper d) (Config.retention d)
    (Config.dispatcher d) (Config.matcher d) (Config.mkAuth "token" "" [("s3cret", "acme")] []) (Config.log d)
    (Config.observability d) (Config.cron d).

Lemma production_is_closed_witness :
  let md := [("authorization", "Bearer s3cret")] in
  (exists s, GrpcServer.serve_grpc (fun _ => Some "pem") (fun _ => 7233) production_settings_example = Ok s
     /\ exists addr key cert ca req, GrpcServer.sv_listener s = GrpcServer.SecurePort addr key cert ca req)
  /\ intercept_service (fun _ => inl "") (Config.auth production_settings_example) md = Continue
  /\ exists p, authenticate (fun _ => inl "") (Config.auth production_settings_example)
                 (metadata_get "authorization" md) (metadata_get "x-symba-tenant" md) None = Ok p /\ p_method p <> "none".
Proof.
  assert (Config.validate production_settings_example = Ok production_settings_example) as Hv by (vm_compute; reflexivity).
  assert (Config.is_production production_settings_example = true) as Hp by (vm_compute; reflexivity).
  destruct (production_is_closed (fun _ => inl "") (fun _ => Some "pem") (fun _ => 7233) _ _ Hv Hp) as (_ & _ & H1 & H2).
  split_and!.
  - eexists. split; [vm_compute; reflexivity|].
    destruct (H2 _ eq_refl) as (addr & key & cert & ca & req & H & _). exists addr, key, cert, ca, req. exact H.
  - vm_compute. reflexivity.
  - apply H1. vm_compute. reflexivity.
Defined.

(** Under mode=none the two transports disagree on a peer that is neither
    loopback nor trusted: the HTTP path refuses it, while the interceptor, which
    does not see the peer, lets every gRPC call through. *)
Theorem none_mode_transports_differ jwt cfg authorization h peer md :
  Config.mode cfg = "none" -> ~ local_peer (Config.trusted_proxy_cidrs cfg) peer ->
  (exists e, authenticate jwt cfg authorization h peer = Raise e /\ is_unauthenticated e)
  /\ intercept_service jwt cfg md = Continue.
Proof.
  intros Hm Hp. unfold authenticate, intercept_service. rewrite Hm. simpl. split; [|done].
  rewrite <- local_peer_spec in Hp. destruct (_is_loopback peer), (_in_trusted_cidrs peer _); simpl in *;
    try (destruct Hp; done). eauto.
Qed.

Lemma none_mode_transports_differ_witness :
  intercept_service (fun _ => inl "") Config.default_auth [] = Continue
  /\ exists e, authenticate (fun _ => inl "") Config.default_auth None None (Some "8.8.8.8") = Raise e /\ is_unauthenticated e.
Proof.
  assert (~ local_peer (Config.trusted_proxy_cidrs Config.default_auth) (Some "8.8.8.8")) as Hp.
  { rewrite <- local_peer_spec. vm_compute. discriminate. }
  destruct (none_mode_transports_differ (fun _ => inl "") Config.default_auth None None (Some "8.8.8.8") [] eq_refl Hp).
  split; assumption.
Defined.
