(* ===== verification/Wire.v ===== *)
(** * Messages on the wire (proto/symba/v1) and replies

    The protobuf messages the servicers read and write, field by field.  Bytes
    are strings of codes below 256; a Timestamp is its microseconds; a field
    with presence is an option.  Identifiers are well-formed UUIDs, except where
    the code handles text that is none ([option uuid], None for such text). *)

From S2P Require Import Prelude PyStr Errors States Json JsonLoads Records Database World.
From Stdlib Require Import ZArith QArith.
Open Scope string_scope.
Open Scope Z_scope.

Record RetryPolicy := mkRetryPolicy {
  rp_max_attempts : Z;
  rp_backoff_base_s : Q;
  rp_backoff_factor : Q;
  rp_backoff_max_s : Q;
  rp_jitter : bool
}.

Inductive JobSpec := mkJobSpec {
  js_task_name : string;
  js_payload_json : string;
  js_pipeline : string;
  js_stage : string;
  js_ctx_id : string;
  js_group_key : string;
  js_dedup_key : string;
  js_runs_on : list string;
  js_rate_class : string;
  js_priority : Z;
  js_timeout_s : Z;
  js_lease_ttl_s : Z;
  js_retry : option RetryPolicy;
  js_run_at : option time;
  js_chain : list string;
  js_depends_on : list (uuid * string);
  js_on_failure : option JobSpec;
  js_max_concurrent_per_group : Z
}.

(** A spec with a task name and a payload, every other field unset. *)
Definition bare_spec (task_name payload_json : string) : JobSpec :=
  mkJobSpec task_name payload_json "" "" "" "" "" [] "" 0 0 0 None None [] [] None 0.

(** The fields of [Job.spec] that replies fill in. *)
Record ReplySpec := mkReplySpec {
  rs_task_name : string;
  rs_pipeline : string;
  rs_stage : string;
  rs_ctx_id : string;
  rs_group_key : string;
  rs_payload_json : string
}.

Record Job := mkWireJob {
  wj_id : uuid;
  wj_tenant : string;
  wj_spec : ReplySpec;
  wj_state : Z;
  wj_attempt : Z;
  wj_result_json : string;
  wj_claimed_by : string;
  wj_last_error : string;
  wj_created_at : option time;
  wj_started_at : option time;
  wj_finished_at : option time;
  wj_error_history_json : string
}.

Record JobEvent := mkJobEvent {
  je_job_id : uuid;
  je_event : string;
  je_at : option time;
  je_detail_json : string
}.

Record QueryRequest := mkQuery {
  q_tenant : string;
  q_ctx_id : string;
  q_state : Z;
  q_task_name : string;
  q_pipeline : string;
  q_stage : string;
  q_group_key : string;
  q_created_after : option time;
  q_page_size : Z;
  q_page_token : string;
  q_parent_gate_id : option uuid
}.

Record ClaimRequest := mkClaim {
  cl_worker_id : string;
  cl_tags : list string;
  cl_free_slots : Z;
  cl_sdk_version : string;
  cl_labels : list (string * string);
  cl_registered_tasks : list string
}.

Record FailRequest := mkFailRequest {
  fr_job_id : uuid;
  fr_lease_token : uuid;
  fr_error_type : string;
  fr_error_message : string;
  fr_stack_hash : string;
  fr_retryable : bool;
  fr_max_attempts : Z;
  fr_error_metadata_json : string;
  fr_error_message_safe : bool;
  fr_rate_limited : bool;
  fr_retry_after_s : pyfloat
}.

(** ** The job states on the wire *)

(** [_STATE_TO_PROTO] *)
Definition state_to_proto (s : JobState) : Z :=
  match s with
  | SUBMITTED => 1 | QUEUED => 2 | RUNNING => 3 | WAITING => 4 | SUCCEEDED => 5 | DEAD => 6 | CANCELLED => 7
  end.

(** [_PROTO_TO_STATE.get] *)
Definition proto_to_state (n : Z) : option JobState :=
  List.find (fun s => state_to_proto s =? n) (LIVE_STATES ++ TERMINAL_STATES)%list.

Lemma proto_state_inverse s : proto_to_state (state_to_proto s) = Some s.
Proof. by destruct s. Qed.

(** ** Replies of an RPC

    [context.abort] ends a call with a status and a text; None is a text the
    model does not keep (a ValueError's, the version handshake's).  Any other exception reaches
    grpc, which answers UNKNOWN. *)
Inductive reply (A : Type) :=
| Reply (a : A)
| Abort (code : string) (details : option string)
| Crash (e : exn).
Arguments Reply {_} _.
Arguments Abort {_} _ _.
Arguments Crash {_} _.

Definition RPC (A : Type) : Type := World -> World * reply A.

(** [try: m except SymbaError as err: await _abort(context, err)] *)
Definition rpc {A} (m : EM A) : RPC A := fun w =>
  match m w with
  | (w', Ok a) => (w', Reply a)
  | (w', Raise (Symba e)) => (w', Abort (grpc_code (err_class e)) (Some (message e)))
  | (w', Raise e) => (w', Crash e)
  end.

(** A call outside any [try]. *)
Definition bare {A} (m : EM A) : RPC A := fun w =>
  match m w with
  | (w', Ok a) => (w', Reply a)
  | (w', Raise e) => (w', Crash e)
  end.

Definition lift {A} (r : result exn A) : EM A := match r with Ok a => mret a | Raise e => raise e end.

(** [json.loads(raw.decode())]; both ways it fails are ValueErrors. *)
Definition loads_bytes (raw : string) : result exn json :=
  match utf8_decode raw with
  | None => Raise ValueError
  | Some s => match loads s with Some j => Ok j | None => Raise ValueError end
  end.

(** Where the code takes any JSON value and the model's column is an object. *)
Definition as_object (j : json) : result exn dict := match j with JObj d => Ok d | _ => Raise OutOfModel end.

(** [n or d] of an integer field *)
Definition or_int (n d : Z) : Z := if n =? 0 then d else n.
Definition or_int_none (n : Z) : option Z := if n =? 0 then None else Some n.
