(* ===== verification/ClientService.v ===== *)
(** * The control plane over gRPC (src/symba/transport/client_service.py) *)

From S2P Require Import Prelude PyStr Errors States Json JsonLoads Records Database Queries Tables Claim.
From S2P Require Import Repository World JobService SubmitService QueryService EventStream FanOutService.
From S2P Require Import SignalService CancelService Wire Auth.
From Stdlib Require Import ZArith QArith.
Open Scope string_scope.
Open Scope Z_scope.
Open Scope list_scope.

Module ClientService.

(** [request.tenant or _DEFAULT_TENANT] *)
Definition tenant_of (tenant : string) : string := if nonempty tenant then tenant else _DEFAULT_TENANT.

Definition _decode_payload (raw : string) : result exn dict :=
  if negb (nonempty raw) then Ok []
  else match loads_bytes raw with Ok j => as_object j | Raise e => Raise e end.

(** The path after the task itself: (on_success, chain_tail). *)
Definition split_chain (task_name : string) (chain : list string) : option string * list string :=
  let rest := match chain with
              | c :: rest => if String.eqb c task_name then rest else chain
              | [] => []
              end in
  match rest with [] => (None, []) | next :: tl => (Some next, tl) end.

(** The stored hook keeps the task, its payload and its chain only. *)
Definition failure_hook (sp : SubmitSpec) : SubmitSpec :=
  let d := default_spec (s_task_name sp) (s_payload sp) in
  mkSpec (s_task_name sp) (s_payload sp) (s_tenant d) None None None (s_state d) 0 None None None [] None
    (s_on_success sp) (s_chain_tail sp) None 0 [] (s_max_attempts d) None (s_timeout_s d) None (s_lease_ttl_s d) None.

Fixpoint _spec_from_proto (tenant : string) (spec : JobSpec) : result exn SubmitSpec :=
  let '(on_success, chain_tail) := split_chain (js_task_name spec) (js_chain spec) in
  let depends_on := map (fun d => (fst d, or_none (snd d))) (js_depends_on spec) in
  let hook := match js_on_failure spec with
              | None => Ok None
              | Some h => match _spec_from_proto tenant h with
                          | Ok sp => Ok (Some (failure_hook sp))
                          | Raise e => Raise e
                          end
              end in
  match hook with
  | Raise e => Raise e
  | Ok on_failure =>
      let max_attempts := match js_retry spec with Some r => or_int (rp_max_attempts r) 5 | None => 5 end in
      match _decode_payload (js_payload_json spec) with
      | Raise e => Raise e
      | Ok payload =>
          Ok (mkSpec (js_task_name spec) payload tenant (or_none (js_pipeline spec)) (or_none (js_stage spec))
                (or_none (js_ctx_id spec)) SUBMITTED (js_priority spec) (or_none (js_group_key spec))
                (or_int_none (js_max_concurrent_per_group spec)) (or_none (js_dedup_key spec)) (js_runs_on spec)
                (or_none (js_rate_class spec)) on_success chain_tail on_failure 0 depends_on max_attempts None
                (or_int (js_timeout_s spec) 600) (js_run_at spec) (or_int (js_lease_ttl_s spec) 60) None)
      end
  end.

(** [[_spec_from_proto(tenant, s) for s in specs]] *)
Fixpoint specs_from_proto (tenant : string) (specs : list JobSpec) : result exn (list SubmitSpec) :=
  match specs with
  | [] => Ok []
  | s :: rest =>
      match _spec_from_proto tenant s with
      | Raise e => Raise e
      | Ok sp => match specs_from_proto tenant rest with Ok l => Ok (sp :: l) | Raise e => Raise e end
      end
  end.

Definition _EVENT_PAGE : Z := 500.

Definition _event_to_proto (row : Event) : JobEvent :=
  mkJobEvent (ev_job_id row) (ev_event row) (Some (ev_at row))
    (match ev_detail row with Some d => dumps (JObj d) | None => "" end).

(** [str(last.get("message") or last.get("error_type") or "")] of the last entry *)
Definition last_error (history : list json) : string :=
  match rev history with
  | JObj d :: _ =>
      let pick k := match dict_get k d with Some j => if JobService.json_truthy j then Some j else None | None => None end in
      match pick "message" with
      | Some j => str_json j
      | None => match pick "error_type" with Some j => str_json j | None => "" end
      end
  | _ => ""
  end.

(** An optional text as a proto field: written when it is truthy. *)
Definition field (o : option string) : string := default "" o.

Definition _job_from_row (row : repo.JobRow) : Job :=
  mkWireJob (repo.jr_id row) (repo.jr_tenant row)
    (mkReplySpec (repo.jr_task_name row) "" "" (field (repo.jr_ctx_id row)) (field (repo.jr_group_key row))
       (match repo.jr_payload row with [] => "" | p => dumps (JObj p) end))
    (state_to_proto (repo.jr_state row)) (repo.jr_attempt row)
    (match repo.jr_result row with Some d => dumps (JObj d) | None => "" end)
    (field (repo.jr_claimed_by row))
    (last_error (repo.jr_error_history row))
    (Some (repo.jr_created_at row)) (repo.jr_started_at row) (repo.jr_finished_at row)
    (match repo.jr_error_history row with [] => "" | h => dumps (JArr h) end).

Definition _job_from_list_item (item : repo.JobListItem) : Job :=
  mkWireJob (repo.li_id item) (repo.li_tenant item)
    (mkReplySpec (repo.li_task_name item) (field (repo.li_pipeline item)) (field (repo.li_stage item))
       (field (repo.li_ctx_id item)) (field (repo.li_group_key item)) "")
    (state_to_proto (repo.li_state item)) (repo.li_attempt item) "" (field (repo.li_claimed_by item)) ""
    (Some (repo.li_created_at item)) (repo.li_started_at item) (repo.li_finished_at item) "".

(** ** Unary calls *)

(** Decoding the specs is outside the [try]. *)
Definition Submit (cfg : SymbaConfig) (tenant : string) (specs : list JobSpec) : RPC (list uuid * list bool) := fun w =>
  match specs_from_proto (tenant_of tenant) specs with
  | Raise e => (w, Crash e)
  | Ok specs =>
      rpc (o ← SubmitService.submit cfg specs;
           mret (SubmitService.job_ids o, SubmitService.deduplicated o)) w
  end.

(** Here it is inside, and a ValueError is INVALID_ARGUMENT. *)
Definition FanOut (cfg : SymbaConfig) (tenant ctx_id : string) (children : list JobSpec) (on_complete : JobSpec)
    (gate_policy : string) : RPC (list uuid * uuid) := fun w =>
  let t := tenant_of tenant in
  match rpc (cs ← lift (specs_from_proto t children);
             oc ← lift (_spec_from_proto t on_complete);
             o ← FanOutService.fan_out cfg t (or_none ctx_id) cs oc
                   (if nonempty gate_policy then gate_policy else "all_success");
             mret (FanOutService.child_job_ids o, FanOutService.fo_gate_id o)) w with
  | (w', Crash ValueError) => (w', Abort "INVALID_ARGUMENT" None)
  | r => r
  end.

(** (gate_id, expected, terminal, succeeded, fired_at) *)
Definition GetGate (tenant : string) (gate_id : uuid) : RPC (uuid * Z * Z * Z * option time) := fun w =>
  match bare (FanOutService.gate_status (tenant_of tenant) gate_id) w with
  | (w', Reply (Some g)) =>
      (w', Reply (repo.gs_gate_id g, repo.gs_expected g, repo.gs_terminal g, repo.gs_succeeded g, repo.gs_fired_at g))
  | (w', Reply None) => (w', Abort "NOT_FOUND" (Some ("gate " ++ uuid_str gate_id ++ " not found")%string))
  | (w', Abort c d) => (w', Abort c d)
  | (w', Crash e) => (w', Crash e)
  end.

Definition GetJob (tenant : string) (job_id : option uuid) : RPC Job :=
  rpc (row ← SubmitService.get_job job_id (tenant_of tenant); mret (_job_from_row row)).

(** Each poll reads the database as it is by then, at an event-loop time in
    milliseconds; None: the calls went on beyond the polls given. *)
Fixpoint await_polls (tenant : string) (job_id : option uuid) (deadline : Z) (polls : list (World * Z))
  : option (reply Job) :=
  match polls with
  | [] => None
  | (w, now) :: rest =>
      match snd (rpc (SubmitService.get_job job_id (tenant_of tenant)) w) with
      | Reply row =>
          if is_terminal (repo.jr_state row) || (deadline <=? now) then Some (Reply (_job_from_row row))
          else await_polls tenant job_id deadline rest
      | Abort c d => Some (Abort c d)
      | Crash e => Some (Crash e)
      end
  end.

Definition poll_interval_ms : Z := 500.

Definition AwaitJob (tenant : string) (job_id : option uuid) (timeout_s start_ms : Z) (polls : list (World * Z))
  : option (reply Job) :=
  await_polls tenant job_id (start_ms + 1000 * or_int timeout_s 30) polls.

(** (previous_state, cancelled, note) *)
Definition Cancel (tenant : string) (job_id : option uuid) (cascade : bool) : RPC (Z * bool * string) :=
  rpc (prev ← SubmitService.get_job job_id (tenant_of tenant);
       o ← CancelService.cancel (repo.jr_id prev) cascade;
       mret (state_to_proto (repo.jr_state prev), CancelService.cancelled o, CancelService.note o)).

Definition Signal (lk : locks) (tenant wait_key payload_json signaled_by : string) : RPC Z := fun w =>
  match _decode_payload payload_json with
  | Raise e => (w, Crash e)
  | Ok payload =>
      rpc (o ← SignalService.signal lk (tenant_of tenant) wait_key (Some payload) (or_none signaled_by);
           mret (if SignalService.delivered o then 1 else 0)) w
  end.

Definition Resubmit (tenant : string) (job_ids : list uuid) : RPC (list uuid * list bool) :=
  bare (os ← ResubmitService.resubmit_many job_ids (tenant_of tenant);
        mret (map ResubmitService.new_job_id os, repeat false (length os))).

(** [int(request.page_token) if request.page_token else 0] *)
Definition page_offset (token : string) : result exn Z :=
  if negb (nonempty token) then Ok 0
  else match py_int token with Some n => Ok n | None => Raise ValueError end.

Definition query_filter (r : QueryRequest) : JobFilter :=
  mkFilter (if q_state r =? 0 then None else JobState_value <$> proto_to_state (q_state r))
    (or_none (q_task_name r)) (or_none (q_ctx_id r)) None (q_parent_gate_id r) (or_none (q_pipeline r))
    (or_none (q_stage r)) (or_none (q_group_key r)) (q_created_after r).

(** (jobs, next_page_token) *)
Definition Query (r : QueryRequest) : RPC (list Job * string) := fun w =>
  let page_size := or_int (q_page_size r) 100 in
  match page_offset (q_page_token r) with
  | Raise e => (w, Crash e)
  | Ok offset =>
      bare (items ← QueryService.jobs (tenant_of (q_tenant r)) (query_filter r) page_size offset;
            mret (map _job_from_list_item items,
                  if Z.of_nat (length items) =? page_size then py_str_Z (offset + page_size) else "")) w
  end.

(** ** StreamEvents *)

(** One page read per database state; the flag says the stream was closed. *)
Fixpoint snapshot_stream (tenant ctx_id : string) (after_id : Z) (dbs : list DB) : list JobEvent * bool :=
  match dbs with
  | [] => ([], false)
  | db :: rest =>
      let rows := EventStream.snapshot_for_ctx tenant ctx_id after_id EventStream._BATCH db in
      let out := map _event_to_proto rows in
      if Z.of_nat (length rows) <? _EVENT_PAGE then (out, true)
      else
        let (more, closed) := snapshot_stream tenant ctx_id (match rev rows with r :: _ => ev_id r | [] => after_id end) rest in
        (out ++ more, closed)
  end.

Definition StreamEvents_snapshot (tenant ctx_id : string) (dbs : list DB) : reply (list JobEvent * bool) :=
  match or_none ctx_id with
  | None => Abort "INVALID_ARGUMENT" (Some "snapshot StreamEvents requires ctx_id")
  | Some c => Reply (snapshot_stream (tenant_of tenant) c 0 dbs)
  end.

(** The live tail: what is forwarded of the rows its queue hands over. *)
Definition StreamEvents_live (ctx_id : string) (rows : list Event) : list JobEvent :=
  map _event_to_proto
    (List.filter (fun row => match or_none ctx_id with
                             | None => true
                             | Some c => bool_decide (ev_ctx_id row = Some c)
                             end) rows).

End ClientService.
