(* ===== verification/WorkerService.v ===== *)
(** * The data plane over gRPC (src/symba/transport/worker_service.py) *)

From S2P Require Import Prelude PyStr Errors States Versioning Json JsonLoads Records Database Queries Tables Claim.
From S2P Require Import Repository World RegistryService JobService SignalService CancelService Wire.
From Stdlib Require Import ZArith QArith.
Open Scope string_scope.
Open Scope Z_scope.
Open Scope list_scope.

Module WorkerService.

Definition _SLOTS_TOTAL_LABEL : string := "symba.slots_total".

(** [labels.get(k, d)] *)
Definition label_get (k d : string) (labels : list (string * string)) : string :=
  match List.find (fun kv => String.eqb (fst kv) k) labels with Some kv => snd kv | None => d end.

Definition _slots_total (first : ClaimRequest) : Z :=
  Z.max (cl_free_slots first) (default 0 (py_int (label_get _SLOTS_TOTAL_LABEL "0" (cl_labels first)))).

Definition _decode_json (raw : string) : result exn (option json) :=
  if negb (nonempty raw) then Ok None
  else match loads_bytes raw with
       | Ok JNull => Ok None
       | Ok j => Ok (Some j)
       | Raise e => Raise e
       end.

Definition _decode_error_metadata (raw : string) : dict :=
  if negb (nonempty raw) then []
  else match loads_bytes raw with Ok (JObj d) => d | _ => [] end.

(** A result or checkpoint body as the object the columns hold. *)
Definition decode_result (raw : string) : result exn (option dict) :=
  match _decode_json raw with
  | Ok None => Ok None
  | Ok (Some j) => match as_object j with Ok d => Ok (Some d) | Raise e => Raise e end
  | Raise e => Raise e
  end.

(** ** The Claim stream *)

(** The object of a new connection. *)
Definition new_conn (first : ClaimRequest) : WorkerConn :=
  mkConn (cl_worker_id first) (list_to_set (cl_tags first)) (cl_free_slots first) (cl_labels first)
    (list_to_set (cl_registered_tasks first)) (_slots_total first) 0 [].

(** A reference no object has yet. *)
Definition new_ref (g : Registry) : ref := stdpp.base.fresh (dom (rg_store g) : gset nat).

(** One frame of [_read_slots]; false: the reader has ended on an exception. *)
Definition _read_slots (r : ref) (worker_id : string) (frame : ClaimRequest) : EM bool :=
  try_except (fun _ => true)
    (_ ← WorkerRegistry.update_slots worker_id (cl_free_slots frame) (Some (list_to_set (cl_tags frame)))
           (Some (list_to_set (cl_registered_tasks frame))) (Some r);
     mret true)
    (mret false).

(** [await conn.queue.get()]: the oldest assignment, None while there is none. *)
Definition queue_get (r : ref) : EM (option JobAssignment) :=
  g ← gets w_registry;
  match WorkerRegistry.conn_of g r with
  | Some c =>
      match wc_queue c with
      | [] => mret None
      | a :: q =>
          _ ← modify (fun w => set_w_registry (set_conn (fun c =>
                mkConn (wc_worker_id c) (wc_tags c) (wc_free_slots c) (wc_labels c) (wc_registered_tasks c)
                  (wc_slots_total c) (wc_persisted_at c) q) r (w_registry w)) w);
          mret (Some a)
      end
  | None => mret None
  end.

(** What happens on an open stream, in order: a slot frame arrives, the queue
    hands over an assignment, the stream ends. *)
Inductive ClaimEvent := SlotFrame (f : ClaimRequest) | QueueReady | Hangup.

(** The assignments sent; the [finally] part unregisters this connection. *)
Fixpoint claim_loop (r : ref) (worker_id : string) (events : list ClaimEvent) : EM (list JobAssignment) :=
  let close := _ ← WorkerRegistry.unregister worker_id (Some r); mret [] in
  match events with
  | [] => mret []
  | SlotFrame f :: rest =>
      ok ← _read_slots r worker_id f;
      if ok : bool then claim_loop r worker_id rest else close
  | QueueReady :: rest =>
      a ← queue_get r;
      more ← claim_loop r worker_id rest;
      mret (match a with Some x => x :: more | None => more end)
  | Hangup :: _ => close
  end.

Definition Claim (first : option ClaimRequest) (events : list ClaimEvent) : RPC (list JobAssignment) := fun w =>
  match first with
  | None => (w, Reply [])
  | Some f =>
      match check_supported (cl_sdk_version f) PROTOCOL_VERSION with
      | Raise (Symba e) => (w, Abort (grpc_code (err_class e)) None)
      | Raise e => (w, Crash e)
      | Ok _ =>
          let r := new_ref (w_registry w) in
          bare (_ ← WorkerRegistry.register r (new_conn f); claim_loop r (cl_worker_id f) events) w
      end
  end.

(** ** Unary calls *)

(** (lease_expires_at, cancelled) *)
Definition Heartbeat (job_id lease_token : uuid) : RPC (option time * bool) :=
  rpc (JobService.heartbeat job_id lease_token).

Definition Complete (cfg : SymbaConfig) (job_id lease_token : uuid) (result_json : string)
    (drop_chain_tail skipped : bool) : RPC bool := fun w =>
  match decode_result result_json with
  | Raise e => (w, Crash e)
  | Ok r => rpc (JobService.complete cfg job_id lease_token r drop_chain_tail skipped) w
  end.

(** [retry_after_s or None] *)
Definition float_or_none (f : pyfloat) : option pyfloat :=
  if JobService.json_truthy (JFloat f) then Some f else None.

Definition fail_args (r : FailRequest) : JobService.FailArgs :=
  JobService.mkFail (fr_error_type r) (fr_error_message r) (fr_stack_hash r) (fr_retryable r)
    (or_int_none (fr_max_attempts r)) (fr_error_message_safe r) (_decode_error_metadata (fr_error_metadata_json r))
    (fr_rate_limited r) (float_or_none (fr_retry_after_s r)).

(** (accepted, will_retry) *)
Definition Fail (u : Q) (r : FailRequest) : RPC (bool * bool) :=
  rpc (o ← JobService.fail u (fr_job_id r) (fr_lease_token r) (fail_args r);
       mret (JobService.accepted o, JobService.will_retry o)).

(** (result_json, found) *)
Definition GetResult (job_id : uuid) (task_name : string) : RPC (string * bool) :=
  bare (JobService.get_result job_id "default" (or_none task_name)).

(** (parked, event_payload_json) *)
Definition Wait (lk : locks) (job_id lease_token : uuid) (wait_key : string) (timeout_s : Z) : RPC (bool * string) :=
  rpc (o ← SignalService.wait lk job_id lease_token "default" wait_key timeout_s;
       mret (negb (SignalService.resumed_immediately o),
             match SignalService.wait_payload o with
             | Some d => if SignalService.resumed_immediately o then dumps (JObj d) else ""
             | None => ""
             end)).

(** [_decode_json(raw) or {}] *)
Definition checkpoint_body (raw : string) : result exn dict :=
  match _decode_json raw with
  | Ok None => Ok []
  | Ok (Some j) => if JobService.json_truthy j then as_object j else Ok []
  | Raise e => Raise e
  end.

Definition PutCheckpoint (job_id : uuid) (checkpoint_json : string) : RPC bool := fun w =>
  match checkpoint_body checkpoint_json with
  | Raise e => (w, Crash e)
  | Ok data => bare (_ ← CheckpointService.put job_id "default" data; mret true) w
  end.

(** (checkpoint_json, found) *)
Definition GetCheckpoint (job_id : uuid) : RPC (string * bool) :=
  bare (data ← CheckpointService.get job_id "default";
        mret (match data with Some d => (dumps (JObj d), true) | None => ("", false) end)).

End WorkerService.
