(* ===== verification/AdminService.v ===== *)
(** * The operations plane over gRPC (src/symba/transport/admin_service.py) *)

From S2P Require Import Prelude PyStr Errors States Json JsonLoads Records Database Queries Tables Claim.
From S2P Require Import Repository World RateLimiter QueryService Wire Auth ClientService.
From Stdlib Require Import ZArith QArith.
Open Scope string_scope.
Open Scope Z_scope.
Open Scope list_scope.

Module AdminService.

Record CronMessage := mkCronMessage {
  cm_schedule_id : string;
  cm_cron_expr : string;
  cm_task_name : string;
  cm_payload_json : string;
  cm_tenant : string;
  cm_enabled : bool;
  cm_last_fire : option time;
  cm_next_fire : option time
}.

Record WorkerMessage := mkWorkerMessage {
  wm_worker_id : string;
  wm_tags : list string;
  wm_labels : list (string * string);
  wm_slots : Z;
  wm_slots_busy : Z;
  wm_last_seen : option time;
  wm_stale : bool;
  wm_registered_tasks : list string
}.

Definition _cron_to_proto (row : CronSchedule) : CronMessage :=
  mkCronMessage (cr_schedule_id row) (cr_cron_expr row) (cr_task_name row) (dumps (JObj (cr_payload row)))
    (cr_tenant row) (cr_enabled row) (cr_last_fire row) (cr_next_fire row).

Definition _worker_to_proto (row : Worker) : WorkerMessage :=
  mkWorkerMessage (w_worker_id row) (w_tags row) (w_labels row) (w_slots row) (w_slots_busy row)
    (Some (w_last_seen row)) (w_stale row) (w_registered_tasks row).

Definition ListRateClasses : RPC (list (string * Q * Q)) := bare list_classes.

Definition UpsertRateClass (name : string) (capacity refill_per_s : Q) : RPC (string * Q * Q) :=
  rpc (_ ← upsert name capacity refill_per_s; mret (name, capacity, refill_per_s)).

Definition ListCronSchedules (tenant : string) : RPC (list CronMessage) :=
  bare (rows ← QueryService.cron (ClientService.tenant_of tenant); mret (map _cron_to_proto rows)).

Section Cron.
Context (is_valid : string -> bool).

(** The payload is decoded outside the [try]. *)
Definition UpsertCronSchedule (r : CronMessage) : RPC CronMessage := fun w =>
  match ClientService._decode_payload (cm_payload_json r) with
  | Raise e => (w, Crash e)
  | Ok payload =>
      rpc (row ← QueryService.upsert_cron is_valid (cm_schedule_id r) (cm_cron_expr r) (cm_task_name r) (Some payload)
                   (ClientService.tenant_of (cm_tenant r)) (cm_enabled r);
           mret (_cron_to_proto row)) w
  end.
End Cron.

Definition SetCronEnabled (schedule_id : string) (enabled : bool) (tenant : string) : RPC CronMessage :=
  rpc (row ← QueryService.set_cron_enabled schedule_id (ClientService.tenant_of tenant) enabled;
       mret (_cron_to_proto row)).

Definition DeleteCronSchedule (schedule_id tenant : string) : RPC bool :=
  rpc (_ ← QueryService.delete_cron schedule_id (ClientService.tenant_of tenant); mret true).

Definition ListWorkers : RPC (list WorkerMessage) :=
  bare (rows ← QueryService.workers; mret (map _worker_to_proto rows)).

End AdminService.
