(* ===== verification/HttpServer.v ===== *)
(** * The HTTP control plane (src/symba/transport/http_server.py)

    Request and response bodies, the authentication middleware, the error
    handler and every endpoint, composed as the application does: the middleware
    guards paths under /v1, the endpoint runs its service calls as the
    authenticated tenant, and engine errors become their HTTP shape. *)

From S2P Require Import Prelude PyStr Errors States Json JsonLoads Records Database Queries Tables Claim.
From S2P Require Import Repository World SubmitService QueryService EventStream FanOutService SignalService CancelService.
From S2P Require Import Config Auth Wire.
From Stdlib Require Import Ascii ZArith.
Open Scope string_scope.
Open Scope Z_scope.
Open Scope list_scope.

Module HttpServer.

(** ** Request bodies *)

Record JobSpecDTO := mkSpecDTO {
  d_task_name : string;
  d_payload : dict;
  d_priority : Z;
  d_group_key : option string;
  d_max_concurrent_per_group : option Z;
  d_dedup_key : option string;
  d_runs_on : list string;
  d_rate_class : option string;
  d_max_attempts : Z;
  d_timeout_s : Z;
  d_lease_ttl_s : Z;
  d_on_success : option string;
  d_chain_tail : list string
}.

(** [{"task_name": ..., "payload": ...}] with the model's defaults *)
Definition default_dto (task_name : string) (payload : dict) : JobSpecDTO :=
  mkSpecDTO task_name payload 0 None None None [] None 5 600 60 None [].

Record SignalRequestDTO := mkSignalDTO {
  sr_wait_key : string;
  sr_payload : option dict;
  sr_signaled_by : option string
}.

Record CronUpsertDTO := mkCronUpsert {
  cu_schedule_id : string;
  cu_cron_expr : string;
  cu_task_name : string;
  cu_payload : option dict;
  cu_enabled : bool
}.

Record ListQuery := mkListQuery {
  lq_state_filter : option string;
  lq_task_name : option string;
  lq_ctx_id : option string;
  lq_worker : option string;
  lq_limit : Z;
  lq_offset : Z
}.

(** ** Response bodies *)

Definition _real_worker (claimed_by : option string) : option string :=
  match claimed_by with
  | None => None
  | Some c => if startswith "engine:" c then None else Some c
  end.

Record JobResponseDTO := mkJobResponse {
  jd_id : uuid;
  jd_tenant : string;
  jd_task_name : string;
  jd_state : string;
  jd_attempt : Z;
  jd_priority : Z;
  jd_group_key : option string;
  jd_ctx_id : option string;
  jd_worker : option string;
  jd_payload : dict;
  jd_result : option dict;
  jd_error_history : list json;
  jd_created_at : string;
  jd_started_at : option string;
  jd_finished_at : option string
}.

Definition job_response (row : repo.JobRow) : JobResponseDTO :=
  mkJobResponse (repo.jr_id row) (repo.jr_tenant row) (repo.jr_task_name row) (JobState_value (repo.jr_state row))
    (repo.jr_attempt row) (repo.jr_priority row) (repo.jr_group_key row) (repo.jr_ctx_id row)
    (_real_worker (repo.jr_claimed_by row)) (repo.jr_payload row) (repo.jr_result row) (repo.jr_error_history row)
    (isoformat (repo.jr_created_at row)) (isoformat <$> repo.jr_started_at row) (isoformat <$> repo.jr_finished_at row).

Record JobListItemDTO := mkJobListItem {
  ld_id : uuid;
  ld_tenant : string;
  ld_task_name : string;
  ld_state : string;
  ld_attempt : Z;
  ld_priority : Z;
  ld_group_key : option string;
  ld_ctx_id : option string;
  ld_wait_key : option string;
  ld_worker : option string;
  ld_error_history : list json;
  ld_created_at : string;
  ld_started_at : option string;
  ld_finished_at : option string
}.

Definition job_list_item (r : repo.JobListItem) : JobListItemDTO :=
  mkJobListItem (repo.li_id r) (repo.li_tenant r) (repo.li_task_name r) (JobState_value (repo.li_state r))
    (repo.li_attempt r) (repo.li_priority r) (repo.li_group_key r) (repo.li_ctx_id r) (repo.li_wait_key r)
    (_real_worker (repo.li_claimed_by r)) (repo.li_error_history r)
    (isoformat (repo.li_created_at r)) (isoformat <$> repo.li_started_at r) (isoformat <$> repo.li_finished_at r).

Record WorkerDTO := mkWorkerDTO {
  wd_worker_id : string;
  wd_tags : list string;
  wd_registered_tasks : list string;
  wd_labels : list (string * string);
  wd_slots : Z;
  wd_slots_busy : Z;
  wd_last_seen : string;
  wd_stale : bool
}.

Definition worker_dto (r : Worker) : WorkerDTO :=
  mkWorkerDTO (w_worker_id r) (w_tags r) (w_registered_tasks r) (w_labels r) (w_slots r) (w_slots_busy r)
    (isoformat (w_last_seen r)) (w_stale r).

Record CronDTO := mkCronDTO {
  cd_schedule_id : string;
  cd_cron_expr : string;
  cd_task_name : string;
  cd_tenant : string;
  cd_enabled : bool;
  cd_last_fire : option string;
  cd_next_fire : option string;
  cd_created_at : string;
  cd_payload : dict
}.

Definition cron_dto (r : CronSchedule) : CronDTO :=
  mkCronDTO (cr_schedule_id r) (cr_cron_expr r) (cr_task_name r) (cr_tenant r) (cr_enabled r)
    (isoformat <$> cr_last_fire r) (isoformat <$> cr_next_fire r) (isoformat (cr_created_at r)) (cr_payload r).

(** (event, at, detail) *)
Definition event_dto (r : Event) : string * string * option dict := (ev_event r, isoformat (ev_at r), ev_detail r).

(** (upstream, downstream, alias) *)
Definition edge_dto (d : Dependency) : uuid * uuid * option string := (d_depends_on_job_id d, d_job_id d, d_alias d).

(** [SymbaError.to_dict()] *)
Record ErrorDict := mkErrorDict {
  ed_status_code : Z;
  ed_error_code : string;
  ed_message : string;
  ed_trace_id : option string;
  ed_context : list (string * ctx_value)
}.

Definition to_dict (trace_id : option string) (e : symba_error) : ErrorDict :=
  mkErrorDict (status_code (err_class e)) (error_code (err_class e)) (message e) trace_id (err_context e).

Inductive Body :=
| SubmitBody (job_ids : list uuid) (deduplicated : list bool)
| FanOutBody (child_job_ids : list uuid) (gate_id : uuid)
| CancelBody (cancelled was_running : bool) (cascaded : list uuid) (note : string)
| SignalBody (delivered : bool) (job_id : option uuid)
| ResubmitBody (new_job_id resubmitted_from : uuid)
| JobBody (job : JobResponseDTO)
| JobListBody (jobs : list JobListItemDTO)
| BoardBody (counts : list (string * Z))
| QueuesBody (queues : list QueueStat)
| WorkersBody (workers : list WorkerDTO)
| CronListBody (schedules : list CronDTO)
| CronBody (schedule : CronDTO)
| FlagBody (name : string) (value : bool)
| EventsBody (events : list (string * string * option dict))
| TreeBody (edges : list (uuid * uuid * option string))
| CheckpointBody (job_id : uuid) (checkpoint : option dict)
| StatusBody (status : string)
| ErrorBody (e : ErrorDict)
| Unprocessable.   (* the request does not validate *)

(** A response: status, Retry-After and body; or an exception no handler takes,
    which the server answers with a bare 500. *)
Inductive Response :=
| Respond (status : Z) (retry_after : option string) (body : Body)
| ServerError (e : exn).

Definition _to_spec (tenant : string) (dto : JobSpecDTO) : SubmitSpec :=
  mkSpec (d_task_name dto) (d_payload dto) tenant None None None SUBMITTED (d_priority dto) (d_group_key dto)
    (d_max_concurrent_per_group dto) (d_dedup_key dto) (d_runs_on dto) (d_rate_class dto) (d_on_success dto)
    (d_chain_tail dto) None 0 [] (d_max_attempts dto) None (d_timeout_s dto) None (d_lease_ttl_s dto) None.

(** ** Errors *)

Fixpoint ctx_get (k : string) (ctx : list (string * ctx_value)) : option ctx_value :=
  match ctx with
  | [] => None
  | (k', v) :: rest => if String.eqb k k' then Some v else ctx_get k rest
  end.

(** [int(retry_after)] *)
Definition ctx_int (v : ctx_value) : option Z :=
  match v with CtxInt z => Some z | CtxStr s => py_int s | CtxId _ => None end.

Definition _symba_error_handler (trace_id : option string) (e : symba_error) : Response :=
  let body := ErrorBody (to_dict trace_id e) in
  match ctx_get "retry_after_s" (err_context e) with
  | None => Respond (status_code (err_class e)) None body
  | Some v => match ctx_int v with
              | Some n => Respond (status_code (err_class e)) (Some (py_str_Z n)) body
              | None => ServerError ValueError
              end
  end.

Definition respond (trace_id : option string) (m : EM Body) : World -> World * Response := fun w =>
  match m w with
  | (w', Ok b) => (w', Respond 200 None b)
  | (w', Raise (Symba e)) => (w', _symba_error_handler trace_id e)
  | (w', Raise e) => (w', ServerError e)
  end.

(** ** Endpoints *)

Inductive Call :=
| CallSubmit (specs : list JobSpecDTO)
| CallFanOut (ctx_id : option string) (children : list JobSpecDTO) (on_complete : JobSpecDTO) (gate_policy : string)
| CallCancel (job_id : option uuid) (cascade : bool)
| CallSignal (r : SignalRequestDTO)
| CallResubmit (job_id : option uuid)
| CallGetJob (job_id : option uuid)
| CallListJobs (q : ListQuery)
| CallBoard
| CallQueues
| CallWorkers
| CallListCron
| CallSetCron (schedule_id : string) (enabled : bool)
| CallUpsertCron (r : CronUpsertDTO)
| CallDeleteCron (schedule_id : string)
| CallEvents (job_id : option uuid)
| CallTree (job_id : option uuid)
| CallCheckpoint (job_id : option uuid)
| CallHealthz
| CallReadyz (serving pg_reachable : bool).

(** An identifier the SQL takes as a uuid: other text is a DataError. *)
Definition uuid_arg (i : option uuid) : EM uuid := of_option DataError i.

Section Endpoints.
Context (is_valid : string -> bool) (cfg : World.SymbaConfig) (lk : locks).

Definition submit_jobs (p : Principal) (specs : list JobSpecDTO) : EM Body :=
  match specs with
  | [] => mret Unprocessable
  | _ =>
      o ← SubmitService.submit cfg (map (_to_spec (p_tenant p)) specs);
      mret (SubmitBody (SubmitService.job_ids o) (SubmitService.deduplicated o))
  end.

Definition fan_out (p : Principal) (ctx_id : option string) (children : list JobSpecDTO) (on_complete : JobSpecDTO)
    (gate_policy : string) : EM Body :=
  match children with
  | [] => mret Unprocessable
  | _ =>
      o ← FanOutService.fan_out cfg (p_tenant p) ctx_id (map (_to_spec (p_tenant p)) children)
            (_to_spec (p_tenant p) on_complete) gate_policy;
      mret (FanOutBody (FanOutService.child_job_ids o) (FanOutService.fo_gate_id o))
  end.

Definition cancel_job (p : Principal) (job_id : option uuid) (cascade : bool) : EM Body :=
  row ← SubmitService.get_job job_id (p_tenant p);
  o ← CancelService.cancel (repo.jr_id row) cascade;
  mret (CancelBody (CancelService.cancelled o) (CancelService.was_running o) (CancelService.cascaded o)
          (CancelService.note o)).

Definition signal (p : Principal) (r : SignalRequestDTO) : EM Body :=
  o ← SignalService.signal lk (p_tenant p) (sr_wait_key r) (sr_payload r) (sr_signaled_by r);
  mret (SignalBody (SignalService.delivered o) (SignalService.signal_job_id o)).

Definition resubmit_job (p : Principal) (job_id : option uuid) : EM Body :=
  i ← uuid_arg job_id;
  o ← ResubmitService.resubmit i (p_tenant p);
  mret (ResubmitBody (ResubmitService.new_job_id o) (ResubmitService.resubmitted_from o)).

Definition get_job (p : Principal) (job_id : option uuid) : EM Body :=
  row ← SubmitService.get_job job_id (p_tenant p);
  mret (JobBody (job_response row)).

Definition list_jobs (p : Principal) (q : ListQuery) : EM Body :=
  rows ← QueryService.jobs (p_tenant p)
           (mkFilter (lq_state_filter q) (lq_task_name q) (lq_ctx_id q) (lq_worker q) None None None None None)
           (lq_limit q) (lq_offset q);
  mret (JobListBody (map job_list_item rows)).

Definition stats_board (p : Principal) : EM Body :=
  counts ← QueryService.board (p_tenant p);
  mret (BoardBody (map (fun sc => (JobState_value (fst sc), snd sc)) counts)).

Definition stats_queues (p : Principal) : EM Body :=
  rows ← QueryService.queues (p_tenant p); mret (QueuesBody rows).

Definition list_workers (_ : Principal) : EM Body :=
  rows ← QueryService.workers; mret (WorkersBody (map worker_dto rows)).

Definition list_cron (p : Principal) : EM Body :=
  rows ← QueryService.cron (p_tenant p); mret (CronListBody (map cron_dto rows)).

Definition set_cron_enabled (p : Principal) (schedule_id : string) (enabled : bool) : EM Body :=
  _ ← QueryService.set_cron_enabled schedule_id (p_tenant p) enabled;
  mret (FlagBody "enabled" enabled).

Definition upsert_cron (p : Principal) (r : CronUpsertDTO) : EM Body :=
  row ← QueryService.upsert_cron is_valid (cu_schedule_id r) (cu_cron_expr r) (cu_task_name r) (cu_payload r)
          (p_tenant p) (cu_enabled r);
  mret (CronBody (cron_dto row)).

Definition delete_cron (p : Principal) (schedule_id : string) : EM Body :=
  _ ← QueryService.delete_cron schedule_id (p_tenant p);
  mret (FlagBody "deleted" true).

Definition job_events (p : Principal) (job_id : option uuid) : EM Body :=
  i ← uuid_arg job_id;
  rows ← QueryService.events i (p_tenant p);
  mret (EventsBody (map event_dto rows)).

Definition job_tree (p : Principal) (job_id : option uuid) : EM Body :=
  job ← SubmitService.get_job job_id (p_tenant p);
  match repo.jr_ctx_id job with
  | None => mret (TreeBody [])
  | Some c => rows ← QueryService.tree c (p_tenant p); mret (TreeBody (map edge_dto rows))
  end.

Definition job_checkpoint (p : Principal) (job_id : option uuid) : EM Body :=
  row ← SubmitService.get_job job_id (p_tenant p);
  data ← CheckpointService.get (repo.jr_id row) (p_tenant p);
  mret (CheckpointBody (repo.jr_id row) data).

Definition readyz (serving pg_reachable : bool) : Z * Body :=
  if negb serving then (503, StatusBody "starting")
  else if negb pg_reachable then (503, StatusBody "degraded")
  else (200, StatusBody "ready").

(** [Depends(require_principal)] *)
Definition require_principal (principal : option Principal) : EM Principal :=
  of_option (unauthenticated "no authenticated principal on request") principal.

Definition endpoint (p : Principal) (c : Call) : EM Body :=
  match c with
  | CallSubmit specs => submit_jobs p specs
  | CallFanOut ctx children oc policy => fan_out p ctx children oc policy
  | CallCancel i cascade => cancel_job p i cascade
  | CallSignal r => signal p r
  | CallResubmit i => resubmit_job p i
  | CallGetJob i => get_job p i
  | CallListJobs q => list_jobs p q
  | CallBoard => stats_board p
  | CallQueues => stats_queues p
  | CallWorkers => list_workers p
  | CallListCron => list_cron p
  | CallSetCron s b => set_cron_enabled p s b
  | CallUpsertCron r => upsert_cron p r
  | CallDeleteCron s => delete_cron p s
  | CallEvents i => job_events p i
  | CallTree i => job_tree p i
  | CallCheckpoint i => job_checkpoint p i
  | CallHealthz | CallReadyz _ _ => mret (StatusBody "ok")
  end.

(** The route, with the path parameters as they stand in the request. *)
Definition path_of (id_text : string) (c : Call) : string :=
  match c with
  | CallSubmit _ | CallListJobs _ => "/v1/jobs"
  | CallFanOut _ _ _ _ => "/v1/fanout"
  | CallCancel _ _ => "/v1/jobs/" ++ id_text ++ "/cancel"
  | CallSignal _ => "/v1/signals"
  | CallResubmit _ => "/v1/jobs/" ++ id_text ++ "/resubmit"
  | CallGetJob _ => "/v1/jobs/" ++ id_text
  | CallBoard => "/v1/stats/board"
  | CallQueues => "/v1/stats/queues"
  | CallWorkers => "/v1/workers"
  | CallListCron | CallUpsertCron _ => "/v1/cron"
  | CallSetCron s _ | CallDeleteCron s => "/v1/cron/" ++ s
  | CallEvents _ => "/v1/jobs/" ++ id_text ++ "/events"
  | CallTree _ => "/v1/jobs/" ++ id_text ++ "/tree"
  | CallCheckpoint _ => "/v1/jobs/" ++ id_text ++ "/checkpoints"
  | CallHealthz => "/healthz"
  | CallReadyz _ _ => "/readyz"
  end%string.

(** The routed application, behind the middleware. *)
Definition app (trace_id : option string) (principal : option Principal) (c : Call) : World -> World * Response := fun w =>
  match c with
  | CallHealthz => (w, Respond 200 None (StatusBody "ok"))
  | CallReadyz serving up => let (status, b) := readyz serving up in (w, Respond status None b)
  | _ =>
      match respond trace_id (p ← require_principal principal; endpoint p c) w with
      | (w', Respond _ r Unprocessable) => (w', Respond 422 r Unprocessable)
      | r => r
      end
  end.

Record Request := mkRequest {
  rq_id_text : string;
  rq_call : Call;
  rq_authorization : option string;
  rq_tenant_header : option string;
  rq_client_host : option string;
  rq_trace_id : option string
}.

Context (jwt_decode : string -> string + dict) (auth : Config.AuthConfig).

(** [HttpAuthMiddleware.__call__] around the application *)
Definition http_auth_middleware (r : Request) : World -> World * Response := fun w =>
  if negb (startswith "/v1" (path_of (rq_id_text r) (rq_call r))) then app (rq_trace_id r) None (rq_call r) w
  else match Authenticator.authenticate jwt_decode auth (rq_authorization r) (rq_tenant_header r) (rq_client_host r) with
       | Raise (Symba e) =>
           (w, Respond (status_code (err_class e)) None (ErrorBody (to_dict (rq_trace_id r) e)))
       | Raise e => (w, ServerError e)
       | Ok principal => app (rq_trace_id r) (Some principal) (rq_call r) w
       end.

End Endpoints.

(** ** The event stream (Server-Sent Events) *)

Definition opt_str (o : option string) : json := match o with Some s => JStr s | None => JNull end.

Definition sse_payload (row : Event) : json :=
  JObj [("job_id", JStr (uuid_str (ev_job_id row))); ("ctx_id", opt_str (ev_ctx_id row)); ("event", JStr (ev_event row));
        ("at", JStr (isoformat (ev_at row)));
        ("detail", match ev_detail row with Some d => JObj d | None => JNull end)].

Definition newline : string := String (ascii_of_N 10) "".

(** What one turn of the generator yields: a row, or a keepalive on a timeout. *)
Definition sse_frame (row : option Event) : string :=
  match row with
  | None => ": keepalive" ++ newline ++ newline
  | Some r => "event: job_event" ++ newline ++ "data: " ++ dumps (sse_payload r) ++ newline ++ newline
  end%string.

Definition events_stream (turns : list (option Event)) : string := String.concat "" (map sse_frame turns).

End HttpServer.
