(* ===== verification/ReadProps.v ===== *)
(** * Paging, replaying and awaiting

    The snapshot mode of StreamEvents replays what the ledger of a context held
    when it began and terminates, the Query cursor enumerates the matching jobs as
    long as they stay the same and no two share a creation time, and AwaitJob
    returns within its timeout. *)

From S2P Require Import Prelude PyStr Errors States Json JsonLoads Records Database Queries Tables Claim.
From S2P Require Import Invariant Steps ClaimFacts Repository RepoFacts World SubmitService QueryService.
From S2P Require Import CancelService EventStream Engine Lifecycle StreamProps Wire Auth ClientService Config ConfigProps.
From Stdlib Require Import ZArith.
Open Scope string_scope.
Open Scope Z_scope.
Open Scope list_scope.
Import ClientService.

(** ** StreamEvents with snapshot=true *)

Definition of_ctx (t c : string) (e : Event) : bool := String.eqb (ev_tenant e) t && sql_eq (ev_ctx_id e) (Some c).

(** The ledger of a context. *)
Definition ctx_events (t c : string) (db : DB) : list Event := sel (of_ctx t c) (db_events db).

(** What the reads of a stream may rely on: ids are distinct and positive, and a
    later read sees what an earlier one saw.  Nothing is said of the ids of what it
    sees besides: ids are drawn before the commit, so a smaller one may appear later. *)
Definition ledger_ok (db : DB) : Prop :=
  List.NoDup (map ev_id (db_events db)) /\ List.Forall (fun e => 0 < ev_id e) (db_events db).
Definition ledger_kept (db db' : DB) : Prop := incl (db_events db) (db_events db').

Lemma sel_sel {A} (p q : A -> bool) l : sel p (sel q l) = sel (fun x => q x && p x) l.
Proof. induction l as [|x l IH]; [done|]. simpl. destruct (q x); simpl; [destruct (p x); congruence | done]. Qed.

(** The rows past the cursor, by id, and their first page. *)
Definition unread (t c : string) (a : Z) (db : DB) : list Event :=
  order_by event_le (sel (fun e => a <? ev_id e) (ctx_events t c db)).

Lemma page_rows t c a db : EventStream.snapshot_for_ctx t c a EventStream._BATCH db = take 500 (unread t c a db).
Proof.
  unfold EventStream.snapshot_for_ctx, EventStream.answer, unread. simpl. unfold sql_events_for_ctx, ctx_events, limit.
  by rewrite sel_sel.
Qed.

Lemma unread_In t c a db e : In e (unread t c a db) <-> In e (ctx_events t c db) /\ a < ev_id e.
Proof. unfold unread. rewrite order_by_In, in_sel. by rewrite Z.ltb_lt. Qed.

Lemma ids_sel p l : List.NoDup (map ev_id l) -> List.NoDup (map ev_id (sel p l)).
Proof.
  induction l as [|x l IH]; simpl; [done|]. intros H. apply NoDup_cons_iff in H as [Hn H].
  destruct (p x); simpl; [constructor|]; auto. intros (y & E & [Hy _]%in_sel)%in_map_iff. apply Hn. rewrite <- E.
  by apply in_map.
Qed.

Lemma unread_sorted t c a db : ledger_ok db -> by_id (unread t c a db).
Proof.
  intros [Hnd _]. assert (List.NoDup (map ev_id (unread t c a db))) as Hn.
  { eapply Permutation_NoDup; [apply Permutation_map; symmetry; apply order_by_perm|]. by apply ids_sel, ids_sel. }
  assert (StronglySorted (fun x y => event_le x y = true) (unread t c a db)) as Hs.
  { apply order_by_sorted; unfold event_le; intros *; rewrite !Z.leb_le; lia. }
  revert Hn. generalize dependent (unread t c a db). induction 1 as [|x l Hl IH Hx]; simpl; intros Hn; [constructor|].
  apply NoDup_cons_iff in Hn as [Hn Hn']. constructor; [by apply IH|]. rewrite List.Forall_forall in *. intros y Hy.
  specialize (Hx y Hy). unfold event_le in Hx. apply Z.leb_le in Hx.
  assert (ev_id x <> ev_id y) by (intros E; apply Hn; rewrite E; by apply in_map). lia.
Qed.

(** A full page ends with the row the cursor moves to. *)
Definition last_id (a : Z) (rows : list Event) : Z := match rev rows with r :: _ => ev_id r | [] => a end.

Lemma page_spec t c a db :
  ledger_ok db -> let rows := take 500 (unread t c a db) in
  by_id rows /\ (forall e, In e rows -> In e (ctx_events t c db) /\ a < ev_id e <= last_id a rows)
  /\ (forall e, In e (ctx_events t c db) -> a < ev_id e -> ev_id e <= last_id a rows \/ (length rows < 500)%nat -> In e rows).
Proof.
  intros Hok rows. pose proof (unread_sorted t c a db Hok) as Hs. set (l := unread t c a db) in *.
  assert (by_id rows) as Hr.
  { unfold rows. clear -Hs. revert Hs. generalize 500%nat. induction l as [|x l IH]; intros [|n] Hs; simpl; try constructor.
    - apply IH. by inversion Hs.
    - inversion_clear Hs as [|? ? _ Hx]. rewrite List.Forall_forall in *. intros y Hy. by apply Hx, (in_take n). }
  assert (forall e, In e rows -> In e l) as Hsub by (intros e; apply in_take).
  assert (forall e, In e rows -> ev_id e <= last_id a rows) as Hlast.
  { intros e He. unfold last_id. destruct (rev rows) as [|r rest] eqn:Er.
    - apply (f_equal (@rev Event)) in Er. rewrite rev_involutive in Er. by rewrite Er in He.
    - assert (rows = rev rest ++ [r]) as Et by (by rewrite <- (rev_involutive rows), Er).
      rewrite Et, in_app_iff in He. destruct He as [He|[<-|[]]]; [|lia]. rewrite Et in Hr.
      apply Z.lt_le_incl, (by_id_app _ _ _ _ Hr); [done | by left]. }
  split_and!; [done | |].
  - intros e He. destruct (proj1 (unread_In t c a db e) (Hsub e He)). split; [done|]. split; [done | by apply Hlast].
  - intros e He Ha Hle. assert (In e l) as Hin by (by apply unread_In).
    rewrite <- (take_drop 500 l), in_app_iff in Hin. destruct Hin as [?|Hin]; [done|exfalso].
    assert (length rows = 500)%nat as Hlen.
    { unfold rows. rewrite length_take. assert (drop 500 l <> []) as Hd by (by intros E; rewrite E in Hin).
      destruct (Nat.le_gt_cases (length l) 500) as [H|H]; [by rewrite drop_ge in Hd by lia | lia]. }
    destruct Hle as [Hle|?]; [|lia]. unfold last_id in Hle. destruct (rev rows) as [|r rest] eqn:Er.
    { apply (f_equal length) in Er. rewrite length_rev in Er. simpl in Er. lia. }
    assert (In r rows) as Hrr by (apply in_rev; rewrite Er; by left).
    rewrite <- (take_drop 500 l) in Hs. pose proof (by_id_app _ _ r e Hs Hrr Hin). lia.
Qed.

Lemma by_id_join l1 l2 a : by_id l1 -> by_id l2 -> (forall e, In e l1 -> ev_id e <= a) -> (forall e, In e l2 -> a < ev_id e) ->
  by_id (l1 ++ l2).
Proof.
  intros H1 H2 Ha Hb. induction H1 as [|x l Hl IH Hx]; simpl; [done|]. constructor.
  - apply IH. intros e He. apply Ha. by right.
  - rewrite List.Forall_forall in *. intros y [Hy|Hy]%in_app_iff; [by apply Hx|].
    pose proof (Ha x (or_introl eq_refl)). pose proof (Hb y Hy). lia.
Qed.

Record streamed (t c : string) (a : Z) (dbs : list DB) (rows : list Event) (closed : bool) : Prop := mkStreamed {
  st_order : by_id rows;
  st_past : forall e, In e rows -> a < ev_id e;
  st_sound : forall e, In e rows -> exists db, In db dbs /\ In e (ctx_events t c db);
  st_complete : closed = true -> forall db e, hd_error dbs = Some db -> In e (ctx_events t c db) -> a < ev_id e -> In e rows;
  st_nonempty : closed = true -> dbs <> [];
  st_open : closed = false -> (500 * length dbs <= length rows)%nat
}.

Lemma snapshot_streamed t c dbs : forall a,
  List.Forall ledger_ok dbs -> StronglySorted ledger_kept dbs ->
  exists rows, fst (snapshot_stream t c a dbs) = map _event_to_proto rows
    /\ streamed t c a dbs rows (snd (snapshot_stream t c a dbs)).
Proof.
  induction dbs as [|db dbs IH]; intros a Hok Hk.
  { exists []. split; [done|]. split; simpl; try done; first [constructor | lia]. }
  inversion_clear Hok as [|? ? Hdb Hdbs]. inversion_clear Hk as [|? ? Hk' Hall].
  cbn [snapshot_stream]. rewrite page_rows. destruct (page_spec t c a db Hdb) as (Hs & Hin & Hcov). cbv zeta in *.
  set (page := take 500 (unread t c a db)) in *. change _EVENT_PAGE with 500.
  destruct (Z.ltb_spec (Z.of_nat (length page)) 500) as [Hlt|Hge].
  { exists page. split; [done|]. split; simpl; try done.
    - intros e He. by apply Hin.
    - intros e He. exists db. split; [by left | by apply Hin].
    - intros _ ? e [= <-] He Ha. apply Hcov; [done | done | right; lia]. }
  fold (last_id a page). destruct (IH (last_id a page) Hdbs Hk') as (rows & Eo & [O P S C N L]).
  destruct (snapshot_stream t c (last_id a page) dbs) as [more closed]. cbn [fst snd] in *.
  exists (page ++ rows). rewrite map_app, Eo. split; [done|]. split.
  - apply (by_id_join _ _ (last_id a page)); [done | done | intros e He; by apply Hin | done].
  - intros e [He|He]%in_app_iff; [by apply Hin|]. specialize (P e He). unfold last_id in P.
    destruct (rev page) as [|r rest] eqn:Er; [done|]. assert (In r page) by (apply in_rev; rewrite Er; by left).
    destruct (Hin r ltac:(done)) as [_ [? _]]. lia.
  - intros e [He|He]%in_app_iff; [exists db; split; [by left | by apply Hin]|].
    destruct (S e He) as (d & Hd & ?). exists d. split; [by right | done].
  - intros Hcl ? e [= <-] He Ha. apply in_app_iff. destruct (Z.le_gt_cases (ev_id e) (last_id a page)) as [Hle|Hgt].
    + left. apply Hcov; [done | done | by left].
    + right. destruct dbs as [|db' dbs]; [by destruct (N Hcl)|apply (C Hcl db' e eq_refl); [|done]].
      inversion_clear Hall as [|? ? Hkept _]. unfold ctx_events in *. apply in_sel in He as [He Hc]. apply in_sel. split; [|done].
      by apply Hkept.
  - done.
  - intros Hcl. specialize (L Hcl). cbn [length]. rewrite length_app. lia.
Qed.

Lemma kept_last dbs db : StronglySorted ledger_kept (db :: dbs) ->
  forall d, In d (db :: dbs) -> ledger_kept d (List.last dbs db).
Proof.
  revert db. induction dbs as [|x dbs IH]; intros db Hs d Hd; [destruct Hd as [->|[]]; apply incl_refl|].
  inversion_clear Hs as [|? ? Hs' Hall]. assert (List.last (x :: dbs) db = List.last dbs x) as ->
    by (clear; revert x; induction dbs as [|y l IH]; intros x; [done|]; simpl in *; by destruct l).
  destruct Hd as [<-|Hd]; [|by apply IH]. inversion_clear Hall as [|? ? Hx _].
  intros e He. apply (IH x Hs' x (or_introl eq_refl)). by apply Hx.
Qed.

(** C33. Replaying a context's ledger with StreamEvents snapshot=true, whatever is
    committed between its page reads and in whatever order of ids.  The events
    streamed come from the context's ledger, in the order of their ids, none twice.
    When the stream closes, every event that was committed before it began has
    been streamed.  And it closes as soon as it has read one page more than the
    500-row pages the ledger of the last read fills.  Events committed meanwhile
    may be missing: one whose id is below the cursor when it appears is skipped. *)
Theorem snapshot_replays_ledger tenant ctx_id db0 dbs out closed :
  ctx_id <> "" -> List.Forall ledger_ok (db0 :: dbs) -> StronglySorted ledger_kept (db0 :: dbs) ->
  StreamEvents_snapshot tenant ctx_id (db0 :: dbs) = Reply (out, closed) ->
  let t := tenant_of tenant in
  exists rows, out = map _event_to_proto rows /\ by_id rows
    /\ (forall e, In e rows -> exists db, In db (db0 :: dbs) /\ In e (ctx_events t ctx_id db))
    /\ (closed = true -> forall e, In e (ctx_events t ctx_id db0) -> In e rows)
    /\ ((length (ctx_events t ctx_id (List.last dbs db0)) / 500 <= length dbs)%nat -> closed = true).
Proof.
  intros Hc Hok Hk E t. unfold StreamEvents_snapshot, or_none in E.
  assert (nonempty ctx_id = true) as Hne by (unfold nonempty; apply negb_true_iff, String.eqb_neq, Hc).
  rewrite Hne in E. fold t in E. injection E as E.
  destruct (snapshot_streamed t ctx_id (db0 :: dbs) 0 Hok Hk) as (rows & Eo & [O P S C _ L]).
  change (snapshot_stream t ctx_id 0 (db0 :: dbs) = (out, closed)) in E. rewrite E in Eo, C, L. cbn [fst snd] in *. exists rows. split_and!; [done | done | done | |].
  - intros Hcl e He. apply (C Hcl db0 e eq_refl He). inversion_clear Hok as [|? ? [_ Hpos] _].
    apply in_sel in He as [He _]. rewrite List.Forall_forall in Hpos. by apply Hpos.
  - intros Hlen. destruct closed; [done|]. specialize (L eq_refl). exfalso.
    assert (length rows <= length (ctx_events t ctx_id (List.last dbs db0)))%nat as Hle.
    { apply NoDup_incl_length.
      - clear -O. induction O as [|x l _ IH Hx]; constructor; [|done]. rewrite List.Forall_forall in Hx.
        intros Hin. specialize (Hx x Hin). lia.
      - intros e He. destruct (S e He) as (d & Hd & Hin). unfold ctx_events in *. apply in_sel in Hin as [Hin Hf].
        apply in_sel. split; [|done]. by apply (kept_last dbs db0 Hk d Hd). }
    cbn [length] in L.
    assert (length dbs + 1 <= length (ctx_events t ctx_id (List.last dbs db0)) / 500)%nat
      by (apply Nat.div_le_lower_bound; lia). lia.
Qed.

(** The databases of a deployment are such ledgers. *)
Lemma reachable_ledger w w' : reachable w -> rtc step w w' -> ledger_ok (w_db w) /\ ledger_kept (w_db w) (w_db w').
Proof.
  intros Hr Hs. destruct (steps_keep w w' Hs (reachable_wf_db w Hr)) as [_ [_ _ _ [evs He] _ _]].
  pose proof (reachable_wf_db w Hr) as Hwf. split; [split|].
  - pose proof (reachable_by_id w Hr) as H. clear He. induction H as [|x l _ IH Hx]; simpl; [constructor | constructor; [|done]].
    intros (y & Hy & Hin)%in_map_iff. rewrite List.Forall_forall in Hx. specialize (Hx y Hin). lia.
  - eapply List.Forall_impl; [|apply (wf_event_lt _ _ (wf_e _ Hwf))]. simpl. lia.
  - intros e Hin. rewrite He. apply in_app_iff. by left.
Qed.

Definition ctx_spec : SubmitSpec := set_s_ctx_id (Some "run-1") demo_spec.
Definition ctx_world : World :=
  fst (CancelService.cancel 1 false (fst (SubmitService.submit default_config [ctx_spec; ctx_spec] world0))).

Lemma ctx_world_reachable : reachable ctx_world.
Proof.
  eapply reach_step; [eapply reach_step; [apply world0_reachable | apply step_run, run_submit] | apply step_run, run_cancel].
Qed.

Lemma snapshot_replays_ledger_witness :
  exists rows, StreamEvents_snapshot "" "run-1" [w_db ctx_world] = Reply (map _event_to_proto rows, true)
    /\ (forall e, In e (ctx_events "default" "run-1" (w_db ctx_world)) -> In e rows)
    /\ map ev_event (ctx_events "default" "run-1" (w_db ctx_world)) = ["cancelled"].
Proof.
  destruct (snapshot_stream "default" "run-1" 0 [w_db ctx_world]) as [out closed] eqn:Eo.
  assert (StreamEvents_snapshot "" "run-1" [w_db ctx_world] = Reply (out, closed)) as E by (rewrite <- Eo; reflexivity).
  assert (List.Forall ledger_ok [w_db ctx_world]) as Hok.
  { constructor; [|constructor]. apply (reachable_ledger ctx_world ctx_world ctx_world_reachable (rtc_refl _ _)). }
  assert (StronglySorted ledger_kept [w_db ctx_world]) as Hk by (repeat constructor).
  destruct (snapshot_replays_ledger "" "run-1" (w_db ctx_world) [] out closed ltac:(discriminate) Hok Hk E)
    as (rows & Ho & _ & _ & H1 & H2).
  assert (closed = true) as -> by (apply H2, Nat.leb_le; vm_compute; reflexivity).
  exists rows. split_and!; [by rewrite E, Ho | by apply H1 | vm_compute; reflexivity].
Defined.

(** An event that commits late under a small id is never streamed (each event here is of
    the job with its number): the first read
    finds the ids from 2 to 501, the second one also 1 and 502. *)
Definition ctx_ledger (ids : list Z) : DB :=
  set_db_events (map (fun n => mkEvent n (Z.to_N n) "default" (Some "run-1") "e" 0 None) ids) (empty_db 0).

Example late_commit_is_skipped :
  let first := map (fun n => Z.of_nat n) (seq 2 500) in
  match StreamEvents_snapshot "" "run-1" [ctx_ledger first; ctx_ledger (first ++ [1; 502])] with
  | Reply (out, closed) => (length out, existsb (N.eqb 1) (map je_job_id out), closed)
  | _ => (0%nat, true, false)
  end = (501%nat, false, true).
Proof. vm_compute. reflexivity. Qed.

(** ** The Query cursor *)

Definition list_item (a : AnyJob) : repo.JobListItem :=
  repo.mkListItem (c_id a) (c_tenant a) (c_task_name a) (c_pipeline a) (c_stage a) (al_final_state a) (j_attempt a)
    (c_priority a) (c_group_key a) (c_ctx_id a) (j_wait_key a) (j_claimed_by a) (j_error_history a) (c_created_at a)
    (j_started_at a) (al_finished_at a).

(** The rows a filter selects, newest first, as replies show them. *)
Definition matching (tenant : string) (f : JobFilter) (db : DB) : list Job :=
  map (fun a => _job_from_list_item (list_item a))
    (order_by (fun a b : AnyJob => c_created_at b <=? c_created_at a) (sel (list_match tenant f) (jobs_all db))).

Definition at_token (token : string) (r : QueryRequest) : QueryRequest :=
  mkQuery (q_tenant r) (q_ctx_id r) (q_state r) (q_task_name r) (q_pipeline r) (q_stage r) (q_group_key r)
    (q_created_after r) (q_page_size r) token (q_parent_gate_id r).

(** A client following the cursor until it is empty, one world per call; None: calls
    are missing, or one failed. *)
Fixpoint follow (r : QueryRequest) (ws : list World) : option (list Job) :=
  match ws with
  | [] => None
  | w :: ws' =>
      match snd (Query r w) with
      | Reply (jobs, token) =>
          if nonempty token then option_map (fun more => jobs ++ more) (follow (at_token token r) ws')
          else Some jobs
      | _ => None
      end
  end.

(** The rows behind a query. *)
Definition selected (tenant : string) (f : JobFilter) (db : DB) : list AnyJob := sel (list_match tenant f) (jobs_all db).

(** With distinct keys the order does not depend on the order of the table. *)
Lemma ordered_unique {A} (key : A -> Z) (l l' : list A) :
  StronglySorted (fun a b => key b <= key a) l -> StronglySorted (fun a b => key b <= key a) l' ->
  Permutation l l' -> List.NoDup (map key l) -> l = l'.
Proof.
  intros Hl. revert l'. induction Hl as [|x l Hl IH Hx]; intros l' Hl' Hp Hn.
  { by apply Permutation_nil in Hp. }
  destruct Hl' as [|y l' Hl' Hy]; [by apply Permutation_sym, Permutation_nil in Hp|].
  rewrite List.Forall_forall in Hx, Hy. simpl in Hn. apply NoDup_cons_iff in Hn as [Hnx Hn].
  assert (x = y) as ->.
  { assert (In y (x :: l)) as [->|Hyl] by (eapply Permutation_in; [symmetry; exact Hp | by left]); [done|].
    assert (In x (y :: l')) as [->|Hxl] by (eapply Permutation_in; [exact Hp | by left]); [done|].
    exfalso. apply Hnx. pose proof (Hx y Hyl). pose proof (Hy x Hxl).
    replace (key x) with (key y) by lia. by apply in_map. }
  f_equal. apply IH; [done | by apply Permutation_cons_inv in Hp | done].
Qed.

Lemma matching_same tenant f db db' :
  Permutation (selected tenant f db') (selected tenant f db) ->
  List.NoDup (map (fun a : AnyJob => c_created_at a) (selected tenant f db)) ->
  matching tenant f db' = matching tenant f db.
Proof.
  intros Hp Hn. unfold matching. fold (selected tenant f db') (selected tenant f db). f_equal.
  assert (forall l, StronglySorted (fun a b : AnyJob => c_created_at b <= c_created_at a)
            (order_by (fun a b : AnyJob => c_created_at b <=? c_created_at a) l)) as Hs.
  { intros l. set (le := fun a b : AnyJob => c_created_at b <=? c_created_at a).
    assert (StronglySorted (fun a b => le a b = true) (order_by le l)) as H
      by (apply order_by_sorted; unfold le; intros *; rewrite !Z.leb_le; lia).
    induction H as [|x m _ IH Hx]; constructor; [done|]. eapply List.Forall_impl; [|exact Hx].
    intros y. unfold le. apply Z.leb_le. }
  apply (ordered_unique (fun a : AnyJob => c_created_at a)); [apply Hs | apply Hs | by rewrite !order_by_perm |].
  eapply Permutation_NoDup; [apply Permutation_map; symmetry; rewrite order_by_perm; exact Hp | exact Hn].
Qed.

Lemma query_jobs_result t f lim offset w :
  QueryService.jobs t f lim offset w
  = (w, Ok (map list_item (sql_list_jobs t f (Z.max 1 (Z.min lim 500)) (Z.max 0 offset) (w_db w)))).
Proof. by destruct w. Qed.

(** One call at offset [n]: the page the service serves, capped at 500 rows. *)
Lemma query_at r w n : 0 <= n -> page_offset (q_page_token r) = Ok n ->
  let page := or_int (q_page_size r) 100 in
  let all := matching (tenant_of (q_tenant r)) (query_filter r) (w_db w) in
  let rows := take (Z.to_nat (Z.max 1 (Z.min page 500))) (drop (Z.to_nat n) all) in
  Query r w = (w, Reply (rows, if Z.of_nat (length rows) =? page then py_str_Z (n + page) else "")).
Proof.
  intros Hn Ho page all rows. unfold Query. rewrite Ho. fold page. unfold bare. unfold mbind, M_bind, M_bind_def.
  rewrite query_jobs_result.
  assert (map _job_from_list_item (map list_item (sql_list_jobs (tenant_of (q_tenant r)) (query_filter r)
            (Z.max 1 (Z.min page 500)) (Z.max 0 n) (w_db w))) = rows) as Hrows.
  { unfold sql_list_jobs, limit, rows, all, matching. rewrite (Z.max_r 0 n) by lia.
    rewrite map_map, skipn_map, firstn_map. done. }
  rewrite <- Hrows, !length_map. done.
Qed.

Lemma page_offset_str n : 0 <= n -> page_offset (py_str_Z n) = Ok n.
Proof.
  intros Hn. unfold page_offset. rewrite py_int_str by done. unfold nonempty.
  destruct (String.eqb_spec (py_str_Z n) "") as [E|E]; [|done].
  pose proof (py_int_str n Hn) as H. rewrite E in H. done.
Qed.

Lemma nonempty_str n : 0 <= n -> nonempty (py_str_Z n) = true.
Proof. intros Hn. pose proof (page_offset_str n Hn) as H. unfold page_offset in H. destruct (nonempty (py_str_Z n)) eqn:E; [done|].
  simpl in H. pose proof (py_int_str n Hn) as Hi. unfold nonempty in E. apply negb_false_iff, String.eqb_eq in E.
  by rewrite E in Hi. Qed.

Section Follow.
Context (tenant : string) (f : JobFilter) (all : list Job).

Lemma follow_from ws r n : 0 <= n -> page_offset (q_page_token r) = Ok n ->
  tenant_of (q_tenant r) = tenant -> query_filter r = f -> (forall w, In w ws -> matching tenant f (w_db w) = all) ->
  let page := or_int (q_page_size r) 100 in
  1 <= page <= 500 -> (length (drop (Z.to_nat n) all) / Z.to_nat page < length ws)%nat ->
  follow r ws = Some (drop (Z.to_nat n) all).
Proof.
  revert r n. induction ws as [|w ws IH]; intros r n Hn Ho Ht Hq Hall page Hp Hf; [simpl in Hf; lia|]. cbn [follow].
  rewrite (query_at r w n Hn Ho). rewrite Ht, Hq, (Hall w (or_introl eq_refl)).
  fold page. replace (Z.max 1 (Z.min page 500)) with page by lia. cbn [snd].
  assert (Z.of_nat (Z.to_nat page) = page) as Hk0 by lia. set (k := Z.to_nat page) in *.
  destruct (Z.eqb_spec (Z.of_nat (length (take k (drop (Z.to_nat n) all)))) page) as [E|E].
  - rewrite nonempty_str by lia.
    assert (k <= length (drop (Z.to_nat n) all))%nat as Hk by (rewrite length_take in E; lia).
    specialize (IH (at_token (py_str_Z (n + page)) r) (n + page) ltac:(lia) (page_offset_str (n + page) ltac:(lia))
                  Ht Hq (fun w Hw => Hall w (or_intror Hw))). cbv zeta in IH.
    change (or_int (q_page_size (at_token (py_str_Z (n + page)) r)) 100) with page in IH. fold k in IH.
    assert (drop (Z.to_nat (n + page)) all = drop k (drop (Z.to_nat n) all)) as Ed
      by (rewrite drop_drop; f_equal; unfold k; lia).
    rewrite Ed in IH. rewrite IH; [simpl; f_equal; apply take_drop | done|].
    rewrite length_drop. cbn [length] in Hf.
    replace (length (drop (Z.to_nat n) all)) with (length (drop (Z.to_nat n) all) - k + 1 * k)%nat in Hf by lia.
    rewrite Nat.div_add in Hf by lia. lia.
  - simpl. f_equal. apply firstn_all2. rewrite length_take in E. lia.
Qed.

(** Above 500 the page is never full and the cursor ends. *)
Lemma follow_truncated r w ws :
  q_page_token r = "" -> 500 < q_page_size r -> tenant_of (q_tenant r) = tenant -> query_filter r = f ->
  matching tenant f (w_db w) = all -> follow r (w :: ws) = Some (take 500 all).
Proof.
  intros Ht Hp Htn Hq Hall. cbn [follow].
  assert (page_offset (q_page_token r) = Ok 0) as Ho by (by rewrite Ht).
  rewrite (query_at r w 0 ltac:(lia) Ho), Htn, Hq, Hall. unfold or_int. destruct (Z.eqb_spec (q_page_size r) 0); [lia|].
  replace (Z.max 1 (Z.min (q_page_size r) 500)) with 500 by lia. rewrite drop_0. cbn [snd].
  change (Z.to_nat 500) with 500%nat.
  match goal with |- context [?x =? q_page_size r] => destruct (Z.eqb_spec x (q_page_size r)) as [E|E] end; [|done].
  rewrite length_take in E. lia.
Qed.
End Follow.

Definition any_query (page_size : Z) : QueryRequest := mkQuery "" "" 0 "" "" "" "" None page_size "" None.

(** C34. Following the Query cursor.  Take the worlds of the successive calls, with
    the same selected rows in all of them, in any physical order, and no two of
    these rows with one creation time.  With a page size of at most 500 (0 stands
    for 100) the pages, concatenated until the token is empty, are exactly the rows
    the filter selects, each once, newest first, and the cursor ends after one
    call more than the pages they fill; with a larger page size the service caps
    the page at 500, the page never counts as full, and the client ends with only
    the first 500 rows however many match. *)
Theorem query_cursor r w ws :
  let rows w := selected (tenant_of (q_tenant r)) (query_filter r) (w_db w) in
  let all := matching (tenant_of (q_tenant r)) (query_filter r) (w_db w) in
  q_page_token r = "" -> 0 <= q_page_size r ->
  (forall w', In w' ws -> Permutation (rows w') (rows w)) ->
  List.NoDup (map (fun a : AnyJob => c_created_at a) (rows w)) ->
  (q_page_size r <= 500 -> (length all / Z.to_nat (or_int (q_page_size r) 100) <= length ws)%nat ->
     follow r (w :: ws) = Some all)
  /\ (500 < q_page_size r -> follow r (w :: ws) = Some (take 500 all)).
Proof.
  intros rows all Ht H0 Hp Hn. split; intros Hs; [intros Hf|by eapply follow_truncated].
  pose proof (follow_from _ _ all (w :: ws) r 0 ltac:(lia) ltac:(by rewrite Ht) eq_refl eq_refl) as H.
  rewrite drop_0 in H. apply H; [|unfold or_int; destruct (q_page_size r =? 0) eqn:E; lia | cbn [length]; lia].
  intros w' [<-|Hw]; [done|]. by apply matching_same; [apply Hp|].
Qed.

(** Two jobs of one context, the second submitted a second later. *)
Definition paged_world : World :=
  let w := fst (SubmitService.submit default_config [ctx_spec] world0) in
  fst (SubmitService.submit default_config [ctx_spec] (set_w_db (set_db_now 1000000 (w_db w)) w)).
Definition shuffled (w : World) : World := set_w_db (set_db_jobs (rev (db_jobs (w_db w))) (w_db w)) w.

Lemma query_cursor_witness :
  follow (any_query 1) [paged_world; shuffled paged_world; paged_world]
    = Some (matching "default" (query_filter (any_query 1)) (w_db paged_world))
  /\ length (matching "default" (query_filter (any_query 1)) (w_db paged_world)) = 2%nat
  /\ follow (any_query 1000) [paged_world]
     = Some (take 500 (matching "default" (query_filter (any_query 1000)) (w_db paged_world))).
Proof.
  assert (forall n, List.NoDup (map (fun a : AnyJob => c_created_at a)
            (selected (tenant_of (q_tenant (any_query n))) (query_filter (any_query n)) (w_db paged_world)))) as Hn.
  { intros n. vm_compute. repeat constructor; simpl; intuition discriminate. }
  split_and!; [|vm_compute; reflexivity|].
  - destruct (query_cursor (any_query 1) paged_world [shuffled paged_world; paged_world]) as [H _];
      [reflexivity | vm_compute; discriminate | | apply Hn |].
    + intros w' [<-|[<-|[]]]; [|reflexivity]. vm_compute. apply perm_swap.
    + apply H; [vm_compute; discriminate|]. apply Nat.leb_le. vm_compute. reflexivity.
  - destruct (query_cursor (any_query 1000) paged_world []) as [_ H];
      [reflexivity | vm_compute; discriminate | intros w' [] | apply Hn |].
    apply H. reflexivity.
Defined.

(** Rows of one batch share their creation time, and nothing breaks the tie: read in
    another physical order, the second page repeats the first and a job is lost. *)
Example batch_rows_page_badly :
  option_map (map wj_id) (follow (any_query 1)
    (let w := fst (SubmitService.submit default_config [ctx_spec; ctx_spec] world0) in [w; shuffled w; w]))
  = Some [1%N; 1%N].
Proof. vm_compute. reflexivity. Qed.

(** ** AwaitJob *)

(** The loop sleeps half a second between polls. *)
Fixpoint spaced (t : Z) (polls : list (World * Z)) : Prop :=
  match polls with
  | [] => True
  | (_, now) :: rest => t <= now /\ spaced (now + poll_interval_ms) rest
  end.

(** An answer that ends the loop at [now]. *)
Definition ends_await (deadline now : Z) (r : reply Wire.Job) : Prop :=
  match r with Reply j => 5 <= wj_state j \/ deadline <= now | _ => True end.

Lemma terminal_on_wire s : is_terminal s = true <-> 5 <= state_to_proto s.
Proof. destruct s; simpl; split; (done || lia). Qed.

(** One poll: the answer of GetJob ends the loop, or the loop goes on. *)
Lemma await_poll tenant i deadline w now rest :
  (ends_await deadline now (snd (GetJob tenant i w))
   /\ await_polls tenant i deadline ((w, now) :: rest) = Some (snd (GetJob tenant i w)))
  \/ (~ ends_await deadline now (snd (GetJob tenant i w)) /\ now < deadline
      /\ await_polls tenant i deadline ((w, now) :: rest) = await_polls tenant i deadline rest).
Proof.
  cbn [await_polls]. unfold GetJob, rpc. unfold mbind, M_bind, M_bind_def.
  destruct (SubmitService.get_job i (tenant_of tenant) w) as [w' [row|e]]; cbn [snd].
  - unfold mret, M_ret, M_ret_def. cbn [snd]. unfold ends_await. cbn [_job_from_row wj_state].
    destruct (is_terminal (repo.jr_state row)) eqn:Ht; cbn [orb].
    + left. split; [left; by apply terminal_on_wire | done].
    + assert (~ 5 <= state_to_proto (repo.jr_state row)) by (rewrite <- terminal_on_wire; congruence).
      destruct (Z.leb_spec deadline now); [left | right]; (split; [lia|]); [done|]. by split.
  - left. by destruct e.
Qed.

Lemma await_within tenant i deadline polls : forall t,
  spaced t polls -> deadline <= t + 500 * (Z.of_nat (length polls) - 1) -> polls <> [] ->
  exists k w now, polls !! k = Some (w, now)
    /\ await_polls tenant i deadline polls = Some (snd (GetJob tenant i w))
    /\ ends_await deadline now (snd (GetJob tenant i w))
    /\ (forall k' w' now', (k' < k)%nat -> polls !! k' = Some (w', now') ->
          ~ ends_await deadline now' (snd (GetJob tenant i w'))).
Proof.
  induction polls as [|[w now] rest IH]; intros t Hs Hd Hne; [done|].
  destruct (await_poll tenant i deadline w now rest) as [[He Ha]|(He & Hlt & Ha)].
  - exists O, w, now. split_and!; [done..|]. intros; lia.
  - destruct Hs as [Ht Hs]. destruct rest as [|p rest]; [simpl in Hd; lia|].
    destruct (IH (now + 500) Hs) as (k & w1 & now1 & Hk & Hp & Hen & Hmin); [|done|].
    { cbn [length] in *. lia. }
    exists (S k), w1, now1. split_and!; [done | by rewrite Ha | done|].
    intros [|k'] w' now' Hlt' Hk'; [by simplify_eq/=|]. apply (Hmin k'); [lia | done].
Qed.

(** C35. AwaitJob returns within its timeout: whatever the deployment does between
    polls spaced by the half-second sleep, after one poll more than two per
    second of the timeout (30 s when unset) it has answered with what GetJob
    answers at the first poll that finds an error, a terminal job, or the
    deadline passed. *)
Theorem await_job_returns tenant i timeout_s start polls :
  0 <= timeout_s -> spaced start polls -> 2 * or_int timeout_s 30 < Z.of_nat (length polls) ->
  exists k w now, polls !! k = Some (w, now)
    /\ AwaitJob tenant i timeout_s start polls = Some (snd (GetJob tenant i w))
    /\ ends_await (start + 1000 * or_int timeout_s 30) now (snd (GetJob tenant i w))
    /\ (forall k' w' now', (k' < k)%nat -> polls !! k' = Some (w', now') ->
          ~ ends_await (start + 1000 * or_int timeout_s 30) now' (snd (GetJob tenant i w'))).
Proof.
  intros H0 Hs Hl. apply (await_within _ _ _ _ start); [done | lia|]. intros ->. simpl in Hl.
  unfold or_int in Hl. destruct (timeout_s =? 0) eqn:E; lia.
Qed.

Lemma await_job_returns_witness :
  let polls := [(ctx_world, 0); (ctx_world, 500); (ctx_world, 1000)] in
  AwaitJob "" (Some 2%N) 1 0 polls = Some (snd (GetJob "" (Some 2%N) ctx_world))
  /\ exists j, snd (GetJob "" (Some 2%N) ctx_world) = Reply j /\ wj_state j = 2.
Proof.
  destruct (await_job_returns "" (Some 2%N) 1 0 [(ctx_world, 0); (ctx_world, 500); (ctx_world, 1000)])
    as (k & w & now & Hk & Ha & _); [lia | vm_compute; intuition discriminate | vm_compute; reflexivity |].
  split; [|eexists; split; [vm_compute; reflexivity | reflexivity]].
  destruct k as [|[|[|k]]]; simpl in Hk; inversion Hk; subst; exact Ha.
Defined.

(** ** Well-formed replies *)

(** A Job message of tenant [t]: a declared state, finished exactly when terminal. *)
Definition job_typed (t : string) (j : Wire.Job) : Prop :=
  wj_tenant j = t /\ is_Some (wj_created_at j)
  /\ exists s, proto_to_state (wj_state j) = Some s /\ (is_terminal s = true <-> is_Some (wj_finished_at j)).

Lemma row_typed w a : reachable w -> In a (jobs_all (w_db w)) ->
  is_terminal (al_final_state a) = true <-> is_Some (al_finished_at a).
Proof.
  intros Hr%reachable_wf_db Ha. unfold jobs_all in Ha. rewrite in_app_iff, !in_map_iff in Ha.
  destruct Ha as [(j & <- & Hj)|(x & <- & Hx)]; simpl.
  - pose proof (wf_rows _ _ _ (wf_j _ Hr)) as H. rewrite List.Forall_forall in H.
    pose proof (row_live _ (H j Hj)) as Hl. rewrite live_xor_terminal in Hl. apply negb_true_iff in Hl.
    split; [congruence | by intros [? ?]].
  - pose proof (wf_archive _ _ _ (wf_j _ Hr)) as H. rewrite List.Forall_forall in H.
    destruct (H x Hx) as [Ht _]. split; [eauto | done].
Qed.

Lemma all_ids_nodup w : reachable w -> List.NoDup (map (fun a : AnyJob => c_id a) (jobs_all (w_db w))).
Proof.
  intros Hr%reachable_wf_db. pose proof (wf_ids _ _ _ (wf_j _ Hr)) as H. unfold jobs_all. rewrite map_app, !map_map. exact H.
Qed.

Lemma nodup_map_sel {A B} (f : A -> B) p l : List.NoDup (map f l) -> List.NoDup (map f (sel p l)).
Proof.
  induction l as [|x l IH]; simpl; [done|]. intros H. inversion_clear H as [|? ? Hn Hl].
  destruct (p x); simpl; [constructor|]; auto. rewrite in_map_iff in *. intros (y & E & [Hy _]%in_sel). eauto.
Qed.

Lemma nodup_take {A} n (l : list A) : List.NoDup l -> List.NoDup (take n l).
Proof. intros H. rewrite <- (take_drop n l) in H. by apply List.NoDup_app_remove_r in H. Qed.

Lemma nodup_drop {A} n (l : list A) : List.NoDup l -> List.NoDup (drop n l).
Proof. intros H. rewrite <- (take_drop n l) in H. by apply List.NoDup_app_remove_l in H. Qed.

Lemma list_rows t f lim off w : reachable w ->
  let rows := sql_list_jobs t f lim off (w_db w) in
  List.NoDup (map (fun a : AnyJob => c_id a) rows)
  /\ forall a, In a rows -> In a (jobs_all (w_db w)) /\ c_tenant a = t.
Proof.
  intros Hr rows. unfold rows, sql_list_jobs, limit. split.
  - rewrite <- firstn_map, <- skipn_map. apply nodup_take, nodup_drop.
    eapply Permutation_NoDup; [symmetry; apply Permutation_map, order_by_perm|]. apply nodup_map_sel, all_ids_nodup, Hr.
  - intros a Ha. apply list_elem_of_In, elem_of_take in Ha as (k & Hk & _). apply list_elem_of_lookup_2 in Hk.
    apply list_elem_of_In in Hk.
    assert (In a (order_by (fun a b : AnyJob => c_created_at b <=? c_created_at a) (sel (list_match t f) (jobs_all (w_db w))))) as Hin.
    { rewrite <- (take_drop (Z.to_nat off) (order_by _ _)), in_app_iff. by right. }
    eapply Permutation_in in Hin; [|apply order_by_perm]. apply in_sel in Hin as [Hin Hm]. split; [done|].
    unfold list_match in Hm. repeat (apply andb_prop in Hm as [Hm _]). by apply String.eqb_eq.
Qed.

Lemma query_page r w w1 jobs token : Query r w = (w1, Reply (jobs, token)) ->
  exists lim off, jobs = map (fun a => _job_from_list_item (list_item a))
                          (sql_list_jobs (tenant_of (q_tenant r)) (query_filter r) lim off (w_db w)).
Proof.
  unfold Query. destruct (page_offset (q_page_token r)) as [n|]; [|done]. unfold bare, mbind, M_bind, M_bind_def.
  rewrite query_jobs_result. intros H. injection H as _ <- _. do 2 eexists. by rewrite map_map.
Qed.

(** C36. Replies are well typed: in every reachable world, whatever the filter,
    page and token, the jobs of a Query page are distinct and of the request's
    tenant, and like the job GetJob returns each carries a creation time, one of
    the seven declared states, never UNSPECIFIED, and a finish time exactly when
    that state is terminal. *)
Theorem replies_well_typed r tenant i w w1 w2 jobs token j :
  reachable w ->
  Query r w = (w1, Reply (jobs, token)) -> GetJob tenant i w = (w2, Reply j) ->
  List.NoDup (map wj_id jobs) /\ List.Forall (job_typed (tenant_of (q_tenant r))) jobs
  /\ job_typed (tenant_of tenant) j.
Proof.
  intros Hr Hq Hg. destruct (query_page _ _ _ _ _ Hq) as (lim & off & ->).
  destruct (list_rows (tenant_of (q_tenant r)) (query_filter r) lim off w Hr) as [Hnd Hin]. split_and!.
  - by rewrite map_map.
  - apply List.Forall_forall. intros x. rewrite in_map_iff. intros (a & <- & Ha).
    destruct (Hin a Ha) as [Hall Ht]. split_and!; [done | by eexists|]. exists (al_final_state a).
    split; [apply proto_state_inverse | by apply (row_typed w)].
  - unfold GetJob, rpc in Hg. destruct i as [i|]; [|done]. unfold mbind, M_bind, M_bind_def in Hg.
    unfold SubmitService.get_job in Hg. unfold mbind, M_bind, M_bind_def, on_db in Hg. simpl in Hg.
    destruct (sql_get_job i (tenant_of tenant) (w_db w)) as [a|] eqn:Ea; [|done]. injection Hg as _ <-.
    unfold sql_get_job in Ea. apply find_some in Ea as [Hall Ht%andb_prop]. destruct Ht as [_ Ht%String.eqb_eq].
    split_and!; [done | by eexists|]. exists (al_final_state a).
    split; [apply proto_state_inverse | by apply (row_typed w)].
Qed.

Lemma replies_well_typed_witness :
  exists jobs token j, snd (Query (any_query 10) ctx_world) = Reply (jobs, token)
    /\ snd (GetJob "" (Some 1%N) ctx_world) = Reply j
    /\ List.NoDup (map wj_id jobs) /\ job_typed "default" j.
Proof.
  assert (reachable ctx_world) as Hr
    by (eapply reach_step; [eapply reach_step; [apply world0_reachable | apply step_run, run_submit] | apply step_run, run_cancel]).
  destruct (Query (any_query 10) ctx_world) as [w1 [[jobs token]| |]] eqn:Eq; [|vm_compute in Eq; discriminate..].
  destruct (GetJob "" (Some 1%N) ctx_world) as [w2 [j| |]] eqn:Eg; [|vm_compute in Eg; discriminate..].
  destruct (replies_well_typed (any_query 10) "" (Some 1%N) ctx_world w1 w2 jobs token j Hr Eq Eg) as (H1 & _ & H3).
  exists jobs, token, j. split_and!; [reflexivity | reflexivity | exact H1 | exact H3].
Defined.
