(* ===== verification/TenantProps.v ===== *)
(** * Tenants behind the transports

    Over HTTP a tenant sees its own rows only and another tenant's job is not
    found; over gRPC the worker calls that fix the tenant to "default" do not
    serve the jobs of other tenants. *)

From S2P Require Import Prelude PyStr Errors States Json JsonLoads Records Database Queries Tables Claim.
From S2P Require Import Invariant Steps ClaimFacts Repository RepoFacts World RateLimiter RegistryService.
From S2P Require Import JobService SubmitService QueryService EventStream FanOutService SignalService CancelService.
From S2P Require Import Matcher Loops Engine Exec Lifecycle Config Auth Wire ClientService WorkerService HttpServer.
From S2P Require Import SignalProps.
From Stdlib Require Import ZArith.
Open Scope string_scope.
Open Scope Z_scope.
Open Scope list_scope.

(** ** Selections *)

Lemma sel_conj {A} (p q : A -> bool) l : sel (fun x => p x && q x) l = sel q (sel p l).
Proof. induction l as [|x l IH]; [done|]. simpl. destruct (p x); simpl; [destruct (q x); congruence | done]. Qed.

Lemma find_conj {A} (p q : A -> bool) l : List.find (fun x => q x && p x) l = List.find q (sel p l).
Proof.
  induction l as [|x l IH]; [done|]. simpl. destruct (p x); simpl; [rewrite andb_true_r; destruct (q x); [done|exact IH]|].
  by rewrite andb_false_r.
Qed.

Lemma existsb_conj {A} (p q : A -> bool) l : existsb (fun x => q x && p x) l = existsb q (sel p l).
Proof.
  induction l as [|x l IH]; [done|]. simpl. destruct (p x); simpl; [by rewrite andb_true_r, IH|].
  by rewrite andb_false_r.
Qed.

(** ** What a tenant can see *)

Definition row_of (t : string) (a : AnyJob) : bool := String.eqb (c_tenant a) t.
Definition live_row_of (t : string) (j : Records.Job) : bool := String.eqb (c_tenant j) t.

(** Both ends of an edge are jobs of the tenant. *)
Definition edge_of (t : string) (db : DB) (d : Dependency) : bool :=
  existsb (fun a : AnyJob => N.eqb (c_id a) (d_depends_on_job_id d) && row_of t a) (jobs_all db)
  && existsb (fun a : AnyJob => N.eqb (c_id a) (d_job_id d) && row_of t a) (jobs_all db).

(** Two worlds agree on everything of tenant [t], on the time, and on the table of
    workers, which belongs to no tenant. *)
Record same_view (t : string) (w1 w2 : World) : Prop := mkView {
  sv_now : db_now (w_db w1) = db_now (w_db w2);
  sv_live : sel (live_row_of t) (db_jobs (w_db w1)) = sel (live_row_of t) (db_jobs (w_db w2));
  sv_rows : sel (row_of t) (jobs_all (w_db w1)) = sel (row_of t) (jobs_all (w_db w2));
  sv_events : sel (fun e => String.eqb (ev_tenant e) t) (db_events (w_db w1))
            = sel (fun e => String.eqb (ev_tenant e) t) (db_events (w_db w2));
  sv_cron : sel (fun s => String.eqb (cr_tenant s) t) (db_cron_schedules (w_db w1))
          = sel (fun s => String.eqb (cr_tenant s) t) (db_cron_schedules (w_db w2));
  sv_edges : sel (edge_of t (w_db w1)) (db_deps (w_db w1)) = sel (edge_of t (w_db w2)) (db_deps (w_db w2));
  sv_workers : db_workers (w_db w1) = db_workers (w_db w2);
  sv_saved : forall i, sql_checkpoint_get i t (w_db w1) = sql_checkpoint_get i t (w_db w2);
  sv_cached : forall i, snd (CheckpointService._redis_get t i w1) = snd (CheckpointService._redis_get t i w2)
}.

(** The read endpoints under /v1 that answer with one body. *)
Definition tenant_read (c : HttpServer.Call) : bool :=
  match c with
  | HttpServer.CallGetJob _ | HttpServer.CallListJobs _ | HttpServer.CallBoard | HttpServer.CallQueues
  | HttpServer.CallWorkers | HttpServer.CallListCron | HttpServer.CallEvents _ | HttpServer.CallTree _ | HttpServer.CallCheckpoint _ => true
  | _ => false
  end.

Section View.
Context (t : string) (w1 w2 : World) (V : same_view t w1 w2).

Lemma view_get_job i : sql_get_job i t (w_db w1) = sql_get_job i t (w_db w2).
Proof. unfold sql_get_job. rewrite !(find_conj (row_of t)). by rewrite (sv_rows _ _ _ V). Qed.

Lemma list_match_split f a : list_match t f a = row_of t a && list_match (c_tenant a) f a.
Proof.
  unfold list_match, row_of. destruct (String.eqb_spec (c_tenant a) t) as [->|]; [|done].
  by rewrite String.eqb_refl.
Qed.

Lemma sel_ext {A} (p q : A -> bool) l : (forall x, p x = q x) -> sel p l = sel q l.
Proof. intros H. induction l as [|x l IH]; simpl; [done|]. by rewrite H, IH. Qed.

Lemma view_list f lim off : sql_list_jobs t f lim off (w_db w1) = sql_list_jobs t f lim off (w_db w2).
Proof.
  unfold sql_list_jobs. do 3 f_equal. rewrite !(sel_ext _ _ _ (list_match_split f)), !sel_conj.
  by rewrite (sv_rows _ _ _ V).
Qed.

Lemma view_board : sql_stats_board t (w_db w1) = sql_stats_board t (w_db w2).
Proof.
  unfold sql_stats_board. f_equal. apply map_ext. intros s. unfold count. do 3 f_equal.
  rewrite !(sel_conj (row_of t)). by rewrite (sv_rows _ _ _ V).
Qed.

Lemma view_queues : sql_stats_queues t (w_db w1) = sql_stats_queues t (w_db w2).
Proof.
  unfold sql_stats_queues. rewrite !(sel_conj (live_row_of t)), (sv_live _ _ _ V), (sv_now _ _ _ V). done.
Qed.

Lemma view_events i : sql_job_events i t (w_db w1) = sql_job_events i t (w_db w2).
Proof.
  unfold sql_job_events. f_equal.
  rewrite !(sel_ext (fun e => N.eqb (ev_job_id e) i && String.eqb (ev_tenant e) t)
              (fun e => String.eqb (ev_tenant e) t && N.eqb (ev_job_id e) i)) by (intros; apply andb_comm).
  rewrite !(sel_conj (fun e => String.eqb (ev_tenant e) t)). by rewrite (sv_events _ _ _ V).
Qed.

Lemma view_workers : sql_list_workers (w_db w1) = sql_list_workers (w_db w2).
Proof. unfold sql_list_workers. by rewrite (sv_workers _ _ _ V). Qed.

Lemma view_cron : sql_list_cron t (w_db w1) = sql_list_cron t (w_db w2).
Proof. unfold sql_list_cron. by rewrite (sv_cron _ _ _ V). Qed.

(** An edge of a context has both ends in the tenant. *)
Lemma in_ctx_split c db i :
  existsb (fun a : AnyJob => N.eqb (c_id a) i && String.eqb (c_tenant a) t && sql_eq (c_ctx_id a) (Some c)) (jobs_all db)
  = existsb (fun a : AnyJob => N.eqb (c_id a) i && sql_eq (c_ctx_id a) (Some c)) (sel (row_of t) (jobs_all db)).
Proof.
  rewrite <- existsb_conj. induction (jobs_all db) as [|a l IH]; [done|]. simpl. rewrite IH. unfold row_of.
  by destruct (N.eqb _ _), (String.eqb _ _), (sql_eq _ _).
Qed.

Lemma in_ctx_edge c db d :
  existsb (fun a : AnyJob => N.eqb (c_id a) (d_depends_on_job_id d) && String.eqb (c_tenant a) t && sql_eq (c_ctx_id a) (Some c)) (jobs_all db)
  && existsb (fun a : AnyJob => N.eqb (c_id a) (d_job_id d) && String.eqb (c_tenant a) t && sql_eq (c_ctx_id a) (Some c)) (jobs_all db)
  = true -> edge_of t db d = true.
Proof.
  unfold edge_of. rewrite !andb_true_iff, !existsb_exists. intros [(x & Hx & Ex) (y & Hy & Ey)].
  split; [exists x | exists y]; (split; [done|]); apply andb_prop in Ex as [? ?], Ey as [? ?]; done.
Qed.

Lemma view_tree c : sql_job_tree_edges t c (w_db w1) = sql_job_tree_edges t c (w_db w2).
Proof.
  unfold sql_job_tree_edges. set (p := fun db (d : Dependency) =>
    existsb (fun a : AnyJob => N.eqb (c_id a) (d_depends_on_job_id d) && sql_eq (c_ctx_id a) (Some c)) (sel (row_of t) (jobs_all db))
    && existsb (fun a : AnyJob => N.eqb (c_id a) (d_job_id d) && sql_eq (c_ctx_id a) (Some c)) (sel (row_of t) (jobs_all db))).
  assert (forall db, sel (fun d =>
      existsb (fun a : AnyJob => N.eqb (c_id a) (d_depends_on_job_id d) && String.eqb (c_tenant a) t && sql_eq (c_ctx_id a) (Some c)) (jobs_all db)
      && existsb (fun a : AnyJob => N.eqb (c_id a) (d_job_id d) && String.eqb (c_tenant a) t && sql_eq (c_ctx_id a) (Some c)) (jobs_all db))
      (db_deps db) = sel (p db) (sel (edge_of t db) (db_deps db))) as H.
  { intros db. rewrite <- sel_conj. apply sel_ext. intros d. unfold p. rewrite <- !in_ctx_split.
    match goal with |- ?x = _ && ?x => destruct x eqn:E end; [|by rewrite andb_false_r].
    by rewrite (in_ctx_edge c db d E). }
  rewrite !H, (sv_edges _ _ _ V). unfold p. by rewrite (sv_rows _ _ _ V).
Qed.

Lemma view_checkpoint i : snd (CheckpointService.get i t w1) = snd (CheckpointService.get i t w2).
Proof.
  pose proof (sv_cached _ _ _ V i) as Hc. pose proof (sv_saved _ _ _ V i) as Hs.
  unfold CheckpointService.get, CheckpointService._redis_get in *. unfold mbind, M_bind, M_bind_def, gets, mret, M_ret, M_ret_def in *.
  simpl in *. injection Hc as Hc. rewrite Hc. destruct (match rl_redis (w_limiter w2) with Some _ => _ | None => _ end); [done|].
  simpl. by rewrite Hs.
Qed.
End View.

(** The outcome of a service call that only reads. *)
Lemma get_job_outcome i t w :
  SubmitService.get_job (Some i) t w
  = (w, match sql_get_job i t (w_db w) with
        | Some a => Ok (repo.job_row a)
        | None => Raise (err NotFound [("job_id", CtxId i); ("tenant", CtxStr t)])
        end).
Proof.
  unfold SubmitService.get_job. unfold mbind, M_bind, M_bind_def, on_db. simpl. rewrite set_w_db_id.
  by destruct (sql_get_job i t (w_db w)).
Qed.

Lemma checkpoint_get_outcome i t w : fst (CheckpointService.get i t w) = w.
Proof.
  unfold CheckpointService.get, CheckpointService._redis_get. unfold mbind, M_bind, M_bind_def, gets, mret, M_ret, M_ret_def. simpl.
  destruct (match rl_redis (w_limiter w) with Some _ => _ | None => _ end); [done|]. simpl. apply set_w_db_id.
Qed.

(** A read endpoint leaves the world alone and answers from the view. *)
Lemma endpoint_view v cfg lk p c w1 w2 :
  tenant_read c = true -> same_view (p_tenant p) w1 w2 ->
  fst (HttpServer.endpoint v cfg lk p c w1) = w1
  /\ snd (HttpServer.endpoint v cfg lk p c w1) = snd (HttpServer.endpoint v cfg lk p c w2).
Proof.
  intros Hc V. destruct c as [| | | | |i|q| | | | | | | |i|i|i| |]; try done; cbn [HttpServer.endpoint].
  - unfold HttpServer.get_job. destruct i as [i|]; [|done]. unfold mbind, M_bind, M_bind_def.
    rewrite !get_job_outcome, (view_get_job _ _ _ V). by destruct (sql_get_job _ _ _).
  - unfold HttpServer.list_jobs, QueryService.jobs. unfold mbind, M_bind, M_bind_def, on_db. simpl.
    by rewrite (view_list _ _ _ V), set_w_db_id.
  - unfold HttpServer.stats_board, QueryService.board. unfold mbind, M_bind, M_bind_def, on_db. simpl.
    by rewrite (view_board _ _ _ V), set_w_db_id.
  - unfold HttpServer.stats_queues, QueryService.queues. unfold mbind, M_bind, M_bind_def, on_db. simpl.
    by rewrite (view_queues _ _ _ V), set_w_db_id.
  - unfold HttpServer.list_workers, QueryService.workers. unfold mbind, M_bind, M_bind_def, on_db. simpl.
    by rewrite (view_workers _ _ _ V), set_w_db_id.
  - unfold HttpServer.list_cron, QueryService.cron. unfold mbind, M_bind, M_bind_def, on_db. simpl.
    by rewrite (view_cron _ _ _ V), set_w_db_id.
  - unfold HttpServer.job_events, QueryService.events. destruct i as [i|]; [|done].
    unfold mbind, M_bind, M_bind_def, on_db. simpl. by rewrite (view_events _ _ _ V), set_w_db_id.
  - unfold HttpServer.job_tree. destruct i as [i|]; [|done]. unfold mbind, M_bind, M_bind_def.
    rewrite !get_job_outcome, (view_get_job _ _ _ V). destruct (sql_get_job _ _ _) as [a|]; [|done].
    destruct (repo.jr_ctx_id (repo.job_row a)) as [c|]; [|done].
    unfold QueryService.tree, on_db. simpl. by rewrite (view_tree _ _ _ V), set_w_db_id.
  - unfold HttpServer.job_checkpoint. destruct i as [i|]; [|done]. unfold mbind, M_bind, M_bind_def.
    rewrite !get_job_outcome, (view_get_job _ _ _ V). destruct (sql_get_job _ _ _) as [a|]; [|done].
    pose proof (view_checkpoint _ _ _ V (repo.jr_id (repo.job_row a))) as Hv.
    pose proof (checkpoint_get_outcome (repo.jr_id (repo.job_row a)) (p_tenant p) w1) as H1.
    destruct (CheckpointService.get _ _ w1) as [w1' r1], (CheckpointService.get _ _ w2) as [w2' r2]. simpl in *. subst.
    by destruct r2.
Qed.

(** ** The event stream *)

Definition subscribers_of (t : string) (s : EventStream.Stream) : list EventStream.Subscriber :=
  sel (fun x => String.eqb (EventStream.sub_tenant x) t) (EventStream.es_subscribers s).

Lemma fan_out_other t row subs : ev_tenant row <> t ->
  sel (fun x => String.eqb (EventStream.sub_tenant x) t) (EventStream._fan_out row subs)
  = sel (fun x => String.eqb (EventStream.sub_tenant x) t) subs.
Proof.
  intros Hne. unfold EventStream._fan_out. induction subs as [|x subs IH]; [done|]. cbn [map List.filter].
  destruct (String.eqb_spec (EventStream.sub_tenant x) (ev_tenant row)) as [E|E]; cbn [EventStream.sub_tenant].
  - destruct (String.eqb_spec (EventStream.sub_tenant x) t); [congruence | exact IH].
  - by destruct (String.eqb (EventStream.sub_tenant x) t); [f_equal|].
Qed.

Lemma poll_other t db s : t <> "default" -> subscribers_of t (EventStream._poll_once db s) = subscribers_of t s.
Proof.
  intros Ht. unfold EventStream._poll_once, subscribers_of. destruct (EventStream.es_subscribers s) as [|x l] eqn:Es; [done|].
  set (rows := EventStream.answer _ _ _). destruct (rev rows) as [|r0 rs]; [by rewrite Es|]. cbn [EventStream.es_subscribers].
  assert (List.Forall (fun e => ev_tenant e <> t) rows) as Hr.
  { apply List.Forall_forall. intros e He. unfold rows, EventStream.answer in He. simpl in He.
    unfold sql_events_since, limit in He. apply in_take, order_by_In, in_sel in He as [_ He]. bool_prop. congruence. }
  clear Es. revert Hr. generalize (x :: l). induction rows as [|e rows IH]; intros subs Hr; [done|]. simpl.
  inversion_clear Hr as [|? ? He Hr']. rewrite IH by done. by apply fan_out_other.
Qed.

Lemma poll_view t w1 w2 s : same_view t w1 w2 ->
  subscribers_of t (EventStream._poll_once (w_db w1) s) = subscribers_of t (EventStream._poll_once (w_db w2) s).
Proof.
  intros V. destruct (String.eqb_spec t "default") as [->|Hne]; [|by rewrite !poll_other].
  unfold EventStream._poll_once, subscribers_of. destruct (EventStream.es_subscribers s); [done|].
  assert (EventStream.answer [] (repo.events_since (EventStream.es_after_id s) "default" EventStream._BATCH) (w_db w1)
          = EventStream.answer [] (repo.events_since (EventStream.es_after_id s) "default" EventStream._BATCH) (w_db w2)) as ->;
    [|done].
  unfold EventStream.answer. simpl. unfold sql_events_since. do 2 f_equal.
  rewrite !(sel_ext (fun e => (_ <? ev_id e) && String.eqb (ev_tenant e) "default")
              (fun e => String.eqb (ev_tenant e) "default" && (EventStream.es_after_id s <? ev_id e)))
    by (intros; apply andb_comm).
  rewrite !(sel_conj (fun e => String.eqb (ev_tenant e) "default")). by rewrite (sv_events _ _ _ V).
Qed.

(** C30. Over HTTP a tenant's reads are isolated.  Take two worlds that agree on the
    rows of the authenticated tenant (its jobs, archive, events, edges, schedules,
    checkpoints), on the time and on the table of workers, which belongs to no
    tenant; whatever the other tenants' rows are, every GET under /v1 but the event
    stream gets the same response from both and changes neither, and a poll of the
    event stream sends the tenant's subscribers the same rows from both. *)
Theorem tenant_reads_isolated v cfg lk jwt auth r w1 w2 :
  tenant_read (HttpServer.rq_call r) = true ->
  (forall p, Authenticator.authenticate jwt auth (HttpServer.rq_authorization r) (HttpServer.rq_tenant_header r)
               (HttpServer.rq_client_host r) = Ok p -> same_view (p_tenant p) w1 w2) ->
  snd (HttpServer.http_auth_middleware v cfg lk jwt auth r w1) = snd (HttpServer.http_auth_middleware v cfg lk jwt auth r w2)
  /\ fst (HttpServer.http_auth_middleware v cfg lk jwt auth r w1) = w1
  /\ (forall p s, Authenticator.authenticate jwt auth (HttpServer.rq_authorization r) (HttpServer.rq_tenant_header r)
                    (HttpServer.rq_client_host r) = Ok p ->
        subscribers_of (p_tenant p) (EventStream._poll_once (w_db w1) s)
        = subscribers_of (p_tenant p) (EventStream._poll_once (w_db w2) s)).
Proof.
  intros Hc HV. match goal with |- ?A /\ ?B /\ ?C => cut ((A /\ B) /\ C); [tauto|] end. split; [|intros p s Hp; by apply poll_view, HV].
  unfold HttpServer.http_auth_middleware. destruct (negb _) eqn:Hp.
  { destruct r as [id [] ? ? ? ?]; simpl in *; done. }
  destruct (Authenticator.authenticate _ _ _ _ _) as [p|[]] eqn:Ha; try done.
  pose proof (endpoint_view v cfg lk p (HttpServer.rq_call r) w1 w2 Hc (HV p eq_refl)) as [H1 H2].
  unfold HttpServer.app, HttpServer.respond, HttpServer.require_principal, of_option. unfold mbind, M_bind, M_bind_def, mret, M_ret, M_ret_def.
  destruct (HttpServer.endpoint v cfg lk p (HttpServer.rq_call r) w1) as [w1' r1],
    (HttpServer.endpoint v cfg lk p (HttpServer.rq_call r) w2) as [w2' r2]. simpl in *. subst.
  destruct (HttpServer.rq_call r); try done; destruct r2 as [b|[e| | | | | | | |]]; try done; try (by destruct b);
    unfold HttpServer._symba_error_handler; repeat case_match; simplify_eq/=; done.
Qed.

Lemma no_row_no_resubmit i t db : sql_get_job i t db = None -> sql_resubmit i t db = (db, None).
Proof.
  unfold sql_get_job, sql_resubmit. intros Hn.
  assert (List.find (fun a : AnyJob => N.eqb (c_id a) i && String.eqb (c_tenant a) t
            && existsb (JobState_eqb (al_final_state a)) [DEAD; CANCELLED; SUCCEEDED]) (jobs_all db) = None) as ->; [|done].
  induction (jobs_all db) as [|a l IH]; [done|]. cbn [List.find] in *.
  destruct (N.eqb (c_id a) i && String.eqb (c_tenant a) t); [done|]. by apply IH.
Qed.

(** Another tenant's job is indistinguishable from one that does not exist:
    when no row of the caller's tenant has the id, reading, cancelling,
    resubmitting, its tree and its checkpoint all answer the same 404 that names
    only the id and the caller's tenant, and nothing changes. *)
Theorem foreign_job_is_not_found v cfg lk trace p i cascade w :
  sql_get_job i (p_tenant p) (w_db w) = None ->
  let not_found := HttpServer.Respond 404 None (HttpServer.ErrorBody (HttpServer.mkErrorDict 404 "not_found"
        "Unknown job, tenant, or task." trace [("job_id", CtxId i); ("tenant", CtxStr (p_tenant p))])) in
  forall c, c ∈ [HttpServer.CallGetJob (Some i); HttpServer.CallCancel (Some i) cascade; HttpServer.CallResubmit (Some i);
                 HttpServer.CallTree (Some i); HttpServer.CallCheckpoint (Some i)] ->
  HttpServer.app v cfg lk trace (Some p) c w = (w, not_found).
Proof.
  intros Hn nf c Hc.
  assert (SubmitService.get_job (Some i) (p_tenant p) w
          = (w, Raise (err NotFound [("job_id", CtxId i); ("tenant", CtxStr (p_tenant p))]))) as Hg
    by (by rewrite get_job_outcome, Hn).
  assert (ResubmitService.resubmit i (p_tenant p) w
          = (w, Raise (err NotFound [("job_id", CtxId i); ("tenant", CtxStr (p_tenant p))]))) as Hr.
  { unfold ResubmitService.resubmit. unfold mbind, M_bind, M_bind_def, on_db, repo.resubmit, stmt.
    rewrite (no_row_no_resubmit _ _ _ Hn). by rewrite set_w_db_id. }
  assert (forall m : EM HttpServer.Body, m w = (w, Raise (err NotFound [("job_id", CtxId i); ("tenant", CtxStr (p_tenant p))])) ->
    HttpServer.respond trace m w = (w, nf)) as Hresp by (intros m Hm; unfold HttpServer.respond; by rewrite Hm).
  rewrite !elem_of_cons in Hc. destruct Hc as [->|[->|[->|[->|[->|Hc]]]]]; [..|by apply not_elem_of_nil in Hc];
    unfold HttpServer.app; (rewrite Hresp; [done|]);
    unfold HttpServer.require_principal, of_option; unfold mbind, M_bind, M_bind_def, mret, M_ret, M_ret_def;
    cbn [HttpServer.endpoint];
    unfold HttpServer.get_job, HttpServer.cancel_job, HttpServer.resubmit_job, HttpServer.job_tree, HttpServer.job_checkpoint,
      HttpServer.uuid_arg; unfold mbind, M_bind, M_bind_def; cbn [of_option]; unfold mret, M_ret, M_ret_def; by rewrite ?Hg, ?Hr.
Qed.

(** ** Witnesses *)

(** [world1] and the same deployment after another tenant has submitted. *)
Definition acme_spec : SubmitSpec := set_s_tenant "acme" demo_spec.
Definition shared_world : World := fst (SubmitService.submit default_config [acme_spec] world1).
Definition board_request : HttpServer.Request :=
  HttpServer.mkRequest "" HttpServer.CallBoard None None (Some "127.0.0.1") None.

Lemma shared_view : same_view "default" world1 shared_world.
Proof. split; (intros; vm_compute; reflexivity). Qed.

Lemma tenant_reads_isolated_witness :
  let http := HttpServer.http_auth_middleware (fun _ => true) default_config no_locks (fun _ => inl "")
                Config.default_auth board_request in
  snd (http world1) = snd (http shared_world)
  /\ snd (http world1) = HttpServer.Respond 200 None (HttpServer.BoardBody [("queued", 1)]).
Proof.
  split; [|vm_compute; reflexivity].
  refine (proj1 (tenant_reads_isolated (fun _ => true) default_config no_locks (fun _ => inl "") Config.default_auth
           board_request world1 shared_world eq_refl _)).
  intros p Hp. vm_compute in Hp. inversion Hp; subst. exact shared_view.
Defined.

Lemma foreign_job_is_not_found_witness :
  let app := HttpServer.app (fun _ => true) default_config no_locks None (Some (mkPrincipal "acme" "acme" "token")) in
  fst (app (HttpServer.CallCancel (Some 1%N) true) world1) = world1
  /\ exists b, snd (app (HttpServer.CallCancel (Some 1%N) true) world1) = HttpServer.Respond 404 None b.
Proof.
  assert (sql_get_job 1 (p_tenant (mkPrincipal "acme" "acme" "token")) (w_db world1) = None) as Hn by (vm_compute; reflexivity).
  pose proof (foreign_job_is_not_found (fun _ => true) default_config no_locks None (mkPrincipal "acme" "acme" "token") 1
                true world1 Hn (HttpServer.CallCancel (Some 1%N) true)) as H.
  cbv zeta in H |- *. rewrite H; [split; [reflexivity | eexists; reflexivity] | set_solver].
Defined.

(** ** Worker calls fix the tenant to "default" *)

(** The Wait call looks for signals under the tenant "default" whatever the
    tenant of the waiting job is: a running job of another tenant parks although
    signals of its own tenant are pending on the key, and leaves them pending;
    and a signal pending for the tenant "default" on the same key is consumed and
    handed to it. *)
Theorem wait_ignores_job_tenant lk i l k n w j :
  wf (w_db w) -> In j (db_jobs (w_db w)) -> lease_guard i l j = true ->
  (pending_signal lk "default" k (w_db w) = None ->
     exists w1, WorkerService.Wait lk i l k n w = (w1, Reply (true, ""))
       /\ db_signals (w_db w1) = db_signals (w_db w)
       /\ exists j1, In j1 (db_jobs (w_db w1)) /\ c_id j1 = i /\ j_state j1 = WAITING)
  /\ (forall s, pending_signal lk "default" k (w_db w) = Some s ->
     exists w1, WorkerService.Wait lk i l k n w = (w1, Reply (false, dumps (JObj (default [] (sg_payload s)))))
       /\ db_signals (w_db w1) = update_where (fun r => N.eqb (sg_id r) (sg_id s))
                                  (set_sg_consumed_at (Some (db_now (w_db w)))) (db_signals (w_db w))).
Proof.
  intros Hwf Hj Hl. split.
  - intros Hp. destruct (wait_parks lk i l "default" k n w j Hwf Hj Hl Hp) as (w1 & E1 & Hjobs & _ & Hsig).
    exists w1. split_and!; [|done|].
    + unfold WorkerService.Wait, rpc. by rewrite (bind_ok _ _ _ _ _ E1).
    + exists (parked k n (db_now (w_db w)) j). split_and!.
      * rewrite Hjobs. unfold update_where. apply in_map_iff. exists j. by rewrite Hl.
      * unfold lease_guard in Hl. by repeat (apply andb_prop in Hl as [Hl ?]); apply N.eqb_eq.
      * done.
  - intros s Hp. destruct (wait_consumes lk i l "default" k n w s Hp) as (w1 & E1 & Hsig & _).
    exists w1. split; [|done]. unfold WorkerService.Wait, rpc. by rewrite (bind_ok _ _ _ _ _ E1).
Qed.

(** A running job of tenant acme with a signal of acme pending on its key. *)
Definition acme_world : World :=
  let w1 := fst (SubmitService.submit default_config [acme_spec] world0) in
  let w2 := fst (WorkerRegistry.register 0%nat demo_conn w1) in
  let w3 := fst (Dispatcher.pass_ no_locks default_config w2) in
  fst (SignalService.signal no_locks "acme" "go" None None w3).

Definition acme_job : Records.Job := Eval vm_compute in
  default (inserted_job (w_db world0) 0 acme_spec None) (head (db_jobs (w_db acme_world))).

Lemma acme_reachable : reachable acme_world.
Proof.
  eapply reach_step; [|apply step_run, run_signal]. eapply reach_step; [|apply step_run, run_dispatch].
  eapply reach_step; [|apply step_run, run_register]. eapply reach_step; [apply world0_reachable | apply step_run, run_submit].
Qed.

Lemma wait_ignores_job_tenant_witness :
  c_tenant acme_job = "acme" /\ (exists s, pending_signal no_locks "acme" "go" (w_db acme_world) = Some s)
  /\ exists w1, WorkerService.Wait no_locks 1 2 "go" 60 acme_world = (w1, Reply (true, "")).
Proof.
  assert (In acme_job (db_jobs (w_db acme_world))) as Hj.
  { assert (db_jobs (w_db acme_world) = [acme_job]) as -> by (vm_compute; reflexivity). left. reflexivity. }
  assert (lease_guard 1 2 acme_job = true) as Hl by (vm_compute; reflexivity).
  destruct (wait_ignores_job_tenant no_locks 1 2 "go" 60 acme_world acme_job (reachable_wf_db _ acme_reachable) Hj Hl) as [H _].
  split_and!; [reflexivity | eexists; vm_compute; reflexivity|].
  destruct H as (w1 & H & _); [vm_compute; reflexivity|]. exists w1. exact H.
Defined.
