(* ===== verification/WireProps.v ===== *)
(** * Encoding and decoding at the transports

    The gRPC and HTTP mirrors decode the same submission, and a checkpoint is
    read back. *)

From S2P Require Import Prelude PyStr Errors States Json JsonLoads JsonProps Records Database Queries Tables Claim.
From S2P Require Import Invariant Steps ClaimFacts Repository RepoFacts World RateLimiter RegistryService.
From S2P Require Import JobService SubmitService QueryService EventStream FanOutService SignalService CancelService.
From S2P Require Import Matcher Loops Engine Exec Lifecycle Config Auth Wire ClientService WorkerService AdminService HttpServer.
From Stdlib Require Import ZArith QArith.
Open Scope string_scope.
Open Scope Z_scope.
Open Scope list_scope.

(** ** JSON bodies *)

(** A value Python's [json] writes and reads as itself. *)
Definition wire_json (j : json) : Prop := json_ok j /\ floats_ascii j.

Lemma loads_bytes_dumps j : wire_json j -> loads_bytes (dumps j) = Ok j.
Proof.
  intros [Hok Hf]. unfold loads_bytes. rewrite utf8_ascii by (by apply ascii_dumps). by rewrite loads_dumps_ok.
Qed.

Lemma dumps_obj_nonempty d : nonempty (dumps (JObj d)) = true.
Proof. rewrite dumps_obj. done. Qed.

Lemma decode_bodies d : wire_json (JObj d) ->
  ClientService._decode_payload (dumps (JObj d)) = Ok d
  /\ WorkerService.decode_result (dumps (JObj d)) = Ok (Some d)
  /\ WorkerService.checkpoint_body (dumps (JObj d)) = Ok d
  /\ WorkerService._decode_error_metadata (dumps (JObj d)) = d.
Proof.
  intros H. unfold ClientService._decode_payload, WorkerService.decode_result, WorkerService.checkpoint_body,
    WorkerService._decode_error_metadata, WorkerService._decode_json.
  rewrite dumps_obj_nonempty, (loads_bytes_dumps _ H). simpl. split_and!; try done. by destruct d.
Qed.

Definition sample_body : dict :=
  [("id", JInt (-7)); ("name", JStr "caf"); ("tags", JArr [JNull; JBool true; JObj [("k", JStr "a b")]])].

(** ** The two mirrors *)

(** A submission of the HTTP mirror as an SDK writes it for gRPC. *)
Definition proto_of (dto : HttpServer.JobSpecDTO) : JobSpec :=
  mkJobSpec (HttpServer.d_task_name dto) (dumps (JObj (HttpServer.d_payload dto))) "" "" ""
    (default "" (HttpServer.d_group_key dto)) (default "" (HttpServer.d_dedup_key dto)) (HttpServer.d_runs_on dto)
    (default "" (HttpServer.d_rate_class dto)) (HttpServer.d_priority dto) (HttpServer.d_timeout_s dto)
    (HttpServer.d_lease_ttl_s dto) (Some (mkRetryPolicy (HttpServer.d_max_attempts dto) 1%Q 2%Q 300%Q true)) None
    (HttpServer.d_task_name dto
     :: match HttpServer.d_on_success dto with Some n => n :: HttpServer.d_chain_tail dto | None => [] end)
    [] None (default 0 (HttpServer.d_max_concurrent_per_group dto)).

(** A DTO protobuf can express: proto3 has no presence for these fields. *)
Record dto_ok (dto : HttpServer.JobSpecDTO) : Prop := mkDtoOk {
  ok_payload : wire_json (JObj (HttpServer.d_payload dto));
  ok_group : HttpServer.d_group_key dto <> Some "";
  ok_dedup : HttpServer.d_dedup_key dto <> Some "";
  ok_rate : HttpServer.d_rate_class dto <> Some "";
  ok_ceiling : HttpServer.d_max_concurrent_per_group dto <> Some 0;
  ok_attempts : HttpServer.d_max_attempts dto <> 0;
  ok_timeout : HttpServer.d_timeout_s dto <> 0;
  ok_ttl : HttpServer.d_lease_ttl_s dto <> 0;
  ok_chain : HttpServer.d_on_success dto = None -> HttpServer.d_chain_tail dto = []
}.

Lemma or_none_default o : o <> Some "" -> or_none (default "" o) = o.
Proof. destruct o as [[|c s]|]; done. Qed.

Lemma or_int_none_default o : o <> Some 0 -> or_int_none (default 0 o) = o.
Proof. destruct o as [[]|]; done. Qed.

Lemma or_int_neq n d : n <> 0 -> or_int n d = n.
Proof. intros H. unfold or_int. by destruct (Z.eqb_spec n 0). Qed.

Lemma spec_agrees t dto : dto_ok dto -> ClientService._spec_from_proto t (proto_of dto) = Ok (HttpServer._to_spec t dto).
Proof.
  intros [Hp Hg Hd Hr Hc Ha Ht Hl Hch].
  assert (ClientService.split_chain (HttpServer.d_task_name dto) (js_chain (proto_of dto))
          = (HttpServer.d_on_success dto, HttpServer.d_chain_tail dto)) as Es.
  { unfold ClientService.split_chain, proto_of. simpl. rewrite String.eqb_refl.
    destruct (HttpServer.d_on_success dto); [done|]. by rewrite Hch. }
  unfold ClientService._spec_from_proto, proto_of in *. cbn [js_task_name js_chain js_depends_on js_on_failure js_retry
    js_payload_json js_pipeline js_stage js_ctx_id js_priority js_group_key js_max_concurrent_per_group js_dedup_key
    js_runs_on js_rate_class js_timeout_s js_run_at js_lease_ttl_s rp_max_attempts] in *.
  rewrite Es. destruct (decode_bodies _ Hp) as [-> _].
  rewrite !or_none_default, or_int_none_default, !or_int_neq by done. done.
Qed.

Lemma specs_agree t dtos : Forall dto_ok dtos ->
  ClientService.specs_from_proto t (map proto_of dtos) = Ok (map (HttpServer._to_spec t) dtos).
Proof. induction 1 as [|dto l Hd _ IH]; [done|]. cbn [map ClientService.specs_from_proto]. by rewrite spec_agrees, IH. Qed.

(** C32. The gRPC Submit and its HTTP mirror are the same operation: for specs both
    can express, and the request's tenant equal to the credential's, they leave
    the same world, and the outcome is the same: the same ids and dedup flags, or
    the same engine error as its gRPC status and as its HTTP response. *)
Theorem submit_mirrors_agree v cfg lk trace tenant p dtos w :
  dtos <> [] -> Forall dto_ok dtos -> p_tenant p = ClientService.tenant_of tenant ->
  let grpc := ClientService.Submit cfg tenant (map proto_of dtos) w in
  let http := HttpServer.app v cfg lk trace (Some p) (HttpServer.CallSubmit dtos) w in
  fst grpc = fst http /\
  match snd grpc with
  | Reply (ids, dedup) => snd http = HttpServer.Respond 200 None (HttpServer.SubmitBody ids dedup)
  | Abort code text => exists e, code = grpc_code (err_class e) /\ text = Some (message e)
                         /\ snd http = HttpServer._symba_error_handler trace e
  | Crash e => snd http = HttpServer.ServerError e
  end.
Proof.
  intros Hne Hok Hp. cbv zeta. unfold ClientService.Submit. rewrite specs_agree by done.
  unfold HttpServer.app, HttpServer.respond, HttpServer.require_principal, HttpServer.endpoint, HttpServer.submit_jobs, of_option, rpc.
  unfold mbind, M_bind, M_bind_def, mret, M_ret, M_ret_def. rewrite Hp.
  destruct dtos as [|dto dtos]; [done|].
  destruct (SubmitService.submit cfg _ w) as [w' [o|[e| | | | | | | |]]]; try done. cbn [fst snd]. split.
  - unfold HttpServer._symba_error_handler. repeat case_match; simplify_eq/=; done.
  - exists e. split_and!; [done..|]. unfold HttpServer._symba_error_handler. repeat case_match; simplify_eq/=; done.
Qed.

Lemma submit_mirrors_agree_witness :
  let grpc := ClientService.Submit default_config "" (map proto_of [HttpServer.default_dto "resize" sample_body]) world0 in
  snd grpc = Reply ([1%N], [false])
  /\ snd (HttpServer.app (fun _ => true) default_config no_locks None (Some (mkPrincipal "default" "local" "none"))
            (HttpServer.CallSubmit [HttpServer.default_dto "resize" sample_body]) world0)
     = HttpServer.Respond 200 None (HttpServer.SubmitBody [1%N] [false]).
Proof.
  assert (Forall dto_ok [HttpServer.default_dto "resize" sample_body]) as Hok.
  { repeat constructor; try discriminate; simpl; try (repeat constructor; simpl; intuition discriminate); tauto. }
  pose proof (submit_mirrors_agree (fun _ => true) default_config no_locks None "" (mkPrincipal "default" "local" "none")
                [HttpServer.default_dto "resize" sample_body] world0 ltac:(discriminate) Hok eq_refl) as [_ H].
  cbv zeta in H |- *.
  assert (snd (ClientService.Submit default_config "" (map proto_of [HttpServer.default_dto "resize" sample_body]) world0)
          = Reply ([1%N], [false])) as E by (vm_compute; reflexivity).
  split; [exact E|]. rewrite E in H. exact H.
Defined.

(** ** Checkpoints *)

(** Redis starts or stops failing. *)
Definition set_redis_up (b : bool) (w : World) : World :=
  let l := w_limiter w in
  set_w_limiter (mkLimiter (match rl_redis l with
                            | Some r => Some (mkRedis b (rd_buckets r) (rd_checkpoints r) (rd_now r))
                            | None => None
                            end) (rl_cfg l) (rl_degraded l)) w.

Lemma checkpoint_put_outcome i t d w :
  storable (JObj d) = true ->
  let w1 := set_w_db (fst (sql_checkpoint_put i t (jsonb_members d) (w_db w))) w in
  CheckpointService.put i t d w
  = (if redis_up (w_limiter w)
     then set_w_limiter (CheckpointService.set_checkpoint_cache (CheckpointService._key t i) d (w_limiter w)) w1 else w1, Ok tt).
Proof.
  intros Hs w1. unfold CheckpointService.put, CheckpointService._redis_set, repo.checkpoint_put, jsonb_dict. rewrite Hs.
  unfold mbind, M_bind, M_bind_def, on_db. simpl.
  unfold gets. simpl. destruct (redis_up (w_limiter w)); done.
Qed.

(** What a read returns: the cached copy while Redis answers, else the row. *)
Lemma checkpoint_get_reply i w :
  snd (WorkerService.GetCheckpoint i w)
  = Reply (match (match rl_redis (w_limiter w) with
                  | Some r => if rd_up r then rd_checkpoints r !! CheckpointService._key "default" i else None
                  | None => None
                  end) with
           | Some d => (dumps (JObj d), true)
           | None => match sql_checkpoint_get i "default" (w_db w) with
                     | Some d => (dumps (JObj d), true)
                     | None => ("", false)
                     end
           end).
Proof.
  unfold WorkerService.GetCheckpoint, CheckpointService.get, CheckpointService._redis_get, bare.
  unfold mbind, M_bind, M_bind_def, gets, mret, M_ret, M_ret_def. simpl.
  destruct (match rl_redis (w_limiter w) with Some _ => _ | None => _ end); [done|]. simpl.
  by destruct (sql_checkpoint_get _ _ _).
Qed.

Lemma put_checkpoint_world i d w : wire_json (JObj d) -> storable (JObj d) = true ->
  WorkerService.PutCheckpoint i (dumps (JObj d)) w = (fst (CheckpointService.put i "default" d w), Reply true).
Proof.
  intros H Hs. unfold WorkerService.PutCheckpoint. destruct (decode_bodies d H) as (_ & _ & -> & _).
  unfold bare. unfold mbind, M_bind, M_bind_def. by rewrite checkpoint_put_outcome.
Qed.

Lemma saved_after_put i t d db : sql_checkpoint_get i t (fst (sql_checkpoint_put i t d db)) = Some d.
Proof. unfold sql_checkpoint_get. simpl. rewrite lookup_insert_eq. simpl. by rewrite String.eqb_refl. Qed.

(** A checkpoint is read back, unless Redis failed for the write only: in any
    state of the cache, GetCheckpoint after PutCheckpoint returns the object that
    was put, as it was written when Redis answers and in the key order of JSONB
    when it comes from Postgres; but when Redis holds an earlier checkpoint of the
    job, fails during the write and answers again, GetCheckpoint returns the
    earlier one although the newer one is saved in Postgres. *)
Theorem checkpoint_readback i d d' w :
  wire_json (JObj d) -> storable (JObj d) = true -> wire_json (JObj d') -> storable (JObj d') = true ->
  (let w1 := fst (WorkerService.PutCheckpoint i (dumps (JObj d)) w) in
   snd (WorkerService.GetCheckpoint i w1)
   = Reply (dumps (JObj (if redis_up (w_limiter w) then d else jsonb_members d)), true))
  /\ (redis_up (w_limiter w) = true ->
      let w1 := fst (WorkerService.PutCheckpoint i (dumps (JObj d)) w) in
      let w2 := fst (WorkerService.PutCheckpoint i (dumps (JObj d')) (set_redis_up false w1)) in
      let w3 := set_redis_up true w2 in
      sql_checkpoint_get i "default" (w_db w3) = Some (jsonb_members d')
      /\ snd (WorkerService.GetCheckpoint i w3) = Reply (dumps (JObj d), true)).
Proof.
  intros Hd Hsd Hd' Hsd'. rewrite (put_checkpoint_world i d w Hd Hsd), checkpoint_put_outcome by done. cbn [fst].
  pose proof (saved_after_put i "default" (jsonb_members d) (w_db w)) as Hs. simpl in Hs. split.
  - rewrite checkpoint_get_reply. unfold redis_up. destruct (rl_redis (w_limiter w)) as [r|] eqn:Er; simpl.
    + destruct (rd_up r) eqn:Eu; simpl; [|by rewrite Er, Eu, Hs].
      unfold CheckpointService.set_checkpoint_cache. rewrite Er. simpl. rewrite Eu. by rewrite lookup_insert_eq.
    + by rewrite Er, Hs.
  - intros Hup. rewrite Hup. unfold redis_up in Hup. destruct (rl_redis (w_limiter w)) as [r|] eqn:Er; [|done].
    rewrite put_checkpoint_world, checkpoint_put_outcome by done. cbn [fst].
    assert (forall x, redis_up (w_limiter (set_redis_up false x)) = false) as Hdown.
    { intros x. unfold redis_up, set_redis_up. simpl. by destruct (rl_redis (w_limiter x)). }
    rewrite Hdown. split; [apply saved_after_put|].
    rewrite checkpoint_get_reply. unfold set_redis_up, CheckpointService.set_checkpoint_cache. simpl. rewrite Er. simpl.
    by rewrite lookup_insert_eq.
Qed.

Definition redis_world : World :=
  set_w_limiter (mkLimiter (Some (mkRedis true ∅ ∅ 0)) ∅ false) world3.

Lemma checkpoint_readback_witness :
  let w1 := fst (WorkerService.PutCheckpoint 1 (dumps (JObj [("page", JInt 1)])) redis_world) in
  let w2 := fst (WorkerService.PutCheckpoint 1 (dumps (JObj [("page", JInt 2)])) (set_redis_up false w1)) in
  snd (WorkerService.GetCheckpoint 1 w1) = Reply (dumps (JObj [("page", JInt 1)]), true)
  /\ snd (WorkerService.GetCheckpoint 1 (set_redis_up true w2)) = Reply (dumps (JObj [("page", JInt 1)]), true).
Proof.
  assert (forall n, wire_json (JObj [("page", JInt n)])) as Hw
    by (intros n; split; simpl; [repeat constructor; simpl; tauto | tauto]).
  destruct (checkpoint_readback 1 [("page", JInt 1)] [("page", JInt 2)] redis_world (Hw 1) eq_refl (Hw 2) eq_refl) as [H1 H2].
  cbv zeta in *. split; [exact H1|]. destruct (H2 ltac:(vm_compute; reflexivity)) as [_ H]. exact H.
Defined.
