(* ===== verification/DispatchProps.v ===== *)
(** * One dispatcher pass, end to end

    What a pass puts into a worker's queue is a job that runs in the database
    under the lease the assignment carries. *)

From S2P Require Import Prelude PyStr Errors States Json Records Database Queries Tables Claim.
From S2P Require Import Invariant Steps ClaimFacts Repository RepoFacts World RateLimiter RegistryService.
From S2P Require Import JobService SubmitService QueryService FanOutService SignalService CancelService.
From S2P Require Import Matcher Loops Engine Exec Lifecycle OutcomeProps ClaimProps AssignProps.
From Stdlib Require Import ZArith.
Open Scope string_scope.
Open Scope Z_scope.
Open Scope list_scope.

(** Job [i] runs under lease [t]. *)
Definition held (w : World) (i t : uuid) : Prop := exists j, In j (db_jobs (w_db w)) /\ lease_guard i t j = true.

(** ** Programs that leave jobs and connections alone *)

Definition quiet (w w' : World) : Prop :=
  db_keeps w w' /\ db_jobs (w_db w') = db_jobs (w_db w) /\ rg_store (w_registry w') = rg_store (w_registry w).

#[global] Instance quiet_preorder : PreOrder quiet.
Proof.
  split; [intros w; split_and!; [reflexivity | done | done]|].
  intros a b c (H1 & J1 & S1) (H2 & J2 & S2). split_and!; [by etrans | congruence | congruence].
Qed.

Lemma quiet_on_db {A} (m : DBM A) :
  stable keeps m -> (forall db, db_jobs (fst (m db)) = db_jobs db) -> stable quiet (on_db m).
Proof.
  intros Hk Hj w. specialize (Hk (w_db w)). specialize (Hj (w_db w)). unfold on_db, quiet, db_keeps.
  destruct (m (w_db w)) as [db' r]. simpl in *. by split_and!.
Qed.

Lemma quiet_limiter f : stable quiet (set_limiter f).
Proof. intros w. split_and!; [|done|done]. unfold db_keeps. simpl. reflexivity. Qed.

Lemma quiet_rate_take c n : stable quiet (on_db (repo.rate_take_pg c n)).
Proof.
  apply quiet_on_db; [apply stable_rate_take_pg|]. intros db. unfold repo.rate_take_pg, mbind, M_bind, M_bind_def, stmt, sql_rate_take_pg.
  by destruct (_ !! _).
Qed.

Lemma quiet_rate_return c n : stable quiet (on_db (repo.rate_return_pg c n)).
Proof.
  apply quiet_on_db; [apply stable_rate_return_pg|]. intros db. unfold repo.rate_return_pg. by destruct (_ <=? _).
Qed.

Lemma quiet_when b m : stable quiet m -> stable quiet (when b m).
Proof. intros. destruct b; [done | apply stable_ret; apply _]. Qed.

#[local] Hint Resolve quiet_limiter quiet_rate_take quiet_rate_return quiet_when : stable_db.

Ltac quiet_tac := repeat (first [ solve [eauto with stable_db] | stable_step ]).

Lemma quiet_reserve c n : stable quiet (reserve c n).
Proof.
  unfold reserve, _redis_take, clock. quiet_tac.
Qed.

Lemma quiet_release c n : stable quiet (release c n).
Proof. unfold release. quiet_tac. Qed.

Lemma quiet_reserve_tokens tags lim : stable quiet (Matcher._reserve_rate_tokens tags lim).
Proof.
  unfold Matcher._reserve_rate_tokens. stable_step.
  - apply quiet_on_db; [intros db; unfold repo.distinct_rate_classes; simpl; reflexivity | done].
  - induction a as [|c l IH]; cbn [Matcher.reserve_loop]; quiet_tac. apply quiet_reserve.
Qed.

Lemma quiet_return_tokens q l : stable quiet (Matcher._return_unused_tokens q l).
Proof. unfold Matcher._return_unused_tokens. quiet_tac. apply quiet_release. Qed.

(** ** A pass *)

(** An assignment for a job that runs under the lease it carries, one drawn
    after [s0]. *)
Definition leased_after (s0 : uuid) (w : World) (a : JobAssignment) : Prop :=
  exists t, asg_lease_token a = Some t /\ (s0 <= t)%N /\ held w (asg_job_id a) t.

(** Queues only grow, by such assignments, and running leases are kept. *)
Definition dispatches (s0 : uuid) (w w' : World) : Prop :=
  wf (w_db w) -> (s0 <= db_uuid_seq (w_db w))%N ->
  wf (w_db w') /\ (s0 <= db_uuid_seq (w_db w'))%N
  /\ (forall i t, held w i t -> held w' i t)
  /\ (forall r c', rg_store (w_registry w') !! r = Some c' ->
        exists c sent, rg_store (w_registry w) !! r = Some c /\ wc_worker_id c' = wc_worker_id c
          /\ wc_queue c' = wc_queue c ++ sent /\ List.Forall (leased_after s0 w') sent).

#[global] Instance dispatches_preorder s0 : PreOrder (dispatches s0).
Proof.
  split.
  - intros w Hwf Hs. split_and!; try done. intros r c Hc. exists c, []. rewrite app_nil_r. by split_and!.
  - intros a b c H1 H2 Hwf Hs. destruct (H1 Hwf Hs) as (Hwf1 & Hs1 & K1 & Q1).
    destruct (H2 Hwf1 Hs1) as (Hwf2 & Hs2 & K2 & Q2). split_and!; [done | done | auto |].
    intros r c2 Hc2. destruct (Q2 r c2 Hc2) as (c1 & sent2 & Hc1 & I2 & E2 & F2).
    destruct (Q1 r c1 Hc1) as (c0 & sent1 & Hc0 & I1 & E1 & F1).
    exists c0, (sent1 ++ sent2). split_and!; [done | congruence | by rewrite E2, E1, app_assoc|].
    apply List.Forall_app. split; [|done]. eapply List.Forall_impl; [|exact F1].
    intros x (t & Ht & Hle & Hh). exists t. auto.
Qed.

Lemma seq_grows w w' : wf (w_db w) -> db_keeps w w' -> (db_uuid_seq (w_db w) <= db_uuid_seq (w_db w'))%N.
Proof. intros Hwf Hk. destruct (Hk Hwf) as [_ [[Hs _ _ _] _ _ _ _ _]]. exact Hs. Qed.

Lemma quiet_dispatches s0 w w' : quiet w w' -> dispatches s0 w w'.
Proof.
  intros (Hk & Hj & Hst) Hwf Hs. pose proof (seq_grows w w' Hwf Hk). split_and!; [by apply Hk | lia | |].
  - intros i t (j & H1 & H2). exists j. by rewrite Hj.
  - intros r c Hc. rewrite Hst in Hc. exists c, []. rewrite app_nil_r. by split_and!.
Qed.

(** The claim keeps running leases and leases what it returns. *)
Lemma claim_dispatches s0 lk tags ex lim by_ cap q w : dispatches s0 w (fst (in_tx (repo.claim lk tags ex lim by_ cap q) w)).
Proof.
  intros Hwf Hs. pose proof (stable_in_tx _ (stable_claim lk tags ex lim by_ cap q) w) as Hk.
  pose proof (seq_grows _ _ Hwf Hk). revert Hk H. unfold in_tx, on_db, transaction.
  destruct (repo.claim lk tags ex lim by_ cap q (w_db w)) as [db' [cs|e]] eqn:Ec; simpl; intros Hk Hseq.
  - split_and!; [by apply Hk | lia | | intros r c Hc; exists c, []; rewrite app_nil_r; by split_and!].
    intros i t (j & Hj & Hg). destruct (claim_takes_rest lk tags ex lim by_ cap q _ _ _ j Hwf Ec Hj) as [Hin|Hq].
    + by exists j.
    + apply lease_guard_spec in Hg as (_ & _ & Hr). congruence.
  - split_and!; [by apply Hk | lia | | intros r c Hc; exists c, []; rewrite app_nil_r; by split_and!].
    intros i t Hh. exact Hh.
Qed.

(** The assignments of a claimed batch, handed over one by one. *)
Definition leased_job (s0 : uuid) (w : World) (c : repo.ClaimedJob) : Prop :=
  exists t, repo.cj_lease_token c = Some t /\ (s0 <= t)%N /\ held w (repo.cj_id c) t.

Lemma push_dispatches s0 w job up r key v : leased_job s0 w job ->
  dispatches s0 w (set_w_cursors (Matcher.set_cursor key v (w_cursors w))
    (set_w_registry (set_conn (Matcher.push (Matcher._to_assignment job up)) r (w_registry w)) w)).
Proof.
  intros (t & Ht & Hle & Hh) Hwf Hs. split_and!; [done | done | by intros|]. intros r' c' Hc'.
  unfold set_conn in Hc'. simpl in Hc'. rewrite lookup_alter in Hc'.
  destruct (decide (r = r')) as [->|Hne].
  - destruct (rg_store (w_registry w) !! r') as [c|]; simplify_eq/=. exists c, [Matcher._to_assignment job up].
    split_and!; [done..|]. repeat constructor. exists t. by split_and!.
  - exists c', []. rewrite app_nil_r. by split_and!.
Qed.

Lemma pushes_dispatch s0 key upstream cap placed w :
  wf (w_db w) -> (s0 <= db_uuid_seq (w_db w))%N -> List.Forall (fun p => leased_job s0 w (fst p)) placed ->
  dispatches s0 w (fst (forM (fun p : repo.ClaimedJob * Matcher.slotw =>
      let '(job, x) := p in
      modify (fun s : World =>
        set_w_cursors (Matcher.set_cursor key (fst x) (w_cursors s))
          (set_w_registry
             (set_conn (Matcher.push (Matcher._to_assignment job
                (Matcher._cap_upstream (Matcher.upstream_of (repo.cj_id job) upstream) cap))) (snd x) (w_registry s)) s)))
      placed w : World * result exn (list unit))).
Proof.
  revert w. induction placed as [|[job x] placed IH]; intros w Hwf Hs Hall; [reflexivity|].
  inversion_clear Hall as [|? ? Hj Hrest]. cbn [forM]. unfold mbind, M_bind, M_bind_def. simpl.
  set (w1 := set_w_cursors _ _).
  assert (dispatches s0 w w1) as H1 by (by apply push_dispatches).
  assert (List.Forall (fun p => leased_job s0 w1 (fst p)) placed) as Hrest1.
  { eapply List.Forall_impl; [|exact Hrest]. intros p (t & Ht & Hle & Hh). exists t. by split_and!. }
  specialize (IH w1 Hwf Hs Hrest1).
  destruct (forM _ placed w1) as [w2 [us|e]]; simpl in *; by etrans.
Qed.

Lemma persist_dispatches s0 lk l : stable (dispatches s0) (Matcher._persist_attribution lk l).
Proof.
  intros w Hwf Hs. pose proof (stable_persist_attribution lk l w) as Hk. pose proof (seq_grows _ _ Hwf Hk).
  split_and!; [by apply Hk | lia | |].
  - intros i t (j & Hj & Hg). unfold Matcher._persist_attribution. destruct l as [|a l]; [by exists j|].
    unfold try_except. destruct (restamp_fails lk (a :: l)); [by exists j|].
    simpl. set (f := fun j : Job => List.find (fun '(id, _, tok) => lease_guard id tok j) (a :: l)).
    exists (match f j with Some (_, x, _) => set_j_claimed_by (Some x) j | None => j end). split.
    + apply in_update_where. exists j. split; [done|].
      change (match f j with Some (_, x, _) => set_j_claimed_by (Some x) j | None => j end
              = if match f j with Some _ => true | None => false end
                then match f j with Some (_, x, _) => set_j_claimed_by (Some x) j | None => j end else j).
      by destruct (f j) as [[[? ?] ?]|].
    + by destruct (f j) as [[[? ?] ?]|].
  - intros r c Hc. exists c, []. rewrite app_nil_r. split_and!; try done.
    unfold Matcher._persist_attribution, try_except in Hc. destruct l as [|a l]; [done|].
    by destruct (restamp_fails lk (a :: l)).
Qed.

Lemma placed_from ws start capacity jobs p :
  In p (Matcher.a_placed (Matcher.assign_all ws start capacity jobs)) -> In (fst p) jobs.
Proof.
  unfold Matcher.assign_all. revert p. induction jobs as [|j jobs IH] using rev_ind; intros p; [done|].
  rewrite foldl_app. cbn [foldl]. unfold Matcher.place at 1.
  destruct (Matcher.probe _ _ _ _) as [[x|] n]; simpl; rewrite !in_app_iff; [intros [H|[<-|[]]]|intros H].
  - left. by apply IH.
  - right. by left.
  - left. by apply IH.
Qed.

Lemma assign_dispatches s0 cfg key jobs ws up capacity w :
  wf (w_db w) -> (s0 <= db_uuid_seq (w_db w))%N -> (forall c, In c jobs -> leased_job s0 w c) ->
  dispatches s0 w (fst (Matcher._assign_round_robin cfg key jobs ws up capacity w)).
Proof.
  intros Hwf Hs Hall. unfold Matcher._assign_round_robin. destruct jobs as [|c jobs]; [reflexivity|].
  destruct ws as [|x ws]; [reflexivity|]. unfold mbind at 1, M_bind, M_bind_def, gets.
  match goal with |- context [forM ?f ?placed] => assert (List.Forall (fun p => leased_job s0 w (fst p)) placed) as Hp end.
  { apply List.Forall_forall. intros p Hin. apply Hall. by eapply placed_from. }
  pose proof (pushes_dispatch s0 key up (max_upstream_inline_kb cfg * 1024) _ w Hwf Hs Hp) as H.
  unfold mbind, M_bind, M_bind_def. cbv zeta.
  destruct (forM _ _ w) as [w' [us|e]]; exact H.
Qed.

(** Continue from a world already related. *)
Lemma dispatches_then s0 w w1 w' :
  dispatches s0 w w1 -> (wf (w_db w) -> (s0 <= db_uuid_seq (w_db w))%N ->
    wf (w_db w1) -> (s0 <= db_uuid_seq (w_db w1))%N -> dispatches s0 w1 w') -> dispatches s0 w w'.
Proof.
  intros H1 H2 Hwf Hs. destruct (H1 Hwf Hs) as (Hwf1 & Hs1 & Hrest).
  pose proof (H2 Hwf Hs Hwf1 Hs1) as H. by apply (transitivity (R := dispatches s0) H1 H).
Qed.

Lemma fetch_quiet l : stable quiet (on_db (repo.fetch_inline_upstream l)).
Proof.
  apply quiet_on_db; [apply stable_fetch_upstream|]. intros db. unfold repo.fetch_inline_upstream. by destruct l.
Qed.

(** What a claim returns is leased to the claimer by a fresh token. *)
Lemma claim_leases s0 lk tags ex lim label cap q w w' claimed :
  wf (w_db w) -> (s0 <= db_uuid_seq (w_db w))%N ->
  in_tx (repo.claim lk tags ex lim label cap q) w = (w', Ok claimed) ->
  forall c, In c claimed -> leased_job s0 w' c.
Proof.
  intros Hwf Hs E c Hin. unfold in_tx, on_db, transaction in E.
  destruct (repo.claim lk tags ex lim label cap q (w_db w)) as [db' [cs|e]] eqn:Er; simplify_eq/=.
  destruct (taken_claimed lk tags ex lim _ _ q _ _ _ c Hwf Er Hin) as (j & _ & R).
  destruct (rc_lease _ _ _ _ _ _ _ R) as (tok & k & Ht & Hle & Hk & Hg & _).
  exists tok. split_and!; [done | lia|]. exists k. split; [exact Hk|]. by rewrite (rc_id _ _ _ _ _ _ _ R).
Qed.

Lemma quiet_leased s0 w w' c : quiet w w' -> leased_job s0 w c -> leased_job s0 w' c.
Proof.
  intros (_ & H & _) (t & Ht & Hle & j & Hj & Hg). exists t. split_and!; [done..|]. exists j. by rewrite H.
Qed.

Lemma group_dispatches s0 lk cfg tags ws : stable (dispatches s0) (Matcher._match_tag_group lk cfg tags ws).
Proof.
  intros w. unfold Matcher._match_tag_group.
  assert (reads_only (on_db (repo.running_counts_by_worker (map fst ws)))) as Hr
    by (apply reads_on_db; intros db; by destruct (map fst ws)).
  unfold mbind at 1, M_bind, M_bind_def. specialize (Hr w).
  destruct (on_db (repo.running_counts_by_worker (map fst ws)) w) as [w0 [running|e]]; simpl in Hr; subst w0; [|reflexivity].
  unfold mbind at 1, M_bind, M_bind_def, gets.
  set (capacity := list_to_map _ : gmap string Z). cbv zeta.
  destruct (_ <=? 0); [reflexivity|]. set (lim := foldr _ 0 _).
  unfold mbind at 1, M_bind, M_bind_def.
  pose proof (quiet_reserve_tokens tags lim w) as Hq. destruct (Matcher._reserve_rate_tokens tags lim w) as [w1 [[ex q]|e]]; simpl in Hq;
    [|by apply quiet_dispatches].
  eapply dispatches_then; [by apply quiet_dispatches|]. intros _ _ Hwf1 Hs1.
  unfold mbind at 1, M_bind, M_bind_def.
  pose proof (claim_dispatches s0 lk tags ex lim (Matcher.engine_label tags) (Matcher._per_group_cap cfg lim) q w1) as Hc.
  destruct (in_tx (repo.claim lk tags ex lim (Matcher.engine_label tags) (Matcher._per_group_cap cfg lim) q) w1)
    as [w2 [claimed|e]] eqn:Ec; [|exact Hc]. simpl in Hc.
  pose proof (claim_leases s0 lk tags ex lim _ _ q w1 w2 claimed Hwf1 Hs1 Ec) as Hl.
  eapply dispatches_then; [exact Hc|]. intros _ _ Hwf2 Hs2.
  unfold mbind at 1, M_bind, M_bind_def.
  pose proof (quiet_return_tokens q claimed w2) as Hq2. destruct (Matcher._return_unused_tokens q claimed w2) as [w3 [u|e]]; simpl in Hq2;
    [|by apply quiet_dispatches].
  eapply dispatches_then; [by apply quiet_dispatches|]. intros _ _ Hwf3 Hs3.
  assert (forall c, In c claimed -> leased_job s0 w3 c) as Hl3 by (intros c Hin; by eapply quiet_leased; [|apply Hl]).
  destruct claimed as [|c0 cs]; [reflexivity|]. set (claimed := c0 :: cs) in *.
  unfold mbind at 1, M_bind, M_bind_def.
  pose proof (fetch_quiet (map repo.cj_id claimed) w3) as Hq3.
  destruct (on_db (repo.fetch_inline_upstream (map repo.cj_id claimed)) w3) as [w4 [up|e]]; simpl in Hq3;
    [|by apply quiet_dispatches].
  eapply dispatches_then; [by apply quiet_dispatches|]. intros _ _ Hwf4 Hs4.
  assert (forall c, In c (Matcher._fairness_shape claimed) -> leased_job s0 w4 c) as Hl4.
  { intros c Hin. eapply Permutation_in in Hin; [|apply fairness_perm]. by eapply quiet_leased; [|apply Hl3]. }
  unfold mbind at 1, M_bind, M_bind_def.
  pose proof (assign_dispatches s0 cfg tags _ ws up capacity w4 Hwf4 Hs4 Hl4) as Ha.
  destruct (Matcher._assign_round_robin cfg tags (Matcher._fairness_shape claimed) ws up capacity w4) as [w5 [a|e]]; [|exact Ha].
  simpl in Ha. etrans; [exact Ha|]. unfold mbind, M_bind, M_bind_def.
  pose proof (persist_dispatches s0 lk (snd a) w5) as Hp.
  destruct (Matcher._persist_attribution lk (snd a) w5) as [w6 [u2|e]]; exact Hp.
Qed.

(** What a dispatcher pass sends is what it claimed: from any reachable world,
    whatever rows other claimers hold locked, a pass appends to the queues of the
    connected workers, in order and without touching what they held, only
    assignments whose job then runs in the database under the very lease token
    the assignment carries, a token drawn in this pass; and every lease that was
    running before is still running. *)
Theorem pass_sends_leased_jobs lk cfg w :
  reachable w ->
  let w' := fst (Dispatcher.pass_ lk cfg w) in
  (forall i t, held w i t -> held w' i t)
  /\ (forall r c', rg_store (w_registry w') !! r = Some c' ->
        exists c sent, rg_store (w_registry w) !! r = Some c /\ wc_queue c' = wc_queue c ++ sent
          /\ List.Forall (leased_after (db_uuid_seq (w_db w)) w') sent).
Proof.
  intros Hr w'. pose proof (reachable_wf_db w Hr) as Hwf.
  assert (stable (dispatches (db_uuid_seq (w_db w))) (Dispatcher.pass_ lk cfg)) as H.
  { unfold Dispatcher.pass_, Matcher.pass_, WorkerRegistry.snapshot_available.
    repeat (first [solve [eauto with stable_db] | stable_step]). apply group_dispatches. }
  destruct (H w Hwf ltac:(lia)) as (_ & _ & Hk & Hq). split; [exact Hk|].
  intros r c' Hc'. destruct (Hq r c' Hc') as (c & sent & H1 & _ & H2 & H3). exists c, sent. by split_and!.
Qed.

(** The pass of [world2] sends its one queued job to its one worker. *)
Lemma pass_sends_leased_jobs_witness :
  exists c' a, rg_store (w_registry world3) !! 0%nat = Some c' /\ wc_queue c' = [a] /\ held world3 (asg_job_id a) 2.
Proof.
  destruct (pass_sends_leased_jobs no_locks default_config world2 world2_reachable) as [_ H].
  fold world3 in H. destruct (rg_store (w_registry world3) !! 0%nat) as [c'|] eqn:E; [|vm_compute in E; discriminate].
  destruct (H 0%nat c' E) as (c & sent & Hc & Hq & Hs).
  assert (wc_queue c = []) as Ec by (vm_compute in Hc; injection Hc as <-; reflexivity).
  rewrite Ec in Hq. simpl in Hq.
  assert (exists a, wc_queue c' = [a] /\ asg_lease_token a = Some 2%N) as (a & Ea & Et)
    by (vm_compute in E; injection E as <-; eexists; split; reflexivity).
  exists c', a. split_and!; [reflexivity | exact Ea|].
  rewrite Ea in Hq. subst sent. inversion Hs as [|? ? (t & Ht & _ & Hh) _]; subst. congruence.
Defined.
