(* ===== verification/FlowProps.v ===== *)
(** * Flow control of a dispatcher pass

    A pass hands a worker no more than the slots it announced and the capacity
    its running jobs leave, and hands out every job it claims. *)

From S2P Require Import Prelude PyStr Errors States Json Records Database Queries Tables Claim.
From S2P Require Import Invariant Steps ClaimFacts Repository RepoFacts World RateLimiter RegistryService.
From S2P Require Import JobService SubmitService QueryService FanOutService SignalService CancelService.
From S2P Require Import Matcher Loops Engine Exec Lifecycle OutcomeProps ClaimProps AssignProps.
From S2P Require Import DispatchProps.
From Stdlib Require Import ZArith.
Open Scope string_scope.
Open Scope Z_scope.
Open Scope list_scope.

(** ** The shape of one tag group's match *)

Section Group.
Context (lk : locks) (cfg : SymbaConfig) (tags : list string) (ws : list Matcher.slotw).

(** The capacities computed from the counts read and the connections held. *)
Definition group_capacity (w : World) : gmap string Z :=
  list_to_map (map (fun c => (wc_worker_id c,
                      Matcher.capacity_of (sql_running_counts_by_worker (map fst ws) (w_db w)) c))
                 (Matcher.conns_of (w_registry w) ws)).

Definition group_limit (w : World) : Z :=
  foldr (fun kv acc => snd kv + acc) 0 (map_to_list (group_capacity w)).

(** No capacity; an exception before the claim; nothing claimed; claimed and lost
    to an exception; claimed and handed out. *)
Inductive group_run (w : World) : World -> result exn Z -> Prop :=
| gr_full : group_limit w <= 0 -> group_run w w (Ok 0)
| gr_raised w' e : quiet w w' -> group_run w w' (Raise e)
| gr_empty ex q w1 w2 w' :
    quiet w w1 ->
    in_tx (repo.claim lk tags ex (group_limit w) (Matcher.engine_label tags)
             (Matcher._per_group_cap cfg (group_limit w)) q) w1 = (w2, Ok []) ->
    quiet w2 w' -> 0 < group_limit w -> group_run w w' (Ok 0)
| gr_lost ex q w1 w2 w' claimed e :
    quiet w w1 ->
    in_tx (repo.claim lk tags ex (group_limit w) (Matcher.engine_label tags)
             (Matcher._per_group_cap cfg (group_limit w)) q) w1 = (w2, Ok claimed) ->
    quiet w2 w' -> group_run w w' (Raise e)
| gr_sent ex q w1 w2 w3 claimed up w4 n attribution :
    quiet w w1 ->
    in_tx (repo.claim lk tags ex (group_limit w) (Matcher.engine_label tags)
             (Matcher._per_group_cap cfg (group_limit w)) q) w1 = (w2, Ok claimed) ->
    quiet w2 w3 ->
    Matcher._assign_round_robin cfg tags (Matcher._fairness_shape claimed) ws up (group_capacity w) w3
      = (w4, Ok (n, attribution)) ->
    group_run w (fst (Matcher._persist_attribution lk attribution w4)) (Ok n).

Lemma claim_raises_quiet ex lim by_ cap q w w' e :
  in_tx (repo.claim lk tags ex lim by_ cap q) w = (w', Raise e) -> quiet w w'.
Proof.
  intros E. pose proof (stable_in_tx _ (stable_claim lk tags ex lim by_ cap q) w) as Hk. rewrite E in Hk.
  unfold in_tx, on_db, transaction in E. rewrite claim_run in E.
  destruct (claim_error _) as [e'|]; simplify_eq/=. rewrite rollback_refl. by split_and!.
Qed.

Lemma empty_claim_quiet ex lim by_ cap q w w' :
  in_tx (repo.claim lk tags ex lim by_ cap q) w = (w', Ok []) -> quiet w w'.
Proof.
  intros E. pose proof (stable_in_tx _ (stable_claim lk tags ex lim by_ cap q) w) as Hk. rewrite E in Hk.
  split; [exact Hk|]. unfold in_tx, on_db, transaction in E.
  destruct (repo.claim lk tags ex lim by_ cap q (w_db w)) as [db' [cs|e]] eqn:Ec; simplify_eq/=. split; [|done].
  pose proof (claim_ids _ _ _ _ _ _ _ _ _ _ Ec) as Hi. apply claim_ok in Ec as (_ & -> & _ & _).
  apply update_none. intros j Hj. destruct (in_ids _ j) eqn:Ei; [exfalso|done].
  assert (In j (taken lk tags ex lim cap q (w_db w))) as Ht by (by apply in_sel).
  destruct (taken lk tags ex lim cap q (w_db w)); done.
Qed.

Lemma persist_returns l w : exists u, snd (Matcher._persist_attribution lk l w) = Ok u.
Proof.
  unfold Matcher._persist_attribution. destruct l as [|a l]; [by exists tt|]. unfold try_except.
  destruct (restamp_fails lk (a :: l)); [by exists tt|].
  destruct (on_db (repo.set_claimed_by (a :: l)) w) as [w' [[]|e]]; by exists tt.
Qed.

Lemma assign_returns key jobs up capacity w :
  exists w' a, Matcher._assign_round_robin cfg key jobs ws up capacity w = (w', Ok a).
Proof.
  unfold Matcher._assign_round_robin. destruct jobs as [|j jobs]; [by eexists _, _|].
  destruct ws as [|x l]; [by eexists _, _|]. run.
  match goal with |- context [forM ?f ?p ?w] => assert (exists w' us, forM f p w = (w', Ok us)) as (w' & us & ->) end;
    [|by eexists _, _].
  generalize (Matcher.a_placed (Matcher.assign_all (order_by Matcher.worker_le (x :: l))
    (Matcher.bisect_right (map fst (order_by Matcher.worker_le (x :: l))) (Matcher.get_cursor key (w_cursors w)))
    capacity (j :: jobs))). intros placed. revert w.
  induction placed as [|[job y] placed IH]; intros w; [by eexists _, _|]. cbn [forM]. run.
  match goal with |- context [forM ?f placed ?w1] => destruct (IH w1) as (w' & us & ->) end. by eexists _, _.
Qed.

Definition ran (w : World) (p : World * result exn Z) : Prop := group_run w (fst p) (snd p).

Lemma group_runs w : ran w (Matcher._match_tag_group lk cfg tags ws w).
Proof.
  unfold Matcher._match_tag_group. unfold mbind at 1, M_bind, M_bind_def.
  assert (on_db (repo.running_counts_by_worker (map fst ws)) w
          = (w, Ok (sql_running_counts_by_worker (map fst ws) (w_db w)))) as ->.
  { unfold on_db, repo.running_counts_by_worker. destruct (map fst ws); simpl; [|by rewrite world_eta].
    rewrite world_eta. do 2 f_equal. unfold sql_running_counts_by_worker.
    induction (List.filter _ _) as [|j l IH]; [done|]. cbn [foldr]. rewrite <- IH. by destruct (j_claimed_by j). }
  unfold mbind at 1, M_bind, M_bind_def, gets. fold (group_capacity w). cbv zeta. fold (group_limit w).
  destruct (Z.leb_spec (group_limit w) 0); [by apply gr_full|].
  unfold mbind at 1, M_bind, M_bind_def.
  pose proof (quiet_reserve_tokens tags (group_limit w) w) as Hq1.
  destruct (Matcher._reserve_rate_tokens tags (group_limit w) w) as [w1 [[ex q]|e]]; simpl in Hq1; [|by apply gr_raised].
  unfold mbind at 1, M_bind, M_bind_def.
  destruct (in_tx _ w1) as [w2 [claimed|e]] eqn:Ec;
    [|apply gr_raised; etrans; [exact Hq1 | by eapply claim_raises_quiet]].
  unfold mbind at 1, M_bind, M_bind_def.
  pose proof (quiet_return_tokens q claimed w2) as Hq2.
  destruct (Matcher._return_unused_tokens q claimed w2) as [w3 [u|e]]; simpl in Hq2; [|by eapply gr_lost].
  destruct claimed as [|c cs].
  { by eapply gr_empty. }
  set (claimed := c :: cs) in *. unfold mbind at 1, M_bind, M_bind_def.
  pose proof (fetch_quiet (map repo.cj_id claimed) w3) as Hq3.
  destruct (on_db (repo.fetch_inline_upstream (map repo.cj_id claimed)) w3) as [w4 [up|e]]; simpl in Hq3;
    [|eapply gr_lost; [done..|by etrans]].
  unfold mbind at 1, M_bind, M_bind_def.
  destruct (assign_returns tags (Matcher._fairness_shape claimed) up (group_capacity w) w4) as (w5 & [n at_] & Ea).
  rewrite Ea. unfold mbind, M_bind, M_bind_def. destruct (persist_returns at_ w5) as [u' Hu].
  assert (ran w (fst (Matcher._persist_attribution lk at_ w5), Ok n)) as Hs
    by (eapply gr_sent; [exact Hq1 | exact Ec | by etrans | exact Ea]).
  cbn [fst snd]. destruct (Matcher._persist_attribution lk at_ w5) as [w6 r]. simpl in Hu, Hs. by subst r.
Qed.
End Group.

(** ** What a match hands out *)

Definition pushes (l : list JobAssignment) (c : WorkerConn) : WorkerConn :=
  foldl (fun c a => Matcher.push a c) c l.

Lemma pushes_app l1 l2 c : pushes (l1 ++ l2) c = pushes l2 (pushes l1 c).
Proof. apply foldl_app. Qed.

Lemma pushes_spec l c :
  Z.of_nat (length l) <= wc_free_slots c ->
  pushes l c = mkConn (wc_worker_id c) (wc_tags c) (wc_free_slots c - Z.of_nat (length l)) (wc_labels c)
                 (wc_registered_tasks c) (wc_slots_total c) (wc_persisted_at c) (wc_queue c ++ l).
Proof.
  revert c. induction l as [|a l IH]; intros c Hl; simpl in Hl.
  - simpl. rewrite Z.sub_0_r, app_nil_r. by destruct c.
  - change (pushes (a :: l) c) with (pushes l (Matcher.push a c)). rewrite IH by (simpl; lia).
    destruct c. simpl in *. rewrite <- app_assoc. f_equal. lia.
Qed.

Lemma pushes_frame l c :
  wc_worker_id (pushes l c) = wc_worker_id c /\ wc_tags (pushes l c) = wc_tags c
  /\ wc_free_slots (pushes l c) <= Z.max 0 (wc_free_slots c).
Proof.
  revert c. induction l as [|a l IH]; intros c; [simpl; split_and!; [done | done | lia]|].
  destruct (IH (Matcher.push a c)) as (H1 & H2 & H3). unfold pushes in *. simpl in *. split_and!; [done | done | lia].
Qed.

Section Placed.
Context (cfg : SymbaConfig) (up : list (uuid * list UpstreamRow)).

Definition message (p : repo.ClaimedJob * Matcher.slotw) : JobAssignment :=
  Matcher._to_assignment (fst p)
    (Matcher._cap_upstream (Matcher.upstream_of (repo.cj_id (fst p)) up) (max_upstream_inline_kb cfg * 1024)).

(** What the placement sends to the connection [r]. *)
Definition sent_to (placed : list (repo.ClaimedJob * Matcher.slotw)) (r : ref) : list JobAssignment :=
  map message (List.filter (fun p => Nat.eqb (snd (snd p)) r) placed).

Definition attributed (p : repo.ClaimedJob * Matcher.slotw) : uuid * string * uuid :=
  (repo.cj_id (fst p), fst (snd p), default 0%N (repo.cj_lease_token (fst p))).

Lemma pushes_store key placed w :
  let w' := fst (forM (fun p : repo.ClaimedJob * Matcher.slotw =>
      let '(job, x) := p in
      modify (fun s : World =>
        set_w_cursors (Matcher.set_cursor key (fst x) (w_cursors s))
          (set_w_registry
             (set_conn (Matcher.push (Matcher._to_assignment job
                (Matcher._cap_upstream (Matcher.upstream_of (repo.cj_id job) up) (max_upstream_inline_kb cfg * 1024))))
                (snd x) (w_registry s)) s)))
      placed w : World * result exn (list unit)) in
  w_db w' = w_db w
  /\ forall r, rg_store (w_registry w') !! r = pushes (sent_to placed r) <$> rg_store (w_registry w) !! r.
Proof.
  revert w. induction placed as [|[job x] placed IH]; intros w.
  - split; [done|]. intros r. simpl. by destruct (_ !! r).
  - cbn [forM]. unfold mbind, M_bind, M_bind_def. simpl.
    match goal with |- context [forM _ placed ?w0] => set (w1 := w0); destruct (IH w1) as [Hd Hst] end.
    cbv zeta in Hd, Hst. destruct (forM _ placed w1) as [w2 [us|e]]; simpl in *; (split; [exact Hd|]);
      intros r; rewrite Hst; unfold w1, set_conn; simpl; rewrite lookup_alter;
      unfold sent_to; cbn [List.filter snd]; (destruct (Nat.eqb_spec (snd x) r) as [->|Hne];
        [rewrite decide_True by done; by destruct (_ !! r) | by rewrite decide_False]).
Qed.

Lemma assign_effect key jobs ws capacity w w' n at_ :
  Matcher._assign_round_robin cfg key jobs ws up capacity w = (w', Ok (n, at_)) ->
  exists start, let placed := Matcher.a_placed (Matcher.assign_all (order_by Matcher.worker_le ws) start capacity jobs) in
    w_db w' = w_db w /\ n = Z.of_nat (length placed) /\ at_ = map attributed placed
    /\ forall r, rg_store (w_registry w') !! r = pushes (sent_to placed r) <$> rg_store (w_registry w) !! r.
Proof.
  unfold Matcher._assign_round_robin. destruct jobs as [|j jobs].
  { intros [= <- <- <-]. exists 0%nat. simpl. split_and!; try done. intros r. by destruct (_ !! r). }
  destruct ws as [|x ws].
  { intros [= <- <- <-]. exists 0%nat.
    assert (forall l st, Matcher.a_placed (foldl (Matcher.place []) st l) = Matcher.a_placed st) as Hp.
    { induction l as [|y l IH]; intros st; simpl; [done|]. by rewrite IH. }
    unfold Matcher.assign_all. rewrite Hp. simpl. split_and!; try done. intros r. by destruct (_ !! r). }
  unfold mbind at 1, M_bind, M_bind_def, gets. cbv zeta.
  set (start := Matcher.bisect_right _ _). set (placed := Matcher.a_placed _). intros E. exists start. fold placed.
  pose proof (pushes_store key placed w) as [Hd Hst]. cbv zeta in Hd, Hst. revert E.
  unfold mbind, M_bind, M_bind_def. destruct (forM _ placed w) as [w2 [us|e]]; [|done].
  intros [= <- <- <-]. by split_and!.
Qed.
End Placed.

(** ** Capacity *)

Lemma sum_perm {A} (f : A -> Z) l l' :
  Permutation l l' -> foldr (fun x acc => f x + acc) 0 l = foldr (fun x acc => f x + acc) 0 l'.
Proof. induction 1; simpl; lia. Qed.

(** The jobs that run under the name of a worker. *)
Definition running_at (db : DB) (id : string) : Z :=
  Z.of_nat (count (fun j : Job => JobState_eqb (j_state j) RUNNING && bool_decide (j_claimed_by j = Some id)) (db_jobs db)).

Lemma running_counts_spec ids db id :
  In id ids -> default 0 (sql_running_counts_by_worker ids db !! id) = running_at db id.
Proof.
  intros Hin. unfold sql_running_counts_by_worker, running_at, count.
  assert (mem id ids = true) as Hm by (by apply existsb_exists; exists id; rewrite String.eqb_refl).
  induction (db_jobs db) as [|j l IH]; [done|]. cbn [List.filter].
  destruct (JobState_eqb (j_state j) RUNNING); cbn [andb]; [|exact IH]. cbn [foldr].
  destruct (j_claimed_by j) as [x|]; [|by rewrite bool_decide_false].
  destruct (decide (x = id)) as [->|Hne].
  - rewrite Hm, bool_decide_true, lookup_insert_eq by done. cbn [length default]. rewrite IH. simpl. lia.
  - rewrite bool_decide_false by congruence. destruct (mem x ids); [|exact IH]. by rewrite lookup_insert_ne.
Qed.

(** A tag group of the snapshot: ids are different and name live connections with
    free slots. *)
Record snapshot_of (w : World) (ws : list Matcher.slotw) : Prop := mkSnapshot {
  sn_ids : List.NoDup (map fst ws);
  sn_conns : forall id r, In (id, r) ws ->
    exists c, rg_store (w_registry w) !! r = Some c /\ wc_worker_id c = id /\ 0 < wc_free_slots c
}.

(** What the announced slots and the running jobs leave. *)
Definition free_capacity (db : DB) (c : WorkerConn) : Z :=
  Z.min (wc_free_slots c) (Z.max 0 (wc_slots_total c - running_at db (wc_worker_id c))).

Section Capacity.
Context (w : World) (ws : list Matcher.slotw) (Hsn : snapshot_of w ws).

Abbreviation entry := (fun c : WorkerConn => (wc_worker_id c, free_capacity (w_db w) c)).

Lemma capacity_entries :
  map (fun c => (wc_worker_id c, Matcher.capacity_of (sql_running_counts_by_worker (map fst ws) (w_db w)) c))
    (Matcher.conns_of (w_registry w) ws) = map entry (Matcher.conns_of (w_registry w) ws)
  /\ map wc_worker_id (Matcher.conns_of (w_registry w) ws) = map fst ws.
Proof.
  assert (forall l, (forall x, In x l -> In x ws) ->
    map (fun c => (wc_worker_id c, Matcher.capacity_of (sql_running_counts_by_worker (map fst ws) (w_db w)) c))
      (Matcher.conns_of (w_registry w) l) = map entry (Matcher.conns_of (w_registry w) l)
    /\ map wc_worker_id (Matcher.conns_of (w_registry w) l) = map fst l) as H; [|by apply H].
  induction l as [|[id r] l IH]; intros Hl; [done|]. destruct IH as [IH1 IH2]; [intros x Hx; apply Hl; by right|].
  pose proof (Hl _ (or_introl eq_refl)) as Hin. destruct (sn_conns _ _ Hsn id r Hin) as (c & Hc & Hid & _).
  unfold Matcher.conns_of in *. cbn [omap list_omap snd]. rewrite Hc. cbn [map]. rewrite IH1, IH2, Hid. split; [|done].
  f_equal. f_equal. unfold Matcher.capacity_of, free_capacity. rewrite Hid, running_counts_spec; [done|].
  by apply (in_map fst) in Hin.
Qed.

Lemma capacity_nodup : NoDup (map entry (Matcher.conns_of (w_registry w) ws)).*1.
Proof.
  destruct capacity_entries as [_ E]. apply NoDup_ListNoDup.
  assert (forall l, (map entry l).*1 = map wc_worker_id l) as -> by (induction l; simpl; by f_equal).
  rewrite E. apply (sn_ids _ _ Hsn).
Qed.

Lemma capacity_lookup id r c : In (id, r) ws -> rg_store (w_registry w) !! r = Some c ->
  group_capacity ws w !! id = Some (free_capacity (w_db w) c).
Proof.
  intros Hin Hc. destruct (sn_conns _ _ Hsn id r Hin) as (c' & Hc' & Hid & _). simplify_eq.
  unfold group_capacity. rewrite (proj1 capacity_entries). apply elem_of_list_to_map; [apply capacity_nodup|].
  apply list_elem_of_In. apply (in_map entry). unfold Matcher.conns_of. apply list_elem_of_In, list_elem_of_omap.
  exists (wc_worker_id c, r). split; [by apply list_elem_of_In | done].
Qed.

Lemma capacity_nonneg id : 0 <= default 0 (group_capacity ws w !! id).
Proof.
  destruct (group_capacity ws w !! id) as [z|] eqn:E; [simpl | done].
  unfold group_capacity in E. rewrite (proj1 capacity_entries) in E. apply elem_of_list_to_map_2 in E.
  apply list_elem_of_In, in_map_iff in E as (c & [= <- <-] & Hc). unfold Matcher.conns_of in Hc.
  apply list_elem_of_In, list_elem_of_omap in Hc as ([id' r] & Hin & Hr). simpl in Hr.
  destruct (sn_conns _ _ Hsn id' r) as (c' & ? & ? & ?); [by apply list_elem_of_In|]. simplify_eq.
  unfold free_capacity. lia.
Qed.

(** The claim's limit is the room of the group. *)
Lemma limit_rooms : group_limit ws w = rooms (group_capacity ws w) ws.
Proof.
  unfold group_limit, group_capacity at 1. rewrite (proj1 capacity_entries).
  rewrite (sum_perm snd _ _ (map_to_list_to_map _ capacity_nodup)).
  assert (forall l, (forall x, In x l -> In x ws) ->
    foldr (fun kv acc => snd kv + acc) 0 (map entry (Matcher.conns_of (w_registry w) l))
    = rooms (group_capacity ws w) l) as H; [|by apply H].
  induction l as [|[id r] l IH]; intros Hl; [done|]. pose proof (Hl _ (or_introl eq_refl)) as Hin.
  destruct (sn_conns _ _ Hsn id r Hin) as (c & Hc & Hid & Hf).
  unfold Matcher.conns_of in *. cbn [omap list_omap snd]. rewrite Hc. cbn [map foldr].
  rewrite IH by (intros x Hx; apply Hl; by right). unfold rooms. cbn [foldr fst snd].
  unfold room at 2. cbn [fst]. rewrite (capacity_lookup id r c Hin Hc). simpl. unfold free_capacity. lia.
Qed.
End Capacity.

Lemma rooms_perm rem l l' : Permutation l l' -> rooms rem l = rooms rem l'.
Proof. apply (sum_perm (fun x => Z.max 0 (room rem x))). Qed.

Lemma rooms_zero rem l x : rooms rem l <= 0 -> In x l -> room rem x <= 0.
Proof.
  unfold rooms. intros H Hin. assert (forall l, 0 <= foldr (fun w acc => Z.max 0 (room rem w) + acc) 0 l) as Hpos
    by (intros m; induction m; simpl; lia).
  induction l as [|y l IH]; [done|]. simpl in H. specialize (Hpos l). destruct Hin as [->|Hin]; [lia|]. apply IH; [lia | done].
Qed.

(** ** Delivery *)

Definition keeps_running (w w' : World) : Prop :=
  forall j, In j (db_jobs (w_db w)) -> j_state j = RUNNING -> In j (db_jobs (w_db w')).

(** From [w] to [w'], [sent] was pushed to the connections, and no row that ran
    was touched. *)
Record delivers (w w' : World) (sent : ref -> list JobAssignment) : Prop := mkDelivers {
  dv_db : db_keeps w w';
  dv_store : forall r, rg_store (w_registry w') !! r = pushes (sent r) <$> rg_store (w_registry w) !! r;
  dv_running : keeps_running w w';
  dv_queued : forall j, In j (db_jobs (w_db w')) -> j_state j = QUEUED -> In j (db_jobs (w_db w))
}.

(** An assignment is for a row: its id, tenant, lease and attempt, its task and its
    payload as JSON. *)
Record carries (a : JobAssignment) (j : Job) : Prop := mkCarries {
  ca_id : asg_job_id a = c_id j;
  ca_tenant : asg_tenant a = c_tenant j;
  ca_lease : asg_lease_token a = j_lease_token j;
  ca_attempt : asg_attempt a = j_attempt j;
  ca_task : as_task_name (asg_spec a) = c_task_name j;
  ca_payload : as_payload_json (asg_spec a) = dumps (JObj (c_payload j))
}.

(** The name a claimed row carries after the pass: the worker's, or the claim's own
    label when the re-stamp of its batch failed. *)
Definition attribution_of (lk : locks) (id : string) (j : Job) : Prop :=
  j_claimed_by j = Some id
  \/ (exists l, restamp_fails lk l = true) /\ exists tags, j_claimed_by j = Some (Matcher.engine_label tags).

(** A row that runs either ran before as it is or was sent, under its lease, to a worker,
    and is attributed to it as far as the re-stamp went. *)
Definition hands_out (lk : locks) (w w' : World) (sent : ref -> list JobAssignment) : Prop :=
  forall j, In j (db_jobs (w_db w')) -> j_state j = RUNNING -> In j (db_jobs (w_db w)) \/
  exists r c a, rg_store (w_registry w) !! r = Some c /\ In a (sent r) /\ carries a j
    /\ attribution_of lk (wc_worker_id c) j.

Definition nothing : ref -> list JobAssignment := fun _ => [].

Lemma pushes_nothing (o : option WorkerConn) : pushes [] <$> o = o.
Proof. by destruct o. Qed.

Lemma quiet_delivers w w' : quiet w w' -> delivers w w' nothing.
Proof.
  intros (H1 & H2 & H3). split; [done | intros r; by rewrite H3, pushes_nothing | intros j; by rewrite H2 | intros j; by rewrite H2].
Qed.

Lemma quiet_hands_out lk w w' sent : quiet w w' -> hands_out lk w w' sent.
Proof. intros (_ & H & _) j Hj _. left. by rewrite H in Hj. Qed.

Lemma delivers_trans w w1 w2 s1 s2 :
  delivers w w1 s1 -> delivers w1 w2 s2 -> delivers w w2 (fun r => s1 r ++ s2 r).
Proof.
  intros [D1 S1 R1 Q1] [D2 S2 R2 Q2]. split; [by etrans | | intros j Hj Hr; by apply R2; [apply R1|] | auto].
  intros r. rewrite S2, S1. destruct (_ !! r); simpl; [by rewrite pushes_app | done].
Qed.

Lemma claim_delivers lk tags ex lim by_ cap q w w' claimed :
  wf (w_db w) -> in_tx (repo.claim lk tags ex lim by_ cap q) w = (w', Ok claimed) -> delivers w w' nothing.
Proof.
  intros Hwf E. pose proof (stable_in_tx _ (stable_claim lk tags ex lim by_ cap q) w) as Hk. rewrite E in Hk.
  unfold in_tx, on_db, transaction in E.
  destruct (repo.claim lk tags ex lim by_ cap q (w_db w)) as [db' [cs|e]] eqn:Ec; simplify_eq/=.
  split; [exact Hk | intros r; by rewrite pushes_nothing | |].
  - intros j Hj Hr. simpl. destruct (claim_takes_rest _ _ _ _ _ _ _ _ _ _ _ Hwf Ec Hj) as [?|Hq]; [done | congruence].
  - simpl. apply claim_ok in Ec as (_ & -> & _ & _). intros j (x & Hx & ->)%in_update_where Hs.
    by destruct (in_ids _ x).
Qed.

Lemma in_tx_returns {A} (m : DBM A) w w' a : in_tx m w = (w', Ok a) -> m (w_db w) = (w_db w', Ok a).
Proof. unfold in_tx, on_db, transaction. destruct (m (w_db w)) as [db' [x|e]]; intros H; by simplify_eq/=. Qed.

(** The attribution that names a row's lease. *)
Definition find_for (l : list (uuid * string * uuid)) (j : Job) : option (uuid * string * uuid) :=
  List.find (fun '(id, _, tok) => lease_guard id tok j) l.

Lemma find_for_spec l j a : find_for l j = Some a -> In a l /\ lease_guard (fst (fst a)) (snd a) j = true.
Proof. intros H. apply List.find_some in H as [H1 H2]. by destruct a as [[? ?] ?]. Qed.

(** What the re-stamp leaves of a row. *)
Definition stamped (lk : locks) (l : list (uuid * string * uuid)) (k : Job) : Job :=
  if restamp_fails lk l then k
  else match find_for l k with Some (_, x, _) => set_j_claimed_by (Some x) k | None => k end.

Lemma stamped_frame lk l k :
  c_id (stamped lk l k) = c_id k /\ j_state (stamped lk l k) = j_state k
  /\ forall a, carries a (stamped lk l k) <-> carries a k.
Proof.
  unfold stamped. destruct (restamp_fails lk l); [done|]. destruct (find_for l k) as [[[i x] t]|]; [|done].
  split_and!; [done | done|]. intros a. split; intros [? ? ? ? ? ?]; by split.
Qed.

Lemma stamped_none lk l k : find_for l k = None -> stamped lk l k = k.
Proof. unfold stamped. intros ->. by destruct (restamp_fails lk l). Qed.

Lemma persist_rows lk l w j :
  In j (db_jobs (w_db (fst (Matcher._persist_attribution lk l w)))) <->
  exists k, In k (db_jobs (w_db w)) /\ j = stamped lk l k.
Proof.
  unfold Matcher._persist_attribution, stamped. destruct l as [|a l].
  { simpl. destruct (restamp_fails lk []); (split; [intros H; by exists j | by intros (k & Hk & ->)]). }
  unfold try_except. destruct (restamp_fails lk (a :: l)).
  { simpl. split; [intros H; by exists j | by intros (k & Hk & ->)]. }
  simpl. fold (find_for (a :: l)). rewrite in_update_where.
  split; intros (k & Hk & ->); exists k; (split; [done|]);
    unfold find_for; simpl; destruct a as [[? ?] ?]; destruct (lease_guard _ _ k); try done;
    by destruct (List.find _ l) as [[[? ?] ?]|].
Qed.

Lemma persist_store lk l w :
  rg_store (w_registry (fst (Matcher._persist_attribution lk l w))) = rg_store (w_registry w).
Proof.
  unfold Matcher._persist_attribution, try_except. destruct l as [|a l]; [done|]. by destruct (restamp_fails lk (a :: l)).
Qed.

Lemma wf_token_lt db j t : wf db -> In j (db_jobs db) -> j_lease_token j = Some t -> (t < db_uuid_seq db)%N.
Proof.
  intros Hwf Hj Ht. pose proof (wf_tokens_lt _ _ _ (wf_j _ Hwf)) as H. rewrite List.Forall_forall in H. apply H.
  apply list_elem_of_In, list_elem_of_omap. exists j. split; [by apply list_elem_of_In | done].
Qed.

(** A queued, due job that runs on the tags, with no group and no rate class, not
    locked by another claimer. *)
Record plain (lk : locks) (tags : list string) (now : time) (j : Job) : Prop := mkPlain {
  pl_queued : j_state j = QUEUED;
  pl_due : j_run_at j <= now;
  pl_tags : subset (c_runs_on j) tags = true;
  pl_group : c_group_key j = None;
  pl_rate : c_rate_class j = None;
  pl_unlocked : locked_job lk (c_id j) = false
}.

(** A claim that leaves a plain job behind is full. *)
Lemma claim_leaves_full lk tags ex lim by_ cap q w w' claimed j :
  wf (w_db w) -> 0 <= lim -> in_tx (repo.claim lk tags ex lim by_ cap q) w = (w', Ok claimed) ->
  plain lk tags (db_now (w_db w)) j -> In j (db_jobs (w_db w)) -> In j (db_jobs (w_db w')) ->
  Z.of_nat (length claimed) = lim.
Proof.
  intros Hwf Hlim E [Hq Hd Ht Hg Hr Hu] Hj Hj'. pose proof (stable_in_tx _ (stable_claim lk tags ex lim by_ cap q) w Hwf) as [Hwf' _].
  rewrite E in Hwf'. unfold in_tx, on_db, transaction in E.
  destruct (repo.claim lk tags ex lim by_ cap q (w_db w)) as [db' [cs|e]] eqn:Ec; simplify_eq/=.
  destruct (claim_work_conserving lk tags ex lim by_ cap q _ _ _ j Hwf Hlim Ec Hj Hq Hd Ht Hg Hr Hu) as [Hin|[? _]]; [|done].
  exfalso. apply in_map_iff in Hin as (c & Hid & Hc).
  destruct (taken_claimed _ _ _ _ _ _ _ _ _ _ _ Hwf Ec Hc) as (x & _ & R).
  destruct (rc_lease _ _ _ _ _ _ _ R) as (tok & k & _ & _ & Hk & Hgd & _).
  apply lease_guard_spec in Hgd as (Hi & _ & Hs). rewrite (rc_id _ _ _ _ _ _ _ R) in Hid.
  assert (k = j) as ->; [|congruence]. apply (NoDup_map_inj job_id (db_jobs db')); [by apply wf_job_ids | done | done |].
  unfold job_id. congruence.
Qed.

Section Sent.
Context (lk : locks) (cfg : SymbaConfig) (tags ex : list string) (ws : list Matcher.slotw) (q : gmap string Z)
  (up : list (uuid * list UpstreamRow)) (w w1 w2 w3 w4 : World) (claimed : list repo.ClaimedJob)
  (n : Z) (at_ : list (uuid * string * uuid)).
Hypothesis (Hwf : wf (w_db w)) (Hsn : snapshot_of w ws) (Hq1 : quiet w w1).
Hypothesis (Hc : in_tx (repo.claim lk tags ex (group_limit ws w) (Matcher.engine_label tags)
                          (Matcher._per_group_cap cfg (group_limit ws w)) q) w1 = (w2, Ok claimed)).
Hypothesis (Hq2 : quiet w2 w3).
Hypothesis (Ha : Matcher._assign_round_robin cfg tags (Matcher._fairness_shape claimed) ws up (group_capacity ws w) w3
                 = (w4, Ok (n, at_))).

Let w' := fst (Matcher._persist_attribution lk at_ w4).

Lemma sent_wf1 : wf (w_db w1).
Proof. destruct Hq1 as [H _]. by apply H. Qed.

Lemma sent_limit : Z.of_nat (length claimed) <= group_limit ws w.
Proof.
  pose proof (in_tx_returns _ _ _ _ Hc) as Ec.
  rewrite <- (length_map repo.cj_id claimed), (claim_ids _ _ _ _ _ _ _ _ _ _ Ec), length_map,
    (taken_perm _ _ _ _ _ _ _ sent_wf1).
  etrans; [apply candidate_length|]. rewrite (limit_rooms w ws Hsn). unfold rooms.
  generalize (group_capacity ws w). intros m. clear. induction ws; simpl; lia.
Qed.

(** The placement behind the hand-over. *)
Lemma sent_placed : exists placed,
  at_ = map attributed placed /\ n = Z.of_nat (length placed)
  /\ w_db w4 = w_db w3
  /\ (forall r, rg_store (w_registry w4) !! r = pushes (sent_to cfg up placed r) <$> rg_store (w_registry w3) !! r)
  /\ (forall p, In p placed -> In (snd p) ws)
  /\ (forall id, load id placed <= default 0 (group_capacity ws w !! id))
  /\ (forall c, In c claimed <-> In c (map fst placed))
  /\ Permutation (map fst placed) claimed
  /\ (Z.of_nat (length claimed) = group_limit ws w -> forall x, In x ws ->
        load (fst x) placed = default 0 (group_capacity ws w !! fst x)).
Proof.
  destruct (assign_effect _ _ _ _ _ _ _ _ _ _ Ha) as (start & Hdb & Hn & Hat & Hst).
  set (placed := Matcher.a_placed _) in *. exists placed.
  assert (Permutation (order_by Matcher.worker_le ws) ws) as Hp by apply order_by_perm.
  assert (List.NoDup (map fst (order_by Matcher.worker_le ws))) as Hnd.
  { eapply Permutation_NoDup; [apply Permutation_map; symmetry; exact Hp | apply (sn_ids _ _ Hsn)]. }
  destruct (assign_assigned _ start _ (Matcher._fairness_shape claimed) Hnd (capacity_nonneg w ws Hsn)) as [Hj Hw Hl Hr Ho].
  fold placed in Hj, Hw, Hl, Hr, Ho.
  assert (Permutation (map fst placed) claimed) as Hperm.
  { unfold placed. rewrite assign_complete; [apply fairness_perm|done|by apply capacity_nonneg|].
    rewrite fairness_perm, (rooms_perm _ _ _ Hp), <- (limit_rooms w ws Hsn). apply sent_limit. }
  split_and!; try done.
  - intros p Hin. rewrite List.Forall_forall in Hw. by apply (order_by_In Matcher.worker_le), Hw.
  - intros id. specialize (Hl id). specialize (Hr id). lia.
  - intros c. rewrite <- !list_elem_of_In. by rewrite Hperm.
  - intros Hfull x Hx. rewrite (rooms_perm _ _ _ Hp) in Ho. rewrite (limit_rooms w ws Hsn) in Hfull.
    rewrite <- Hperm, length_map, <- (rooms_perm _ _ _ Hp) in Hfull.
    assert (rooms (Matcher.a_remaining (Matcher.assign_all (order_by Matcher.worker_le ws) start
              (group_capacity ws w) (Matcher._fairness_shape claimed))) ws <= 0) as Hz by lia.
    specialize (Hl (fst x)). specialize (Hr (fst x)).
    pose proof (rooms_zero _ ws x Hz Hx).
    unfold room in *. lia.
Qed.

(** The tokens of the attribution are drawn by this claim. *)
Lemma sent_fresh id x tok : In (id, x, tok) at_ ->
  exists p, In (snd p) ws /\ In (fst p) claimed /\ (id, x, tok) = attributed p
    /\ repo.cj_lease_token (fst p) = Some tok /\ (db_uuid_seq (w_db w1) <= tok)%N
    /\ (forall c, rg_store (w_registry w) !! snd (snd p) = Some c -> wc_worker_id c = x).
Proof.
  intros Hin. destruct sent_placed as (placed & -> & _ & _ & _ & Hws & _ & Hcl & _).
  apply in_map_iff in Hin as (p & Ep & Hp). exists p.
  assert (In (fst p) claimed) as Hpc by (apply Hcl; by apply in_map).
  pose proof (in_tx_returns _ _ _ _ Hc) as Ec.
  destruct (taken_claimed _ _ _ _ _ _ _ _ _ _ _ sent_wf1 Ec Hpc) as (j & _ & R).
  destruct (rc_lease _ _ _ _ _ _ _ R) as (tok' & k & Ht & Hle & _). unfold attributed in Ep. rewrite Ht in Ep.
  simpl in Ep. injection Ep as E1 E2 E3. subst. split_and!; try done; [by apply Hws | by unfold attributed; rewrite Ht |].
  intros c Hcn. pose proof (Hws p Hp) as Hpw. destruct p as [cj [x r]]. simpl in *.
  destruct (sn_conns _ _ Hsn x r Hpw) as (c' & ? & ? & _). congruence.
Qed.

Lemma sent_jobs : db_jobs (w_db w4) = db_jobs (w_db w2).
Proof.
  destruct sent_placed as (placed & _ & _ & Hdb & _). rewrite Hdb. by destruct Hq2 as (_ & ? & _).
Qed.

(** A row of the database before the claim is not attributed. *)
Lemma sent_old j a : In j (db_jobs (w_db w)) -> In a at_ -> lease_guard (fst (fst a)) (snd a) j = false.
Proof.
  intros Hj Hin. destruct a as [[id x] tok]. destruct (lease_guard _ _ j) eqn:Eg; [exfalso|done].
  destruct (sent_fresh id x tok Hin) as (_ & _ & _ & _ & _ & Hle & _).
  apply lease_guard_spec in Eg as (_ & Et & _). destruct Hq1 as (_ & Ej & _). rewrite <- Ej in Hj.
  pose proof (wf_token_lt _ _ _ sent_wf1 Hj Et). simpl in *. lia.
Qed.

Lemma find_for_old j : In j (db_jobs (w_db w)) -> find_for at_ j = None.
Proof.
  intros Hj. destruct (find_for at_ j) as [a|] eqn:E; [exfalso|done]. apply find_for_spec in E as [Hin Hg].
  by rewrite (sent_old j a Hj Hin) in Hg.
Qed.

Lemma sent_running : keeps_running w w'.
Proof.
  intros j Hj Hr. apply persist_rows. exists j. rewrite (stamped_none lk at_ j (find_for_old j Hj)). split; [|done].
  rewrite sent_jobs. apply (dv_running _ _ _ (claim_delivers _ _ _ _ _ _ _ _ _ _ sent_wf1 Hc)); [|done].
  by destruct Hq1 as (_ & -> & _).
Qed.

Lemma sent_queued j : In j (db_jobs (w_db w')) -> j_state j = QUEUED -> In j (db_jobs (w_db w)).
Proof.
  intros (k & Hk & ->)%persist_rows Hs. rewrite sent_jobs in Hk.
  pose proof (stamped_frame lk at_ k) as (_ & Es & _). rewrite Es in Hs.
  destruct (find_for at_ k) as [[[id x] tok]|] eqn:Ef; [|rewrite (stamped_none lk at_ k Ef)].
  - apply find_for_spec in Ef as [_ Hg]. apply lease_guard_spec in Hg as (_ & _ & Hg). simpl in *. congruence.
  - apply (dv_queued _ _ _ (claim_delivers _ _ _ _ _ _ _ _ _ _ sent_wf1 Hc)) in Hk; [|done].
    by destruct Hq1 as (_ & <- & _).
Qed.

(** A row taken by the claim is one of the batch. *)
Lemma sent_taken k : In k (db_jobs (w_db w2)) -> In k (db_jobs (w_db w)) \/
  exists c, In c claimed /\ repo.cj_id c = c_id k /\ repo.cj_lease_token c = j_lease_token k /\ j_state k = RUNNING
    /\ j_claimed_by k = Some (Matcher.engine_label tags).
Proof.
  intros Hk. pose proof (in_tx_returns _ _ _ _ Hc) as Ec.
  apply claim_ok in Ec as (_ & Ej & _ & E). rewrite Ej in Hk. apply in_update_where in Hk as (x & Hx & Ek).
  destruct (in_ids _ x) eqn:Ei; [right | left; subst k; by destruct Hq1 as (_ & <- & _)].
  match type of E with _ = map ?f ?l =>
    assert (In x l) as Hin by (by apply in_sel); apply (in_map f) in Hin end.
  rewrite <- E in Hin. apply in_map_iff in Hin as (c & [= E1 E2 _ _] & Hin). exists c. subst k. by split_and!.
Qed.

Lemma sent_token c : In c claimed -> repo.cj_lease_token c = Some (default 0%N (repo.cj_lease_token c)).
Proof.
  intros Hin. pose proof (in_tx_returns _ _ _ _ Hc) as Ec.
  destruct (taken_claimed _ _ _ _ _ _ _ _ _ _ _ sent_wf1 Ec Hin) as (j & _ & R).
  destruct (rc_lease _ _ _ _ _ _ _ R) as (tok & k & Ht & _). by rewrite Ht.
Qed.

(** A row of a job of the batch is attributed. *)
Lemma sent_found k placed : at_ = map attributed placed -> (forall c, In c claimed <-> In c (map fst placed)) ->
  In k (db_jobs (w_db w2)) -> In k (db_jobs (w_db w)) \/ find_for at_ k <> None.
Proof.
  intros Hat Hcl Hk. destruct (sent_taken k Hk) as [?|(c & Hin & Hid & Htok & Hrun & _)]; [by left|right]. intros Ef.
  pose proof (sent_token c Hin) as Ht. apply Hcl in Hin. apply in_map_iff in Hin as (p & <- & Hp).
  pose proof (List.find_none _ _ Ef (attributed p) ltac:(rewrite Hat; by apply in_map)) as Hx. simpl in Hx.
  unfold lease_guard in Hx. rewrite Hid, <- Htok, N.eqb_refl, Hrun, Ht in Hx. simpl in Hx.
  unfold opt_N_eqb in Hx. by rewrite bool_decide_true in Hx.
Qed.

(** A claimed job is the view of its row. *)
Lemma sent_view cj k : In cj claimed -> In k (db_jobs (w_db w2)) -> repo.cj_id cj = c_id k ->
  exists ck, cj = repo._to_claimed (k, ck).
Proof.
  intros Hin Hk Hid. pose proof (in_tx_returns _ _ _ _ Hc) as Ec. pose proof Ec as Er. rewrite claim_run in Er.
  destruct (claim_error _); [done|]. injection Er as _ Hcs. rewrite <- Hcs in Hin. rewrite !map_map in Hin.
  apply in_map_iff in Hin as (x & <- & Hx). simpl in Hid. eexists. f_equal. f_equal.
  apply (NoDup_map_inj job_id (db_jobs (w_db w2))); [| |done | exact Hid].
  - apply wf_job_ids. apply (claim_delivers _ _ _ _ _ _ _ _ _ _ sent_wf1 Hc), sent_wf1.
  - apply claim_ok in Ec as (_ & -> & _ & _). apply in_update_where. exists x.
    apply in_sel in Hx as [Hx Hi]. by rewrite Hi.
Qed.

Lemma sent_hands_out placed : at_ = map attributed placed -> (forall c, In c claimed <-> In c (map fst placed)) ->
  (forall p, In p placed -> In (snd p) ws) -> hands_out lk w w' (sent_to cfg up placed).
Proof.
  intros Hat Hcl Hws j Hj Hr. apply persist_rows in Hj as (k & Hk & ->). rewrite sent_jobs in Hk.
  destruct (sent_taken k Hk) as [Hkw|(_ & _ & _ & _ & _ & Hlab)];
    [left; by rewrite (stamped_none lk at_ k (find_for_old k Hkw))|].
  destruct (sent_found k placed Hat Hcl Hk) as [Hkw|Hf];
    [left; by rewrite (stamped_none lk at_ k (find_for_old k Hkw))|right].
  destruct (find_for at_ k) as [[[id x] tok]|] eqn:Ef; [clear Hf|done].
  assert (attribution_of lk x (stamped lk at_ k)) as Hattr.
  { unfold attribution_of, stamped. destruct (restamp_fails lk at_) eqn:Er; [right; eauto|]. rewrite Ef. by left. }
  apply find_for_spec in Ef as [Hin Hg]. rewrite Hat in Hin. apply in_map_iff in Hin as ([cj [y r]] & Ep & Hp).
  pose proof (Hws _ Hp) as Hw. destruct (sn_conns _ _ Hsn y r Hw) as (cn & Hcn & Hy & _).
  exists r, cn, (message cfg up (cj, (y, r))). apply lease_guard_spec in Hg as (G1 & _ & _). simpl in *.
  unfold attributed in Ep. simpl in Ep. injection Ep as E1 E2 E3. split_and!; [done | | | by rewrite Hy, E2].
  - unfold sent_to. apply in_map, filter_In. simpl. by rewrite Nat.eqb_refl.
  - assert (In cj claimed) as Hcj by (apply Hcl; by apply (in_map fst) in Hp).
    apply (stamped_frame lk at_ k). destruct (sent_view cj k Hcj Hk) as [ck ->]; [congruence|]. done.
Qed.

Lemma sent_load placed id r : (forall p, In p placed -> In (snd p) ws) -> In (id, r) ws ->
  Z.of_nat (length (sent_to cfg up placed r)) = load id placed.
Proof.
  intros Hws Hin. unfold sent_to, load, count. rewrite length_map. f_equal. f_equal. apply filter_ext_in.
  intros [cj [y r']] Hp. pose proof (Hws _ Hp) as Hy. simpl in *.
  destruct (Nat.eqb_spec r' r) as [->|Hne].
  - symmetry. apply String.eqb_eq. destruct (sn_conns _ _ Hsn y r Hy) as (c1 & ? & ? & _).
    destruct (sn_conns _ _ Hsn id r Hin) as (c2 & ? & ? & _). congruence.
  - symmetry. apply String.eqb_neq. intros ->. apply Hne.
    pose proof (NoDup_map_inj fst ws (id, r') (id, r) (sn_ids _ _ Hsn) Hy Hin eq_refl) as E. congruence.
Qed.

Lemma sent_bound placed id r c :
  (forall p, In p placed -> In (snd p) ws) -> (forall id, load id placed <= default 0 (group_capacity ws w !! id)) ->
  In (id, r) ws -> rg_store (w_registry w) !! r = Some c ->
  Z.of_nat (length (sent_to cfg up placed r)) <= free_capacity (w_db w) c.
Proof.
  intros Hws Hl Hin Hcn. rewrite (sent_load placed id r Hws Hin). specialize (Hl id).
  by rewrite (capacity_lookup w ws Hsn id r c Hin Hcn) in Hl.
Qed.

Lemma sent_delivers : exists sent, delivers w w' sent /\ hands_out lk w w' sent
  /\ (forall r, ~ In r (map snd ws) -> sent r = [])
  /\ (forall id r c, In (id, r) ws -> rg_store (w_registry w) !! r = Some c ->
        Z.of_nat (length (sent r)) <= free_capacity (w_db w) c).
Proof.
  destruct sent_placed as (placed & Hat & _ & Hdb & Hst & Hws & Hl & Hcl & _).
  exists (sent_to cfg up placed). split_and!.
  - split; [| | apply sent_running | apply sent_queued].
    + transitivity w4; [|apply (stable_persist_attribution lk at_ w4)].
      transitivity w2; [transitivity w1; [apply Hq1 | apply (claim_delivers _ _ _ _ _ _ _ _ _ _ sent_wf1 Hc)]|].
      transitivity w3; [apply Hq2|]. unfold db_keeps. by rewrite Hdb.
    + intros r. unfold w'. rewrite persist_store, Hst. destruct Hq2 as (_ & _ & ->).
      rewrite (dv_store _ _ _ (claim_delivers _ _ _ _ _ _ _ _ _ _ sent_wf1 Hc)), pushes_nothing.
      by destruct Hq1 as (_ & _ & ->).
  - by apply sent_hands_out.
  - intros r Hr. unfold sent_to. rewrite sel_none; [done|]. intros p Hp. apply Nat.eqb_neq. intros <-.
    apply Hr. by apply in_map, Hws.
  - intros id r c. by apply sent_bound.
Qed.

Lemma sent_full j : plain lk tags (db_now (w_db w)) j -> In j (db_jobs (w_db w')) ->
  Z.of_nat (length claimed) = group_limit ws w.
Proof.
  intros Hp Hj. pose proof (sent_queued j Hj (pl_queued _ _ _ _ Hp)) as Hjw.
  assert (In j (db_jobs (w_db w2))) as Hj2.
  { apply persist_rows in Hj as (k & Hk & Ej). rewrite sent_jobs in Hk. rewrite Ej.
    pose proof (stamped_frame lk at_ k) as (_ & Es & _).
    destruct (find_for at_ k) as [[[id x] tok]|] eqn:Ef; [|by rewrite (stamped_none lk at_ k Ef)].
    apply find_for_spec in Ef as [_ Hg]. apply lease_guard_spec in Hg as (_ & _ & Hg).
    pose proof (pl_queued _ _ _ _ Hp) as Hq. rewrite Ej, Es in Hq. simpl in *. congruence. }
  eapply claim_leaves_full; [apply sent_wf1 | | exact Hc | | | exact Hj2].
  - rewrite (limit_rooms w ws Hsn). unfold rooms. generalize (group_capacity ws w). intros m. clear. induction ws; simpl; lia.
  - destruct Hp as [? Hd ? ? ? ?]. split; try done. destruct Hq1 as (Hk & _ & _).
    destruct (Hk Hwf) as [_ Hev]. pose proof (ev_now _ _ Hev). lia.
  - by destruct Hq1 as (_ & -> & _).
Qed.
Lemma sent_ids (placed : list (repo.ClaimedJob * Matcher.slotw)) : Permutation (map fst placed) claimed ->
  List.NoDup (map (fun p => repo.cj_id (fst p)) placed).
Proof.
  intros Hperm. rewrite <- (map_map fst repo.cj_id).
  eapply Permutation_NoDup; [apply Permutation_map; symmetry; exact Hperm|].
  rewrite (claim_ids _ _ _ _ _ _ _ _ _ _ (in_tx_returns _ _ _ _ Hc)). apply (NoDup_sel_map job_id), wf_job_ids, sent_wf1.
Qed.

(** A job of the batch did not run before. *)
Lemma sent_not_running (placed : list (repo.ClaimedJob * Matcher.slotw)) p j : Permutation (map fst placed) claimed -> In p placed ->
  In j (db_jobs (w_db w)) -> c_id j = repo.cj_id (fst p) -> j_state j <> RUNNING.
Proof.
  intros Hperm Hp Hj Hid. assert (In (fst p) claimed) as Hpc by (eapply Permutation_in; [exact Hperm | by apply in_map]).
  destruct (taken_claimed _ _ _ _ _ _ _ _ _ _ _ sent_wf1 (in_tx_returns _ _ _ _ Hc) Hpc) as (x & _ & R).
  pose proof (rc_row _ _ _ _ _ _ _ R) as Hx. destruct Hq1 as (_ & E & _). rewrite E in Hx.
  assert (j = x) as ->; [|rewrite (rc_queued _ _ _ _ _ _ _ R); done].
  apply (NoDup_map_inj job_id (db_jobs (w_db w))); [by apply wf_job_ids | done | done|].
  unfold job_id. rewrite <- (rc_id _ _ _ _ _ _ _ R). done.
Qed.

(** A placed job runs under the name of its worker. *)
Lemma sent_row placed p : restamp_fails lk at_ = false -> at_ = map attributed placed -> Permutation (map fst placed) claimed -> In p placed ->
  exists j, In j (db_jobs (w_db w')) /\ c_id j = repo.cj_id (fst p) /\ j_state j = RUNNING
    /\ j_claimed_by j = Some (fst (snd p)).
Proof.
  intros Hst Hat Hperm Hp. pose proof (in_tx_returns _ _ _ _ Hc) as Ec.
  assert (In (fst p) claimed) as Hpc by (eapply Permutation_in; [exact Hperm | by apply in_map]).
  destruct (taken_claimed _ _ _ _ _ _ _ _ _ _ _ sent_wf1 Ec Hpc) as (x & _ & R).
  destruct (rc_lease _ _ _ _ _ _ _ R) as (tok & k & Ht & _ & Hk & Hg & _).
  pose proof (sent_ids placed Hperm) as Hnd. rewrite <- (rc_id _ _ _ _ _ _ _ R) in Hg.
  assert (find_for at_ k = Some (attributed p)) as Ef.
  { destruct (find_for at_ k) as [a|] eqn:Ef.
    - apply find_for_spec in Ef as [Hin Hg']. rewrite Hat in Hin. apply in_map_iff in Hin as (p' & <- & Hp').
      rewrite (NoDup_map_inj (fun p => repo.cj_id (fst p)) placed p' p Hnd Hp' Hp); [done|].
      apply lease_guard_spec in Hg as (E1 & _ & _). apply lease_guard_spec in Hg' as (E2 & _ & _). simpl in *. congruence.
    - exfalso. pose proof (List.find_none _ _ Ef (attributed p) ltac:(rewrite Hat; by apply in_map)) as Hx.
      simpl in Hx. rewrite Ht in Hx. simpl in Hx. congruence. }
  exists (set_j_claimed_by (Some (fst (snd p))) k). apply lease_guard_spec in Hg as (Hi & _ & Hs). split_and!; try done.
  apply persist_rows. exists k. unfold stamped. rewrite Hst, Ef. split; [|done]. by rewrite sent_jobs.
Qed.

(** The jobs sent to a worker count among those that run there. *)
Lemma sent_running_at placed id r :
  restamp_fails lk at_ = false -> at_ = map attributed placed -> Permutation (map fst placed) claimed -> (forall p, In p placed -> In (snd p) ws) ->
  In (id, r) ws -> running_at (w_db w) id + Z.of_nat (length (sent_to cfg up placed r)) <= running_at (w_db w') id.
Proof.
  intros Hst Hat Hperm Hws Hin. rewrite (sent_load placed id r Hws Hin). unfold running_at, load, count.
  set (P := fun j : Job => _). rewrite <- Nat2Z.inj_add. apply Nat2Z.inj_le.
  rewrite <- (length_map job_id (List.filter P (db_jobs (w_db w')))), <- (length_map job_id (List.filter P (db_jobs (w_db w)))).
  rewrite <- (length_map (fun p => repo.cj_id (fst p)) (List.filter _ placed)), <- length_app.
  apply NoDup_incl_length.
  - apply NoDup_ListNoDup, list.NoDup_app. split_and!.
    + apply NoDup_ListNoDup, NoDup_sel_map. by apply wf_job_ids.
    + intros i Hi Hi'. apply list_elem_of_In in Hi, Hi'. apply in_map_iff in Hi as (j & <- & [Hj Hp]%in_sel).
      apply in_map_iff in Hi' as (p & Ei & [Hp' _]%in_sel). apply (sent_not_running placed p j Hperm Hp' Hj); [by symmetry|].
      unfold P in Hp. by destruct (j_state j).
    + apply NoDup_ListNoDup, NoDup_sel_map. eapply sent_ids; done.
  - intros i [Hi|Hi]%in_app_iff; apply in_map_iff in Hi as (x & <- & [Hx Hp]%in_sel).
    + apply (in_map job_id). apply in_sel. split; [|done]. apply sent_running; [done|].
      unfold P in Hp. by destruct (j_state x).
    + destruct (sent_row placed x Hst Hat Hperm Hx) as (j & Hj & <- & Hs & Hcb). apply (in_map job_id), in_sel.
      split; [done|]. unfold P. rewrite Hs, Hcb. apply String.eqb_eq in Hp. rewrite Hp. by rewrite bool_decide_true.
Qed.
End Sent.

(** ** Groups and passes *)

Record delivery (w w' : World) (ws : list Matcher.slotw) (sent : ref -> list JobAssignment) : Prop := mkDelivery {
  de_delivers : delivers w w' sent;
  de_others : forall r, ~ In r (map snd ws) -> sent r = [];
  de_bound : forall id r c, In (id, r) ws -> rg_store (w_registry w) !! r = Some c ->
    Z.of_nat (length (sent r)) <= free_capacity (w_db w) c
}.

Lemma snapshot_capacity w ws id r c :
  snapshot_of w ws -> In (id, r) ws -> rg_store (w_registry w) !! r = Some c -> 0 <= free_capacity (w_db w) c.
Proof.
  intros Hsn Hin Hc. destruct (sn_conns _ _ Hsn id r Hin) as (c' & ? & _ & ?). simplify_eq. unfold free_capacity. lia.
Qed.

Lemma delivery_nothing w w' ws : snapshot_of w ws -> delivers w w' nothing -> delivery w w' ws nothing.
Proof. intros Hsn Hd. split; [done | done|]. intros id r c Hin Hc. by apply (snapshot_capacity w ws id r c). Qed.

(** A program that delivers within the capacities and, when it returns, has handed
    out all it claimed. *)
Definition served {A} (lk : locks) (w : World) (ws : list Matcher.slotw) (p : World * result exn A) : Prop :=
  exists sent, delivery w (fst p) ws sent /\ (forall a, snd p = Ok a -> hands_out lk w (fst p) sent).

Lemma group_delivers lk cfg tags ws w :
  wf (w_db w) -> snapshot_of w ws -> served lk w ws (Matcher._match_tag_group lk cfg tags ws w).
Proof.
  intros Hwf Hsn. pose proof (group_runs lk cfg tags ws w) as Hrun. unfold ran, served in *.
  destruct Hrun as [Hlim | w' e Hq | ex q w1 w2 w' Hq1 Hc Hq2 _ | ex q w1 w2 w' claimed e Hq1 Hc Hq2
                   | ex q w1 w2 w3 claimed up w4 n at_ Hq1 Hc Hq2 Ha].
  - exists nothing. split; [by apply delivery_nothing, quiet_delivers | intros; by apply quiet_hands_out].
  - exists nothing. split; [by apply delivery_nothing, quiet_delivers | done].
  - assert (quiet w w') as Hq by (etrans; [exact Hq1|]; etrans; [by eapply empty_claim_quiet | exact Hq2]).
    exists nothing. split; [by apply delivery_nothing, quiet_delivers | intros; by apply quiet_hands_out].
  - exists nothing. split; [apply delivery_nothing; [done|] | done].
    assert (wf (w_db w1)) as Hwf1 by (by apply (proj1 Hq1)).
    apply (delivers_trans w w1 w' nothing nothing); [by apply quiet_delivers|].
    apply (delivers_trans w1 w2 w' nothing nothing); [by eapply claim_delivers | by apply quiet_delivers].
  - destruct (sent_delivers lk cfg tags ex ws q up w w1 w2 w3 w4 claimed n at_ Hwf Hsn Hq1 Hc Hq2 Ha)
      as (sent & Hd & Hh & Ho & Hb). exists sent. by split.
Qed.

(** Capacity only shrinks while other groups are served. *)
Lemma running_monotone w w' id : wf (w_db w) -> keeps_running w w' -> running_at (w_db w) id <= running_at (w_db w') id.
Proof.
  intros Hwf Hk. unfold running_at, count. apply Nat2Z.inj_le.
  apply (NoDup_incl_length (sel_NoDup _ _ (jobs_NoDup _ Hwf))). intros j [Hj Hp]%in_sel. apply in_sel.
  split; [|done]. apply Hk; [done|]. apply andb_prop in Hp as [Hp _]. by destruct (j_state j).
Qed.

Lemma delivery_snapshot w w' ws ws' sent :
  delivery w w' ws sent -> (forall r, In r (map snd ws) -> ~ In r (map snd ws')) ->
  snapshot_of w ws' -> snapshot_of w' ws'
  /\ (forall r, In r (map snd ws') -> rg_store (w_registry w') !! r = rg_store (w_registry w) !! r).
Proof.
  intros [Hd Ho _] Hdis Hsn.
  assert (forall r, In r (map snd ws') -> rg_store (w_registry w') !! r = rg_store (w_registry w) !! r) as Hst.
  { intros r Hr. rewrite (dv_store _ _ _ Hd), (Ho r), pushes_nothing; [done|]. intros H. by apply (Hdis r). }
  split; [|done]. split; [apply (sn_ids _ _ Hsn)|]. intros id r Hin. rewrite Hst by (by apply (in_map snd) in Hin).
  by apply (sn_conns _ _ Hsn).
Qed.

Lemma capacity_shrinks w w' c : wf (w_db w) -> keeps_running w w' -> free_capacity (w_db w') c <= free_capacity (w_db w) c.
Proof. intros Hwf Hk. pose proof (running_monotone w w' (wc_worker_id c) Hwf Hk). unfold free_capacity. lia. Qed.

Lemma delivery_app w w1 w2 ws1 ws2 s1 s2 :
  wf (w_db w) -> snapshot_of w ws2 -> (forall r, In r (map snd ws1) -> ~ In r (map snd ws2)) ->
  delivery w w1 ws1 s1 -> delivery w1 w2 ws2 s2 -> delivery w w2 (ws1 ++ ws2) (fun r => s1 r ++ s2 r).
Proof.
  intros Hwf Hsn Hdis D1 D2. destruct (delivery_snapshot _ _ _ _ _ D1 Hdis Hsn) as [_ Hst].
  destruct D1 as [V1 O1 B1], D2 as [V2 O2 B2]. split.
  - by eapply delivers_trans.
  - intros r Hr. rewrite map_app, in_app_iff in Hr. rewrite O1, O2 by tauto. done.
  - intros id r c Hin Hc. rewrite length_app. apply in_app_iff in Hin as [Hin|Hin].
    + rewrite (O2 r) by (apply Hdis; by apply (in_map snd) in Hin). simpl. rewrite Nat.add_0_r. by apply (B1 id).
    + rewrite (O1 r) by (intros H; apply (Hdis r H); by apply (in_map snd) in Hin). simpl.
      etrans; [apply (B2 id r c Hin); by rewrite Hst by (by apply (in_map snd) in Hin)|].
      apply (capacity_shrinks w w1 c Hwf). apply (dv_running _ _ _ V1).
Qed.

Lemma hands_out_app lk w w1 w2 s1 s2 :
  delivers w w1 s1 -> delivers w1 w2 s2 -> hands_out lk w w1 s1 -> hands_out lk w1 w2 s2 ->
  hands_out lk w w2 (fun r => s1 r ++ s2 r).
Proof.
  intros D1 D2 H1 H2 j Hj Hr. destruct (H2 j Hj Hr) as [Hj1|(r & c & a & Hc & Ha & E1 & E3)].
  - destruct (H1 j Hj1 Hr) as [?|(r & c & a & Hc & Ha & E)]; [by left|right].
    exists r, c, a. split; [done|]. split; [|done]. apply in_app_iff. by left.
  - right. rewrite (dv_store _ _ _ D1) in Hc. destruct (rg_store (w_registry w) !! r) as [c0|] eqn:E0; simplify_eq/=.
    exists r, c0, a. rewrite (proj1 (pushes_frame _ _)) in E3. split_and!; try done. apply in_app_iff. by right.
Qed.

Lemma groups_split w (g : list string * list Matcher.slotw) gs :
  snapshot_of w (concat (map snd (g :: gs))) -> List.NoDup (map snd (concat (map snd (g :: gs)))) ->
  snapshot_of w (snd g) /\ snapshot_of w (concat (map snd gs))
  /\ (forall r, In r (map snd (snd g)) -> ~ In r (map snd (concat (map snd gs))))
  /\ List.NoDup (map snd (concat (map snd gs))).
Proof.
  intros [Hids Hc] Hnd. cbn [map concat] in *. rewrite map_app in Hids, Hnd.
  apply NoDup_ListNoDup, list.NoDup_app in Hids as (N1 & _ & N2).
  apply NoDup_ListNoDup, list.NoDup_app in Hnd as (_ & Hdis & Hnd). split_and!.
  - split; [by apply NoDup_ListNoDup|]. intros id r Hin. apply Hc, in_app_iff. by left.
  - split; [by apply NoDup_ListNoDup|]. intros id r Hin. apply Hc, in_app_iff. by right.
  - intros r. rewrite <- !list_elem_of_In. apply Hdis.
  - by apply NoDup_ListNoDup.
Qed.

(** The tag groups of a pass, one after the other. *)
Lemma groups_deliver lk cfg (gs : list (list string * list Matcher.slotw)) w :
  wf (w_db w) -> snapshot_of w (concat (map snd gs)) -> List.NoDup (map snd (concat (map snd gs))) ->
  served lk w (concat (map snd gs))
    (forM (fun kv : list string * list Matcher.slotw => Matcher._match_tag_group lk cfg (fst kv) (snd kv)) gs w).
Proof.
  revert w. induction gs as [|[tags ws] gs IH]; intros w Hwf Hsn Hnd.
  { exists nothing. split; [apply delivery_nothing; [done | by apply quiet_delivers]|].
    intros l _. by apply quiet_hands_out. }
  destruct (groups_split _ _ _ Hsn Hnd) as (Hsn1 & Hsn2 & Hd & Hnd2). cbn [map concat snd] in *.
  destruct (group_delivers lk cfg tags ws w Hwf Hsn1) as (s1 & D1 & H1).
  cbn [forM]. unfold mbind at 1, M_bind, M_bind_def. cbn [fst snd].
  destruct (Matcher._match_tag_group lk cfg tags ws w) as [w1 [n|e]]; cbn [fst snd] in *.
  - destruct (delivery_snapshot _ _ _ _ _ D1 Hd Hsn2) as [Hsn2' _].
    assert (wf (w_db w1)) as Hwf1 by (by apply (dv_db _ _ _ (de_delivers _ _ _ _ D1))).
    destruct (IH w1 Hwf1 Hsn2' Hnd2) as (s2 & D2 & H2).
    unfold mbind, M_bind, M_bind_def. destruct (forM _ gs w1) as [w2 [l|e]]; cbn [fst snd] in *;
      exists (fun r => s1 r ++ s2 r); (split; [by eapply delivery_app|]); [intros l' _|done].
    eapply hands_out_app; [apply D1 | apply D2 | by eapply H1 | by eapply H2].
  - exists (fun r => s1 r ++ nothing r). split; [|done]. eapply delivery_app; [done..|].
    apply delivery_nothing; [by eapply delivery_snapshot | by apply quiet_delivers].
Qed.

(** ** Work conservation *)

(** A connection with no room: no announced slot left, or a full worker. *)
Definition no_room (w : World) (r : ref) : Prop :=
  forall c, rg_store (w_registry w) !! r = Some c ->
  wc_free_slots c <= 0 \/ wc_slots_total c <= running_at (w_db w) (wc_worker_id c).

Lemma plain_later lk tags w w' j :
  wf (w_db w) -> db_keeps w w' -> plain lk tags (db_now (w_db w)) j -> plain lk tags (db_now (w_db w')) j.
Proof. intros Hwf Hk [? ? ? ? ? ?]. destruct (Hk Hwf) as [_ Hev]. pose proof (ev_now _ _ Hev). split; try done. lia. Qed.

Lemma sent_no_room lk cfg tags ex ws q up w w1 w2 w3 w4 claimed n at_ j id r :
  (forall l, restamp_fails lk l = false) -> wf (w_db w) -> snapshot_of w ws -> quiet w w1 ->
  in_tx (repo.claim lk tags ex (group_limit ws w) (Matcher.engine_label tags)
           (Matcher._per_group_cap cfg (group_limit ws w)) q) w1 = (w2, Ok claimed) ->
  quiet w2 w3 ->
  Matcher._assign_round_robin cfg tags (Matcher._fairness_shape claimed) ws up (group_capacity ws w) w3
    = (w4, Ok (n, at_)) ->
  plain lk tags (db_now (w_db w)) j -> In j (db_jobs (w_db (fst (Matcher._persist_attribution lk at_ w4)))) ->
  In (id, r) ws -> no_room (fst (Matcher._persist_attribution lk at_ w4)) r.
Proof.
  intros Hlk Hwf Hsn Hq1 Hc Hq2 Ha Hp Hj Hin c' Hc'.
  pose proof (sent_full lk cfg tags ex ws q up w w1 w2 w3 w4 claimed n at_ Hwf Hsn Hq1 Hc Hq2 Ha j Hp Hj) as Hfull.
  destruct (sent_placed lk cfg tags ex ws q up w w1 w2 w3 w4 claimed n at_ Hwf Hsn Hq1 Hc Ha)
    as (placed & Hat & _ & _ & Hst & Hws & _ & _ & Hperm & Hload).
  pose proof (sent_running_at lk cfg tags ex ws q up w w1 w2 w3 w4 claimed n at_ Hwf Hsn Hq1 Hc Hq2 Ha
                placed id r (Hlk at_) Hat Hperm Hws Hin) as Hrun.
  specialize (Hload Hfull _ Hin). simpl in Hload. destruct (sn_conns _ _ Hsn id r Hin) as (c & Ec & Hid & Hf).
  rewrite (capacity_lookup w ws Hsn id r c Hin Ec) in Hload. simpl in Hload.
  rewrite <- (sent_load cfg ws up w Hsn placed id r Hws Hin) in Hload.
  rewrite persist_store, Hst in Hc'. destruct Hq2 as (_ & _ & E2). rewrite E2 in Hc'.
  rewrite (dv_store _ _ _ (claim_delivers _ _ _ _ _ _ _ _ _ _ (proj1 (proj1 Hq1 Hwf)) Hc)), pushes_nothing in Hc'.
  destruct Hq1 as (_ & _ & E1). rewrite E1, Ec in Hc'. simpl in Hc'. unfold free_capacity in Hload.
  rewrite pushes_spec in Hc' by lia. injection Hc' as <-. simpl. rewrite Hid in *. lia.
Qed.

Lemma group_full lk cfg tags ws w w' n j id r :
  (forall l, restamp_fails lk l = false) -> wf (w_db w) -> snapshot_of w ws -> Matcher._match_tag_group lk cfg tags ws w = (w', Ok n) ->
  plain lk tags (db_now (w_db w)) j -> In j (db_jobs (w_db w')) -> In (id, r) ws -> no_room w' r.
Proof.
  intros Hlk Hwf Hsn E Hp Hj Hin. pose proof (group_runs lk cfg tags ws w) as Hrun. rewrite E in Hrun. unfold ran in Hrun.
  simpl in Hrun. inversion Hrun as [Hlim | | ex q w1 w2 ? Hq1 Hc Hq2 Hpos | | ex q w1 w2 w3 claimed up w4 ? at_ Hq1 Hc Hq2 Ha]; subst.
  - intros c Hc. right. rewrite (limit_rooms w' ws Hsn) in Hlim. pose proof (rooms_zero _ _ _ Hlim Hin) as H0.
    unfold room in H0. simpl in H0. rewrite (capacity_lookup w' ws Hsn id r c Hin Hc) in H0. simpl in H0.
    destruct (sn_conns _ _ Hsn id r Hin) as (c' & ? & Hid & Hf). simplify_eq. unfold free_capacity in H0. lia.
  - exfalso. assert (wf (w_db w1)) as Hwf1 by (by apply (proj1 Hq1)). destruct Hq2 as (_ & E2 & _). rewrite E2 in Hj.
    pose proof (dv_queued _ _ _ (claim_delivers _ _ _ _ _ _ _ _ _ _ Hwf1 Hc) j Hj (pl_queued _ _ _ _ Hp)) as Hj1.
    pose proof (claim_leaves_full _ _ _ _ _ _ _ _ _ _ j Hwf1 (Z.lt_le_incl _ _ Hpos) Hc
                  (plain_later _ _ _ _ _ Hwf (proj1 Hq1) Hp) Hj1 Hj) as Hl. simpl in Hl. lia.
  - by eapply sent_no_room.
Qed.

Lemma no_room_delivery w w' ws sent r :
  wf (w_db w) -> delivery w w' ws sent -> ~ In r (map snd ws) -> no_room w r -> no_room w' r.
Proof.
  intros Hwf [Hd Ho _] Hr Hn c Hc. rewrite (dv_store _ _ _ Hd), (Ho r Hr), pushes_nothing in Hc.
  destruct (Hn c Hc) as [?|H]; [by left | right]. etrans; [exact H|]. by apply running_monotone, (dv_running _ _ _ Hd).
Qed.

Lemma groups_full lk cfg (gs : list (list string * list Matcher.slotw)) w w' ns tags ws j id r :
  (forall l, restamp_fails lk l = false) -> wf (w_db w) -> snapshot_of w (concat (map snd gs)) -> List.NoDup (map snd (concat (map snd gs))) ->
  forM (fun kv : list string * list Matcher.slotw => Matcher._match_tag_group lk cfg (fst kv) (snd kv)) gs w = (w', Ok ns) ->
  In (tags, ws) gs -> plain lk tags (db_now (w_db w)) j -> In j (db_jobs (w_db w')) -> In (id, r) ws -> no_room w' r.
Proof.
  intros Hlk. revert w ns. induction gs as [|[tags0 ws0] gs IH]; intros w ns Hwf Hsn Hnd E Hg Hp Hj Hin; [done|].
  destruct (groups_split _ _ _ Hsn Hnd) as (Hsn1 & Hsn2 & Hd & Hnd2).
  destruct (group_delivers lk cfg tags0 ws0 w Hwf Hsn1) as (s1 & D1 & _).
  cbn [forM] in E. unfold mbind at 1, M_bind, M_bind_def in E. cbn [fst snd] in E.
  destruct (Matcher._match_tag_group lk cfg tags0 ws0 w) as [w1 [n|e]] eqn:E0; [|done]. cbn [fst snd] in *.
  assert (wf (w_db w1)) as Hwf1 by (by apply (dv_db _ _ _ (de_delivers _ _ _ _ D1))).
  destruct (delivery_snapshot _ _ _ _ _ D1 Hd Hsn2) as [Hsn2' _].
  destruct (groups_deliver lk cfg gs w1 Hwf1 Hsn2' Hnd2) as (s2 & D2 & _).
  unfold mbind, M_bind, M_bind_def in E. destruct (forM _ gs w1) as [w2 [l|e]] eqn:E2; [|done].
  cbn [fst] in D2. injection E as <- _. destruct Hg as [[= <- <-]|Hg].
  - eapply no_room_delivery; [exact Hwf1 | exact D2 | apply Hd; by apply (in_map snd) in Hin |].
    eapply group_full; [exact Hlk | exact Hwf | exact Hsn1 | exact E0 | exact Hp | | exact Hin].
    apply (dv_queued _ _ _ (de_delivers _ _ _ _ D2)); [done | apply Hp].
  - eapply IH; [exact Hwf1 | exact Hsn2' | exact Hnd2 | exact E2 | exact Hg | | exact Hj | exact Hin].
    eapply plain_later; [exact Hwf | apply (de_delivers _ _ _ _ D1) | exact Hp].
Qed.

(** ** The registry *)

(** Ids are different, and the object registered under an id carries it. *)
Record coherent (g : Registry) : Prop := mkCoherent {
  co_ids : List.NoDup (map fst (rg_workers g));
  co_conns : forall id r, In (id, r) (rg_workers g) -> exists c, rg_store g !! r = Some c /\ wc_worker_id c = id
}.

Definition available (g : Registry) (x : string * ref) : bool :=
  match rg_store g !! snd x with Some c => 0 <? wc_free_slots c | None => false end.

Definition snapshot_slots (g : Registry) : list (Matcher.slotw * gset string) :=
  omap (fun r => match rg_store g !! r with
                 | Some c => Some ((wc_worker_id c, r), wc_tags c)
                 | None => None
                 end)
    (List.filter (fun r => match WorkerRegistry.conn_of g r with Some c => 0 <? wc_free_slots c | None => false end)
       (map snd (rg_workers g))).

Lemma snapshot_slots_fst g : coherent g -> map fst (snapshot_slots g) = List.filter (available g) (rg_workers g).
Proof.
  intros [_ Hc]. unfold snapshot_slots, available, WorkerRegistry.conn_of.
  induction (rg_workers g) as [|[id r] l IH]; [done|]. cbn [map snd List.filter].
  specialize (IH (fun id' r' H => Hc id' r' (or_intror H))).
  destruct (Hc id r (or_introl eq_refl)) as (c & Ec & <-). rewrite Ec.
  destruct (0 <? wc_free_slots c); [|exact IH]. cbn [omap list_omap]. rewrite Ec. cbn [map fst]. by f_equal.
Qed.

Lemma add_group_perm k x g :
  Permutation (concat (map snd (Matcher.add_group k x g))) (concat (map snd g) ++ [x]).
Proof.
  induction g as [|[k' l] g IH]; simpl; [done|]. destruct (bool_decide _); simpl.
  - rewrite <- !app_assoc. apply Permutation_app_head. apply Permutation_app_comm.
  - rewrite IH. by rewrite app_assoc.
Qed.

Lemma group_by_tags_perm ws : Permutation (concat (map snd (Matcher._group_by_tags ws))) (map fst ws).
Proof.
  unfold Matcher._group_by_tags. induction ws as [|x ws IH] using rev_ind; [done|].
  rewrite foldl_app, map_app. cbn [foldl map]. by rewrite add_group_perm, IH.
Qed.

Lemma coherent_refs g : coherent g -> List.NoDup (map snd (rg_workers g)).
Proof.
  intros [Hids Hc]. induction (rg_workers g) as [|[id r] l IH]; [constructor|]. cbn [map fst snd] in *.
  apply NoDup_cons_iff in Hids as [Hn Hids]. constructor; [|by apply IH; [|intros; apply Hc; right]].
  intros ([id' r'] & E & Hin)%in_map_iff. simpl in E. subst r'. apply Hn.
  destruct (Hc id r (or_introl eq_refl)) as (c & E1 & <-).
  destruct (Hc id' r (or_intror Hin)) as (c' & E2 & E3). simplify_eq. by apply (in_map fst) in Hin.
Qed.

Lemma pass_snapshot w : coherent (w_registry w) ->
  let ws := concat (map snd (Matcher._group_by_tags (snapshot_slots (w_registry w)))) in
  snapshot_of w ws /\ List.NoDup (map snd ws) /\ (forall x, In x ws -> In x (rg_workers (w_registry w))).
Proof.
  intros Hco ws. set (avail := List.filter (available (w_registry w)) (rg_workers (w_registry w))).
  assert (Permutation ws avail) as Hp by (unfold ws; by rewrite group_by_tags_perm, snapshot_slots_fst).
  assert (forall x, In x ws -> In x avail) as Hin by (intros x; by apply Permutation_in).
  split_and!.
  - split.
    + eapply Permutation_NoDup; [apply Permutation_map; symmetry; exact Hp|]. apply NoDup_sel_map, (co_ids _ Hco).
    + intros id r [H Ha]%Hin%filter_In. destruct (co_conns _ Hco id r H) as (c & Hc & Hid). exists c.
      unfold available in Ha. simpl in Ha. rewrite Hc in Ha. split_and!; try done. lia.
  - eapply Permutation_NoDup; [apply Permutation_map; symmetry; exact Hp|]. apply NoDup_sel_map. by apply coherent_refs.
  - by intros x [H _]%Hin%filter_In.
Qed.

Lemma pass_serves lk cfg w : wf (w_db w) -> coherent (w_registry w) ->
  served lk w (concat (map snd (Matcher._group_by_tags (snapshot_slots (w_registry w))))) (Dispatcher.pass_ lk cfg w).
Proof.
  intros Hwf Hco. destruct (pass_snapshot w Hco) as (Hsn & Hnd & _).
  destruct (groups_deliver lk cfg _ w Hwf Hsn Hnd) as (sent & Hd & Hh).
  unfold Dispatcher.pass_, Matcher.pass_, WorkerRegistry.snapshot_available. run.
  fold (snapshot_slots (w_registry w)). exists sent.
  destruct (forM _ _ w) as [w' [ns|e]]; (split; [exact Hd|]); [|done]. intros n _. by apply (Hh ns).
Qed.

(** Every worker of the snapshot is in the group of its tags. *)
Lemma add_group_In k x g : exists l, In (k, l) (Matcher.add_group k x g) /\ In x l.
Proof.
  induction g as [|[k' l] g IH]; simpl; [exists [x]; split; by left|]. destruct (bool_decide_reflect (k = k')) as [->|].
  - exists (l ++ [x]). split; [by left|]. apply in_app_iff. right. by left.
  - destruct IH as (l' & H1 & H2). exists l'. split; [by right | done].
Qed.

Lemma add_group_keeps k x g k' l y : In (k', l) g -> In y l ->
  exists l', In (k', l') (Matcher.add_group k x g) /\ In y l'.
Proof.
  induction g as [|[k0 l0] g IH]; simpl; [done|]. intros [[= -> ->]|Hin] Hy.
  - destruct (bool_decide_reflect (k = k')) as [->|]; [exists (l ++ [x]) | exists l]; (split; [by left|]); [|done].
    apply in_app_iff. by left.
  - destruct (bool_decide_reflect (k = k0)); [exists l; split; [by right | done]|].
    destruct (IH Hin Hy) as (l' & H1 & H2). exists l'. split; [by right | done].
Qed.

Lemma group_of x ws : In x ws ->
  exists l, In (sorted_set (snd x), l) (Matcher._group_by_tags ws) /\ In (fst x) l.
Proof.
  unfold Matcher._group_by_tags. induction ws as [|y ws IH] using rev_ind; [done|].
  rewrite foldl_app. cbn [foldl]. intros [Hin|[<-|[]]]%in_app_iff; [|apply add_group_In].
  destruct (IH Hin) as (l & H1 & H2). by eapply add_group_keeps.
Qed.

Lemma snapshot_slots_In g r c : coherent g -> In (wc_worker_id c, r) (rg_workers g) -> rg_store g !! r = Some c ->
  0 < wc_free_slots c -> In ((wc_worker_id c, r), wc_tags c) (snapshot_slots g).
Proof.
  intros Hco Hin Hc Hf. unfold snapshot_slots. apply list_elem_of_In, list_elem_of_omap. exists r.
  rewrite Hc. split; [|done]. apply list_elem_of_In, filter_In. unfold WorkerRegistry.conn_of. rewrite Hc.
  split; [by apply (in_map snd) in Hin|]. lia.
Qed.

Lemma subset_sorted (l : list string) (s : gset string) :
  (forall t, In t l -> t ∈ s) -> subset l (sorted_set s) = true.
Proof.
  intros H. unfold subset. apply forallb_forall. intros t Ht. apply existsb_exists. exists t.
  rewrite String.eqb_refl. split; [|done]. apply order_by_In, list_elem_of_In, elem_of_elements. by apply H.
Qed.
