(* ===== verification/FlowControl.v ===== *)
(** * The life of an engine's registry, and its dispatcher's flow control

    The worker registry stays coherent over the whole life of an engine process:
    connections, slot frames, assignments, deliveries and disconnections in any
    order.  On a coherent registry a dispatcher pass keeps within the announced
    slots and loses no job. *)

From S2P Require Import Prelude PyStr Errors States Json Records Database Queries Tables Claim.
From S2P Require Import Invariant Steps ClaimFacts Repository RepoFacts World RateLimiter RegistryService.
From S2P Require Import JobService SubmitService QueryService FanOutService SignalService CancelService.
From S2P Require Import Matcher Loops Engine Exec Lifecycle Wire WorkerService FlowProps.
From Stdlib Require Import QArith.
Open Scope string_scope.
Open Scope Z_scope.
Open Scope list_scope.

Import WorkerService.WorkerService.

(** ** What a call does to the registry, for any relation on worlds

    A call changes the registry only by altering objects without touching their id
    or queue, by dropping a worker from the order, by handing out assignments in a
    dispatcher pass, and by registering. *)

(** The one call that adds an object, and the one that fills queues. *)
Inductive registers : forall A : Type, EM A -> Prop :=
| reg_register r c : registers unit (WorkerRegistry.register r c).

Inductive assigns : forall A : Type, EM A -> Prop :=
| asg_dispatch lk cfg : assigns Z (Dispatcher.pass_ lk cfg).

Lemma alter_set {A} (f : A -> A) r (st : gmap ref A) c : st !! r = Some c -> alter f r st = <[r := f c]> st.
Proof.
  intros Hc. apply map_eq. intros r'. destruct (decide (r = r')) as [->|Hne].
  - by rewrite lookup_insert_eq, lookup_alter_eq, Hc.
  - by rewrite lookup_insert_ne, lookup_alter_ne.
Qed.

Section Calls.
Context (R : World -> World -> Prop) {R_pre : PreOrder R}.
Hypothesis R_alter : forall f r w w',
  (forall c, wc_worker_id (f c) = wc_worker_id c /\ wc_queue (f c) = wc_queue c) ->
  rg_workers (w_registry w') = rg_workers (w_registry w) ->
  rg_store (w_registry w') = alter f r (rg_store (w_registry w)) -> R w w'.
Hypothesis R_pop : forall worker_id w, let g := w_registry w in
  R w (set_w_registry (mkRegistry (rg_store g) (od_pop worker_id (rg_workers g)) (rg_known_slots_total g) (rg_wake g)) w).

Lemma same_R w w' : rg_workers (w_registry w') = rg_workers (w_registry w) ->
  rg_store (w_registry w') = rg_store (w_registry w) -> R w w'.
Proof. intros E1 E2. apply (R_alter id 0%nat); [done | done|]. rewrite E2. symmetry. by apply alter_id. Qed.

Lemma on_db_R {A} (m : DBM A) : stable R (on_db m).
Proof. intros w. unfold on_db. destruct (m (w_db w)). by apply same_R. Qed.

Lemma memory_R f : (forall w, rg_workers (w_registry (f w)) = rg_workers (w_registry w)
  /\ rg_store (w_registry (f w)) = rg_store (w_registry w)) -> stable R (modify f : EM unit).
Proof. intros H w. destruct (H w). by apply same_R. Qed.

Lemma try_R {A} p (m h : EM A) : stable R m -> stable R h -> stable R (try_except p m h).
Proof.
  intros Hm Hh w. unfold try_except. specialize (Hm w). destruct (m w) as [w' [a|e]]; simpl in *; [done|].
  destruct (p e); [|done]. by etrans.
Qed.

Lemma when_R b m : stable R m -> stable R (when b m).
Proof. intros H. destruct b; [done|]. apply stable_ret. apply _. Qed.

Lemma set_conn_R f r : (forall c, wc_worker_id (f c) = wc_worker_id c /\ wc_queue (f c) = wc_queue c) ->
  stable R (modify (fun w => set_w_registry (set_conn f r (w_registry w)) w) : EM unit).
Proof. intros Hf w. by apply (R_alter f r). Qed.

Lemma pop_R worker_id : stable R (modify (fun w =>
  let g := w_registry w in
  set_w_registry (mkRegistry (rg_store g) (od_pop worker_id (rg_workers g))
                    (rg_known_slots_total g) (rg_wake g)) w) : EM unit).
Proof. intros w. apply R_pop. Qed.

#[local] Hint Resolve on_db_R pop_R : stable_db.
#[local] Hint Extern 1 (stable R (in_tx _)) => apply on_db_R : stable_db.
#[local] Hint Extern 1 (stable R (modify (fun w => set_w_registry (set_conn _ _ _) _))) =>
  (by apply set_conn_R) : stable_db.
#[local] Hint Extern 1 (stable R wake_set) => (by apply memory_R) : stable_db.
#[local] Hint Extern 1 (stable R (set_limiter _)) => (by apply memory_R) : stable_db.

Ltac reg := repeat (first
  [ solve [eauto with stable_db] | stable_step | apply try_R | apply when_R
  | solve [apply stable_gets; apply _] | solve [apply stable_raise; apply _] | solve [apply stable_ret; apply _] ]).

Lemma reserve_R c n : stable R (reserve c n).
Proof. unfold reserve, _redis_take, clock. reg. Qed.
Lemma release_R c n : stable R (release c n).
Proof. unfold release, clock. reg. Qed.
Lemma drain_R c : stable R (drain c).
Proof. unfold drain. reg. Qed.
#[local] Hint Resolve reserve_R release_R drain_R : stable_db.
Lemma complete_R cfg i t r d s : stable R (JobService.complete cfg i t r d s).
Proof. unfold JobService.complete. reg. Qed.
Lemma fail_R u i t a : stable R (JobService.fail u i t a).
Proof. unfold JobService.fail, JobService.after_fail, clock. reg. Qed.
Lemma submit_R cfg l : stable R (SubmitService.submit cfg l).
Proof. unfold SubmitService.submit, clock. reg. Qed.
#[local] Hint Resolve complete_R fail_R submit_R : stable_db.
Lemma persist_R r : stable R (WorkerRegistry._persist_upsert r).
Proof. unfold WorkerRegistry._persist_upsert, WorkerRegistry._upsert, clock. reg. Qed.
#[local] Hint Resolve persist_R : stable_db.

(** A pass, given that handing one assignment over is allowed. *)
Lemma dispatch_R lk cfg :
  (forall a key v r, stable R (modify (fun s : World => set_w_cursors (Matcher.set_cursor key v (w_cursors s))
     (set_w_registry (set_conn (Matcher.push a) r (w_registry s)) s)) : EM unit)) ->
  stable R (Dispatcher.pass_ lk cfg).
Proof.
  intros Hpush. unfold Dispatcher.pass_, Matcher.pass_, WorkerRegistry.snapshot_available, Matcher._match_tag_group,
    Matcher._reserve_rate_tokens, Matcher._return_unused_tokens, Matcher._assign_round_robin, Matcher._persist_attribution. reg.
  match goal with |- stable _ (Matcher.reserve_loop ?l _) => induction l; simpl; reg end.
Qed.

Lemma update_slots_R i n t k e : stable R (WorkerRegistry.update_slots i n t k e).
Proof.
  intros w. unfold WorkerRegistry.update_slots, clock. run. destruct (WorkerRegistry.superseded _ _); [reflexivity|].
  destruct (od_get i _) as [r|] eqn:Eg; [|reflexivity].
  unfold WorkerRegistry.conn_of. destruct (rg_store (w_registry w) !! r) as [c|] eqn:Ec; [|reflexivity]. run.
  match goal with |- context [when ?b (WorkerRegistry._persist_upsert ?r) ?w1] =>
    assert (R w w1) as Hm; [|pose proof (when_R b _ (persist_R r) w1) as Hp; destruct (when b (WorkerRegistry._persist_upsert r) w1) as [w2 [u|e']]] end;
    [|simpl in *; by etrans..].
  apply (R_alter (WorkerRegistry.updated_conn n t k) r); [done | done|]. simpl.
  by rewrite (alter_set _ _ _ c Ec).
Qed.

Lemma unregister_R i e : stable R (WorkerRegistry.unregister i e).
Proof. unfold WorkerRegistry.unregister, WorkerRegistry._delete. reg. Qed.
Lemma sweep_R lk cfg e : stable R (Sweeper.pass_ lk cfg e).
Proof. unfold Sweeper.pass_, Sweeper.terminalize. reg. Qed.
Lemma cron_R na cfg : stable R (CronService.pass_ na cfg).
Proof. unfold CronService.pass_, CronService._fire, clock. reg. Qed.
#[local] Hint Resolve update_slots_R unregister_R sweep_R cron_R : stable_db.

Lemma runs_R A (m : EM A) : runs A m -> ~ registers A m -> assigns A m \/ stable R m.
Proof.
  destruct 1; intros Hn; try (solve [right; eauto with stable_db]);
    try (exfalso; apply Hn; constructor); try (left; constructor); right;
    unfold JobService.heartbeat, FanOutService.fan_out, SignalService.signal, SignalService.wait,
      CancelService.cancel, ResubmitService.resubmit_many, ResubmitService.resubmit, CheckpointService.put,
      CheckpointService._redis_set, RateRefiller.pass_, load, RateLimiter.upsert, QueryService.upsert_cron,
      QueryService.set_cron_enabled, QueryService.delete_cron, clock; reg.
Qed.
End Calls.

(** ** Every operation of an engine keeps its registry coherent *)

Definition coheres (w w' : World) : Prop := coherent (w_registry w) -> coherent (w_registry w').

#[global] Instance coheres_preorder : PreOrder coheres.
Proof. split; [intros w H; exact H | intros a b c H1 H2 H; exact (H2 (H1 H))]. Qed.

Lemma coherent_alter f r g : (forall c, wc_worker_id (f c) = wc_worker_id c) -> coherent g -> coherent (set_conn f r g).
Proof.
  intros Hf [H1 H2]. split; [done|]. simpl. intros id r' Hin. destruct (H2 id r' Hin) as (c & Hc & Hid).
  rewrite lookup_alter. destruct (decide (r = r')) as [->|]; rewrite Hc; simpl; eexists; (split; [reflexivity|]); [by rewrite Hf | done].
Qed.

Lemma od_pop_incl k d x : In x (od_pop k d) -> In x d.
Proof.
  induction d as [|[k' v] d IH]; simpl; [done|]. destruct (String.eqb k k'); simpl; [by right|]. intros [->|H]; auto.
Qed.

Lemma od_pop_NoDup k d : List.NoDup (map fst d) -> List.NoDup (map fst (od_pop k d)).
Proof.
  induction d as [|[k' v] d IH]; simpl; [done|]. intros [Hn Hd]%NoDup_cons_iff.
  destruct (String.eqb k k'); simpl; [done|]. constructor; [|by apply IH].
  intros (x & <- & Hx)%in_map_iff. apply Hn, in_map. by eapply od_pop_incl.
Qed.

Lemma coheres_alter f r w w' :
  (forall c, wc_worker_id (f c) = wc_worker_id c /\ wc_queue (f c) = wc_queue c) ->
  rg_workers (w_registry w') = rg_workers (w_registry w) ->
  rg_store (w_registry w') = alter f r (rg_store (w_registry w)) -> coheres w w'.
Proof.
  intros Hf E1 E2 H. destruct (coherent_alter f r (w_registry w) (fun c => proj1 (Hf c)) H) as [H1 H2]. simpl in *.
  split; [by rewrite E1 | by rewrite E1, E2].
Qed.

Lemma coheres_pop worker_id w : let g := w_registry w in
  coheres w (set_w_registry (mkRegistry (rg_store g) (od_pop worker_id (rg_workers g)) (rg_known_slots_total g) (rg_wake g)) w).
Proof.
  intros g [H1 H2]. split; simpl; [by apply od_pop_NoDup|]. intros id r Hin. apply H2. by eapply od_pop_incl.
Qed.

Lemma coheres_update_slots i n t k e : stable coheres (WorkerRegistry.update_slots i n t k e).
Proof. apply update_slots_R; [apply _ | apply coheres_alter]. Qed.

Lemma od_set_NoDup k v d : List.NoDup (map fst d) -> List.NoDup (map fst (od_set k v d)).
Proof.
  assert (forall l x, In x (map fst (od_set k v l)) -> x = k \/ In x (map fst l)) as Hin.
  { induction l as [|[k' v'] l IH]; simpl; [intuition congruence|]. intros x.
    destruct (String.eqb_spec k k') as [->|]; simpl; [tauto|]. intros [->|H]; [tauto|]. destruct (IH x H); tauto. }
  induction d as [|[k' v'] d IH]; simpl; intros Hd; [constructor; [by intros [] | constructor]|]. apply NoDup_cons_iff in Hd as [Hn Hd].
  destruct (String.eqb_spec k k') as [->|Hne]; simpl; constructor; auto. intros [->|?]%Hin; done.
Qed.

Lemma od_set_In k v d id r : List.NoDup (map fst d) -> In (id, r) (od_set k v d) -> (id = k /\ r = v) \/ (id <> k /\ In (id, r) d).
Proof.
  induction d as [|[k' v'] d IH]; simpl; intros Hd; [intros [[= <- <-]|[]]; by left|].
  apply NoDup_cons_iff in Hd as [Hn Hd]. destruct (String.eqb_spec k k') as [->|Hne]; simpl.
  - intros [[= <- <-]|H]; [by left|]. right. split; [|by right]. intros ->. apply Hn. by apply (in_map fst) in H.
  - intros [[= <- <-]|H]; [right; split; [congruence | by left]|]. destruct (IH Hd H); [by left | right; tauto].
Qed.

Lemma coheres_register r c w :
  rg_store (w_registry w) !! r = None -> coheres w (fst (WorkerRegistry.register r c w)).
Proof.
  intros Hr. unfold WorkerRegistry.register. run.
  etrans; [|apply (persist_R coheres coheres_alter)]. intros [H1 H2]. split; simpl; [by apply od_set_NoDup|].
  intros id r' Hin. apply (od_set_In _ _ _ _ _ H1) in Hin as [[-> ->]|[Hne Hin]].
  - rewrite lookup_insert_eq. by eexists.
  - destruct (H2 id r' Hin) as (c' & Hc' & Hid). exists c'. rewrite lookup_insert_ne; [done|]. congruence.
Qed.

Lemma coheres_dispatch lk cfg : stable coheres (Dispatcher.pass_ lk cfg).
Proof.
  apply dispatch_R; [apply _ | apply coheres_alter|]. intros a key v r w. unfold coheres. simpl. by apply coherent_alter.
Qed.

Lemma runs_coheres A (m : EM A) : runs A m -> ~ registers A m -> stable coheres m.
Proof.
  intros Hm Hn. destruct (runs_R coheres coheres_alter coheres_pop A m Hm Hn) as [[lk cfg]|H]; [apply coheres_dispatch | exact H].
Qed.

(** ** The life of an engine *)

(** An engine boots with an empty registry on whatever database is there; Claim
    streams connect, announce slots and fetch their assignments, calls and passes
    run, other engines and the clock move the database, in any order. *)
Inductive alive : World -> Prop :=
| al_boot w : reachable w -> w_registry w = idle_registry -> alive w
| al_call w A (m : EM A) : alive w -> runs A m -> ~ registers A m -> alive (fst (m w))
| al_connect w f : alive w ->
    alive (fst (WorkerRegistry.register (new_ref (w_registry w)) (new_conn f) w))
| al_frame w r worker_id f : alive w -> alive (fst (_read_slots r worker_id f w))
| al_get w r : alive w -> alive (fst (queue_get r w))
| al_others w w' : alive w -> rtc step w w' -> w_registry w' = w_registry w -> alive w'.

Lemma new_ref_fresh g : rg_store g !! new_ref g = None.
Proof. apply (not_elem_of_dom (D := gset nat)). unfold new_ref. apply (is_fresh (dom (rg_store g) : gset nat)). Qed.

Lemma reachable_registry w f : reachable w ->
  reachable (set_w_registry (f (w_registry w)) w).
Proof. intros H. eapply reach_step; [exact H|]. destruct w. apply step_engine. Qed.

Lemma read_slots_update r worker_id f w :
  fst (_read_slots r worker_id f w)
  = fst (WorkerRegistry.update_slots worker_id (cl_free_slots f) (Some (list_to_set (cl_tags f)))
           (Some (list_to_set (cl_registered_tasks f))) (Some r) w).
Proof.
  unfold _read_slots, try_except. unfold mbind, M_bind, M_bind_def.
  by destruct (WorkerRegistry.update_slots _ _ _ _ _ w) as [w' [b|e]].
Qed.

Lemma alive_reachable w : alive w -> reachable w.
Proof.
  induction 1 as [w Hw _ | w A m _ IH Hm _ | w f _ IH | w r i f _ IH | w r _ IH | w w' _ IH Hs _]; [done | | | | |].
  - by eapply reach_step, step_run.
  - eapply reach_step; [done|]. apply step_run, run_register.
  - rewrite read_slots_update. eapply reach_step; [done|]. apply step_run, run_update_slots.
  - unfold queue_get. run. destruct (WorkerRegistry.conn_of _ r) as [c|]; [|done].
    destruct (wc_queue c) as [|a q]; [done|]. simpl. by apply (reachable_registry w (set_conn _ r)).
  - by eapply reachable_rtc.
Qed.

Lemma alive_coherent w : alive w -> coherent (w_registry w).
Proof.
  induction 1 as [w _ Hw | w A m _ IH Hm Hn | w f _ IH | w r i f _ IH | w r _ IH | w w' _ IH Hs E].
  - rewrite Hw. split; [constructor | done].
  - by apply (runs_coheres A m Hm Hn w).
  - by apply (coheres_register _ _ w (new_ref_fresh _)).
  - rewrite read_slots_update. by apply coheres_update_slots.
  - unfold queue_get. run. destruct (WorkerRegistry.conn_of _ r) as [c|]; [|done].
    destruct (wc_queue c) as [|a q]; [done|]. simpl. by apply coherent_alter.
  - by rewrite E.
Qed.

(** ** Flow control *)

(** C12. A dispatcher pass keeps to what each worker announced.  At any point of
    an engine's life, whatever the pass finds in the queue of jobs and whether it
    returns or raises, every connection gets a batch appended to its queue and its
    free slots lowered by the size of the batch, with everything else as it was;
    the batch is never larger than the free slots last announced; and only a
    registered connection gets one, with which the jobs already running under its
    name and the batch together do not exceed its total capacity, so that an
    announcement that crossed assignments in flight cannot overfill a worker. *)
Theorem pass_respects_slots lk cfg w r c :
  alive w -> rg_store (w_registry w) !! r = Some c ->
  exists sent,
    rg_store (w_registry (fst (Dispatcher.pass_ lk cfg w))) !! r
      = Some (mkConn (wc_worker_id c) (wc_tags c) (wc_free_slots c - Z.of_nat (length sent)) (wc_labels c)
                (wc_registered_tasks c) (wc_slots_total c) (wc_persisted_at c) (wc_queue c ++ sent))
    /\ Z.of_nat (length sent) <= Z.max 0 (wc_free_slots c)
    /\ (sent <> [] -> In (wc_worker_id c, r) (rg_workers (w_registry w))
          /\ running_at (w_db w) (wc_worker_id c) + Z.of_nat (length sent) <= wc_slots_total c).
Proof.
  intros Hal Hc. pose proof (alive_coherent w Hal) as Hco. pose proof (reachable_wf_db w (alive_reachable w Hal)) as Hwf.
  destruct (pass_snapshot w Hco) as (Hsn & _ & Hreg). cbv zeta in *.
  destruct (pass_serves lk cfg w Hwf Hco) as (sent & [Hd Ho Hb] & _). set (ws := concat _) in *. exists (sent r).
  rewrite (dv_store _ _ _ Hd), Hc. simpl. destruct (in_dec Nat.eq_dec r (map snd ws)) as [Hr|Hr].
  - apply in_map_iff in Hr as ([id r'] & E & Hin). simpl in E. subst r'. specialize (Hb id r c Hin Hc).
    destruct (sn_conns _ _ Hsn id r Hin) as (c' & ? & Hid & Hf). simplify_eq. unfold free_capacity in Hb.
    rewrite pushes_spec by lia. split_and!; [done | lia|]. intros Hne. split; [by apply Hreg|].
    destruct (sent r); [done|]. simpl in *. lia.
  - rewrite (Ho r Hr). simpl. split_and!; [|lia | done]. f_equal. rewrite Z.sub_0_r, app_nil_r. by destruct c.
Qed.

Lemma pass_hands_out lk cfg w w' n j :
  alive w -> Dispatcher.pass_ lk cfg w = (w', Ok n) ->
  In j (db_jobs (w_db w')) -> j_state j = RUNNING ->
  In j (db_jobs (w_db w)) \/
  exists r c a, In (wc_worker_id c, r) (rg_workers (w_registry w)) /\ rg_store (w_registry w') !! r = Some c
    /\ In a (wc_queue c) /\ carries a j /\ attribution_of lk (wc_worker_id c) j.
Proof.
  intros Hal Hp Hj Hrun. pose proof (alive_coherent w Hal) as Hco.
  pose proof (reachable_wf_db w (alive_reachable w Hal)) as Hwf.
  destruct (pass_snapshot w Hco) as (Hsn & _ & Hreg). cbv zeta in *.
  destruct (pass_serves lk cfg w Hwf Hco) as (sent & [Hd Ho Hb] & Hh). rewrite Hp in *. simpl in *. set (ws := concat _) in *.
  destruct (Hh n eq_refl j Hj Hrun) as [?|(r & c & a & Hc & Ha & E1 & E3)]; [by left | right].
  destruct (in_dec Nat.eq_dec r (map snd ws)) as [Hr|Hr]; [|by rewrite (Ho r Hr) in Ha].
  apply in_map_iff in Hr as ([id r'] & E & Hin). simpl in E. subst r'.
  destruct (sn_conns _ _ Hsn id r Hin) as (c' & ? & Hid & Hf). simplify_eq. specialize (Hb _ r c Hin Hc).
  unfold free_capacity in Hb. exists r, (pushes (sent r) c), a.
  rewrite (dv_store _ _ _ Hd), Hc, (proj1 (pushes_frame _ _)). simpl. split_and!; [by apply Hreg | done | | done | done].
  rewrite pushes_spec by lia. simpl. apply in_app_iff. by right.
Qed.

(** C13. A pass hands over every job it claims.  Take a pass run to its end, with
    no other transaction and no disconnection between its steps.  If it returns,
    every row that then runs either ran before, untouched, or lies in the queue of
    a connection that was registered when the pass began, as an assignment with
    the row's id and tenant, its lease token and attempt, its task and its payload.
    The row is attributed to that connection's worker, or, when the re-stamp of a
    batch failed, still carries the engine's label of the claim. *)
Theorem pass_loses_nothing lk cfg w w' n j :
  alive w -> Dispatcher.pass_ lk cfg w = (w', Ok n) ->
  In j (db_jobs (w_db w')) -> j_state j = RUNNING ->
  In j (db_jobs (w_db w)) \/
  exists r c a, In (wc_worker_id c, r) (rg_workers (w_registry w)) /\ rg_store (w_registry w') !! r = Some c
    /\ In a (wc_queue c) /\ carries a j /\ attribution_of lk (wc_worker_id c) j.
Proof. apply pass_hands_out. Qed.

(** C15. A pass leaves no runnable job waiting beside a worker with room.  After a
    pass that returns, if a job with no group and no rate class, due when the pass
    began and not locked by another claimer, is still queued, then every
    registered connection whose tags it runs on has nothing left to take it with:
    no announced slot is free any more, or as many jobs run under the worker's
    name as its total capacity.  The names count only if they were stamped: no
    re-stamp of the pass failed. *)
Theorem pass_work_conserving lk cfg w w' n j r c :
  alive w -> (forall l, restamp_fails lk l = false) -> Dispatcher.pass_ lk cfg w = (w', Ok n) ->
  In j (db_jobs (w_db w')) -> j_state j = QUEUED -> j_run_at j <= db_now (w_db w) ->
  c_group_key j = None -> c_rate_class j = None -> locked_job lk (c_id j) = false ->
  In (wc_worker_id c, r) (rg_workers (w_registry w)) -> rg_store (w_registry w') !! r = Some c ->
  (forall t, In t (c_runs_on j) -> t ∈ wc_tags c) ->
  wc_free_slots c <= 0 \/ wc_slots_total c <= running_at (w_db w') (wc_worker_id c).
Proof.
  intros Hal Hrs Hp Hj Hq Hdue Hg Hrc Hlk Hreg Hc Htags. pose proof (alive_coherent w Hal) as Hco.
  pose proof (reachable_wf_db w (alive_reachable w Hal)) as Hwf.
  destruct (co_conns _ Hco _ _ Hreg) as (c0 & Hc0 & Hid).
  destruct (pass_serves lk cfg w Hwf Hco) as (sent & [Hd _ _] & _). pose proof (dv_store _ _ _ Hd r) as Hst.
  rewrite Hp in Hst. simpl in Hst. rewrite Hc, Hc0 in Hst. injection Hst as ->. destruct (pushes_frame (sent r) c0) as (Eid & Etags & Hfree).
  rewrite Eid in Hreg. rewrite Etags in Htags.
  destruct (Z.le_gt_cases (wc_free_slots c0) 0) as [?|Hf]; [left; lia|].
  destruct (group_of _ _ (snapshot_slots_In _ r c0 Hco Hreg Hc0 ltac:(lia))) as (l & Hl & Hin). simpl in Hl, Hin.
  destruct (pass_snapshot w Hco) as (Hsn & Hnd & _). cbv zeta in *.
  unfold Dispatcher.pass_, Matcher.pass_, WorkerRegistry.snapshot_available in Hp. revert Hp. run.
  fold (snapshot_slots (w_registry w)). destruct (forM _ _ w) as [w2 [ns|e]] eqn:E; [|done]. intros [= -> _].
  refine (groups_full lk cfg _ w w' ns _ l j (wc_worker_id c0) r Hrs Hwf Hsn Hnd E Hl _ Hj Hin _ Hc).
  split; try done. by apply subset_sorted.
Qed.

(** ** A concrete life: boot, submit, connect, pass *)

Lemma registers_store A (m : EM A) : registers A m -> forall w, rg_store (w_registry (fst (m w))) <> ∅.
Proof.
  destruct 1 as [r c]. intros w E. apply (f_equal (lookup r)) in E. rewrite lookup_empty in E. revert E.
  unfold WorkerRegistry.register, WorkerRegistry._persist_upsert, clock. run. unfold WorkerRegistry.conn_of. simpl.
  rewrite lookup_insert_eq. unfold WorkerRegistry._upsert, try_except. run. simpl.
  rewrite lookup_alter, decide_True, lookup_insert_eq by done. done.
Qed.

Lemma world1_alive : alive world1.
Proof.
  apply al_call; [apply al_boot; [apply world0_reachable | reflexivity] | apply run_submit |].
  intros H. by apply (registers_store _ _ H world0).
Qed.

Definition demo_first : ClaimRequest := mkClaim "w1" [] 1 "" [] [].

Lemma world2_alive : alive world2.
Proof. apply (al_connect world1 demo_first). apply world1_alive. Qed.

(** The one-slot worker of [world2] gets the one job and has no slot left. *)
Lemma pass_respects_slots_witness :
  exists c sent, rg_store (w_registry world2) !! 0%nat = Some c /\ Z.of_nat (length sent) <= 1
    /\ rg_store (w_registry world3) !! 0%nat
       = Some (mkConn "w1" ∅ (1 - Z.of_nat (length sent)) [] ∅ 1 0 sent).
Proof.
  destruct (rg_store (w_registry world2) !! 0%nat) as [c|] eqn:Ec; [|vm_compute in Ec; discriminate].
  destruct (pass_respects_slots no_locks default_config world2 0%nat c world2_alive Ec) as (sent & Hs & Hl & _).
  exists c, sent. vm_compute in Ec. injection Ec as <-. split_and!; [reflexivity | exact Hl | exact Hs].
Defined.

(** Two jobs for the one slot: the pass leaves the second, and the worker is full. *)
Definition two1 : World := fst (SubmitService.submit default_config [demo_spec; default_spec "crop" []] world0).
Definition two2 : World := fst (WorkerRegistry.register (new_ref (w_registry two1)) (new_conn demo_first) two1).
Definition two3 : World := fst (Dispatcher.pass_ no_locks default_config two2).

Lemma two2_alive : alive two2.
Proof.
  apply al_connect. apply al_call; [apply al_boot; [apply world0_reachable | reflexivity] | apply run_submit |].
  intros H. by apply (registers_store _ _ H world0).
Qed.

(** The job left behind and the connection, evaluated. *)
Definition left_job : Records.Job := Eval vm_compute in
  default (inserted_job (w_db world0) 0 demo_spec None) (db_jobs (w_db two3) !! 1%nat).
Definition full_conn : WorkerConn := Eval vm_compute in default demo_conn (rg_store (w_registry two3) !! 0%nat).

Lemma left_job_In : In left_job (db_jobs (w_db two3)).
Proof.
  assert (exists j, db_jobs (w_db two3) = [j; left_job]) as [j E] by (eexists; vm_compute; reflexivity).
  rewrite E. right. by left.
Qed.

Lemma pass_work_conserving_witness :
  wc_free_slots full_conn <= 0 \/ wc_slots_total full_conn <= running_at (w_db two3) "w1".
Proof.
  assert (exists n, Dispatcher.pass_ no_locks default_config two2 = (two3, Ok n)) as [n Hp] by (eexists; vm_compute; reflexivity).
  assert (rg_store (w_registry two3) !! 0%nat = Some full_conn) as Hc by (vm_compute; reflexivity).
  assert (In (wc_worker_id full_conn, 0%nat) (rg_workers (w_registry two2))) as Hr by (vm_compute; left; reflexivity).
  assert (j_run_at left_job <= db_now (w_db two2)) as Hd by (vm_compute; discriminate).
  exact (pass_work_conserving no_locks default_config two2 two3 n left_job 0%nat full_conn two2_alive (fun _ => eq_refl) Hp left_job_In
           eq_refl Hd eq_refl eq_refl eq_refl Hr Hc (fun t H => match H with end)).
Defined.

Lemma pass_loses_nothing_witness :
  exists r c a, rg_store (w_registry world3) !! r = Some c /\ In a (wc_queue c) /\ asg_job_id a = 1%N
    /\ asg_lease_token a = Some 2%N.
Proof.
  assert (exists n, Dispatcher.pass_ no_locks default_config world2 = (world3, Ok n)) as [n Hp]
    by (eexists; vm_compute; reflexivity).
  destruct (pass_loses_nothing no_locks default_config world2 world3 n job3 world2_alive Hp world3_job eq_refl)
    as [H|(r & c & a & _ & Hc & Ha & [E1 _ E2 _ _ _] & _)].
  - exfalso. vm_compute in H. destruct H as [H|[]]. discriminate H.
  - exists r, c, a. split_and!; [exact Hc | exact Ha | exact E1 | exact E2].
Defined.

(** When the re-stamp fails the pass still returns, and the row keeps the label of
    the claim. *)
Example failed_restamp_keeps_label :
  let lk := mkLocks (fun _ => false) (fun _ => false) (fun _ => false) (fun _ => true) in
  map j_claimed_by (db_jobs (w_db (fst (Dispatcher.pass_ lk default_config world2)))) = [Some "engine:untagged"].
Proof. vm_compute. reflexivity. Qed.
