(* ===== verification/Deployment.v ===== *)
(** * Several engines on one database

    A deployment is the shared database, the memory of every engine process, and
    the assignments its Claim streams have delivered so far.  Engines boot and
    crash, run calls and passes, and their workers connect, announce slots and
    fetch assignments, in any order; transactions of calls still in progress
    commit in between.

    The last part is the election of the sweeper by an advisory lock
    (src/symba/db/repository.py, services/loops.py). *)

From S2P Require Import Prelude PyStr Errors States Json Records Database Queries Tables Claim.
From S2P Require Import Invariant Steps ClaimFacts Repository RepoFacts World RateLimiter RegistryService.
From S2P Require Import JobService SubmitService QueryService FanOutService SignalService CancelService.
From S2P Require Import Matcher Loops Engine Exec Lifecycle OutcomeProps ClaimProps AssignProps DispatchProps.
From S2P Require Import Wire WorkerService FlowProps FlowControl.
From Stdlib Require Import QArith.
Open Scope string_scope.
Open Scope Z_scope.
Open Scope list_scope.

Import WorkerService.WorkerService.

(** ** The deployment *)

Record Memory := mkMemory {
  me_registry : Registry;
  me_limiter : RateLimiter;
  me_cursors : list (list string * string);
  me_clock : time
}.

Record Deployment := mkDeployment {
  dp_db : DB;
  dp_engines : list Memory;
  dp_delivered : list JobAssignment
}.

(** What one engine sees, and what a run on it leaves. *)
Definition view (db : DB) (m : Memory) : World :=
  mkWorld db (me_registry m) (me_limiter m) (me_cursors m) (me_clock m).

Definition memory_of (w : World) : Memory := mkMemory (w_registry w) (w_limiter w) (w_cursors w) (w_clock w).

Definition acted (d : Deployment) (i : nat) (w' : World) (delivered : list JobAssignment) : Deployment :=
  mkDeployment (w_db w') (<[i := memory_of w']> (dp_engines d)) (dp_delivered d ++ delivered).

Definition booted (l : RateLimiter) (c : time) : Memory := mkMemory idle_registry l [] c.

Inductive dstep (d : Deployment) : Deployment -> Prop :=
| d_call i m A (p : EM A) : dp_engines d !! i = Some m -> runs A p -> ~ registers A p ->
    dstep d (acted d i (fst (p (view (dp_db d) m))) [])
| d_connect i m f : dp_engines d !! i = Some m ->
    dstep d (acted d i (fst (WorkerRegistry.register (new_ref (me_registry m)) (new_conn f) (view (dp_db d) m))) [])
| d_frame i m r worker_id f : dp_engines d !! i = Some m ->
    dstep d (acted d i (fst (_read_slots r worker_id f (view (dp_db d) m))) [])
| d_deliver i m r w' a : dp_engines d !! i = Some m ->
    queue_get r (view (dp_db d) m) = (w', Ok (Some a)) -> dstep d (acted d i w' [a])
| d_transaction A (p : DBM A) : txn A p ->
    dstep d (mkDeployment (fst (p (dp_db d))) (dp_engines d) (dp_delivered d))
| d_time t : db_now (dp_db d) <= t -> dstep d (mkDeployment (set_db_now t (dp_db d)) (dp_engines d) (dp_delivered d))
| d_memory i m l c : dp_engines d !! i = Some m ->  (* its clock; Redis, which other engines write *)
    dstep d (acted d i (mkWorld (dp_db d) (me_registry m) l (me_cursors m) c) [])
| d_boot l c : dstep d (mkDeployment (dp_db d) (dp_engines d ++ [booted l c]) (dp_delivered d))
| d_crash i : dstep d (mkDeployment (dp_db d) (delete i (dp_engines d)) (dp_delivered d)).

Inductive deployed : Deployment -> Prop :=
| dep_init now : deployed (mkDeployment (empty_db now) [] [])
| dep_step d d' : deployed d -> dstep d d' -> deployed d'.

(** ** Each engine of a deployment lives as the engine of [FlowControl] does *)

Lemma view_memory w : view (w_db w) (memory_of w) = w.
Proof. by destruct w. Qed.

(** The memory of one engine is no part of another's, as far as the database
    goes: the transition system of [Engine] passes from one to the other. *)
Lemma swap_memory db m m' : rtc step (view db m) (view db m').
Proof.
  eapply rtc_l; [apply (step_engine (view db m) (me_registry m') (me_limiter m') (me_cursors m'))|]. simpl.
  apply rtc_once. pose proof (step_clock (mkWorld db (me_registry m') (me_limiter m') (me_cursors m') (me_clock m)) (db_now db) (me_clock m')) as H.
  simpl in H. destruct db. apply H. lia.
Qed.

(** A run on one engine, seen from another. *)
Lemma seen_by_other db m m' w' : rtc step (view db m) w' -> rtc step (view db m') (view (w_db w') m').
Proof.
  intros H. etrans; [apply (swap_memory db m' m)|]. etrans; [exact H|]. rewrite <- (view_memory w') at 1. apply swap_memory.
Qed.

Lemma alive_runs w : alive w -> forall w', rtc step w w' -> w_registry w' = w_registry w -> alive w'.
Proof. intros Hw w' H E. by eapply al_others. Qed.

(** The database reached is one the single engine reaches, whoever looks at it,
    and every engine's memory evolves as it does alone. *)
Definition each_alive (d : Deployment) : Prop :=
  (forall m, reachable (view (dp_db d) m)) /\ (forall i m, dp_engines d !! i = Some m -> alive (view (dp_db d) m)).

Lemma each_alive_moved d db' engines' delivered :
  each_alive d -> (forall m, rtc step (view (dp_db d) m) (view db' m)) ->
  (forall i m', engines' !! i = Some m' -> (exists i0, dp_engines d !! i0 = Some m') \/ alive (view db' m')) ->
  each_alive (mkDeployment db' engines' delivered).
Proof.
  intros [Hr Ha] Hm He. split; simpl.
  - intros m. by eapply reachable_rtc.
  - intros i m' Hi. destruct (He i m' Hi) as [[i0 H0]|?]; [|done]. eapply al_others; [by apply (Ha i0) | apply Hm | done].
Qed.

Lemma each_alive_acted d i m w' delivered :
  each_alive d -> dp_engines d !! i = Some m -> rtc step (view (dp_db d) m) w' -> alive w' ->
  each_alive (acted d i w' delivered).
Proof.
  intros Hd Hi Hs Hw. apply (each_alive_moved d); [done | intros m'; by eapply seen_by_other|].
  intros i' m' Hi'. apply list_lookup_insert_Some in Hi' as [(<- & <- & _)|[_ Hi']]; [right; by rewrite view_memory | left; eauto].
Qed.

Lemma deployed_alive d : deployed d -> each_alive d.
Proof.
  induction 1 as [now|d d' _ IH Hs]; [split; [intros m; apply reach_init | done]|]. pose proof IH as [Hr Ha].
  destruct Hs as [i m A p Hi Hp Hn | i m f Hi | i m r wid f Hi | i m r w' a Hi Hq | A p Hp | t Ht | i m l c Hi | l c | i].
  - eapply each_alive_acted; [done | exact Hi | by apply rtc_once, step_run | by apply al_call; [eapply Ha|..]].
  - eapply each_alive_acted; [done | exact Hi | apply rtc_once, step_run, run_register | by apply (al_connect (view _ m)), (Ha i)].
  - eapply each_alive_acted; [done | exact Hi | | by apply al_frame, (Ha i)].
    rewrite read_slots_update. apply rtc_once, step_run, run_update_slots.
  - pose proof (al_get _ r (Ha i m Hi)) as Hw. rewrite Hq in Hw. eapply each_alive_acted; [done | exact Hi | | exact Hw].
    assert (w_db w' = dp_db d) as <-; [|rewrite <- (view_memory w') at 2; apply swap_memory].
    revert Hq. unfold queue_get. run. destruct (WorkerRegistry.conn_of _ r) as [c|]; [|done].
    destruct (wc_queue c); [done|]. by intros [= <- _].
  - apply (each_alive_moved d); [done | | eauto]. intros m. apply rtc_once.
    pose proof (step_tx A p (view (dp_db d) m) Hp) as H. unfold on_db in H. simpl in H. by destruct (p (dp_db d)).
  - apply (each_alive_moved d); [done | | eauto]. intros m. apply rtc_once. by apply (step_clock (view (dp_db d) m)).
  - eapply each_alive_acted; [done | exact Hi | apply (swap_memory (dp_db d) m (mkMemory (me_registry m) l (me_cursors m) c))|].
    eapply al_others; [by apply (Ha i m) | apply (swap_memory (dp_db d) m (mkMemory (me_registry m) l (me_cursors m) c)) | done].
  - apply (each_alive_moved d); [done | reflexivity|]. intros i' m' Hi'. apply lookup_app_Some in Hi' as [?|[_ Hi']]; [eauto|].
    right. destruct (i' - _)%nat; [|done]. injection Hi' as <-. apply al_boot; [apply Hr | done].
  - apply (each_alive_moved d); [done | reflexivity|]. intros i' m' Hi'. left.
    destruct (decide (i' < i)%nat); [rewrite list_lookup_delete_lt in Hi' by done | rewrite list_lookup_delete_ge in Hi' by lia]; eauto.
Qed.

(** ** What is queued for workers *)

Definition tokens (l : list JobAssignment) : list uuid := omap asg_lease_token l.

Definition queued_in (st : gmap ref WorkerConn) : list JobAssignment :=
  flat_map (fun kv : ref * WorkerConn => wc_queue (snd kv)) (map_to_list st).
Definition queued (w : World) : list JobAssignment := queued_in (rg_store (w_registry w)).

Lemma queued_fresh st r c : st !! r = None -> queued_in (<[r := c]> st) ≡ₚ wc_queue c ++ queued_in st.
Proof. intros Hr. unfold queued_in. by rewrite map_to_list_insert. Qed.

Lemma queued_set st r c c' : st !! r = Some c ->
  queued_in (<[r := c']> st) ++ wc_queue c ≡ₚ queued_in st ++ wc_queue c'.
Proof.
  intros Hr. rewrite <- (insert_delete_id st r c Hr) at 2. rewrite <- (insert_delete_eq st r c').
  rewrite !queued_fresh by apply lookup_delete_eq. solve_Permutation.
Qed.

Lemma queued_alter f r st : queued_in (alter f r st) ++ match st !! r with Some c => wc_queue c | None => [] end
  ≡ₚ queued_in st ++ match st !! r with Some c => wc_queue (f c) | None => [] end.
Proof.
  destruct (st !! r) as [c|] eqn:E.
  - rewrite <- (queued_set st r c (f c) E). by rewrite (alter_set _ _ _ c E).
  - rewrite !app_nil_r, alter_id; [done|]. intros c Hc. congruence.
Qed.

(** Calls other than the pass leave what is queued. *)
Definition same_queued (w w' : World) : Prop := queued w' ≡ₚ queued w.

#[global] Instance same_queued_preorder : PreOrder same_queued.
Proof. split; [intros w; unfold same_queued; reflexivity | intros a b c H1 H2; unfold same_queued in *; by rewrite H2]. Qed.

Lemma same_queued_alter f r w w' :
  (forall c, wc_worker_id (f c) = wc_worker_id c /\ wc_queue (f c) = wc_queue c) ->
  rg_workers (w_registry w') = rg_workers (w_registry w) ->
  rg_store (w_registry w') = alter f r (rg_store (w_registry w)) -> same_queued w w'.
Proof.
  intros Hf _ E. unfold same_queued, queued. rewrite E. pose proof (queued_alter f r (rg_store (w_registry w))) as H.
  destruct (_ !! r) as [c|]; [rewrite (proj2 (Hf c)) in H; by apply Permutation_app_inv_r in H | by rewrite !app_nil_r in H].
Qed.

Lemma runs_same_queued A (m : EM A) : runs A m -> ~ registers A m -> assigns A m \/ stable same_queued m.
Proof. apply runs_R; [apply _ | apply same_queued_alter | by intros i w g; unfold same_queued]. Qed.

Lemma register_same_queued f w :
  same_queued w (fst (WorkerRegistry.register (new_ref (w_registry w)) (new_conn f) w)).
Proof.
  unfold WorkerRegistry.register. run.
  etrans; [|apply (persist_R same_queued same_queued_alter)]. unfold same_queued, queued. simpl.
  by rewrite queued_fresh by apply new_ref_fresh.
Qed.

Lemma frame_same_queued r worker_id f w : same_queued w (fst (_read_slots r worker_id f w)).
Proof. rewrite read_slots_update. apply (update_slots_R same_queued same_queued_alter). Qed.

Lemma get_queued r w w' a : queue_get r w = (w', Ok (Some a)) -> queued w ≡ₚ queued w' ++ [a] /\ w_db w' = w_db w.
Proof.
  unfold queue_get. run. unfold WorkerRegistry.conn_of. destruct (rg_store (w_registry w) !! r) as [c|] eqn:E; [|done].
  destruct (wc_queue c) as [|b q] eqn:Eq; [done|]. intros [= <- <-]. split; [|done]. unfold queued. simpl.
  match goal with |- context [alter ?f r ?st] => pose proof (queued_alter f r st) as H end. rewrite E, Eq in H. simpl in H.
  apply (Permutation_app_inv_r q). rewrite <- H. solve_Permutation.
Qed.

(** ** One pass hands out fresh leases only *)

(** [out] is what is held elsewhere: by other engines' queues and by workers. *)
Record exclusive (out : list uuid) (w : World) : Prop := mkExclusive {
  ex_once : NoDup (out ++ tokens (queued w));
  ex_drawn : Forall (fun t => (t < db_uuid_seq (w_db w))%N) (out ++ tokens (queued w))
}.

Definition assigns_once (out : list uuid) (w w' : World) : Prop :=
  wf (w_db w) -> exclusive out w -> wf (w_db w') /\ exclusive out w'.

#[global] Instance assigns_once_preorder out : PreOrder (assigns_once out).
Proof. split; [by intros w | intros a b c H1 H2 Hwf H; by destruct (H1 Hwf H); apply H2]. Qed.

Lemma drawn_later n n' (l : list uuid) : (n <= n')%N -> Forall (fun t => (t < n)%N) l -> Forall (fun t => (t < n')%N) l.
Proof. intros Hn H. eapply List.Forall_impl; [|exact H]. simpl. lia. Qed.

Lemma kept_once out w w' : db_keeps w w' -> same_queued w w' -> assigns_once out w w'.
Proof.
  intros Hk Hq Hwf [H1 H2]. split; [by apply Hk|]. pose proof (seq_grows w w' Hwf Hk) as Hs.
  assert (tokens (queued w') ≡ₚ tokens (queued w)) as E by (by apply omap_Permutation).
  split; rewrite E; [done | by eapply drawn_later].
Qed.

Lemma quiet_once out w w' : quiet w w' -> assigns_once out w w'.
Proof. intros (Hk & _ & Hst). apply kept_once; [done|]. unfold same_queued, queued. by rewrite Hst. Qed.

Definition placed_tokens (placed : list (repo.ClaimedJob * Matcher.slotw)) : list uuid :=
  omap (fun p => repo.cj_lease_token (fst p)) placed.

(** Whatever is pushed to a connection that is there comes from the placement. *)
Lemma pushes_tokens key up cap placed w :
  let w' := fst (forM (fun p : repo.ClaimedJob * Matcher.slotw =>
      let '(job, x) := p in
      modify (fun s : World =>
        set_w_cursors (Matcher.set_cursor key (fst x) (w_cursors s))
          (set_w_registry
             (set_conn (Matcher.push (Matcher._to_assignment job
                (Matcher._cap_upstream (Matcher.upstream_of (repo.cj_id job) up) cap))) (snd x) (w_registry s)) s)))
      placed w : World * result exn (list unit)) in
  w_db w' = w_db w /\ tokens (queued w') ⊆+ tokens (queued w) ++ placed_tokens placed.
Proof.
  revert w. induction placed as [|[job x] placed IH]; intros w; [split; [done | by rewrite app_nil_r]|].
  cbn [forM]. unfold mbind, M_bind, M_bind_def. simpl.
  match goal with |- context [forM ?f placed ?w0] => set (w1 := w0); destruct (IH w1) as [Hd Ht]; cbv zeta in Hd, Ht end.
  assert (tokens (queued w1) ⊆+ tokens (queued w) ++ option_list (repo.cj_lease_token job)) as H1.
  { unfold w1, queued. simpl. match goal with |- context [alter ?f ?r ?st] => pose proof (queued_alter f r st) as H end.
    destruct (_ !! snd x) as [c|]; simpl in H.
    - assert (queued_in (alter (Matcher.push (Matcher._to_assignment job (Matcher._cap_upstream
                (Matcher.upstream_of (repo.cj_id job) up) cap))) (snd x) (rg_store (w_registry w)))
              ≡ₚ queued_in (rg_store (w_registry w)) ++ [Matcher._to_assignment job (Matcher._cap_upstream
                (Matcher.upstream_of (repo.cj_id job) up) cap)]) as H'
        by (apply (Permutation_app_inv_r (wc_queue c)); rewrite H; solve_Permutation).
      unfold tokens. rewrite H', omap_app. simpl. by destruct (repo.cj_lease_token job).
    - rewrite !app_nil_r in H. unfold tokens. rewrite H. by apply submseteq_inserts_r. }
  destruct (forM _ placed w1) as [w2 [us|e]]; simpl in *; (split; [exact Hd|]); (etrans; [exact Ht|]);
    (etrans; [apply submseteq_app; [exact H1 | reflexivity]|]); unfold placed_tokens; simpl;
    destruct (repo.cj_lease_token job); by rewrite <- app_assoc.
Qed.

Lemma placed_sublist ws start capacity jobs :
  map fst (Matcher.a_placed (Matcher.assign_all ws start capacity jobs)) `sublist_of` jobs.
Proof.
  unfold Matcher.assign_all. induction jobs as [|j jobs IH] using rev_ind; [done|].
  rewrite foldl_app. cbn [foldl]. unfold Matcher.place at 1.
  destruct (Matcher.probe _ _ _ _) as [[x|] n]; simpl.
  - rewrite map_app. by apply sublist_app.
  - by apply sublist_inserts_r.
Qed.

(** The leases of a claim are drawn by it, no two alike. *)
Lemma claimed_tokens lk tags ex lim by_ cap q w w' claimed :
  wf (w_db w) -> in_tx (repo.claim lk tags ex lim by_ cap q) w = (w', Ok claimed) ->
  NoDup (omap repo.cj_lease_token claimed)
  /\ Forall (fun t => (db_uuid_seq (w_db w) <= t < db_uuid_seq (w_db w'))%N) (omap repo.cj_lease_token claimed).
Proof.
  intros Hwf E. pose proof (stable_in_tx _ (stable_claim lk tags ex lim by_ cap q) w) as Hk. rewrite E in Hk.
  apply in_tx_returns in E. split.
  - pose proof (claimed_distinct _ _ _ _ _ _ _ _ _ _ Hwf E) as Hd.
    pose proof (fun c1 c2 => claimed_leases _ _ _ _ _ _ _ _ _ _ c1 c2 Hwf E) as Hl. clear E Hk.
    induction claimed as [|c cs IH]; [constructor|]. cbn [map] in Hd. apply NoDup_cons_iff in Hd as [Hn Hd].
    assert (NoDup (omap repo.cj_lease_token cs)) as Hcs by (apply IH; [done | intros; apply Hl; try (by right); done]).
    cbn [omap list_omap]. destruct (repo.cj_lease_token c) as [t|] eqn:Ec; [|done]. constructor; [|done].
    rewrite list_elem_of_omap. intros (c' & Hc' & Et). apply list_elem_of_In in Hc'. apply Hn.
    rewrite (Hl c c'); [by apply in_map | by left | by right | congruence].
  - apply list.Forall_forall. intros t (c & Hc & Ht)%list_elem_of_omap. apply list_elem_of_In in Hc.
    destruct (taken_claimed _ _ _ _ _ _ _ _ _ _ _ Hwf E Hc) as (j & _ & R).
    destruct (rc_lease _ _ _ _ _ _ _ R) as (tok & k & Ht' & Hle & Hk' & Hg & _). simplify_eq.
    apply lease_guard_spec in Hg as (_ & Hg & _). split; [done|]. eapply wf_token_lt; [by apply Hk | done | done].
Qed.

Lemma omap_sublist {A B} (f : A -> option B) l k : l `sublist_of` k -> omap f l `sublist_of` omap f k.
Proof. induction 1 as [|x l k _ IH|x l k _ IH]; cbn [omap list_omap]; [done | |]; destruct (f x); by try constructor. Qed.

Lemma placed_tokens_jobs placed : placed_tokens placed = omap repo.cj_lease_token (map fst placed).
Proof.
  unfold placed_tokens. induction placed as [|p l IH]; [done|]. cbn [omap list_omap map].
  destruct (repo.cj_lease_token (fst p)); [f_equal|]; apply IH.
Qed.

Lemma assign_tokens cfg key jobs ws up capacity w w' a :
  Matcher._assign_round_robin cfg key jobs ws up capacity w = (w', Ok a) ->
  w_db w' = w_db w /\ tokens (queued w') ⊆+ tokens (queued w) ++ omap repo.cj_lease_token jobs.
Proof.
  unfold Matcher._assign_round_robin. destruct jobs as [|j jobs]; [intros [= <- _]; split; [done | by rewrite app_nil_r]|].
  destruct ws as [|x ws]; [intros [= <- _]; split; [done | by apply submseteq_inserts_r]|].
  unfold mbind at 1, M_bind, M_bind_def, gets. cbv zeta. set (placed := Matcher.a_placed _).
  pose proof (pushes_tokens key up (max_upstream_inline_kb cfg * 1024) placed w) as [Hd Ht]. cbv zeta in Hd, Ht.
  assert (placed_tokens placed ⊆+ omap repo.cj_lease_token (j :: jobs)) as Hp.
  { rewrite placed_tokens_jobs. apply sublist_submseteq, omap_sublist, placed_sublist. }
  unfold mbind, M_bind, M_bind_def. destruct (forM _ placed w) as [w2 [us|e]]; [|done]. intros [= <- _].
  split; [exact Hd|]. etrans; [exact Ht|]. by apply submseteq_app.
Qed.

Lemma statement_same_queued {A} (m : DBM A) w w' r : on_db m w = (w', r) -> same_queued w w'.
Proof. unfold on_db, same_queued. destruct (m (w_db w)). by intros [= <- _]. Qed.

Lemma NoDup_below {A} (l k : list A) : l ⊆+ k -> NoDup k -> NoDup l.
Proof. intros [k' ->]%submseteq_Permutation [? _]%list.NoDup_app. done. Qed.

Lemma Forall_below {A} (P : A -> Prop) (l k : list A) : l ⊆+ k -> Forall P k -> Forall P l.
Proof. intros [k' ->]%submseteq_Permutation [? _]%list.Forall_app. done. Qed.

(** Fresh leases next to those drawn before. *)
Lemma fresh_beside (n n' : uuid) (old new : list uuid) :
  NoDup old -> Forall (fun t => (t < n)%N) old -> (n <= n')%N ->
  NoDup new -> Forall (fun t => (n <= t < n')%N) new ->
  NoDup (old ++ new) /\ Forall (fun t => (t < n')%N) (old ++ new).
Proof.
  intros H1 H2 Hn H3 H4. split.
  - apply list.NoDup_app. split_and!; [done | | done]. intros t Ho Hw. rewrite list.Forall_forall in H2, H4.
    specialize (H2 t Ho). specialize (H4 t Hw). simpl in *. lia.
  - apply list.Forall_app. split; [by eapply drawn_later|]. eapply List.Forall_impl; [|exact H4]. simpl. lia.
Qed.

Lemma group_once out lk cfg tags ws : stable (assigns_once out) (Matcher._match_tag_group lk cfg tags ws).
Proof.
  intros w. pose proof (group_runs lk cfg tags ws w) as Hrun. unfold ran in Hrun.
  destruct Hrun as [_ | w' e Hq | ex q w1 w2 w' Hq1 Hc Hq2 _ | ex q w1 w2 w' claimed e Hq1 Hc Hq2
    | ex q w1 w2 w3 claimed up w4 n at_ Hq1 Hc Hq2 Ha].
  - reflexivity.
  - by apply quiet_once.
  - etrans; [by apply quiet_once|]. etrans; [|by apply quiet_once]. apply quiet_once. by eapply empty_claim_quiet.
  - etrans; [by apply quiet_once|]. etrans; [|by apply quiet_once].
    pose proof (stable_in_tx _ (stable_claim lk tags ex (group_limit ws w) (Matcher.engine_label tags)
      (Matcher._per_group_cap cfg (group_limit ws w)) q) w1) as Hk. rewrite Hc in Hk.
    apply kept_once; [exact Hk | by eapply statement_same_queued].
  - etrans; [by apply quiet_once|]. intros Hwf1 [Ho1 Hd1].
    pose proof (stable_in_tx _ (stable_claim lk tags ex (group_limit ws w) (Matcher.engine_label tags)
      (Matcher._per_group_cap cfg (group_limit ws w)) q) w1) as Hk. rewrite Hc in Hk.
    destruct (claimed_tokens _ _ _ _ _ _ _ _ _ _ Hwf1 Hc) as [Hn Hr].
    pose proof (seq_grows _ _ Hwf1 Hk) as Hs. pose proof (statement_same_queued _ _ _ _ Hc) as Hq.
    assert (wf (w_db w2)) as Hwf2 by (by apply Hk). destruct Hq2 as (Hk2 & _ & Hst2).
    pose proof (seq_grows _ _ Hwf2 Hk2) as Hs2. assert (wf (w_db w3)) as Hwf3 by (by apply Hk2).
    destruct (assign_tokens _ _ _ _ _ _ _ _ _ Ha) as [Hd4 Ht4].
    destruct (fresh_beside _ (db_uuid_seq (w_db w2)) _ _ Ho1 Hd1 Hs Hn Hr) as [Ho Hd].
    assert (out ++ tokens (queued w4) ⊆+ (out ++ tokens (queued w1)) ++ omap repo.cj_lease_token claimed) as Hsub.
    { rewrite <- app_assoc. apply submseteq_app; [done|]. etrans; [exact Ht4|].
      unfold queued. rewrite Hst2. fold (queued w2). unfold same_queued in Hq. unfold tokens. rewrite Hq.
      by rewrite fairness_perm. }
    apply (kept_once out w4); [apply stable_persist_attribution | | by rewrite Hd4|].
    { unfold same_queued, queued. by rewrite persist_store. }
    split; [by eapply NoDup_below|]. eapply Forall_below; [exact Hsub|]. eapply drawn_later; [|exact Hd]. rewrite Hd4. lia.
Qed.

Lemma dispatch_once out lk cfg : stable (assigns_once out) (Dispatcher.pass_ lk cfg).
Proof.
  unfold Dispatcher.pass_, Matcher.pass_, WorkerRegistry.snapshot_available.
  repeat (first [apply group_once | solve [apply stable_gets; apply _] | stable_step | solve [apply stable_ret; apply _]]).
Qed.

(** ** Across engines *)

Definition waiting (engines : list Memory) : list JobAssignment :=
  flat_map (fun m => queued_in (rg_store (me_registry m))) engines.

(** Every assignment a worker has been given, or will be. *)
Definition handed (d : Deployment) : list JobAssignment := dp_delivered d ++ waiting (dp_engines d).

(** One engine's queue beside everything else. *)
Lemma waiting_split engines i m : engines !! i = Some m ->
  waiting engines ≡ₚ queued_in (rg_store (me_registry m)) ++ waiting (delete i engines).
Proof. intros Hi. unfold waiting. by rewrite (delete_Permutation _ _ _ Hi) at 1. Qed.

Lemma delete_insert {A} (l : list A) i x : delete i (<[i := x]> l) = delete i l.
Proof. revert i. induction l as [|y l IH]; intros [|i]; simpl; [done..|]. by rewrite IH. Qed.

Lemma delete_absent {A} (l : list A) i : l !! i = None -> delete i l = l.
Proof. revert i. induction l as [|y l IH]; intros [|i] H; simpl; [done..|]. by rewrite IH. Qed.

Lemma waiting_insert engines i m m' : engines !! i = Some m ->
  waiting (<[i := m']> engines) ≡ₚ queued_in (rg_store (me_registry m')) ++ waiting (delete i engines).
Proof.
  intros Hi. rewrite (waiting_split _ i m') by (by apply list_lookup_insert_eq, (lookup_lt_Some _ _ m)).
  by rewrite delete_insert.
Qed.

(** What is held outside engine [i]. *)
Definition elsewhere (d : Deployment) (i : nat) : list uuid := tokens (dp_delivered d ++ waiting (delete i (dp_engines d))).

Definition held_once (d : Deployment) : Prop :=
  wf (dp_db d) /\ NoDup (tokens (handed d)) /\ Forall (fun t => (t < db_uuid_seq (dp_db d))%N) (tokens (handed d)).

Lemma handed_split d i m : dp_engines d !! i = Some m ->
  tokens (handed d) ≡ₚ elsewhere d i ++ tokens (queued (view (dp_db d) m)).
Proof.
  intros Hi. unfold elsewhere, tokens. rewrite <- omap_app. unfold handed. rewrite (waiting_split _ _ _ Hi).
  apply omap_Permutation. unfold queued. simpl. solve_Permutation.
Qed.

Lemma handed_acted d i m w' l : dp_engines d !! i = Some m ->
  tokens (handed (acted d i w' l)) ≡ₚ elsewhere d i ++ tokens (queued w' ++ l).
Proof.
  intros Hi. unfold elsewhere, tokens. rewrite <- omap_app. unfold handed, acted. simpl. rewrite (waiting_insert _ _ m _ Hi).
  apply omap_Permutation. unfold queued. simpl. solve_Permutation.
Qed.

(** An engine that hands out once keeps the whole deployment so. *)
Lemma held_once_acted d i m w' :
  held_once d -> dp_engines d !! i = Some m -> assigns_once (elsewhere d i) (view (dp_db d) m) w' ->
  held_once (acted d i w' []).
Proof.
  intros (Hwf & Hn & Hd) Hi H. rewrite (handed_split d i m Hi) in Hn, Hd.
  destruct (H Hwf (mkExclusive _ _ Hn Hd)) as [Hwf' [Hn' Hd']].
  split; [done|]. rewrite (handed_acted d i m w' [] Hi), app_nil_r. done.
Qed.

Lemma held_once_kept d db' engines' :
  held_once d -> keeps (dp_db d) db' -> tokens (dp_delivered d ++ waiting engines') ⊆+ tokens (handed d) ->
  held_once (mkDeployment db' engines' (dp_delivered d)).
Proof.
  intros (Hwf & Hn & Hd) Hk Hsub. destruct (Hk Hwf) as [Hwf' [[Hs _ _ _] _ _ _ _ _]]. unfold held_once, handed. simpl.
  split_and!; [done | by eapply NoDup_below|]. eapply Forall_below; [exact Hsub|]. by eapply drawn_later.
Qed.

Lemma delivered_held_once d i m r w' a :
  held_once d -> dp_engines d !! i = Some m -> queue_get r (view (dp_db d) m) = (w', Ok (Some a)) ->
  held_once (acted d i w' [a]).
Proof.
  intros (Hwf & Hn & Hd) Hi Hg. destruct (get_queued _ _ _ _ Hg) as [Hq Hdb]. simpl in Hdb. unfold held_once.
  rewrite (handed_acted d i m w' [a] Hi). rewrite (handed_split d i m Hi) in Hn, Hd.
  assert (tokens (queued (view (dp_db d) m)) ≡ₚ tokens (queued w' ++ [a])) as E by (by apply omap_Permutation).
  rewrite <- E. cbn [acted dp_db]. by rewrite Hdb.
Qed.

Lemma deployed_once d : deployed d -> held_once d.
Proof.
  induction 1 as [now|d d' Hdep IH Hs].
  { split_and!; [apply wf_empty | constructor | constructor]. }
  destruct (deployed_alive d Hdep) as [Hreach _].
  destruct Hs as [i m A p Hi Hp Hn | i m f Hi | i m r wid f Hi | i m r w' a Hi Hq | A p Hp | t Ht | i m l c Hi | l c | i].
  - eapply held_once_acted; [done | exact Hi|].
    destruct (runs_same_queued A p Hp Hn) as [[lk cfg]|H]; [apply dispatch_once | apply kept_once; [by apply runs_stable | apply H]].
  - eapply held_once_acted; [done | exact Hi|]. apply kept_once; [apply runs_stable, run_register | apply (register_same_queued f (view (dp_db d) m))].
  - eapply held_once_acted; [done | exact Hi|]. apply kept_once; [|apply frame_same_queued].
    rewrite read_slots_update. apply runs_stable, run_update_slots.
  - by eapply delivered_held_once.
  - apply held_once_kept; [done | by apply txn_keeps | done].
  - apply held_once_kept; [done | by apply keeps_clock | done].
  - eapply held_once_acted; [done | exact Hi|]. apply kept_once; [unfold db_keeps; simpl; reflexivity | by unfold same_queued].
  - apply held_once_kept; [done | reflexivity|]. unfold waiting. rewrite flat_map_app. simpl. by rewrite !app_nil_r.
  - apply held_once_kept; [done | reflexivity|].
    destruct (dp_engines d !! i) as [m|] eqn:Hi; [|by rewrite delete_absent].
    rewrite (handed_split d i m Hi). by apply submseteq_inserts_r.
Qed.

Lemma handed_position d k1 k2 a1 a2 t : deployed d ->
  handed d !! k1 = Some a1 -> handed d !! k2 = Some a2 ->
  asg_lease_token a1 = Some t -> asg_lease_token a2 = Some t -> k1 = k2.
Proof.
  intros (_ & Hn & _)%deployed_once H1 H2 T1 T2. revert k1 k2 H1 H2 Hn. unfold tokens.
  induction (handed d) as [|b l IH]; intros [|k1] [|k2] H1 H2 Hn; simplify_eq/=; [done| | |].
  - rewrite T1 in Hn. apply list.NoDup_cons in Hn as [Hn _]. exfalso. apply Hn, list_elem_of_omap.
    exists a2. split; [by eapply list_elem_of_lookup_2 | done].
  - rewrite T2 in Hn. apply list.NoDup_cons in Hn as [Hn _]. exfalso. apply Hn, list_elem_of_omap.
    exists a1. split; [by eapply list_elem_of_lookup_2 | done].
  - f_equal. apply IH; [done..|]. destruct (asg_lease_token b); [by apply list.NoDup_cons in Hn as [_ ?] | done].
Qed.

(** C14. A lease has one holder in the whole deployment, ever.  However many engines
    run, boot and crash, and however their calls, passes and transactions follow
    each other, no lease token is in two assignments: neither in the queues of any
    of the engines nor among what their streams have delivered.  So of two
    assignments of the same job, to whichever workers, at most one can still
    report: through any engine, failing or heartbeating with the other raises
    StaleLease, completing with it raises StaleLease (DataError for a result that is
    no JSONB; one over the size limit is refused before), and nothing changes. *)
Theorem lease_has_one_holder d k1 k2 a1 a2 t1 t2 :
  deployed d -> handed d !! k1 = Some a1 -> handed d !! k2 = Some a2 -> k1 <> k2 ->
  asg_lease_token a1 = Some t1 -> asg_lease_token a2 = Some t2 ->
  t1 <> t2
  /\ (asg_job_id a1 = asg_job_id a2 ->
      exists a t, (a, t) ∈ [(a1, t1); (a2, t2)] /\ forall m cfg u args,
        let w := view (dp_db d) m in
        (forall r f s, JobService.oversized (max_result_kb cfg * 1024) r = None ->
           JobService.complete cfg (asg_job_id a) t r f s w = (w, Raise (refusal r (asg_job_id a))))
        /\ JobService.fail u (asg_job_id a) t args w = (w, Raise (stale (asg_job_id a)))
        /\ JobService.heartbeat (asg_job_id a) t w = (w, Raise (stale (asg_job_id a)))).
Proof.
  intros Hd H1 H2 Hk T1 T2.
  assert (t1 <> t2) as Hne by (intros <-; apply Hk; by eapply (handed_position d)). split; [done|]. intros Hid.
  assert (exists a t, (a, t) ∈ [(a1, t1); (a2, t2)] /\ no_lease (dp_db d) (asg_job_id a) t) as (a & t & Hin & Hno).
  { destruct (existsb (lease_guard (asg_job_id a1) t1) (db_jobs (dp_db d))) eqn:E1.
    - exists a2, t2. split; [set_solver|]. intros j Hj. destruct (lease_guard _ _ j) eqn:E2; [exfalso|done].
      apply existsb_exists in E1 as (j1 & Hj1 & E1). apply lease_guard_spec in E1 as (I1 & L1 & _), E2 as (I2 & L2 & _).
      destruct (deployed_once d Hd) as (Hwf & _).
      assert (j1 = j) as -> by (apply (NoDup_map_inj job_id (db_jobs (dp_db d))); [by apply wf_job_ids | done | done | unfold job_id; congruence]).
      congruence.
    - exists a1, t1. split; [set_solver|]. intros j Hj. destruct (lease_guard _ _ j) eqn:E2; [|done].
      assert (existsb (lease_guard (asg_job_id a1) t1) (db_jobs (dp_db d)) = true); [|congruence]. apply existsb_exists. eauto. }
  exists a, t. split; [done|]. intros m cfg u args w. split_and!; intros; by eauto using complete_stale, fail_stale, heartbeat_stale.
Qed.

(** ** An engine crashes and another takes its job over *)

Definition act {A} (i : nat) (p : Registry -> EM A) (d : Deployment) : Deployment :=
  match dp_engines d !! i with Some m => acted d i (fst (p (me_registry m) (view (dp_db d) m))) [] | None => d end.

Definition fetch (i : nat) (r : ref) (d : Deployment) : Deployment :=
  match dp_engines d !! i with
  | Some m => match queue_get r (view (dp_db d) m) with (w', Ok (Some a)) => acted d i w' [a] | _ => d end
  | None => d
  end.

Definition worker_frame (id : string) : ClaimRequest := mkClaim id [] 1 "" [] [].

Definition two_engines : Deployment := mkDeployment (empty_db 0) [booted no_limiter 0; booted no_limiter 0] [].

(** The first engine hands the job to w1 and crashes; the lease runs out; the
    second engine sweeps and hands the job to w2. *)
Definition first_served : Deployment :=
  fetch 0 0 (act 0 (fun _ => Dispatcher.pass_ no_locks default_config)
    (act 0 (fun g => WorkerRegistry.register (new_ref g) (new_conn (worker_frame "w1")))
      (act 0 (fun _ => SubmitService.submit default_config [demo_spec]) two_engines))).

Definition an_hour_on : Deployment :=
  mkDeployment (set_db_now (secs 3600) (dp_db first_served)) (dp_engines first_served) (dp_delivered first_served).
Definition after_crash : Deployment :=
  mkDeployment (dp_db an_hour_on) (delete 0%nat (dp_engines an_hour_on)) (dp_delivered an_hour_on).

Definition taken_over : Deployment :=
  fetch 0 0 (act 0 (fun _ => Dispatcher.pass_ no_locks default_config)
    (act 0 (fun g => WorkerRegistry.register (new_ref g) (new_conn (worker_frame "w2")))
      (act 0 (fun _ => Sweeper.pass_ no_locks default_config true) after_crash))).

Lemma deployed_act {A} i (p : Registry -> EM A) d :
  (forall g, runs A (p g)) -> (forall g, ~ registers A (p g)) -> deployed d -> deployed (act i p d).
Proof.
  intros Hp Hn Hd. unfold act. destruct (dp_engines d !! i) as [m|] eqn:E; [|done].
  eapply dep_step; [done|]. by apply d_call.
Qed.

Lemma deployed_connect i f d : deployed d ->
  deployed (act i (fun g => WorkerRegistry.register (new_ref g) (new_conn f)) d).
Proof.
  intros Hd. unfold act. destruct (dp_engines d !! i) as [m|] eqn:E; [|done]. eapply dep_step; [done|]. by apply d_connect.
Qed.

Lemma deployed_fetch i r d : deployed d -> deployed (fetch i r d).
Proof.
  intros Hd. unfold fetch. destruct (dp_engines d !! i) as [m|] eqn:E; [|done].
  destruct (queue_get r (view (dp_db d) m)) as [w' [[a|]|e]] eqn:Eq; [|done..]. eapply dep_step; [done|]. by eapply d_deliver.
Qed.

Lemma two_engines_deployed : deployed two_engines.
Proof.
  eapply dep_step; [eapply dep_step; [apply (dep_init 0)|apply (d_boot _ no_limiter 0)]|].
  apply (d_boot (mkDeployment (empty_db 0) [booted no_limiter 0] []) no_limiter 0).
Qed.

Lemma taken_over_deployed : deployed taken_over.
Proof.
  unfold taken_over. apply deployed_fetch, deployed_act; [constructor | intros _ H; by apply (registers_store _ _ H world0)|].
  apply deployed_connect, deployed_act; [constructor | intros _ H; by apply (registers_store _ _ H world0)|].
  assert (deployed first_served) as Hf.
  { unfold first_served. apply deployed_fetch, deployed_act; [constructor | intros _ H; by apply (registers_store _ _ H world0)|].
    apply deployed_connect, deployed_act; [constructor | intros _ H; by apply (registers_store _ _ H world0)|].
    apply two_engines_deployed. }
  assert (db_now (dp_db first_served) = 0) as Hn by (vm_compute; reflexivity).
  assert (deployed an_hour_on) as Hl by (eapply dep_step; [exact Hf | apply d_time; rewrite Hn; done]).
  exact (dep_step _ _ Hl (d_crash an_hour_on 0)).
Qed.

Example two_workers_were_given_the_job :
  map (fun a => (asg_job_id a, asg_lease_token a, asg_attempt a)) (dp_delivered taken_over) = [(1%N, Some 2%N, 1); (1%N, Some 3%N, 2)].
Proof. vm_compute. reflexivity. Qed.

Lemma taken_over_handed : exists a b, handed taken_over = [a; b]
  /\ asg_job_id a = 1%N /\ asg_job_id b = 1%N /\ asg_lease_token a = Some 2%N /\ asg_lease_token b = Some 3%N.
Proof. eexists _, _. split; [vm_compute; reflexivity|]. split_and!; reflexivity. Qed.

(** Of the two workers of [taken_over] one is fenced off. *)
Lemma lease_has_one_holder_witness :
  exists a t, (t = 2 \/ t = 3)%N /\ asg_lease_token a = Some t
    /\ JobService.heartbeat (asg_job_id a) t (view (dp_db taken_over) (booted no_limiter 0))
       = (view (dp_db taken_over) (booted no_limiter 0), Raise (stale (asg_job_id a))).
Proof.
  destruct taken_over_handed as (a & b & E & Ia & Ib & Ta & Tb).
  destruct (lease_has_one_holder taken_over 0 1 a b 2 3 taken_over_deployed) as [_ H];
    [by rewrite E | by rewrite E | done | done | done|].
  destruct (H (eq_trans Ia (eq_sym Ib))) as (x & t & Hin & Hx).
  destruct (Hx (booted no_limiter 0) default_config 0%Q Sweeper.exhausted_args) as (_ & _ & Hh). exists x, t. split_and!; [| |exact Hh].
  - apply list_elem_of_In in Hin as [[= <- <-]|[[= <- <-]|[]]]; [by left | by right].
  - apply list_elem_of_In in Hin as [[= <- <-]|[[= <- <-]|[]]]; done.
Defined.

(** ** The election of the sweeper *)

Module SweeperLock.

(** Session-level advisory locks: the session that holds a key, and how often.  The
    statements hash the key; it is the only one the engine uses. *)
Abbreviation Locks := (gmap string (nat * nat)).

Definition pg_try_advisory_lock (session : nat) (key : string) (l : Locks) : Locks * bool :=
  match l !! key with
  | None => (<[key := (session, 1%nat)]> l, true)
  | Some (owner, n) => if Nat.eqb owner session then (<[key := (session, S n)]> l, true) else (l, false)
  end.

Definition pg_advisory_unlock (session : nat) (key : string) (l : Locks) : Locks :=
  match l !! key with
  | Some (owner, n) =>
      if negb (Nat.eqb owner session) then l
      else if (1 <? n)%nat then <[key := (session, Nat.pred n)]> l else delete key l
  | None => l
  end.

(** What the server does when a session ends. *)
Definition session_ends (session : nat) (l : Locks) : Locks := filter (fun kv => fst (snd kv) <> session) l.

Definition _SWEEPER_LOCK_KEY : string := "symba:sweeper".

Definition try_sweeper_lock (session : nat) : Locks -> Locks * bool := pg_try_advisory_lock session _SWEEPER_LOCK_KEY.
Definition unlock_sweeper (session : nat) : Locks -> Locks := pg_advisory_unlock session _SWEEPER_LOCK_KEY.

(** [Sweeper.pass_] with the connection it acquires: try the lock, and release it
    whether the body returns or raises. *)
Definition pass_ (session : nat) (lk : locks) (cfg : SymbaConfig) : M exn (Locks * World) Z := fun s =>
  let (l1, elected) := try_sweeper_lock session (fst s) in
  if negb elected then ((l1, snd s), Ok 0)
  else let (w', r) := Sweeper.pass_ lk cfg true (snd s) in ((unlock_sweeper session l1, w'), r).

(** The passes of several engines, interleaved: which connections are between the
    lock and the unlock. *)
Record Election := mkElection { el_locks : Locks; el_sweeping : list nat }.

Inductive estep (e : Election) : Election -> Prop :=
| e_enter s l : ~ In s (el_sweeping e) -> try_sweeper_lock s (el_locks e) = (l, true) ->
    estep e (mkElection l (el_sweeping e ++ [s]))
| e_skip s l : ~ In s (el_sweeping e) -> try_sweeper_lock s (el_locks e) = (l, false) ->
    estep e (mkElection l (el_sweeping e))
| e_leave s : In s (el_sweeping e) ->
    estep e (mkElection (unlock_sweeper s (el_locks e)) (List.filter (fun x => negb (Nat.eqb x s)) (el_sweeping e)))
| e_die s :
    estep e (mkElection (session_ends s (el_locks e)) (List.filter (fun x => negb (Nat.eqb x s)) (el_sweeping e))).

End SweeperLock.

Import SweeperLock.

(** Nobody sweeps and the lock is free, or one connection does and holds it. *)
Definition elected (e : Election) : Prop :=
  e = mkElection ∅ [] \/ exists s, e = mkElection {[_SWEEPER_LOCK_KEY := (s, 1%nat)]} [s].

Lemma try_free s : try_sweeper_lock s ∅ = ({[_SWEEPER_LOCK_KEY := (s, 1%nat)]}, true).
Proof. reflexivity. Qed.

Lemma try_held s s' n : s <> s' ->
  try_sweeper_lock s {[_SWEEPER_LOCK_KEY := (s', n)]} = ({[_SWEEPER_LOCK_KEY := (s', n)]}, false).
Proof.
  intros Hs. unfold try_sweeper_lock, pg_try_advisory_lock. rewrite lookup_singleton_eq.
  destruct (Nat.eqb_spec s' s); [congruence | done].
Qed.

Lemma unlock_held s : unlock_sweeper s {[_SWEEPER_LOCK_KEY := (s, 1%nat)]} = ∅.
Proof.
  unfold unlock_sweeper, pg_advisory_unlock. rewrite lookup_singleton_eq, Nat.eqb_refl. simpl. apply delete_singleton_eq.
Qed.

Lemma session_ends_held s s' : session_ends s {[_SWEEPER_LOCK_KEY := (s', 1%nat)]}
  = if Nat.eqb s' s then ∅ else {[_SWEEPER_LOCK_KEY := (s', 1%nat)]}.
Proof.
  unfold session_ends. destruct (Nat.eqb_spec s' s) as [->|Hne].
  - apply map_filter_singleton_False. simpl. tauto.
  - apply map_filter_singleton_True. done.
Qed.

Lemma estep_elected e e' : elected e -> estep e e' -> elected e'.
Proof.
  intros [->|[s0 ->]] Hs; destruct Hs as [s l Hn E | s l Hn E | s Hin | s]; simpl in *.
  - right. exists s. rewrite try_free in E. by injection E as <-.
  - rewrite try_free in E. done.
  - done.
  - left. by unfold session_ends; rewrite map_filter_empty.
  - rewrite try_held in E by (intros ->; apply Hn; by left). done.
  - rewrite try_held in E by (intros ->; apply Hn; by left). injection E as <-. right. by exists s0.
  - destruct Hin as [->|[]]. rewrite Nat.eqb_refl, unlock_held. by left.
  - rewrite session_ends_held. destruct (Nat.eqb s0 s); simpl; [by left | right; by exists s0].
Qed.

(** C29. At most one engine sweeps at a time, and the lock is never left behind.
    However the passes of any number of engines interleave, and whichever of them
    die in between, at most one connection is inside the sweep; while it is, every
    other engine's pass does nothing and returns 0; and whenever none is, the next
    pass sweeps, and leaves the lock free again whether its body returns or
    raises. *)
Theorem one_sweeper_at_a_time e s lk cfg w :
  rtc estep (mkElection ∅ []) e ->
  match el_sweeping e with
  | [] => pass_ s lk cfg (el_locks e, w)
          = ((el_locks e, fst (Sweeper.pass_ lk cfg true w)), snd (Sweeper.pass_ lk cfg true w))
  | [s0] => s <> s0 -> pass_ s lk cfg (el_locks e, w) = ((el_locks e, w), Ok 0)
  | _ => False
  end.
Proof.
  intros H. assert (elected e) as He.
  { remember (mkElection ∅ []) as e0 eqn:E0. assert (elected e0) as H0 by (subst; by left). clear E0.
    induction H; [done|]. eauto using estep_elected. }
  destruct He as [->|[s0 ->]]; simpl.
  - unfold pass_. cbn [fst snd]. rewrite try_free. cbn [negb]. destruct (Sweeper.pass_ lk cfg true w) as [w' r]. by rewrite unlock_held.
  - intros Hne. unfold pass_. cbn [fst snd]. by rewrite try_held.
Qed.

(** The sweeper of connection 1 dies inside its pass; that of connection 2 takes over. *)
Lemma one_sweeper_at_a_time_witness :
  pass_ 2 no_locks default_config (∅, world3)
  = ((∅, fst (Sweeper.pass_ no_locks default_config true world3)), snd (Sweeper.pass_ no_locks default_config true world3)).
Proof.
  apply (one_sweeper_at_a_time (mkElection ∅ []) 2 no_locks default_config world3).
  eapply rtc_l; [apply (e_enter (mkElection ∅ []) 1 _ ltac:(by intros []) (try_free 1))|].
  pose proof (e_die (mkElection {[_SWEEPER_LOCK_KEY := (1%nat, 1%nat)]} [1%nat]) 1) as H. simpl in H.
  rewrite session_ends_held in H. apply rtc_once. exact H.
Defined.
