(* ===== verification/Workers.v ===== *)
(** * Worker programs (examples/raw_grpc_worker/worker.py, tools/ci_load_worker.py)

    The example worker's handler and loop and the load worker's capacity
    accounting, as clients of the WorkerService calls.  What Python prints of an
    exception (its class name and text) is a parameter. *)

From S2P Require Import Prelude PyStr Errors States Versioning Json JsonLoads Records Database Queries Tables Claim.
From S2P Require Import Invariant Steps ClaimFacts Repository RepoFacts World RateLimiter RegistryService.
From S2P Require Import JobService SubmitService QueryService FanOutService SignalService CancelService.
From S2P Require Import Matcher Loops Engine Exec Lifecycle OutcomeProps JsonProps Config Wire WorkerService WireProps.
From S2P Require Import FlowProps FlowControl.
From Stdlib Require Import QArith.
Open Scope string_scope.
Open Scope Z_scope.
Open Scope list_scope.

Import WorkerService.WorkerService.

(** ** The example worker *)

Module RawWorker.
Section Worker.
Context (WORKER_ID : string).

Definition TAGS : list string := [].

(** [json.loads(payload_json.decode() or "{}")], echoed back. *)
Definition handle (job : JobAssignment) : result exn dict :=
  let raw := as_payload_json (asg_spec job) in
  match loads_bytes (if nonempty raw then raw else "{}") with
  | Ok payload => Ok [("echoed", payload); ("by", JStr WORKER_ID)]
  | Raise e => Raise e
  end.

(** The handshake frame and the frame after a job. *)
Definition first_frame : ClaimRequest :=
  mkClaim WORKER_ID TAGS 1 PROTOCOL_VERSION [("example", "raw_grpc_worker")] [].
Definition slot_frame : ClaimRequest := mkClaim WORKER_ID TAGS 1 PROTOCOL_VERSION [] [].

(** What the [except Exception] branch catches: an exception of the handler, or
    the error of the Complete call with its status. *)
Inductive failure := HandlerRaised (e : exn) | CallFailed (code : string).

(** The class name and the text of the exception. *)
Context (describe : failure -> string * string).

Definition status_of {A} (r : reply A) : option string :=
  match r with Reply _ => None | Abort c _ => Some c | Crash _ => Some "UNKNOWN" end.

Definition fail_request (a : JobAssignment) (tok : uuid) (f : failure) : FailRequest :=
  mkFailRequest (asg_job_id a) tok (fst (describe f)) (String.substring 0 2048 (snd (describe f))) "" true 0 ""
    false false (mkFloat (Finite 0) "0.0").

(** One iteration of the loop: the frame put on [outbound] by the [finally], and
    whether the loop goes on (a failing Fail call ends it). *)
Definition on_assignment (cfg : SymbaConfig) (u : Q) (a : JobAssignment) (tok : uuid) (w : World)
  : World * (ClaimRequest * bool) :=
  let fail f w :=
    let (w', r) := Fail u (fail_request a tok f) w in
    (w', (slot_frame, match status_of r with None => true | Some _ => false end)) in
  match handle a with
  | Ok result =>
      let (w', r) := Complete cfg (asg_job_id a) tok (dumps (JObj result)) false false w in
      match status_of r with
      | None => (w', (slot_frame, true))
      | Some code => fail (CallFailed code) w'
      end
  | Raise e => fail (HandlerRaised e) w
  end.

End Worker.
End RawWorker.

(** ** The load worker *)

Module LoadWorker.
Section Worker.
Context (cfg : SymbaConfig) (worker_id : string) (capacity : Z).

(** [active], the [updates] event and the tasks of the group that have not
    finished; a task that raises takes the group down. *)
Record Serve := mkServe {
  active : Z;
  updates : bool;
  tasks : list (JobAssignment * uuid);
  failed : bool
}.

Definition serve0 : Serve := mkServe 0 true [] false.

(** One turn of [frames]: capacity frames are snapshots. *)
Definition frame (s : Serve) : Serve * ClaimRequest :=
  (mkServe (active s) false (tasks s) (failed s),
   mkClaim worker_id ["general"] (capacity - active s) "0.1.0" [] ["loadtest.echo"]).

(** [active += 1; group.create_task(complete(assignment))] *)
Definition assigned (a : JobAssignment * uuid) (s : Serve) : Serve :=
  mkServe (active s + 1) (updates s) (tasks s ++ [a]) (failed s).

(** The task of one assignment, to its end. *)
Definition complete (a : JobAssignment) (tok : uuid) (w : World) : World * result exn unit :=
  if negb (String.eqb (as_task_name (asg_spec a)) "loadtest.echo") then (w, Raise RuntimeError)
  else
    let (w', r) := Complete cfg (asg_job_id a) tok "{}" false false w in
    match r with
    | Reply true => (w', Ok tt)
    | Reply false => (w', Raise RuntimeError)
    | _ => (w', Raise RuntimeError)
    end.

(** The [n]th running task ends. *)
Definition finish (n : nat) (s : Serve) (w : World) : World * Serve :=
  match tasks s !! n with
  | Some (a, tok) =>
      let rest := take n (tasks s) ++ drop (S n) (tasks s) in
      match complete a tok w with
      | (w', Ok _) => (w', mkServe (active s - 1) true rest (failed s))
      | (w', Raise _) => (w', mkServe (active s) (updates s) rest true)
      end
  | None => (w, s)
  end.

(** What happens to a serving worker, in any order. *)
Inductive event := SendFrame | Assigned (a : JobAssignment) (tok : uuid) | Finishes (n : nat).

Fixpoint serve (es : list event) (s : Serve) (w : World) : World * Serve * list ClaimRequest :=
  match es with
  | [] => (w, s, [])
  | SendFrame :: es => let (s', f) := frame s in
      let '(w', s'', fs) := serve es s' w in (w', s'', f :: fs)
  | Assigned a tok :: es => serve es (assigned (a, tok) s) w
  | Finishes n :: es => let (w', s') := finish n s w in serve es s' w'
  end.

(** Until a task fails, [active] counts the jobs in hand, and the frames announce
    what is left of the capacity. *)
Lemma finish_active n s w :
  active s = Z.of_nat (length (tasks s)) -> failed (snd (finish n s w)) = false ->
  active (snd (finish n s w)) = Z.of_nat (length (tasks (snd (finish n s w)))).
Proof.
  intros Ha. unfold finish. destruct (tasks s !! n) as [[a tok]|] eqn:E; [|done].
  destruct (complete a tok w) as [w' [u|e]]; simpl; [|done]. intros _.
  apply lookup_lt_Some in E. rewrite length_app, length_take, length_drop. lia.
Qed.

Lemma finish_failed n s w : failed s = true -> failed (snd (finish n s w)) = true.
Proof.
  intros H. unfold finish. destruct (tasks s !! n) as [[a tok]|]; [|done].
  by destruct (complete a tok w) as [w' [u|e]].
Qed.

Lemma serve_failed es s w : failed s = true -> failed (snd (fst (serve es s w))) = true.
Proof.
  revert s w. induction es as [|[|a tok|n] es IH]; intros s w Hf; [done|..].
  - cbn [serve frame]. pose proof (IH (mkServe (active s) false (tasks s) (failed s)) w Hf) as H.
    by destruct (serve es _ w) as [[w' s'] fs].
  - by apply IH.
  - cbn [serve]. pose proof (finish_failed n s w Hf) as H. destruct (finish n s w) as [w' s']. by apply IH.
Qed.

(** A load worker that has not failed holds exactly the jobs it counts, whatever
    the order of frames, assignments and completions. *)
Theorem load_worker_counts es w :
  let s := snd (fst (serve es serve0 w)) in
  failed s = false -> active s = Z.of_nat (length (tasks s)).
Proof.
  enough (forall s, active s = Z.of_nat (length (tasks s)) ->
            failed (snd (fst (serve es s w))) = false ->
            active (snd (fst (serve es s w))) = Z.of_nat (length (tasks (snd (fst (serve es s w)))))) as H
    by (by apply H).
  revert w. induction es as [|[|a tok|n] es IH]; intros w s Ha; [done|..].
  - cbn [serve frame]. specialize (IH w (mkServe (active s) false (tasks s) (failed s)) Ha).
    by destruct (serve es _ w) as [[w' s'] fs].
  - apply IH. simpl. rewrite length_app. simpl. lia.
  - cbn [serve]. intros Hf. pose proof (finish_active n s w Ha) as H. pose proof (serve_failed es (snd (finish n s w)) (fst (finish n s w))) as Hs.
    destruct (finish n s w) as [w' s'] eqn:E. simpl in *. apply IH; [|done]. apply H.
    destruct (failed s'); [|done]. rewrite (Hs eq_refl) in Hf. done.
Qed.

End Worker.
End LoadWorker.

(** ** From the queue to the result *)

(** What the example worker answers for a payload. *)
Definition echo (wid : string) (payload : dict) : dict := [("echoed", JObj payload); ("by", JStr wid)].

(** The result as the JSONB column keeps it: shorter keys first. *)
Definition echo_result (wid : string) (payload : dict) : dict :=
  [("by", JStr wid); ("echoed", JObj (jsonb_members payload))].

Lemma echo_stored wid d :
  storable (JObj (echo wid d)) = true -> jsonb_opt (Some (echo wid d)) = Some (Some (echo_result wid d)).
Proof. intros H. unfold jsonb_opt, jsonb_dict. rewrite H. reflexivity. Qed.

Lemma echo_wire wid d : wire_json (JObj d) -> wire_json (JObj (echo wid d)).
Proof.
  intros [H1 H2]. split; [split; [|by split_and!] | by split_and!]. simpl.
  constructor; [intros [[=]|[]] | constructor; [by intros [] | constructor]].
Qed.

Lemma handle_echo wid a d :
  wire_json (JObj d) -> as_payload_json (asg_spec a) = dumps (JObj d) -> RawWorker.handle wid a = Ok (echo wid d).
Proof. intros Hw E. unfold RawWorker.handle. by rewrite E, dumps_obj_nonempty, (loads_bytes_dumps _ Hw). Qed.

(** An archived row is found by its id. *)
Lemma get_archived db a :
  wf db -> In a (db_archive db) ->
  exists x, sql_get_job (c_id (a_job a)) (c_tenant (a_job a)) db = Some x /\ j_result x = j_result (a_job a).
Proof.
  intros Hwf Ha. pose proof (wf_ids _ _ _ (wf_j _ Hwf)) as Hnd. unfold sql_get_job.
  set (f := fun x : AnyJob => N.eqb (c_id x) (c_id (a_job a)) && String.eqb (c_tenant x) (c_tenant (a_job a))).
  set (y := mkAny (a_job a) (Some (a_finished_at a)) (a_final_state a)).
  assert (In y (jobs_all db)) as Hy.
  { unfold jobs_all. apply in_app_iff. right. apply in_map_iff. by exists a. }
  assert (f y = true) as Hf by (unfold f, y; cbn [al_job]; by rewrite N.eqb_refl, String.eqb_refl).
  destruct (List.find f (jobs_all db)) as [x|] eqn:E; [|by rewrite (List.find_none _ _ E y Hy) in Hf].
  apply List.find_some in E as [Hx Hfx]. exists x. split; [done|].
  assert (x = y) as ->; [|done]. apply (NoDup_map_inj (fun z : AnyJob => c_id z) (jobs_all db)); try done.
  - unfold jobs_all. by rewrite map_app, !map_map.
  - unfold f in Hfx. apply andb_prop in Hfx as [H _]. by apply N.eqb_eq in H.
Qed.

Lemma running_lease db j : wf db -> In j (db_jobs db) -> j_state j = RUNNING ->
  exists tok, j_lease_token j = Some tok /\ lease_guard (c_id j) tok j = true.
Proof.
  intros Hwf Hj Hr. pose proof (wf_rows _ _ _ (wf_j _ Hwf)) as H. rewrite List.Forall_forall in H.
  destruct (proj1 (row_lease _ (H j Hj)) Hr) as [tok Ht]. exists tok. split; [done|].
  unfold lease_guard. rewrite N.eqb_refl, Ht, Hr. unfold opt_N_eqb. by rewrite bool_decide_true.
Qed.

(** The example worker completes the job an assignment carries. *)
Lemma worker_completes cfg u wid describe a tok w j :
  wf (w_db w) -> In j (db_jobs (w_db w)) -> lease_guard (c_id j) tok j = true -> carries a j ->
  c_parent_gate_id j = None -> wire_json (JObj (c_payload j)) ->
  JobService.oversized (max_result_kb cfg * 1024) (Some (echo wid (c_payload j))) = None ->
  storable (JObj (echo wid (c_payload j))) = true ->
  exists w', RawWorker.on_assignment wid describe cfg u a tok w = (w', (RawWorker.slot_frame wid, true))
    /\ completed j (Some (echo_result wid (c_payload j))) false false (w_db w) (w_db w') /\ wf (w_db w').
Proof.
  intros Hwf Hj Hl Hc Hg Hw Hs Hst.
  pose proof (stable_complete cfg (c_id j) tok (Some (echo wid (c_payload j))) false false w Hwf) as [Hwf' _].
  destruct (complete_done cfg (c_id j) tok _ _ false false w j Hwf Hj Hl Hg Hs (echo_stored _ _ Hst)) as (db' & E & H).
  rewrite E in Hwf'. exists (awake (starts (w_db w) j false) (set_w_db db' w)).
  simpl fst in Hwf'. rewrite awake_db in *. split; [|done].
  unfold RawWorker.on_assignment. rewrite (handle_echo wid a _ Hw (ca_payload _ _ Hc)).
  unfold Complete. destruct (decode_bodies (echo wid (c_payload j)) (echo_wire wid _ Hw)) as (_ & -> & _).
  unfold rpc. rewrite (ca_id _ _ Hc), E. reflexivity.
Qed.

(** C21. A started job makes the whole way.  When a dispatcher pass has started a
    job (of no gate, with a JSON payload whose echo JSONB can hold and the result
    cap admits), some registered connection's queue holds an assignment with which
    the example worker's loop body, whatever its id, completes exactly that job: the
    Complete call is accepted, the row leaves the live table and is archived as
    succeeded with the worker's id and the payload as its result, the slot is
    announced free again and the loop goes on.  For a job of the tenant
    default, GetResult without a tenant then answers the text of that result, in the
    key order of JSONB. *)
Theorem job_makes_the_round lk cfg u wid describe w w1 n j :
  alive w -> Dispatcher.pass_ lk cfg w = (w1, Ok n) ->
  In j (db_jobs (w_db w1)) -> j_state j = RUNNING -> ~ In j (db_jobs (w_db w)) ->
  c_parent_gate_id j = None -> wire_json (JObj (c_payload j)) ->
  JobService.oversized (max_result_kb cfg * 1024) (Some (echo wid (c_payload j))) = None ->
  storable (JObj (echo wid (c_payload j))) = true ->
  exists r c a tok w2,
    In (wc_worker_id c, r) (rg_workers (w_registry w)) /\ rg_store (w_registry w1) !! r = Some c
    /\ In a (wc_queue c) /\ asg_lease_token a = Some tok
    /\ RawWorker.on_assignment wid describe cfg u a tok w1 = (w2, (RawWorker.slot_frame wid, true))
    /\ completed j (Some (echo_result wid (c_payload j))) false false (w_db w1) (w_db w2)
    /\ (c_tenant j = "default" ->
        snd (GetResult (c_id j) "" w2) = Reply (dumps (JObj (echo_result wid (c_payload j))), true)).
Proof.
  intros Hal Hp Hj Hr Hn Hg Hw Hs Hst.
  assert (reachable w1) as Hr1.
  { eapply reach_step; [by apply alive_reachable|]. pose proof (step_run _ _ w (run_dispatch lk cfg)) as H. by rewrite Hp in H. }
  pose proof (reachable_wf_db w1 Hr1) as Hwf1.
  destruct (pass_hands_out lk cfg w w1 n j Hal Hp Hj Hr) as [?|(r & c & a & H1 & H2 & H3 & H4 & _)]; [done|].
  destruct (running_lease _ j Hwf1 Hj Hr) as (tok & Ht & Hl).
  destruct (worker_completes cfg u wid describe a tok w1 j Hwf1 Hj Hl H4 Hg Hw Hs Hst) as (w2 & E & Hco & Hwf2).
  exists r, c, a, tok, w2. split_and!; try done; [by rewrite (ca_lease _ _ H4)|]. intros Htn.
  assert (In (mkArchived (set_j_result (Some (echo_result wid (c_payload j))) j) (db_now (w_db w1)) SUCCEEDED) (db_archive (w_db w2)))
    as Ha by (rewrite (co_archive _ _ _ _ _ _ Hco); apply in_app_iff; right; by left).
  destruct (get_archived _ _ Hwf2 Ha) as (x & Ex & Er). simpl in Ex, Er. rewrite Htn in Ex.
  unfold GetResult, bare, JobService.get_result, repo.get_result, sql_get_result, on_db. simpl. rewrite Ex. simpl. by rewrite Er.
Qed.

(** The job of [world3], completed by the example worker and read back. *)
Lemma job_makes_the_round_witness :
  exists a tok w2, asg_lease_token a = Some tok
    /\ RawWorker.on_assignment "w1" (fun _ => ("", "")) default_config 0 a tok world3
       = (w2, (RawWorker.slot_frame "w1", true))
    /\ snd (GetResult 1%N "" w2) = Reply (dumps (JObj [("by", JStr "w1"); ("echoed", JObj [("n", JInt 1)])]), true).
Proof.
  assert (exists n, Dispatcher.pass_ no_locks default_config world2 = (world3, Ok n)) as [n Hp]
    by (eexists; vm_compute; reflexivity).
  assert (~ In job3 (db_jobs (w_db world2))) as Hn by (vm_compute; intros [[=]|[]]).
  assert (wire_json (JObj (c_payload job3))) as Hw
    by (split; [split; [constructor; [by intros [] | constructor] | by split] | by split]).
  destruct (job_makes_the_round no_locks default_config 0 "w1" (fun _ => ("", "")) world2 world3 n job3 world2_alive Hp
              world3_job eq_refl Hn eq_refl Hw eq_refl eq_refl) as (r & c & a & tok & w2 & _ & _ & _ & Ht & E & _ & Hg).
  exists a, tok, w2. split_and!; [exact Ht | exact E | exact (Hg eq_refl)].
Defined.
