(* ===== verification/Process.v ===== *)
(** * The engine process (src/symba/main.py, services/loops.py, transport/state.py)

    [EngineState.build] and the start-up of [main._run], the tasks each role
    starts, the four periodic loops with their stop flag, sleeps and error
    counter, and the shutdown.  A process runs as a transition system: its loops
    advance one phase at a time between steps of the rest of the deployment.
    [mono] is the event loop's monotonic clock, in seconds. *)

From S2P Require Import Prelude PyStr Errors States Json Records Database Queries Tables Claim.
From S2P Require Import Invariant Steps ClaimFacts Repository RepoFacts World RateLimiter RegistryService.
From S2P Require Import JobService SubmitService FanOutService SignalService CancelService Matcher Loops Engine.
From S2P Require Import Config Auth GrpcServer.
From Stdlib Require Import QArith.
Open Scope string_scope.
Open Scope Z_scope.
Open Scope list_scope.

Module Process.

(** ** Tasks and roles *)

Inductive Loop := LDispatcher | LRefiller | LSweeper | LCron.

#[export] Instance Loop_eq_dec : EqDecision Loop.
Proof. solve_decision. Defined.

Inductive Task := ServeGrpc | ServeHttp | Events | Run (l : Loop).

#[export] Instance Task_eq_dec : EqDecision Task.
Proof. solve_decision. Defined.

Definition run_api (roles : list string) : bool := mem "api" roles || mem "all" roles.
Definition run_sweeper (roles : list string) : bool := mem "sweeper" roles || mem "all" roles.

(** The tasks [_run] creates, in order, and the loops among them. *)
Definition tasks (roles : list string) : list Task :=
  (if run_api roles then [ServeGrpc; ServeHttp; Events; Run LDispatcher; Run LRefiller] else [])
  ++ (if run_sweeper roles then [Run LSweeper; Run LCron] else []).

Definition loops (roles : list string) : list Loop :=
  (if run_api roles then [LDispatcher; LRefiller] else [])
  ++ (if run_sweeper roles then [LSweeper; LCron] else []).

(** ** One periodic loop *)

(** Where the coroutine of [run] stands: at the top of the [while], after a pass
    (with its [did_work]), asleep until a time, or returned. *)
Inductive Phase := Top | Passed (did_work : bool) | Asleep (until : Q) | Returned.

Record LoopState := mkLoopState {
  lp_phase : Phase;
  lp_stop : bool;
  lp_tick_ms : Z;     (* Dispatcher._tick_ms *)
  lp_errors : Z       (* loop_errors_total{loop} *)
}.

Definition set_phase (p : Phase) (s : LoopState) : LoopState := mkLoopState p (lp_stop s) (lp_tick_ms s) (lp_errors s).

(** [stop()] *)
Definition stop (s : LoopState) : LoopState := mkLoopState (lp_phase s) true (lp_tick_ms s) (lp_errors s).

Section Loops.
Context (settings : Config.SymbaConfig).
Context (next_after : string -> time -> option time).

Definition cfg : SymbaConfig := Config.engine_config settings.

(** [__init__] *)
Definition new_loop : LoopState := mkLoopState Top false (min_tick_ms cfg) 0.

(** [_next_sleep_s(did_work)]: the seconds to sleep, and the tick it leaves. *)
Definition _next_sleep_s (l : Loop) (did_work : bool) (tick_ms : Z) : Q * Z :=
  match l with
  | LDispatcher =>
      let tick := Dispatcher.next_tick_ms cfg tick_ms did_work in ((inject_Z tick / 1000)%Q, tick)
  | LSweeper | LRefiller => (inject_Z (sweeper_interval_s cfg), tick_ms)
  | LCron => (Config.tick_s (Config.cron settings), tick_ms)
  end.

(** The body of a pass; [lk] and [elected] are what other sessions hold. *)
Definition pass_of (l : Loop) (lk : locks) (elected : bool) : EM Z :=
  match l with
  | LDispatcher => Dispatcher.pass_ lk cfg
  | LRefiller => RateRefiller.pass_
  | LSweeper => Sweeper.pass_ lk cfg elected
  | LCron => CronService.pass_ next_after cfg
  end.

(** [try: did_work = await self.pass_() > 0 except Exception: ...inc()] *)
Definition run_pass (m : EM Z) (s : LoopState) (w : World) : LoopState * World :=
  match contained m w with
  | (w', Ok did_work) =>
      let failed := match snd (m w) with Raise _ => 1 | Ok _ => 0 end in
      (mkLoopState (Passed did_work) (lp_stop s) (lp_tick_ms s) (lp_errors s + failed), w')
  | (w', Raise _) => (set_phase Returned s, w')
  end.

(** [wake.clear()] *)
Definition wake_clear (w : World) : World :=
  let g := w_registry w in
  set_w_registry (mkRegistry (rg_store g) (rg_workers g) (rg_known_slots_total g) false) w.

(** One step of the coroutine at [mono]; [None] while it has nothing to do but
    wait.  The dispatcher clears the wake event before it waits on it, and its
    wait ends when the event is set or at the timeout. *)
Definition loop_step (l : Loop) (lk : locks) (elected : bool) (mono : Q) (s : LoopState) (w : World)
    : option (LoopState * World) :=
  match lp_phase s with
  | Top => if lp_stop s then Some (set_phase Returned s, w) else Some (run_pass (pass_of l lk elected) s w)
  | Passed did_work =>
      let (seconds, tick) := _next_sleep_s l did_work (lp_tick_ms s) in
      Some (mkLoopState (Asleep (mono + seconds)%Q) (lp_stop s) tick (lp_errors s),
            match l with LDispatcher => wake_clear w | _ => w end)
  | Asleep until =>
      if Qle_bool until mono || match l with LDispatcher => rg_wake (w_registry w) | _ => false end
      then Some (set_phase Top s, w) else None
  | Returned => None
  end.

(** ** The process *)

Inductive Stage := Serving | Stopped.

Record Process := mkProcess {
  pr_world : World;
  pr_mono : Q;
  pr_tasks : list Task;
  pr_loops : list (Loop * LoopState);
  pr_serving : bool;      (* EngineState.serving *)
  pr_stage : Stage
}.

(** [EngineState.build]: one empty registry, and the limiter of the configured
    Redis; the services share them. *)
Definition build (db : DB) (redis : Redis) (clock : time) : World :=
  mkWorld db (mkRegistry ∅ [] ∅ false)
    (mkLimiter (if Config.enabled (Config.redis settings) then Some redis else None) ∅ false) [] clock.

(** [_run] up to [state.serving = True]. *)
Definition boot (db : DB) (redis : Redis) (clock : time) (mono : Q) : result exn Process :=
  let roles := Config.roles (Config.server settings) in
  match RateLimiter.load (build db redis clock) with
  | (w, Ok _) => Ok (mkProcess w mono (tasks roles) (map (fun l => (l, new_loop)) (loops roles)) true Serving)
  | (_, Raise e) => Raise e
  end.

(** The rest of [_run] after a signal: the flag, the stop of every loop, then
    [raise _Drain], on which the task group cancels what still runs. *)
Definition shutdown (p : Process) : Process :=
  mkProcess (pr_world p) (pr_mono p) [] (map (fun ls => (fst ls, set_phase Returned (stop (snd ls)))) (pr_loops p))
    false Stopped.

(** A task that raises tears the group down; the flag stays as it was. *)
Definition crash (p : Process) : Process :=
  mkProcess (pr_world p) (pr_mono p) [] (map (fun ls => (fst ls, set_phase Returned (snd ls))) (pr_loops p))
    (pr_serving p) Stopped.

Definition set_loop (i : nat) (s : LoopState) (w : World) (p : Process) : Process :=
  mkProcess w (pr_mono p) (pr_tasks p)
    (alter (fun ls => (fst ls, s)) i (pr_loops p)) (pr_serving p) (pr_stage p).

Inductive pstep : Process -> Process -> Prop :=
| ps_loop i l s lk elected s' w' p :     (* one loop advances *)
    pr_stage p = Serving -> pr_loops p !! i = Some (l, s) ->
    loop_step l lk elected (pr_mono p) s (pr_world p) = Some (s', w') ->
    pstep p (set_loop i s' w' p)
| ps_engine w' p :                       (* requests, other engines, the clocks of the database and the wall *)
    step (pr_world p) w' ->
    pstep p (mkProcess w' (pr_mono p) (pr_tasks p) (pr_loops p) (pr_serving p) (pr_stage p))
| ps_time t p :
    (pr_mono p <= t)%Q ->
    pstep p (mkProcess (pr_world p) t (pr_tasks p) (pr_loops p) (pr_serving p) (pr_stage p))
| ps_signal p : pr_stage p = Serving -> pstep p (shutdown p)
| ps_crash p : pr_stage p = Serving -> pr_tasks p <> [] -> pstep p (crash p).

End Loops.

(** ** The container health check (healthcheck.py)

    The reply of the HTTP endpoint, [None] when nothing listens. *)
Definition healthcheck (reply : option Z) : Z :=
  match reply with Some status => if status =? 200 then 0 else 1 | None => 1 end.

(** What the probe gets from a process: /healthz answers as soon as the HTTP task
    runs. *)
Definition healthz (p : Process) : option Z :=
  if bool_decide (ServeHttp ∈ pr_tasks p) then Some 200 else None.

End Process.
