(* ===== verification/ProcessProps.v ===== *)
(** * The engine process: liveness of the loops, health

    The loops of a process outlive every failing pass and never sleep longer than
    their configured interval, and the dispatcher reacts to the wake event while it
    sleeps. *)

From S2P Require Import Prelude PyStr Errors States Json Records Database Queries Tables Claim.
From S2P Require Import Invariant Steps ClaimFacts Repository RepoFacts World RateLimiter RegistryService.
From S2P Require Import JobService SubmitService FanOutService SignalService CancelService Matcher Loops Engine Lifecycle.
From S2P Require Import Config Auth GrpcServer Process.
From Stdlib Require Import QArith Lqa.
Open Scope string_scope.
Open Scope Z_scope.
Open Scope list_scope.

(** ** A contained pass *)

Lemma contained_outcome m w :
  contained m w = (fst (m w), Ok (match snd (m w) with Ok n => 0 <? n | Raise _ => false end)).
Proof.
  unfold contained, try_except, mbind, M_bind, M_bind_def. destruct (m w) as [w' [n|e]]; reflexivity.
Qed.

Lemma run_pass_outcome m s w :
  Process.run_pass m s w
  = (Process.mkLoopState (Process.Passed (match snd (m w) with Ok n => 0 <? n | Raise _ => false end))
       (Process.lp_stop s) (Process.lp_tick_ms s)
       (Process.lp_errors s + match snd (m w) with Raise _ => 1 | Ok _ => 0 end), fst (m w)).
Proof. unfold Process.run_pass. by rewrite contained_outcome. Qed.

Definition no_redis : Redis := mkRedis false ∅ ∅ 0.

(** The process of the defaults on the database of [world1], which holds one job. *)
Definition process1 : Process.Process :=
  Eval vm_compute in
  match Process.boot Config.default_settings (w_db world1) no_redis (w_clock world1) 0 with
  | Ok p => p
  | Raise _ => Process.mkProcess world1 0 [] [] false Process.Stopped
  end.

Definition never (expr : string) (t : time) : option time := None.

(** ** Liveness of the loops *)

Definition longest_tick (settings : Config.SymbaConfig) : Z :=
  Z.max (min_tick_ms (Process.cfg settings)) (max_tick_ms (Process.cfg settings)).

(** The longest sleep of a loop, in seconds. Nothing orders the two ticks of the
    configuration: [min_tick_ms] is slept as it is, also when it is the larger. *)
Definition max_sleep (settings : Config.SymbaConfig) (l : Process.Loop) : Q :=
  match l with
  | Process.LDispatcher => (inject_Z (longest_tick settings) / 1000)%Q
  | Process.LSweeper | Process.LRefiller => inject_Z (sweeper_interval_s (Process.cfg settings))
  | Process.LCron => Config.tick_s (Config.cron settings)
  end.

Section Liveness.
Context (settings : Config.SymbaConfig) (na : string -> time -> option time).

Lemma tick_bound tick d :
  Dispatcher.next_tick_ms (Process.cfg settings) tick d <= longest_tick settings.
Proof. unfold Dispatcher.next_tick_ms, longest_tick. destruct d; lia. Qed.

Lemma sleep_bound l d tick : (fst (Process._next_sleep_s settings l d tick) <= max_sleep settings l)%Q.
Proof.
  destruct l; simpl; try apply Qle_refl.
  pose proof (tick_bound tick d) as H. rewrite Zle_Qle in H. unfold Qdiv. apply Qmult_le_compat_r; [exact H | easy].
Qed.

(** A loop of a serving process: running, not asked to stop, and due in time. *)
Record loop_alive (mono : Q) (l : Process.Loop) (s : Process.LoopState) : Prop := mkAlive {
  la_running : Process.lp_phase s <> Process.Returned;
  la_stop : Process.lp_stop s = false;
  la_due : forall u, Process.lp_phase s = Process.Asleep u -> (u <= mono + max_sleep settings l)%Q
}.

Lemma alive_later mono mono' l s : (mono <= mono')%Q -> loop_alive mono l s -> loop_alive mono' l s.
Proof. intros Hm [H1 H2 H3]. split; [done..|]. intros u Hu. specialize (H3 u Hu). lra. Qed.

Lemma alive_new mono l : loop_alive mono l (Process.new_loop settings).
Proof. by split. Qed.

Lemma alive_step l lk e mono s w s' w' :
  loop_alive mono l s -> Process.loop_step settings na l lk e mono s w = Some (s', w') -> loop_alive mono l s'.
Proof.
  intros [H1 H2 H3]. unfold Process.loop_step. destruct (Process.lp_phase s) as [|d|u|] eqn:Ep; intros H; [| | |done].
  - rewrite H2, run_pass_outcome in H. simplify_eq. by split.
  - pose proof (sleep_bound l d (Process.lp_tick_ms s)) as Hb.
    destruct (Process._next_sleep_s _ _ _ _) as [q tick]. simplify_eq. split; [done..|].
    intros u Hu. simpl in *. simplify_eq. lra.
  - destruct (_ || _); simplify_eq. by split.
Qed.

(** Every loop of a serving process is alive. *)
Definition all_alive (roles : list string) (p : Process.Process) : Prop :=
  Process.pr_stage p = Process.Serving ->
  map fst (Process.pr_loops p) = Process.loops roles
  /\ forall i l s, Process.pr_loops p !! i = Some (l, s) -> loop_alive (Process.pr_mono p) l s.

Lemma fst_alter (f : Process.Loop * Process.LoopState -> Process.Loop * Process.LoopState) i k :
  (forall x, fst (f x) = fst x) -> map fst (alter f i k) = map fst k.
Proof.
  intros Hf. revert i. induction k as [|x k IH]; intros [|i]; simpl; try done.
  - by rewrite Hf.
  - f_equal. apply IH.
Qed.

Lemma all_alive_step roles p p' : all_alive roles p -> Process.pstep settings na p p' -> all_alive roles p'.
Proof.
  intros Ha Hs. destruct Hs as [i l s lk e s' w' p Hst Hl Hstep|w' p Hstep|t p Ht|p Hst|p Hst Hn]; intros Hserv; try done.
  - destruct (Ha Hst) as [Hm Hall]. simpl. split; [by rewrite fst_alter|].
    intros k l' s1 Hk. destruct (decide (i = k)) as [->|Hne].
    + rewrite list_lookup_alter_eq, Hl in Hk. simplify_eq/=. eapply alive_step; [|exact Hstep]. by apply (Hall k).
    + rewrite list_lookup_alter_ne in Hk by done. by apply (Hall k).
  - exact (Ha Hserv).
  - destruct (Ha Hserv) as [Hm Hall]. split; [done|]. intros k l s Hk. eapply alive_later; [exact Ht|]. by apply (Hall k).
Qed.

Lemma all_alive_boot db redis clock mono p :
  Process.boot settings db redis clock mono = Ok p -> all_alive (Config.roles (Config.server settings)) p.
Proof.
  unfold Process.boot. destruct (load _) as [w [u|e]]; intros H; simplify_eq. intros _. simpl. split.
  - rewrite map_map. simpl. apply map_id.
  - intros i l s Hi. rewrite list_lookup_fmap in Hi. destruct (_ !! i); simplify_eq/=. apply alive_new.
Qed.

Lemma all_alive_run db redis clock mono p p' :
  Process.boot settings db redis clock mono = Ok p -> rtc (Process.pstep settings na) p p' ->
  all_alive (Config.roles (Config.server settings)) p'.
Proof.
  intros Hb Hs. apply all_alive_boot in Hb. induction Hs as [|p1 p2 p3 H _ IH]; [done|].
  apply IH. by eapply all_alive_step.
Qed.


(** ** The wake event *)

(** The wake event shortens the dispatcher's sleep, but only once it sleeps: an
    event set while it is asleep ends the sleep at once; an event set before,
    while the pass still runs, is cleared before the wait, so with nothing further
    the dispatcher sleeps out its tick, up to the longest one, although a worker
    or a job is waiting. *)
Theorem dispatcher_wake lk e now w s d u :
  (Process.lp_phase s = Process.Asleep u -> rg_wake (w_registry w) = true ->
   exists s', Process.loop_step settings na Process.LDispatcher lk e now s w = Some (s', w)
     /\ Process.lp_phase s' = Process.Top)
  /\ (Process.lp_phase s = Process.Passed d ->
      exists s' w' tick, Process.loop_step settings na Process.LDispatcher lk e now s w = Some (s', w')
        /\ tick = Dispatcher.next_tick_ms (Process.cfg settings) (Process.lp_tick_ms s) d
        /\ tick <= longest_tick settings
        /\ Process.lp_phase s' = Process.Asleep (now + inject_Z tick / 1000)
        /\ w_db w' = w_db w /\ rg_workers (w_registry w') = rg_workers (w_registry w)
        /\ forall later, (later < now + inject_Z tick / 1000)%Q ->
           Process.loop_step settings na Process.LDispatcher lk e later s' w' = None).
Proof.
  unfold Process.loop_step. split.
  - intros -> Hw. rewrite Hw, orb_true_r. by eexists.
  - intros ->. simpl. do 3 eexists. split_and!; [reflexivity | reflexivity | | reflexivity | reflexivity | reflexivity |].
    + apply tick_bound.
    + intros later Hl. simpl. rewrite orb_false_r.
      destruct (Qle_bool _ later) eqn:E; [|done]. apply Qle_bool_iff in E. by apply Qlt_not_le in Hl.
Qed.

End Liveness.


(** A worker that connects while the pass runs waits for the tick. *)
Definition passed : Process.LoopState := Process.mkLoopState (Process.Passed false) false 10 0.

Lemma dispatcher_wake_witness :
  exists s' w', Process.loop_step Config.default_settings never Process.LDispatcher no_locks true 0 passed world2 = Some (s', w')
  /\ rg_wake (w_registry world2) = true
  /\ Process.loop_step Config.default_settings never Process.LDispatcher no_locks true (1 # 100) s' w' = None.
Proof.
  destruct (dispatcher_wake Config.default_settings never no_locks true 0 world2 passed false 0)
    as [_ H].
  destruct (H eq_refl) as (s' & w' & tick & H1 & H2 & _ & _ & _ & _ & H3).
  exists s', w'. split; [exact H1|]. split; [vm_compute; reflexivity|]. apply H3. rewrite H2. vm_compute. reflexivity.
Defined.

(** ** The health check *)

(** Without the api role nothing listens for the probe of the container, which
    then always fails. *)
Lemma sweeper_role_is_unhealthy settings na db redis clock mono p p' :
  Process.boot settings db redis clock mono = Ok p -> rtc (Process.pstep settings na) p p' ->
  Process.run_api (Config.roles (Config.server settings)) = false ->
  Process.healthcheck (Process.healthz p') = 1.
Proof.
  intros Hb Hs Hr.
  assert (~ Process.ServeHttp ∈ Process.pr_tasks p) as Hp.
  { unfold Process.boot in Hb. destruct (load _) as [w [u|e]]; simplify_eq. simpl. unfold Process.tasks. rewrite Hr. simpl.
    destruct (Process.run_sweeper _); set_solver. }
  assert (~ Process.ServeHttp ∈ Process.pr_tasks p') as Hp'.
  { clear Hb. induction Hs as [|p1 p2 p3 H _ IH]; [done|]. apply IH. destruct H; simpl; try done; set_solver. }
  unfold Process.healthz. by rewrite bool_decide_eq_false_2.
Qed.
