(* ===== verification/Gauges.v ===== *)
(** * The /metrics gauges the sweeper refreshes

    The aggregates of src/symba/db/queries/metrics_*.sql and
    [Sweeper._refresh_gauges] (services/loops.py) over the gauge families of
    src/symba/observability/metrics.py.  A gauge family maps label values to a
    level; ages are in seconds.  [xact_age] is what pg_stat_activity reports.

    The theorems: after a refresh every series is the aggregate of the current
    rows, and no other series is left; a failing read keeps what it had not
    reached. *)

From S2P Require Import Prelude PyStr Errors States Json Records Database Queries Tables Claim.
From S2P Require Import Repository World RateLimiter.
From Stdlib Require Import QArith.
Open Scope string_scope.
Open Scope Z_scope.
Open Scope list_scope.

(** ** The statements *)

(** [SELECT key, agg(rows) ... GROUP BY key] *)
Definition group_by {A K V} `{EqDecision K} (key : A -> K) (agg : list A -> V) (rows : list A) : list (K * V) :=
  map (fun k => (k, agg (sel (fun r => bool_decide (key r = k)) rows))) (remove_dups (map key rows)).

(** [count] over the rows, as a double *)
Definition count_rows {A} (rows : list A) : Q := inject_Z (Z.of_nat (length rows)).

(** [min(f(row))]; a group has at least one row. *)
Definition min_by {A} (f : A -> Z) (rows : list A) : Z :=
  match map f rows with [] => 0 | x :: xs => foldr Z.min x xs end.

(** [extract(epoch FROM now() - t)] *)
Definition epoch_since (now t : time) : Q := inject_Z (now - t) / 1000000.

Record GaugeRow := mkGaugeRow { gr_metric : string; gr_k1 : string; gr_k2 : string; gr_v : Q }.

Definition depth_key (j : Job) : string * string := (c_task_name j, JobState_value (j_state j)).

Definition sql_metrics_queue_gauges (db : DB) : list GaugeRow :=
  map (fun kv => mkGaugeRow "depth" (fst (fst kv)) (snd (fst kv)) (snd kv))
    (group_by depth_key count_rows (db_jobs db))
  ++ map (fun kv => mkGaugeRow "oldest_age" (fst kv) "" (snd kv))
       (group_by (fun j : Job => c_task_name j) (fun l => epoch_since (db_now db) (min_by j_run_at l))
          (sel (fun j : Job => JobState_eqb (j_state j) QUEUED) (db_jobs db)))
  ++ map (fun kv => mkGaugeRow "waiting" (fst kv) "" (snd kv))
       (group_by (fun j : Job => c_tenant j) count_rows
          (sel (fun j : Job => JobState_eqb (j_state j) WAITING) (db_jobs db))).

Definition unfired (g : Gate) : bool := match g_fired_at g with None => true | Some _ => false end.

Definition sql_metrics_gate_age (db : DB) : list (string * Q) :=
  group_by g_policy (fun l => epoch_since (db_now db) (min_by g_created_at l)) (sel unfired (db_gates db)).

(** [coalesce(age, 0)] *)
Definition sql_metrics_pg_xact_age (xact_age : option Q) : Q := default 0%Q xact_age.

Module gauges_repo.

Definition metrics_queue_gauges : DBM (list GaugeRow) := query sql_metrics_queue_gauges.
Definition metrics_gate_age : DBM (list (string * Q)) := query sql_metrics_gate_age.
Definition metrics_pg_xact_age (xact_age : option Q) : DBM Q := query (fun _ => sql_metrics_pg_xact_age xact_age).

End gauges_repo.

(** ** The gauge families *)

Record Metrics := mkMetrics {
  queue_depth : gmap (string * string) Q;
  queue_oldest_age_seconds : gmap string Q;
  waiting_jobs : gmap string Q;
  gate_age_seconds : gmap string Q;
  pg_oldest_xact_age_seconds : Q;
  rate_bucket_tokens : gmap string Q;
  sweeper_gauges_errors : Z            (* loop_errors_total{loop=sweeper_gauges} *)
}.

Definition clear_queue (m : Metrics) : Metrics :=
  mkMetrics ∅ ∅ ∅ (gate_age_seconds m) (pg_oldest_xact_age_seconds m) (rate_bucket_tokens m) (sweeper_gauges_errors m).

Definition set_queue_depth (v : gmap (string * string) Q) (m : Metrics) : Metrics :=
  mkMetrics v (queue_oldest_age_seconds m) (waiting_jobs m) (gate_age_seconds m) (pg_oldest_xact_age_seconds m)
    (rate_bucket_tokens m) (sweeper_gauges_errors m).
Definition set_oldest_age (v : gmap string Q) (m : Metrics) : Metrics :=
  mkMetrics (queue_depth m) v (waiting_jobs m) (gate_age_seconds m) (pg_oldest_xact_age_seconds m)
    (rate_bucket_tokens m) (sweeper_gauges_errors m).
Definition set_waiting (v : gmap string Q) (m : Metrics) : Metrics :=
  mkMetrics (queue_depth m) (queue_oldest_age_seconds m) v (gate_age_seconds m) (pg_oldest_xact_age_seconds m)
    (rate_bucket_tokens m) (sweeper_gauges_errors m).
Definition set_gate_age (v : gmap string Q) (m : Metrics) : Metrics :=
  mkMetrics (queue_depth m) (queue_oldest_age_seconds m) (waiting_jobs m) v (pg_oldest_xact_age_seconds m)
    (rate_bucket_tokens m) (sweeper_gauges_errors m).
Definition set_xact_age (v : Q) (m : Metrics) : Metrics :=
  mkMetrics (queue_depth m) (queue_oldest_age_seconds m) (waiting_jobs m) (gate_age_seconds m) v
    (rate_bucket_tokens m) (sweeper_gauges_errors m).
Definition set_tokens (v : gmap string Q) (m : Metrics) : Metrics :=
  mkMetrics (queue_depth m) (queue_oldest_age_seconds m) (waiting_jobs m) (gate_age_seconds m)
    (pg_oldest_xact_age_seconds m) v (sweeper_gauges_errors m).
Definition gauge_error (m : Metrics) : Metrics :=
  mkMetrics (queue_depth m) (queue_oldest_age_seconds m) (waiting_jobs m) (gate_age_seconds m)
    (pg_oldest_xact_age_seconds m) (rate_bucket_tokens m) (sweeper_gauges_errors m + 1).

(** The dispatch of one row on its [metric] column. *)
Definition set_row (m : Metrics) (row : GaugeRow) : Metrics :=
  if String.eqb (gr_metric row) "depth" then set_queue_depth (<[(gr_k1 row, gr_k2 row) := gr_v row]> (queue_depth m)) m
  else if String.eqb (gr_metric row) "oldest_age"
       then set_oldest_age (<[gr_k1 row := gr_v row]> (queue_oldest_age_seconds m)) m
  else if String.eqb (gr_metric row) "waiting" then set_waiting (<[gr_k1 row := gr_v row]> (waiting_jobs m)) m
  else m.

(** [clear()], then [labels(k).set(v)] for each pair *)
Definition set_all {K} `{Countable K} (rows : list (K * Q)) : gmap K Q :=
  foldl (fun m kv => <[fst kv := snd kv]> m) ∅ rows.

(** ** [Sweeper._refresh_gauges]

    [m] is the registry before; each of the four reads may raise ([fails]), and what was set before
    a failure stays. *)
Inductive Probe := ProbeQueue | ProbeGate | ProbeXact | ProbeTokens.

Section Refresh.
Context (fails : Probe -> option exn) (xact_age : option Q).

(** A read that raises when its probe fails. *)
Definition probe {A} (p : Probe) (read : EM A) : EM A :=
  match fails p with Some e => raise e | None => read end.

(** The body of the [try]: the registry after it, and whether it ran through. *)
Definition refresh (m : Metrics) : World -> Metrics * bool := fun w =>
  match snd (probe ProbeQueue (on_db gauges_repo.metrics_queue_gauges) w) with
  | Raise _ => (m, false)
  | Ok rows =>
      let m := foldl set_row (clear_queue m) rows in
      match snd (probe ProbeGate (on_db gauges_repo.metrics_gate_age) w) with
      | Raise _ => (m, false)
      | Ok gate_rows =>
          let m := set_gate_age (set_all gate_rows) m in
          match snd (probe ProbeXact (on_db (gauges_repo.metrics_pg_xact_age xact_age)) w) with
          | Raise _ => (m, false)
          | Ok age =>
              let m := set_xact_age age m in
              match snd (probe ProbeTokens snapshot_tokens w) with
              | Raise _ => (m, false)
              | Ok tokens => (set_tokens (set_all (map_to_list tokens)) m, true)
              end
          end
      end
  end.

Definition _refresh_gauges (m : Metrics) (w : World) : Metrics :=
  let (m', ok) := refresh m w in if ok then m' else gauge_error m'.

End Refresh.

(** * The gauges picture the database *)

From S2P Require Import Invariant Steps ClaimFacts RepoFacts RegistryService.
From S2P Require Import JobService SubmitService FanOutService SignalService CancelService Matcher Loops Engine Lifecycle.

(** ** Families as maps *)

Lemma set_all_from {K} `{Countable K} (rows : list (K * Q)) (m : gmap K Q) k :
  foldl (fun m kv => <[fst kv := snd kv]> m) m rows !! k
  = match List.find (fun kv => bool_decide (fst kv = k)) (rev rows) with Some kv => Some (snd kv) | None => m !! k end.
Proof.
  induction rows as [|[k0 v0] rows IH] using rev_ind; [done|].
  rewrite foldl_app, rev_app_distr. simpl. destruct (decide (k0 = k)) as [->|Hne].
  - rewrite bool_decide_eq_true_2 by done. simpl. by rewrite lookup_insert_eq.
  - rewrite bool_decide_eq_false_2 by done. rewrite lookup_insert_ne by done. exact IH.
Qed.

(** The value [f k] of every key listed, and nothing else. *)
Lemma set_all_keyed {K} `{Countable K} (f : K -> Q) ks k :
  set_all (map (fun x => (x, f x)) ks) !! k = if bool_decide (k ∈ ks) then Some (f k) else None.
Proof.
  unfold set_all. rewrite set_all_from. rewrite <- map_rev.
  destruct (List.find _ _) as [[k0 v0]|] eqn:E.
  - apply find_some in E as [Hin Hk]. apply bool_decide_eq_true in Hk. simpl in Hk. subst k0.
    apply in_map_iff in Hin as (x & Hx & Hin). simplify_eq. rewrite <- in_rev in Hin.
    rewrite bool_decide_eq_true_2; [done|]. by apply list_elem_of_In.
  - rewrite lookup_empty. rewrite bool_decide_eq_false_2; [done|]. intros Hin. apply list_elem_of_In in Hin.
    pose proof (find_none _ _ E (k, f k)) as Hn. simpl in Hn. rewrite bool_decide_eq_true_2 in Hn by done.
    discriminate Hn. apply in_map_iff. exists k. split; [done|]. by rewrite <- in_rev.
Qed.

(** What a family holds at a key: the aggregate of its rows, if it has any. *)
Definition series {A K V} `{EqDecision K} (key : A -> K) (agg : list A -> V) (rows : list A) (k : K) : option V :=
  match sel (fun r => bool_decide (key r = k)) rows with [] => None | l => Some (agg l) end.

Lemma set_all_group {A K} `{Countable K} (key : A -> K) (agg : list A -> Q) rows k :
  set_all (group_by key agg rows) !! k = series key agg rows k.
Proof.
  unfold group_by, series. rewrite set_all_keyed. rewrite (bool_decide_ext _ (k ∈ map key rows)) by apply elem_of_remove_dups.
  destruct (sel (fun r => bool_decide (key r = k)) rows) as [|r l] eqn:E.
  - rewrite bool_decide_eq_false_2; [done|]. intros Hin. apply list_elem_of_In, in_map_iff in Hin as (r & <- & Hr).
    assert (In r (sel (fun x => bool_decide (key x = key r)) rows)) as Hs by (apply in_sel; split; [done | by apply bool_decide_eq_true]).
    by rewrite E in Hs.
  - rewrite bool_decide_eq_true_2; [done|]. assert (In r (r :: l)) as Hr by (by left). rewrite <- E in Hr.
    apply in_sel in Hr as [Hr Hk]. apply bool_decide_eq_true in Hk. subst k. by apply list_elem_of_In, in_map.
Qed.

Lemma set_all_list {K} `{Countable K} (m : gmap K Q) : set_all (map_to_list m) = m.
Proof.
  apply map_eq. intros k. unfold set_all. rewrite set_all_from, lookup_empty.
  destruct (List.find _ _) as [[k0 v0]|] eqn:E.
  - apply find_some in E as [Hin Hk]. apply bool_decide_eq_true in Hk. simpl in Hk. subst k0.
    rewrite <- in_rev in Hin. apply list_elem_of_In, elem_of_map_to_list in Hin. done.
  - destruct (m !! k) as [v|] eqn:Em; [|done]. apply elem_of_map_to_list, list_elem_of_In in Em.
    rewrite in_rev in Em. pose proof (find_none _ _ E _ Em) as Hn. simpl in Hn. by rewrite bool_decide_eq_true_2 in Hn.
Qed.

(** ** The rows of the tagged union *)

Lemma rows_depth (l : list ((string * string) * Q)) m :
  foldl set_row m (map (fun kv => mkGaugeRow "depth" (fst (fst kv)) (snd (fst kv)) (snd kv)) l)
  = set_queue_depth (foldl (fun m kv => <[fst kv := snd kv]> m) (queue_depth m) l) m.
Proof. revert m. induction l as [|[[k1 k2] v] l IH]; intros m; [by destruct m|]. simpl. rewrite IH. done. Qed.

Lemma rows_oldest (l : list (string * Q)) m :
  foldl set_row m (map (fun kv => mkGaugeRow "oldest_age" (fst kv) "" (snd kv)) l)
  = set_oldest_age (foldl (fun m kv => <[fst kv := snd kv]> m) (queue_oldest_age_seconds m) l) m.
Proof. revert m. induction l as [|[k v] l IH]; intros m; [by destruct m|]. simpl. rewrite IH. done. Qed.

Lemma rows_waiting (l : list (string * Q)) m :
  foldl set_row m (map (fun kv => mkGaugeRow "waiting" (fst kv) "" (snd kv)) l)
  = set_waiting (foldl (fun m kv => <[fst kv := snd kv]> m) (waiting_jobs m) l) m.
Proof. revert m. induction l as [|[k v] l IH]; intros m; [by destruct m|]. simpl. rewrite IH. done. Qed.

(** The three families of the queue after its rows were set. *)
Record queue_pictured (db : DB) (m : Metrics) : Prop := mkPictured {
  qp_depth : forall k, queue_depth m !! k = series depth_key count_rows (db_jobs db) k;
  qp_oldest : forall task, queue_oldest_age_seconds m !! task
    = series (fun j : Job => c_task_name j) (fun l => epoch_since (db_now db) (min_by j_run_at l))
        (sel (fun j : Job => JobState_eqb (j_state j) QUEUED) (db_jobs db)) task;
  qp_waiting : forall tenant, waiting_jobs m !! tenant
    = series (fun j : Job => c_tenant j) count_rows
        (sel (fun j : Job => JobState_eqb (j_state j) WAITING) (db_jobs db)) tenant
}.

Lemma queue_rows db m :
  let m' := foldl set_row (clear_queue m) (sql_metrics_queue_gauges db) in
  queue_pictured db m' /\ gate_age_seconds m' = gate_age_seconds m
  /\ pg_oldest_xact_age_seconds m' = pg_oldest_xact_age_seconds m
  /\ rate_bucket_tokens m' = rate_bucket_tokens m /\ sweeper_gauges_errors m' = sweeper_gauges_errors m.
Proof.
  unfold sql_metrics_queue_gauges. rewrite !foldl_app, rows_depth, rows_oldest, rows_waiting. simpl.
  split_and!; try done. split; intros k; simpl; apply set_all_group.
Qed.

(** The gauges picture the database: after a refresh whose reads succeed, from
    any earlier values, the depth of each task and state is the number of its live
    rows, the age of a task is that of its earliest queued run_at, the waiting count
    of a tenant is its number of waiting rows, a policy's age is that of its oldest
    unfired gate, the token levels are the limiter's, and a label without rows has
    no series; a read that raises counts one error and leaves the families not yet
    reached as they were. *)
Theorem gauges_exact fails xact_age m w :
  let m' := _refresh_gauges fails xact_age m w in
  let db := w_db w in
  ((forall p, fails p = None) ->
   queue_pictured db m'
   /\ (forall policy, gate_age_seconds m' !! policy
        = series g_policy (fun l => epoch_since (db_now db) (min_by g_created_at l)) (sel unfired (db_gates db)) policy)
   /\ pg_oldest_xact_age_seconds m' = default 0%Q xact_age
   /\ (exists tokens, snd (snapshot_tokens w) = Ok tokens /\ rate_bucket_tokens m' = tokens)
   /\ sweeper_gauges_errors m' = sweeper_gauges_errors m)
  /\ (forall p e, fails p = Some e ->
      sweeper_gauges_errors m' = sweeper_gauges_errors m + 1
      /\ rate_bucket_tokens m' = rate_bucket_tokens m
      /\ (fails ProbeQueue <> None -> m' = gauge_error m)
      /\ (fails ProbeQueue = None -> queue_pictured db m')).
Proof.
  cbv zeta. destruct (queue_rows (w_db w) m) as (Hq & Hg & Hx & Hr & He).
  unfold _refresh_gauges, refresh, probe. simpl.
  destruct (fails ProbeQueue) eqn:E1; simpl; [split; [intros H; by rewrite H in E1|by intros ? ? _]|].
  destruct (fails ProbeGate) eqn:E2; simpl; [split; [intros H; by rewrite H in E2|]|].
  { intros ? ? _. rewrite He, Hr. split_and!; try done. intros _. by destruct Hq. }
  destruct (fails ProbeXact) eqn:E3; simpl; [split; [intros H; by rewrite H in E3|]|].
  { intros ? ? _. rewrite He, Hr. split_and!; try done. intros _. by destruct Hq. }
  destruct (fails ProbeTokens) eqn:E4; simpl; [split; [intros H; by rewrite H in E4|]|].
  { intros ? ? _. rewrite He, Hr. split_and!; try done. intros _. by destruct Hq. }
  split; [|intros [] ? Hp; congruence]. intros _. split_and!; try done.
  - by destruct Hq.
  - intros policy. apply set_all_group.
  - eexists. split; [reflexivity|]. apply set_all_list.
Qed.

Definition stale_metrics : Metrics :=
  mkMetrics {[("gone", "queued") := 9%Q]} ∅ {["acme" := 2%Q]} ∅ 0 ∅ 0.

Lemma gauges_exact_witness :
  queue_depth (_refresh_gauges (fun _ => None) None stale_metrics world1) !! ("resize", "queued") = Some 1%Q
  /\ queue_depth (_refresh_gauges (fun _ => None) None stale_metrics world1) !! ("gone", "queued") = None.
Proof.
  destruct (gauges_exact (fun _ => None) None stale_metrics world1) as [H _].
  destruct (H ltac:(intros p; reflexivity)) as ([Hd _ _] & _). rewrite !Hd. split; vm_compute; reflexivity.
Defined.
