(* ===== verification/CronProps.v ===== *)
(** * Cron schedules

    What firing a due schedule does to its row, that a second engine firing the
    same window changes nothing, and what happens after an outage. *)

From S2P Require Import Prelude PyStr Errors States Json Records Database Queries Tables Claim.
From S2P Require Import Invariant Steps ClaimFacts Repository RepoFacts World RateLimiter RegistryService.
From S2P Require Import JobService SubmitService QueryService FanOutService SignalService CancelService Matcher Loops Engine Lifecycle.
From Stdlib Require Import QArith.
Open Scope string_scope.
Open Scope Z_scope.
Open Scope list_scope.

(** ** A submission does not touch the schedules *)

Definition same_cron (db db' : DB) : Prop :=
  db_cron_schedules db' = db_cron_schedules db /\ db_now db' = db_now db.

#[local] Instance same_cron_preorder : PreOrder same_cron.
Proof. split; [done|]. intros a b c [H1 H2] [H3 H4]. split; congruence. Qed.

Lemma same_cron_stmt {A} (f : DB -> DB * A) : (forall db, same_cron db (fst (f db))) -> stable same_cron (stmt f).
Proof. intros H db. unfold stmt. specialize (H db). by destruct (f db). Qed.

Lemma same_cron_submit s : stable same_cron (repo.submit s).
Proof.
  unfold repo.submit. stable_step; [auto with stable_db|]. apply same_cron_stmt. intros db.
  unfold sql_submit. by destruct (List.find _ _).
Qed.

Lemma same_cron_dependency i u a : stable same_cron (repo.insert_dependency i u a).
Proof. apply same_cron_stmt. intros db. unfold sql_insert_dependency. simpl. by destruct (existsb _ _). Qed.

#[local] Hint Resolve same_cron_submit same_cron_dependency : stable_db.

Lemma same_cron_submit_tx cfg specs : stable same_cron (SubmitService.submit_tx cfg specs).
Proof.
  unfold SubmitService.submit_tx, SubmitService._enforce_tenant_caps, SubmitService.submit_one, repo.count_tenant_live, query.
  stable_tac.
Qed.

Definition cron_frame (w w' : World) : Prop := same_cron (w_db w) (w_db w') /\ w_clock w' = w_clock w.

Lemma cron_frame_submit cfg specs : stable cron_frame (SubmitService.submit cfg specs).
Proof.
  intros w. unfold SubmitService.submit. destruct specs as [|s specs]; [by split|].
  unfold mbind at 1, M_bind, M_bind_def, clock, gets.
  destruct (SubmitService.prepare_all cfg (w_clock w) (s :: specs)) as [prepared|e]; [|by split].
  unfold mbind, M_bind, M_bind_def, in_tx, on_db, transaction.
  pose proof (same_cron_submit_tx cfg prepared (w_db w)) as H.
  destruct (SubmitService.submit_tx _ _ _) as [db' [rs|e]]; simpl in *; [|by split].
  unfold when. destruct (SubmitService.any_queued _ _); by split.
Qed.

(** ** The compare-and-set *)

Definition window (id : string) (f : time) (s : CronSchedule) : bool :=
  String.eqb (cr_schedule_id s) id && cr_enabled s && not_distinct (cr_next_fire s) (Some f).

(** No enabled row of schedule [id] waits for [f]. *)
Definition closed_window (id : string) (f : time) (db : DB) : Prop :=
  forall r, In r (db_cron_schedules db) -> cr_schedule_id r = id -> cr_enabled r = true -> cr_next_fire r <> Some f.

Lemma window_spec id f r :
  window id f r = true <-> cr_schedule_id r = id /\ cr_enabled r = true /\ cr_next_fire r = Some f.
Proof.
  unfold window. rewrite !andb_true_iff, String.eqb_eq. unfold not_distinct.
  destruct (cr_next_fire r) as [t|]; simpl; [rewrite Z.eqb_eq|]; naive_solver.
Qed.

Lemma closed_window_iff id f db :
  closed_window id f db <-> existsb (window id f) (db_cron_schedules db) = false.
Proof.
  rewrite <- not_true_iff_false, existsb_exists. unfold closed_window. split.
  - intros H (r & Hr & (H1 & H2 & H3)%window_spec). by apply (H r).
  - intros H r Hr H1 H2 H3. apply H. exists r. split; [done|]. by apply window_spec.
Qed.

(** The table once the window [f] of [id] was advanced to [next]. *)
Definition advanced (id : string) (f next : time) (l : list CronSchedule) : list CronSchedule :=
  update_where (window id f) (set_fires (Some f) (Some next)) l.

Lemma advanced_closed id f next l : f <> next -> existsb (window id f) (advanced id f next l) = false.
Proof.
  intros Hne. apply not_true_is_false. intros H. apply existsb_exists in H as (s & Hs & Hw).
  apply in_update_where in Hs as (r & Hr & ->). destruct (window id f r) eqn:E; [|congruence].
  unfold window, set_fires, not_distinct in Hw. simpl in Hw. rewrite !andb_true_iff in Hw. destruct Hw as [_ Hw].
  apply Hne. symmetry. by apply Z.eqb_eq in Hw.
Qed.

Lemma advance_closed id f next x db :
  existsb (window id f) (db_cron_schedules db) = false ->
  repo.cron_advance id next (Some f) x db = (db, Ok false).
Proof.
  intros H. unfold repo.cron_advance, stmt, sql_cron_advance. fold (window id f). rewrite H.
  assert (update_where (window id f) (set_fires x (Some next)) (db_cron_schedules db) = db_cron_schedules db) as ->.
  { unfold update_where. rewrite <- (map_id (db_cron_schedules db)) at 2. apply map_ext_in. intros s Hs.
    destruct (window id f s) eqn:E; [|done]. exfalso. apply not_true_iff_false in H. apply H, existsb_exists. eauto. }
  by destruct db.
Qed.

(** ** Firing *)

Section Fire.
Context (na : string -> time -> option time) (cfg : SymbaConfig).

(** [CronService._fire] of a due row whose submission is accepted. *)
Lemma fire_due s f n w w1 o :
  cr_next_fire s = Some f -> f <= w_clock w -> na (cr_cron_expr s) f = Some n ->
  SubmitService.submit cfg [CronService.cron_spec s f] w = (w1, Ok o) ->
  CronService._fire na cfg s w
  = let (db', won) := sql_cron_advance (cr_schedule_id s) (Z.max n (w_clock w)) (Some f) (Some f) (w_db w1) in
    (set_w_db db' w1, Ok (won && negb (match SubmitService.deduplicated o with b :: _ => b | [] => true end))).
Proof.
  intros Hf Hle Hn Hs. unfold CronService._fire. unfold mbind at 1, M_bind, M_bind_def, clock, gets.
  rewrite Hf. assert (w_clock w <? f = false) as -> by lia.
  unfold mbind, M_bind, M_bind_def. rewrite Hs. unfold of_option, mret, M_ret, M_ret_def. rewrite Hn. cbv beta iota zeta.
  assert ((if n <? w_clock w then w_clock w else n) = Z.max n (w_clock w)) as -> by (destruct (Z.ltb_spec n (w_clock w)); lia).
  unfold on_db, repo.cron_advance, stmt. by destruct (sql_cron_advance _ _ _ _ _).
Qed.

(** A row already advanced past [f] by another engine. *)
Lemma fire_lost s f w :
  cr_next_fire s = Some f -> existsb (window (cr_schedule_id s) f) (db_cron_schedules (w_db w)) = false ->
  exists w' r, CronService._fire na cfg s w = (w', r)
    /\ db_cron_schedules (w_db w') = db_cron_schedules (w_db w) /\ r <> Ok true.
Proof.
  intros Hf Hc. unfold CronService._fire. unfold mbind at 1, M_bind, M_bind_def, clock, gets. rewrite Hf.
  destruct (w_clock w <? f); [by eexists _, _|]. unfold mbind, M_bind, M_bind_def.
  pose proof (cron_frame_submit cfg [CronService.cron_spec s f] w) as [[Hk _] _].
  destruct (SubmitService.submit _ _ w) as [w1 [o|e]]; simpl in Hk; [|by eexists _, _].
  unfold of_option, mret, M_ret, M_ret_def. destruct (na (cr_cron_expr s) f) as [n|]; [|by eexists _, _].
  cbv beta iota zeta. unfold on_db. rewrite advance_closed by (by rewrite Hk). by eexists _, _.
Qed.

End Fire.

(** C38. Firing a cron window: a due schedule whose submission is accepted moves its
    window past the one fired, to the next occurrence or to the present, whichever
    is later, and counts as fired unless the job was deduplicated; the window
    fired is closed then, and in any world in which it is closed (no enabled row of
    the schedule has it as its next fire) an engine that still holds the old row
    neither moves a window nor counts a second fire. But when the next occurrence is
    already past, as after an outage, the window moved to is the present, off
    schedule, and the schedule is due again at once. *)
Theorem cron_fires_window na cfg s f n w w1 o :
  In s (db_cron_schedules (w_db w)) -> cr_enabled s = true -> cr_next_fire s = Some f ->
  f <= w_clock w -> na (cr_cron_expr s) f = Some n -> f < n ->
  SubmitService.submit cfg [CronService.cron_spec s f] w = (w1, Ok o) ->
  exists w2 next, CronService._fire na cfg s w
      = (w2, Ok (negb (match SubmitService.deduplicated o with b :: _ => b | [] => true end)))
    /\ next = Z.max n (w_clock w)
    /\ In (set_fires (Some f) (Some next) s) (db_cron_schedules (w_db w2))
    /\ db_jobs (w_db w2) = db_jobs (w_db w1)
    /\ closed_window (cr_schedule_id s) f (w_db w2)
    /\ (forall na' cfg' w3, closed_window (cr_schedule_id s) f (w_db w3) ->
         exists w' r, CronService._fire na' cfg' s w3 = (w', r)
           /\ db_cron_schedules (w_db w') = db_cron_schedules (w_db w3) /\ r <> Ok true)
    /\ (n < w_clock w <= db_now (w_db w) ->
         In (set_fires (Some f) (Some (w_clock w)) s) (sql_cron_due (w_db w2))).
Proof.
  intros Hin Hen Hf Hle Hn Hlt Hs.
  pose proof (cron_frame_submit cfg [CronService.cron_spec s f] w) as [[Hk Ht] _]. rewrite Hs in Hk, Ht. simpl in Hk, Ht.
  assert (window (cr_schedule_id s) f s = true) as Hw.
  { unfold window, not_distinct. rewrite String.eqb_refl, Hen, Hf. simpl. apply Z.eqb_refl. }
  assert (In (set_fires (Some f) (Some (Z.max n (w_clock w))) s)
            (advanced (cr_schedule_id s) f (Z.max n (w_clock w)) (db_cron_schedules (w_db w)))) as Hnew.
  { apply in_update_where. exists s. by rewrite Hw. }
  rewrite (fire_due na cfg s f n w w1 o Hf Hle Hn Hs). unfold sql_cron_advance. fold (window (cr_schedule_id s) f).
  rewrite Hk. fold (advanced (cr_schedule_id s) f (Z.max n (w_clock w)) (db_cron_schedules (w_db w))).
  assert (existsb (window (cr_schedule_id s) f) (db_cron_schedules (w_db w)) = true) as -> by (apply existsb_exists; eauto).
  do 2 eexists. split_and!; [reflexivity | reflexivity | exact Hnew | reflexivity | | |].
  - apply closed_window_iff, advanced_closed. lia.
  - intros na' cfg' w3 H3. apply (fire_lost na' cfg' s f); [done|]. by apply closed_window_iff.
  - intros [Hnow Hdb]. rewrite Z.max_r in Hnew |- * by lia. unfold sql_cron_due. apply order_by_In, in_sel.
    split; [exact Hnew|]. simpl. rewrite Hen, Ht. simpl. lia.
Qed.

(** An hourly schedule of one deployment, down for three hours. *)
Definition hour : time := 3600000000.
Definition hourly_next (_ : string) (t : time) : option time := Some ((t / hour + 1) * hour).

Definition at_time (t : time) (w : World) : World :=
  mkWorld (set_db_now t (w_db w)) (w_registry w) (w_limiter w) (w_cursors w) t.

Definition cron_world : World :=
  at_time (4 * hour + 7)
    (fst (CronService.pass_ hourly_next default_config
       (fst (QueryService.upsert_cron (fun _ => true) "nightly" "0 * * * *" "report" (Some []) "default" true world0)))).

Definition cron_row : CronSchedule := mkCron "nightly" "0 * * * *" "report" [] "default" true None (Some hour) 0.

Lemma cron_fires_window_witness :
  let w2 := fst (CronService.pass_ hourly_next default_config cron_world) in
  let w3 := fst (CronService.pass_ hourly_next default_config w2) in
  let w4 := fst (CronService.pass_ hourly_next default_config w3) in
  snd (CronService._fire hourly_next default_config cron_row cron_world) = Ok true
  /\ map (fun j : Job => c_dedup_key j) (db_jobs (w_db w4))
     = [Some "cron:nightly:1970-01-01T01:00:00+00:00"; Some "cron:nightly:1970-01-01T04:00:00.000007+00:00"].
Proof.
  cbv zeta. split.
  - destruct (SubmitService.submit default_config [CronService.cron_spec cron_row hour] cron_world) as [w1 [o|e]] eqn:E;
      [|vm_compute in E; discriminate E].
    destruct (cron_fires_window hourly_next default_config cron_row hour (2 * hour) cron_world w1 o)
      as (w2 & next & H & _); [vm_compute; by left | reflexivity | reflexivity | by vm_compute | reflexivity | reflexivity | exact E |].
    rewrite H. simpl. vm_compute in E. injection E as _ <-. reflexivity.
  - vm_compute. reflexivity.
Defined.
