(* ===== verification/Observability.v ===== *)
(** * Tracing and logging (src/symba/observability/tracing.py, logging.py)

    Tracing: the context variable with the correlation id, the HTTP middleware
    that sets it, and [engine_span] as the generator-based context manager it is.
    Requests are what starlette answers for a header and a query parameter; the
    tracing SDK is a parameter that may be missing and whose calls may raise.

    Logging: the processors the module puts into the structlog chain, the choice
    of the handlers and the name of the process.  An event dict is a Python dict
    in insertion order.  structlog's own processors, the rotating file and the
    uvicorn configuration are not modelled. *)

(** * Tracing *)

From S2P Require Import Prelude PyStr.
From Stdlib Require Import Ascii.
Open Scope string_scope.
Open Scope Z_scope.
Open Scope list_scope.

(** Exceptions, by what the code tells apart. *)
Inductive pyexn := ImportError | RuntimeErr (msg : string) | Other (name : string).

(** ** The context variable *)

(** The variable's value in the current task, and [request.state.trace_id]. *)
Record TraceCtx := mkTrace { trace_id_context : string; state_trace_id : option string }.

Definition TM (A : Type) : Type := M pyexn TraceCtx A.

Definition get_trace_id : TM string := gets trace_id_context.
Definition set_trace_id (trace_id : string) : TM unit := modify (fun s => mkTrace trace_id (state_trace_id s)).

(** [tid = str(uuid4())], installed and returned. *)
Definition new_trace_id (uuid4 : string) : TM string := _ ← set_trace_id uuid4; mret uuid4.

(** ** The middleware *)

Definition _INBOUND_REQUEST_ID_HEADER : string := "x-symba-request-id".
Definition _MAX_INBOUND_REQUEST_ID_LEN : nat := 256.

(** What [request.headers.get] and [request.query_params.get] answer. *)
Record Request := mkRequest { header : string -> option string; query_param : string -> option string }.

Definition nonblank (o : option string) : option string :=
  match o with Some s => if String.eqb (strip s) "" then None else Some (strip s) | None => None end.

Definition _read_inbound_trace_id (r : Request) : option string :=
  let from_query := nonblank (query_param r "trace_id") in
  match nonblank (header r _INBOUND_REQUEST_ID_HEADER) with
  | Some value => if (String.length value <=? _MAX_INBOUND_REQUEST_ID_LEN)%nat then Some value else from_query
  | None => from_query
  end.

(** [TraceIDMiddleware.__call__] around [app]: the variable is reset in a
    [finally]. *)
Definition trace_middleware {A} (http : bool) (r : Request) (uuid4 : string) (app : TM A) : TM A :=
  if negb http then app
  else fun s =>
    let trace_id := default uuid4 (_read_inbound_trace_id r) in
    let (s', result) := app (mkTrace trace_id (Some trace_id)) in
    (mkTrace (trace_id_context s) (state_trace_id s'), result).

(** [configure_tracing] installs a provider only with an endpoint. *)
Definition configure_tracing (otlp_endpoint : string) : bool := negb (String.eqb otlp_endpoint "").

(** ** [engine_span] *)

Section Span.
Context {T S A : Type}.

(** The SDK over its own state: entering a span, setting an attribute, leaving it
    (with the exception that ends the body, which the SDK records and lets pass). *)
Record SDK := mkSDK {
  start_span : string -> T -> T * result pyexn unit;
  set_attribute : string -> string -> T -> T * result pyexn unit;
  end_span : option pyexn -> T -> T * result pyexn unit
}.

Definition attributes (ctx_id job_id task : option string) (attrs : list (string * string)) : list (string * string) :=
  let std k (o : option string) := match o with Some v => [(k, v)] | None => [] end in
  std "symba.ctx_id" ctx_id ++ std "symba.job_id" job_id ++ std "symba.task" task
  ++ map (fun kv => ("symba." ++ fst kv, snd kv))%string attrs.

(** The first attribute that raises ends the setting; the exception is dropped. *)
Fixpoint set_attributes (sdk : SDK) (l : list (string * string)) (t : T) : T :=
  match l with
  | [] => t
  | (k, v) :: l' => match set_attribute sdk k v t with
                    | (t', Ok _) => set_attributes sdk l' t'
                    | (t', Raise _) => t'
                    end
  end.

(** What a generator that yields a second time makes of [with]. *)
Definition second_yield (after_throw : bool) : pyexn :=
  RuntimeErr (if after_throw then "generator didn't stop after throw()" else "generator didn't stop").

(** [with engine_span(...): body].  [sdk] is None when the import fails.  The
    [except ImportError: yield] encloses the body's yield: an ImportError that
    arrives there, from the body or from leaving the span, yields again. *)
Definition engine_span (sdk : option SDK) (name : string) (ctx_id job_id task : option string)
    (attrs : list (string * string)) (body : M pyexn S A) (t : T) (s : S) : T * (S * result pyexn A) :=
  match sdk with
  | None => (t, body s)
  | Some k =>
      match start_span k name t with
      | (t1, Raise ImportError) => (t1, body s)
      | (t1, Raise e) => (t1, (s, Raise e))
      | (t1, Ok _) =>
          let t2 := set_attributes k (attributes ctx_id job_id task attrs) t1 in
          match body s with
          | (s', Ok a) =>
              match end_span k None t2 with
              | (t3, Ok _) => (t3, (s', Ok a))
              | (t3, Raise ImportError) => (t3, (s', Raise (second_yield false)))
              | (t3, Raise e) => (t3, (s', Raise e))
              end
          | (s', Raise e) =>
              match end_span k (Some e) t2 with
              | (t3, Ok _) => (t3, (s', Raise (match e with ImportError => second_yield true | _ => e end)))
              | (t3, Raise ImportError) => (t3, (s', Raise (second_yield true)))
              | (t3, Raise e') => (t3, (s', Raise e'))
              end
          end
      end
  end.
End Span.
Arguments SDK _ : clear implicits.

(** ** Theorems *)

Lemma nonblank_spec o v : nonblank o = Some v -> exists raw, o = Some raw /\ v = strip raw /\ v <> "".
Proof.
  unfold nonblank. destruct o as [s|]; [|done]. destruct (String.eqb_spec (strip s) ""); [done|].
  intros [= <-]. by exists s.
Qed.

(** Every HTTP request runs under one correlation id and leaves none behind:
    the application runs with the context variable and request.state set to the
    same id; the id is the stripped request-id header when that is not blank and
    at most 256 characters long, otherwise the stripped trace_id parameter when
    that is not blank, otherwise the generated one; and when the application ends,
    by returning or by any exception, the variable has its old value and the
    outcome is the application's own.  A scope that is not HTTP is passed on
    untouched. *)
Theorem one_trace_id_per_request A (r : Request) uuid4 (app : TM A) s :
  let tid := match nonblank (header r _INBOUND_REQUEST_ID_HEADER) with
             | Some v => if (String.length v <=? 256)%nat then v
                         else default uuid4 (nonblank (query_param r "trace_id"))
             | None => default uuid4 (nonblank (query_param r "trace_id"))
             end in
  let p := trace_middleware true r uuid4 app s in
  snd p = snd (app (mkTrace tid (Some tid)))
  /\ trace_id_context (fst p) = trace_id_context s
  /\ state_trace_id (fst p) = state_trace_id (fst (app (mkTrace tid (Some tid))))
  /\ (uuid4 <> "" -> tid <> "")
  /\ trace_middleware false r uuid4 app = app.
Proof.
  intros tid p.
  assert (default uuid4 (_read_inbound_trace_id r) = tid) as E.
  { unfold tid, _read_inbound_trace_id, _MAX_INBOUND_REQUEST_ID_LEN.
    destruct (nonblank (header r _)) as [v|]; [|done]. by destruct (_ <=? _)%nat. }
  unfold p, trace_middleware. simpl negb. cbv iota. rewrite E. destruct (app (mkTrace tid (Some tid))) as [s' res].
  split_and!; try done. intros Hu. unfold tid.
  destruct (nonblank (header r _)) as [v|] eqn:Eh; [destruct (_ <=? _)%nat|].
  - by apply nonblank_spec in Eh as (_ & _ & _ & ?).
  - destruct (nonblank (query_param r _)) as [q|] eqn:Eq; [|done]. by apply nonblank_spec in Eq as (_ & _ & _ & ?).
  - destruct (nonblank (query_param r _)) as [q|] eqn:Eq; [|done]. by apply nonblank_spec in Eq as (_ & _ & _ & ?).
Qed.

(** The 256 characters bind the header only: a trace_id parameter of any length
    becomes the id. *)
Example query_id_is_not_capped :
  let long := String.concat "" (repeat "0123456789abcdef" 32) in
  String.length long = 512%nat
  /\ _read_inbound_trace_id (mkRequest (fun _ => Some long) (fun _ => Some long)) = Some long.
Proof. vm_compute. split; reflexivity. Qed.

(** Tracing is advisory, with one exception.  For an SDK whose spans open and
    close, and whatever its attribute setting does (raising included), a span
    around a body changes neither the state the body leaves nor its outcome, as
    without the SDK, unless the body raises ImportError: that one comes out as a
    RuntimeError of the generator protocol when the SDK is there. *)
Theorem span_keeps_outcome {T S A} (sdk : option (SDK T)) name ctx_id job_id task attrs (body : M pyexn S A) t s :
  match sdk with
  | Some k => (forall n u, snd (start_span k n u) = Ok tt) /\ (forall e u, snd (end_span k e u) = Ok tt)
  | None => True
  end ->
  snd (engine_span sdk name ctx_id job_id task attrs body t s)
  = (fst (body s),
     match sdk, snd (body s) with
     | Some _, Raise ImportError => Raise (RuntimeErr "generator didn't stop after throw()")
     | _, r => r
     end).
Proof.
  intros H. unfold engine_span. destruct sdk as [k|]; [|by destruct (body s)]. destruct H as [Hs He].
  specialize (Hs name t). destruct (start_span k name t) as [t1 [[]|e]]; simpl in Hs; [|done].
  destruct (body s) as [s' [a|e]]; simpl.
  - specialize (He None (set_attributes k (attributes ctx_id job_id task attrs) t1)).
    by destruct (end_span k None _) as [t3 [[]|e]].
  - specialize (He (Some e) (set_attributes k (attributes ctx_id job_id task attrs) t1)).
    destruct (end_span k (Some e) _) as [t3 [[]|e']]; simpl in *; [|done]. by destruct e.
Qed.

(** An SDK that refuses every attribute. *)
Definition stubborn : SDK nat :=
  mkSDK (fun _ u => (S u, Ok tt)) (fun _ _ u => (u, Raise (Other "x"))) (fun _ u => (u, Ok tt)).

Lemma span_keeps_outcome_witness :
  snd (engine_span (Some stubborn) "submit" (Some "c") None None [] (fun s : nat => (S s, Ok 7)) 0%nat 1%nat) = (2%nat, Ok 7)
  /\ snd (engine_span (Some stubborn) "submit" None None None [] (fun s : nat => (S s, Raise ImportError : result pyexn nat)) 0%nat 1%nat)
     = (2%nat, Raise (RuntimeErr "generator didn't stop after throw()")).
Proof.
  assert ((forall n u, snd (start_span stubborn n u) = Ok tt) /\ (forall e u, snd (end_span stubborn e u) = Ok tt)) as H
    by (split; reflexivity).
  split.
  - exact (span_keeps_outcome (Some stubborn) "submit" (Some "c") None None [] (fun s : nat => (S s, Ok 7)) 0%nat 1%nat H).
  - exact (span_keeps_outcome (Some stubborn) "submit" None None None []
             (fun s : nat => (S s, Raise ImportError : result pyexn nat)) 0%nat 1%nat H).
Defined.

(** * Logging *)

From S2P Require Import Json JsonLoads JsonProps.
From Stdlib Require Import Ascii String ZArith.
Open Scope string_scope.
Open Scope Z_scope.
Open Scope list_scope.

Module Logging.

(** ** Event dicts *)

(** A value bound to a key: plain data, or an exception object (class name, text,
    and the formatted traceback, None where formatting it fails). *)
Inductive value :=
| Plain (j : json)
| Exc (name message : string) (stack : option string).

Definition EventDict : Type := list (string * value).

Fixpoint get (k : string) (d : EventDict) : option value :=
  match d with
  | [] => None
  | (k', v) :: d' => if String.eqb k k' then Some v else get k d'
  end.

Fixpoint set (k : string) (v : value) (d : EventDict) : EventDict :=
  match d with
  | [] => [(k, v)]
  | (k', v') :: d' => if String.eqb k k' then (k, v) :: d' else (k', v') :: set k v d'
  end.

(** [del d[k]] *)
Definition del (k : string) (d : EventDict) : EventDict := List.filter (fun kv => negb (String.eqb (fst kv) k)) d.

(** [d.update(other)] *)
Definition update (other d : EventDict) : EventDict := foldl (fun d kv => set (fst kv) (snd kv) d) d other.

(** ** The process *)

(** Precedence: SYMBA_WORKER_NAME, WORKER_NAME, HOSTNAME, then the host name
    (None: gethostname raises OSError) with a short uuid. *)
Definition _resolve_worker_name (getenv : string -> option string) (gethostname : option string) (short_uuid : string)
  : string :=
  let named v := let s := strip (default "" (getenv v)) in if String.eqb s "" then None else Some s in
  match named "SYMBA_WORKER_NAME", named "WORKER_NAME", named "HOSTNAME" with
  | Some s, _, _ => s
  | None, Some s, _ => s
  | None, None, Some s => s
  | None, None, None =>
      let host := match gethostname with Some h => if String.eqb h "" then "worker" else h | None => "worker" end in
      (host ++ "-" ++ short_uuid)%string
  end.

Inductive Handler := StreamHandler | RotatingFileHandler (path : string).

(** Never no handler at all. *)
Definition _handlers (enable_stdout : bool) (log_file_path : string) : list Handler :=
  let l := (if enable_stdout then [StreamHandler] else [])
           ++ (if String.eqb log_file_path "" then [] else [RotatingFileHandler log_file_path]) in
  match l with [] => [StreamHandler] | _ => l end.

(** What the module reads at import. *)
Record App := mkApp {
  APP_NAME : string;
  MAJOR_VERSION : string;
  MINOR_VERSION : string;
  PATCH_VERSION : string;
  ENVIRONMENT : string;
  WORKER_NAME : string
}.

(** [os.getenv(k, default)] per constant *)
Definition app_of (getenv : string -> option string) (worker_name : string) : App :=
  mkApp (default "symba" (getenv "SYMBA_APP__NAME")) (default "0" (getenv "SYMBA_APP__VERSION_MAJOR"))
    (default "1" (getenv "SYMBA_APP__VERSION_MINOR")) (default "0" (getenv "SYMBA_APP__VERSION_PATCH"))
    (default "development" (getenv "SYMBA_APP__ENVIRONMENT")) worker_name.

(** ** Processors *)

Definition text (s : string) : value := Plain (JStr s).

Definition add_context (app : App) (d : EventDict) : EventDict :=
  let d1 := set "app_name" (text (APP_NAME app)) d in
  let d2 := set "app_version"
              (text (MAJOR_VERSION app ++ "." ++ MINOR_VERSION app ++ "." ++ PATCH_VERSION app)%string) d1 in
  let d3 := set "environment" (text (ENVIRONMENT app)) d2 in
  set "worker_name" (text (WORKER_NAME app)) d3.

Definition add_trace_id (trace_id : string) (d : EventDict) : EventDict := set "trace_id" (text trace_id) d.

Definition exception_info (name message : string) (stack : option string) : value :=
  Plain (JObj [("name", JStr name); ("message", JStr message);
               ("stack", match stack with Some s => JStr s | None => JNull end)]).

Definition add_error_info (d : EventDict) : EventDict :=
  match get "error" d with
  | Some (Exc name message stack) => del "error" (set "exception" (exception_info name message stack) d)
  | _ => d
  end.

(** ** The access log pattern *)

(** The longest prefix of characters in a class, and the rest. *)
Fixpoint span (p : ascii -> bool) (s : string) : string * string :=
  match s with
  | String c s' => if p c then let (a, b) := span p s' in (String c a, b) else ("", s)
  | EmptyString => ("", "")
  end.

Definition nonspace (c : ascii) : bool := negb (is_space c).
Definition upper_letter (c : ascii) : bool := ((65 <=? code c) && (code c <=? 90))%N.

(** A literal at the head. *)
Fixpoint literal (l s : string) : option string :=
  match l, s with
  | EmptyString, _ => Some s
  | String c l', String c' s' => if Ascii.eqb c c' then literal l' s' else None
  | _, _ => None
  end.

(** [(?P<ip>[^\s]+):\d+] over a run of non-space characters: the digits run to its
    end, so the colon is the last one. *)
Fixpoint split_last_colon (s : string) : option (string * string) :=
  match s with
  | EmptyString => None
  | String c s' =>
      match split_last_colon s' with
      | Some (a, b) => Some (String c a, b)
      | None => if Ascii.eqb c ":" then Some ("", s') else None
      end
  end.

Fixpoint digits (s : string) : bool :=
  match s with EmptyString => true | String c s' => is_digit c && digits s' end.

Definition nonempty (s : string) : bool := negb (String.eqb s "").

Definition ip_of (run : string) : option string :=
  match split_last_colon run with
  | Some (ip, port) => if nonempty ip && nonempty port && digits port then Some ip else None
  | None => None
  end.

(** [[^\s]+]: a run that a quote closes, with something before the quote. *)
Definition closes_quote (run : string) : bool :=
  endswith (String double_quote "") run && (1 <? Z.of_nat (String.length run)).

(** The match of the pattern at the start of the line: (ip, method, url, status);
    each class ends where the literal after it must begin, so no backtracking
    finds another match. *)
Definition access_match (line : string) : option (string * string * string * string) :=
  let (run, r0) := span nonspace line in
  match ip_of run, literal (" - " ++ String double_quote "") r0 with
  | Some ip, Some r1 =>
      let (method, r2) := span upper_letter r1 in
      match literal " " r2 with
      | Some r3 =>
          let (url, r4) := span nonspace r3 in
          match literal " " r4 with
          | Some r5 =>
              let (proto, r6) := span nonspace r5 in
              match literal " " r6 with
              | Some r7 =>
                  let (status, _) := span is_digit r7 in
                  if nonempty method && nonempty url && closes_quote proto && nonempty status
                  then Some (ip, method, url, status) else None
              | None => None
              end
          | None => None
          end
      | None => None
      end
  | _, _ => None
  end.

(** [str(event_dict.get("event", ""))] *)
Definition event_text (d : EventDict) : string :=
  match get "event" d with
  | None => ""
  | Some (Plain j) => str_json j
  | Some (Exc _ message _) => message
  end.

Definition parse_uvicorn_access_log (d : EventDict) : EventDict :=
  match access_match (event_text d) with
  | Some (ip, method, url, status) =>
      del "event" (update [("ip", text ip); ("method", text method); ("url", text url);
                           ("status", Plain (JInt (default 0 (py_int status))));
                           ("service", text "uvicorn"); ("context", text "api")] d)
  | None => d
  end.

(** The module's four processors, in the order of the chain. *)
Definition processors (app : App) (trace_id : string) (d : EventDict) : EventDict :=
  add_trace_id trace_id (add_context app (add_error_info (parse_uvicorn_access_log d))).

End Logging.

Import Logging.

(** ** Dict lemmas *)

Lemma get_set k k' v d : get k (set k' v d) = if String.eqb k k' then Some v else get k d.
Proof.
  induction d as [|[k0 v0] d IH]; simpl.
  - by destruct (String.eqb k k').
  - destruct (String.eqb_spec k' k0) as [->|Hk]; simpl.
    + by destruct (String.eqb k k0).
    + rewrite IH. destruct (String.eqb_spec k k0) as [->|]; [|done]. destruct (String.eqb_spec k0 k'); congruence.
Qed.

Lemma get_del k k' d : get k (del k' d) = if String.eqb k k' then None else get k d.
Proof.
  induction d as [|[k0 v0] d IH]; simpl; [by destruct (String.eqb k k')|].
  destruct (String.eqb_spec k0 k') as [->|Hk]; simpl.
  - rewrite IH. by destruct (String.eqb_spec k k').
  - rewrite IH. destruct (String.eqb_spec k k0) as [->|]; [|done]. by destruct (String.eqb_spec k0 k').
Qed.

#[local] Hint Rewrite get_set get_del : dict.

(** Every log line is stamped with where it comes from: whatever keys the
    caller bound, the line that leaves the processors carries the current
    correlation id and the name, version, environment and worker name of this
    process; an exception bound to error is replaced by its class name, text and
    traceback under exception; and every other key keeps the value it had after
    the access-log processor. *)
Theorem log_lines_are_stamped app trace_id d :
  let d0 := parse_uvicorn_access_log d in
  let d' := processors app trace_id d in
  get "trace_id" d' = Some (text trace_id)
  /\ get "app_name" d' = Some (text (APP_NAME app))
  /\ get "app_version" d' = Some (text (MAJOR_VERSION app ++ "." ++ MINOR_VERSION app ++ "." ++ PATCH_VERSION app)%string)
  /\ get "environment" d' = Some (text (ENVIRONMENT app))
  /\ get "worker_name" d' = Some (text (WORKER_NAME app))
  /\ (forall n m st, get "error" d0 = Some (Exc n m st) ->
        get "error" d' = None /\ get "exception" d' = Some (exception_info n m st))
  /\ (forall k, ~ In k ["trace_id"; "app_name"; "app_version"; "environment"; "worker_name"; "error"; "exception"] ->
        get k d' = get k d0).
Proof.
  intros d0 d'. unfold d', processors, add_trace_id, add_context. fold d0. autorewrite with dict. split_and!; try done.
  - intros n m st E. unfold add_error_info. rewrite E. by autorewrite with dict.
  - intros k Hk. assert (forall x, In x ["trace_id"; "app_name"; "app_version"; "environment"; "worker_name"; "error"; "exception"] ->
      String.eqb k x = false) as Hx by (intros x Hx; apply String.eqb_neq; intros ->; contradiction).
    autorewrite with dict. rewrite !Hx by (simpl; tauto).
    unfold add_error_info. destruct (get "error" d0) as [[j|n m st]|]; try done.
    autorewrite with dict. by rewrite !Hx by (simpl; tauto).
Qed.

(** ** Access lines *)

Fixpoint all (p : ascii -> bool) (s : string) : bool :=
  match s with EmptyString => true | String c s' => p c && all p s' end.

(** A class ends here. *)
Definition stops (p : ascii -> bool) (s : string) : bool :=
  match s with EmptyString => true | String c _ => negb (p c) end.

Lemma span_run_app p a b : all p a = true -> stops p b = true -> span p (a ++ b) = (a, b).
Proof.
  intros Ha Hb. induction a as [|x a IH].
  - rewrite append_Empty. destruct b as [|c b]; [done|]. simpl in *. by destruct (p c).
  - simpl in *. apply andb_prop in Ha as [-> Ha]. by rewrite (IH Ha).
Qed.

Lemma literal_app l s : literal l (l ++ s) = Some s.
Proof. induction l as [|c l IH]; simpl; [done|]. by rewrite Ascii.eqb_refl. Qed.

Lemma all_app p a b : all p (a ++ b) = all p a && all p b.
Proof. induction a as [|c a IH]; simpl; [done|]. by rewrite IH, andb_assoc. Qed.

Lemma all_impl (p q : ascii -> bool) s : (forall c, p c = true -> q c = true) -> all p s = true -> all q s = true.
Proof. intros H. induction s as [|c s IH]; simpl; [done|]. intros [Hc Hs]%andb_prop. by rewrite (H c Hc), IH. Qed.

Lemma digit_nonspace c : is_digit c = true -> nonspace c = true.
Proof. destruct c as [[] [] [] [] [] [] [] []]; done. Qed.
Lemma digit_not_colon c : is_digit c = true -> Ascii.eqb c ":" = false.
Proof. destruct c as [[] [] [] [] [] [] [] []]; done. Qed.

Lemma digits_all s : digits s = all is_digit s.
Proof. induction s as [|c s IH]; simpl; [done|]. by rewrite IH. Qed.

Lemma no_colon_digits s : all is_digit s = true -> split_last_colon s = None.
Proof.
  induction s as [|c s IH]; simpl; [done|]. intros [Hc Hs]%andb_prop. by rewrite (IH Hs), (digit_not_colon c Hc).
Qed.

Lemma split_last ip port : all is_digit port = true -> split_last_colon (ip ++ String ":" port) = Some (ip, port).
Proof.
  intros H. induction ip as [|c ip IH]; simpl; [by rewrite (no_colon_digits _ H)|]. by rewrite IH.
Qed.

Lemma closes_quoted proto : nonempty proto = true -> closes_quote (proto ++ String double_quote "") = true.
Proof.
  intros Hn. unfold closes_quote, endswith. rewrite rev_string_app. destruct proto as [|c p]; [done|].
  apply andb_true_intro. split; [by destruct (rev_string (String c p))|]. apply Z.ltb_lt. rewrite length_append. cbn [String.length]. lia.
Qed.

(** The line uvicorn writes for a request. *)
Definition access_line (ip port method url proto : string) (status : N) : string :=
  (ip ++ ":" ++ port ++ " - " ++ String double_quote "" ++ method ++ " " ++ url ++ " " ++ proto
   ++ String double_quote "" ++ " " ++ dec_N status)%string.

(** The tokens of such a line. *)
Record access_tokens (ip port method url proto : string) : Prop := mkTokens {
  at_ip : nonempty ip = true /\ all nonspace ip = true;
  at_port : nonempty port = true /\ all is_digit port = true;
  at_method : nonempty method = true /\ all upper_letter method = true;
  at_url : nonempty url = true /\ all nonspace url = true;
  at_proto : nonempty proto = true /\ all nonspace proto = true
}.

Lemma quoted_nonspace s : all nonspace s = true -> all nonspace (s ++ String double_quote "") = true.
Proof. intros H. by rewrite all_app, H. Qed.

Lemma access_match_line ip port method url proto status :
  access_tokens ip port method url proto ->
  access_match (access_line ip port method url proto status) = Some (ip, method, url, dec_N status).
Proof.
  intros [[Hi1 Hi2] [Hp1 Hp2] [Hm1 Hm2] [Hu1 Hu2] [Hr1 Hr2]]. unfold access_match, access_line.
  assert (all is_digit (dec_N status) = true) as Hd by (rewrite <- digits_all; by apply (all_digits_dec_go _ _ "")).
  assert (nonempty (dec_N status) = true) as Hn by (destruct (dec_N_head status) as (d & s & _ & ->); done).
  rewrite <- (append_assoc ip), <- (append_assoc (ip ++ ":")), (append_assoc ip ":" port).
  rewrite span_run_app; [| |done].
  2:{ rewrite all_app, Hi2. simpl. apply (all_impl is_digit); [apply digit_nonspace | done]. }
  unfold ip_of. rewrite (split_last _ _ Hp2), Hi1, Hp1, digits_all, Hp2. cbn [andb].
  rewrite <- (append_assoc " - "), literal_app, span_run_app, literal_app, span_run_app, literal_app by done.
  rewrite <- (append_assoc proto), span_run_app by (first [done | by apply quoted_nonspace]). rewrite literal_app.
  pose proof (span_run_app is_digit (dec_N status) "" Hd eq_refl) as Hsp. rewrite append_empty_r in Hsp. rewrite Hsp. by rewrite Hm1, Hu1, Hn, (closes_quoted proto Hr1).
Qed.

(** Access lines of the HTTP server are structured exactly: for a line made of
    a client address, a port, a method, a path, a protocol and a status, the log
    event loses its text and gains the address, the method, the path and the
    numeric status under their keys, marked as uvicorn's; every other key is as it
    was. *)
Theorem access_lines_are_parsed d ip port method url proto status :
  access_tokens ip port method url proto ->
  get "event" d = Some (text (access_line ip port method url proto status)) ->
  let d' := parse_uvicorn_access_log d in
  get "event" d' = None /\ get "ip" d' = Some (text ip) /\ get "method" d' = Some (text method)
  /\ get "url" d' = Some (text url) /\ get "status" d' = Some (Plain (JInt (Z.of_N status)))
  /\ get "service" d' = Some (text "uvicorn") /\ get "context" d' = Some (text "api")
  /\ (forall k, ~ In k ["event"; "ip"; "method"; "url"; "status"; "service"; "context"] -> get k d' = get k d).
Proof.
  intros Ht He d'. unfold d', parse_uvicorn_access_log, event_text. rewrite He. cbn [str_json text].
  rewrite (access_match_line _ _ _ _ _ _ Ht), py_int_dec_N. unfold update. cbn [foldl fst snd default].
  split_and!; try (by autorewrite with dict). intros k Hk.
  assert (forall x, In x ["event"; "ip"; "method"; "url"; "status"; "service"; "context"] -> String.eqb k x = false) as Hx
    by (intros x Hx; apply String.eqb_neq; intros ->; contradiction).
  autorewrite with dict. by rewrite !Hx by (simpl; tauto).
Qed.

Definition access_demo : EventDict := [("level", text "info"); ("event", text (access_line "10.0.0.7" "51234" "GET" "/v1/jobs" "HTTP/1.1" 200))].

Lemma access_lines_are_parsed_witness :
  get "ip" (parse_uvicorn_access_log access_demo) = Some (text "10.0.0.7")
  /\ get "status" (parse_uvicorn_access_log access_demo) = Some (Plain (JInt 200)).
Proof.
  assert (access_tokens "10.0.0.7" "51234" "GET" "/v1/jobs" "HTTP/1.1") as Ht by (split; split; reflexivity).
  pose proof (access_lines_are_parsed access_demo _ _ _ _ _ 200 Ht eq_refl) as (_ & H1 & _ & _ & H2 & _).
  split; [exact H1 | exact H2].
Defined.

(** There is always somewhere to log to, and every process has a name. *)
Theorem logging_is_configured getenv host short stdout path :
  _handlers stdout path <> [] /\ (short <> "" -> _resolve_worker_name getenv host short <> "").
Proof.
  split.
  - unfold _handlers. by destruct stdout, (String.eqb path "").
  - intros Hs. unfold _resolve_worker_name.
    destruct (String.eqb_spec (strip (default "" (getenv "SYMBA_WORKER_NAME"))) ""); [|done].
    destruct (String.eqb_spec (strip (default "" (getenv "WORKER_NAME"))) ""); [|done].
    destruct (String.eqb_spec (strip (default "" (getenv "HOSTNAME"))) ""); [|done].
    destruct host as [h|]; [destruct (String.eqb h ""); [|destruct h]|]; done.
Qed.
