(* ===== verification/ReleaseTools.v ===== *)
(** * Build gates and release mirroring (tools/check_imports.py, explain_gate.py, mirror_dockerhub.py)

    The import gate over the nodes [ast.walk] yields of a file, and the walk of
    the EXPLAIN gate over a query plan.  Reading files, parsing them and running
    EXPLAIN are the arguments of the definitions.

    The mirroring script over a registry it inspects and copies into.  The registry
    and its two commands are parameters; the release inventory is its parsed
    entries.  Writing the asset files and their checksums is not modelled. *)

(** * The gates *)

From S2P Require Import Prelude PyStr.
From Stdlib Require Import Ascii String.
Open Scope string_scope.
Open Scope list_scope.

(** ** Imports *)

Module ImportGate.

(** The nodes the gate looks at: [import a, b] and [from m import ...]
    ([m] is None in [from . import ...]; the level counts the dots). *)
Inductive node :=
| Import (names : list string) (lineno : nat)
| ImportFrom (module : option string) (level : nat) (lineno : nat)
| OtherNode.

(** A file: its path under src/symba, in parts, and its nodes. *)
Record file := mkFile { parts : list string; tree : list node }.

Inductive violation :=
| CoreBanned (f : list string) (lineno : nat) (name : string)
| CoreLayer (f : list string) (lineno : nat) (name : string)
| LoggingImport (f : list string) (lineno : nat)
| LoggingFrom (f : list string) (lineno : nat).

Definition _CORE_BANNED : list string := ["asyncpg"; "redis"; "grpc"; "fastapi"; "uvicorn"].

(** [name.split(".", 1)[0]] *)
Fixpoint _module_top (name : string) : string :=
  match name with
  | EmptyString => EmptyString
  | String c s => if Ascii.eqb c "." then EmptyString else String c (_module_top s)
  end.

(** The modules a node names; relative imports name none. *)
Definition imported (n : node) : list (string * nat) :=
  match n with
  | Import names line => map (fun x => (x, line)) names
  | ImportFrom (Some m) O line => if String.eqb m "" then [] else [(m, line)]
  | _ => []
  end.

Definition io_layer (name : string) : bool :=
  startswith "symba.services" name || startswith "symba.db" name || startswith "symba.transport" name.

Definition _check_core (f : file) : list violation :=
  List.flat_map (fun n => List.flat_map (fun x : string * nat =>
      (if mem (_module_top (fst x)) _CORE_BANNED then [CoreBanned (parts f) (snd x) (fst x)] else [])
      ++ (if io_layer (fst x) then [CoreLayer (parts f) (snd x) (fst x)] else [])) (imported n)) (tree f).

Definition allowed : list string := ["observability"; "logging.py"].

Definition _check_logging (f : file) : list violation :=
  if bool_decide (parts f = allowed) then []
  else List.flat_map (fun n =>
    match n with
    | Import names line =>
        List.flat_map (fun x => if String.eqb (_module_top x) "logging" then [LoggingImport (parts f) line] else []) names
    | ImportFrom (Some m) _ line =>
        if nonempty m && String.eqb (_module_top m) "logging" then [LoggingFrom (parts f) line] else []
    | _ => []
    end) (tree f).

Definition errors (files : list file) : list violation :=
  List.flat_map (fun f => (if mem "core" (parts f) then _check_core f else []) ++ _check_logging f) files.

(** The exit status. *)
Definition main (files : list file) : nat := match errors files with [] => 0 | _ => 1 end.

End ImportGate.

(** ** The plan of the claim *)

Module ExplainGate.

(** A node of EXPLAIN (FORMAT JSON): the keys the gate reads, and its plans. *)
Inductive plan := Node (node_type relation_name filter index_name : option string) (plans : list plan).

Definition named (o : option string) (s : string) : bool := match o with Some x => String.eqb x s | None => false end.

Fixpoint contains (needle hay : string) : bool :=
  String.prefix needle hay || match hay with String _ hay' => contains needle hay' | EmptyString => false end.

Definition _is_hot_path_seq_scan (n : plan) (under_modify_table : bool) : bool :=
  match n with
  | Node ty rel flt _ _ =>
      if negb (named ty "Seq Scan") || negb (named rel "jobs") then false
      else if under_modify_table then false
      else negb (contains "group_key IS NOT NULL" (default "" flt))
  end.

(** (hot_path_seq_scan, uses_claim_index) *)
Fixpoint walk (n : plan) (under_modify_table : bool) : bool * bool :=
  match n with
  | Node ty _ _ idx plans =>
      let child_under_modify := under_modify_table || named ty "ModifyTable" in
      (fix go (l : list plan) (acc : bool * bool) : bool * bool :=
         match l with
         | [] => acc
         | c :: l' => let r := walk c child_under_modify in go l' (fst acc || fst r, snd acc || snd r)
         end) plans (_is_hot_path_seq_scan n under_modify_table, named idx "ix_jobs_claimable")
  end.

(** The exit status for the root of the plan. *)
Definition verdict (root : plan) : nat :=
  let (seq_scan_on_jobs, uses_claim_index) := walk root false in
  if seq_scan_on_jobs then 1 else if negb uses_claim_index then 1 else 0.

(** [m] stands in the plan of [n], below a ModifyTable or not. *)
Inductive occurs (m : plan) : bool -> bool -> plan -> Prop :=
| oc_here u : occurs m u u m
| oc_below u v ty rel flt idx plans c :
    In c plans -> occurs m (u || named ty "ModifyTable") v c -> occurs m u v (Node ty rel flt idx plans).

Definition uses_index (n : plan) : bool := match n with Node _ _ _ idx _ => named idx "ix_jobs_claimable" end.

End ExplainGate.

(** ** What the gates accept *)

Section ImportGateProps.
Import ImportGate.

(** Every module a file names at the top level of the package path, with the node
    that names it. *)
Definition names_module (f : file) (m : string) : Prop := exists n line, In n (tree f) /\ In (m, line) (imported n).

Definition imports_logging (n : node) : Prop :=
  match n with
  | Import names _ => exists x, In x names /\ _module_top x = "logging"
  | ImportFrom (Some m) _ _ => m <> "" /\ _module_top m = "logging"
  | _ => False
  end.

Lemma flat_map_nil {A B} (f : A -> list B) l : List.flat_map f l = [] <-> forall x, In x l -> f x = [].
Proof.
  induction l as [|x l IH]; simpl; [naive_solver|]. rewrite app_nil, IH. naive_solver.
Qed.

Lemma if_nil {A} (b : bool) (x : A) : (if b then [x] else []) = [] <-> b = false.
Proof. by destruct b. Qed.

Lemma mem_In x l : mem x l = true <-> In x l.
Proof.
  unfold mem. rewrite existsb_exists. split; [intros (y & Hy & E%String.eqb_eq); by subst | intros H; exists x].
  by rewrite String.eqb_refl.
Qed.

Lemma check_core_nil f :
  _check_core f = [] <-> forall m, names_module f m -> ~ In (_module_top m) _CORE_BANNED /\ io_layer m = false.
Proof.
  unfold _check_core, names_module. rewrite flat_map_nil. setoid_rewrite flat_map_nil.
  setoid_rewrite app_nil. setoid_rewrite if_nil. split.
  - intros H m (n & line & Hn & Hm). destruct (H n Hn (m, line) Hm) as [H1 H2]. cbn [fst] in *. split; [|done].
    rewrite <- mem_In, H1. discriminate.
  - intros H n Hn [m line] Hm. destruct (H m) as [H1 H2]; [by exists n, line|]. cbn [fst]. split; [|done].
    destruct (mem _ _) eqn:E; [|done]. by apply mem_In in E.
Qed.

Lemma check_logging_nil f :
  _check_logging f = [] <-> parts f = allowed \/ forall n, In n (tree f) -> ~ imports_logging n.
Proof.
  unfold _check_logging. destruct (bool_decide_reflect (parts f = allowed)) as [E|E]; [naive_solver|].
  rewrite flat_map_nil. split.
  - intros H. right. intros n Hn Hl. specialize (H n Hn). destruct n as [names line|[m|] level line|]; [| |done|done].
    + destruct Hl as (x & Hx & Ex). rewrite flat_map_nil in H. specialize (H x Hx). by rewrite Ex in H.
    + destruct Hl as [Hm Ex]. rewrite Ex in H. unfold nonempty in H. destruct (String.eqb_spec m ""); done.
  - intros [?|H] n Hn; [done|]. specialize (H n Hn). destruct n as [names line|[m|] level line|]; [| |done|done].
    + apply flat_map_nil. intros x Hx. apply if_nil, String.eqb_neq. intros Ex. apply H. by exists x.
    + apply if_nil. destruct (nonempty m) eqn:Em; [|done]. simpl. apply String.eqb_neq. intros Ex. apply H.
      split; [|done]. intros ->. done.
Qed.

(** The import gate is exact for the rules it enforces: it exits with 0 exactly
    when no file below a core directory names a banned package or a module of the
    services, db or transport layers in an absolute import, and no file other than
    observability/logging.py imports logging or a module of it. *)
Theorem import_gate_exact files :
  main files = 0%nat <->
  forall f, In f files ->
    (In "core" (parts f) -> forall m, names_module f m -> ~ In (_module_top m) _CORE_BANNED /\ io_layer m = false)
    /\ (parts f = allowed \/ forall n, In n (tree f) -> ~ imports_logging n).
Proof.
  assert (main files = 0%nat <-> errors files = []) as -> by (unfold main; by destruct (errors files)).
  unfold errors. rewrite flat_map_nil. split.
  - intros H f Hf. specialize (H f Hf). apply app_nil in H as [H1 H2]. split; [|by apply check_logging_nil].
    intros Hc%mem_In. rewrite Hc in H1. by apply check_core_nil.
  - intros H f Hf. destruct (H f Hf) as [H1 H2]. apply app_nil. split; [|by apply check_logging_nil].
    destruct (mem "core" (parts f)) eqn:E; [|done]. apply check_core_nil, H1. by apply mem_In.
Qed.

(** What the rule as documented ("nothing but stdlib + pydantic") would refuse and
    the gate accepts: another third-party package, the relative spelling of an
    import of the services layer, another layer of symba. *)
Example gate_accepts :
  main [mkFile ["core"; "chain.py"]
          [Import ["httpx"] 1; ImportFrom (Some "services") 2 2; ImportFrom (Some "symba.observability") 0 3]] = 0%nat.
Proof. reflexivity. Qed.

(** And a relative import of the logging module is refused. *)
Example gate_refuses_relative :
  main [mkFile ["observability"; "metrics.py"] [ImportFrom (Some "logging") 1 3]] = 1%nat.
Proof. reflexivity. Qed.
End ImportGateProps.

Section ExplainGateProps.
Import ExplainGate.

Lemma go_or l u acc :
  (fix go (l : list plan) (acc : bool * bool) : bool * bool :=
     match l with
     | [] => acc
     | c :: l' => let r := walk c u in go l' (fst acc || fst r, snd acc || snd r)
     end) l acc
  = (fst acc || existsb (fun c => fst (walk c u)) l, snd acc || existsb (fun c => snd (walk c u)) l).
Proof.
  revert acc. induction l as [|c l IH]; intros [a b]; simpl; [by rewrite !orb_false_r|].
  rewrite IH. simpl. by rewrite !orb_assoc.
Qed.

Lemma walk_node ty rel flt idx plans u :
  walk (Node ty rel flt idx plans) u
  = (_is_hot_path_seq_scan (Node ty rel flt idx plans) u
       || existsb (fun c => fst (walk c (u || named ty "ModifyTable"))) plans,
     named idx "ix_jobs_claimable" || existsb (fun c => snd (walk c (u || named ty "ModifyTable"))) plans).
Proof. exact (go_or plans _ _). Qed.

Lemma plan_nested_ind (P : plan -> Prop) :
  (forall ty rel flt idx plans, List.Forall P plans -> P (Node ty rel flt idx plans)) -> forall n, P n.
Proof.
  intros H. fix IH 1. intros [ty rel flt idx plans]. apply H.
  induction plans as [|c plans IHl]; constructor; [apply IH | exact IHl].
Qed.

Lemma walk_spec n u :
  (fst (walk n u) = true <-> exists m v, occurs m u v n /\ _is_hot_path_seq_scan m v = true)
  /\ (snd (walk n u) = true <-> exists m v, occurs m u v n /\ uses_index m = true).
Proof.
  revert u. induction n as [ty rel flt idx plans IH] using plan_nested_ind. intros u. rewrite List.Forall_forall in IH.
  rewrite walk_node. cbn [fst snd]. rewrite !orb_true_iff, !existsb_exists. split; split.
  - intros [H|(c & Hc & H)]; [eexists _, u; split; [apply oc_here | done]|].
    apply (IH c Hc) in H as (m & v & Ho & Hm). exists m, v. split; [by eapply oc_below | done].
  - intros (m & v & Ho & Hm). inversion Ho as [|? ? ? ? ? ? ? c Hc Hoc]; subst; [by left|].
    right. exists c. split; [done|]. apply (IH c Hc). by exists m, v.
  - intros [H|(c & Hc & H)]; [eexists _, u; split; [apply oc_here | done]|].
    apply (IH c Hc) in H as (m & v & Ho & Hm). exists m, v. split; [by eapply oc_below | done].
  - intros (m & v & Ho & Hm). inversion Ho as [|? ? ? ? ? ? ? c Hc Hoc]; subst; [by left|].
    right. exists c. split; [done|]. apply (IH c Hc). by exists m, v.
Qed.

(** The EXPLAIN gate passes a plan exactly when some node of it reads the claim
    index and no node, at any depth and not below a ModifyTable, is a sequential
    scan of jobs without the filter on grouped rows. *)
Theorem explain_gate_exact root :
  verdict root = 0%nat <->
  (exists m v, occurs m false v root /\ uses_index m = true)
  /\ (forall m v, occurs m false v root -> _is_hot_path_seq_scan m v = false).
Proof.
  destruct (walk_spec root false) as [H1 H2]. unfold verdict. destruct (walk root false) as [a b]. simpl in *.
  destruct a; [|destruct b]; simpl; split; try done.
  - intros [_ H]. destruct (proj1 H1 eq_refl) as (m & v & Ho & Hm). by rewrite (H m v Ho) in Hm.
  - intros _. split; [by apply H2|]. intros m v Ho. destruct (_is_hot_path_seq_scan m v) eqn:E; [|done].
    discriminate (proj2 H1 (ex_intro _ m (ex_intro _ v (conj Ho E)))).
  - intros [H _]. discriminate (proj2 H2 H).
Qed.
End ExplainGateProps.

(** * Mirroring a release *)

From S2P Require Import Errors Json JsonLoads Wire.
From Stdlib Require Import Ascii String ZArith QArith.
Open Scope string_scope.
Open Scope Z_scope.
Open Scope list_scope.

(** ** Equality of parsed JSON values *)

(** Booleans, integers and floats compare as numbers. *)
Definition number (j : json) : option float_value :=
  match j with
  | JBool b => Some (Finite (if b then 1%Q else 0%Q))
  | JInt z => Some (Finite (inject_Z z))
  | JFloat f => Some (fl_value f)
  | _ => None
  end.

Definition number_eq (a b : float_value) : bool :=
  match a, b with
  | Finite x, Finite y => Qeq_bool x y
  | PosInf, PosInf | NegInf, NegInf => true
  | _, _ => false
  end.

Fixpoint py_eq (a b : json) : bool :=
  match number a, number b with
  | Some x, Some y => number_eq x y
  | _, _ =>
      match a, b with
      | JNull, JNull => true
      | JStr x, JStr y => String.eqb x y
      | JArr l, JArr m =>
          (fix go (l m : list json) : bool :=
             match l, m with
             | [], [] => true
             | x :: l', y :: m' => py_eq x y && go l' m'
             | _, _ => false
             end) l m
      | JObj l, JObj m =>
          Nat.eqb (List.length l) (List.length m)
          && (fix go (l : list (string * json)) : bool :=
                match l with
                | [] => true
                | kv :: l' => match dict_get (fst kv) m with Some v => py_eq (snd kv) v | None => false end && go l'
                end) l
      | _, _ => false
      end
  end.

(** ** Patterns *)

Fixpoint all_chars (p : ascii -> bool) (s : string) : bool :=
  match s with EmptyString => true | String c s' => p c && all_chars p s' end.

Definition lower_letter (c : ascii) : bool := ((97 <=? code c) && (code c <=? 122))%N.
Definition hex_char (c : ascii) : bool := is_digit c || ((97 <=? code c) && (code c <=? 102))%N.

(** [[a-z0-9]{4,30}] *)
Definition namespace_ok (s : string) : bool :=
  all_chars (fun c => lower_letter c || is_digit c) s && (4 <=? String.length s)%nat && (String.length s <=? 30)%nat.

(** [v\d+\.\d+\.\d+] *)
Definition version_ok (s : string) : bool :=
  match s with
  | String "v" s' =>
      match split_on "." s' with
      | [a; b; c] => forallb (fun x => nonempty x && all_chars is_digit x) [a; b; c]
      | _ => false
      end
  | _ => false
  end.

(** [sha256:[0-9a-f]{64}] *)
Definition digest_ok (s : string) : bool :=
  startswith "sha256:" s && Nat.eqb (String.length s) 71 && all_chars hex_char (drop_chars 7 s).

(** [s.rsplit(sep, 1)]: what precedes and follows the last separator. *)
Fixpoint rsplit (sep : ascii) (s : string) : option (string * string) :=
  match s with
  | EmptyString => None
  | String c s' =>
      match rsplit sep s' with
      | Some (a, b) => Some (String c a, b)
      | None => if Ascii.eqb c sep then Some ("", s') else None
      end
  end.
Definition after_last (sep : ascii) (s : string) : string := match rsplit sep s with Some (_, b) => b | None => s end.
Definition before_last (sep : ascii) (s : string) : string := match rsplit sep s with Some (a, _) => a | None => s end.

(** [needle in hay] and [hay.replace(needle, new)]; the needle is not empty. *)
Fixpoint contains (needle hay : string) : bool :=
  String.prefix needle hay || match hay with String _ hay' => contains needle hay' | EmptyString => false end.

Fixpoint replace_go (fuel : nat) (needle new hay : string) : string :=
  match fuel with
  | O => hay
  | S f =>
      if String.prefix needle hay then (new ++ replace_go f needle new (drop_chars (String.length needle) hay))%string
      else match hay with String c hay' => String c (replace_go f needle new hay') | EmptyString => EmptyString end
  end.
Definition replace (needle new hay : string) : string := replace_go (S (String.length hay)) needle new hay.

(** ** The script *)

Module Mirror.

Record Image := mkImage { image : string; tag : string; digest : string }.
Record Manifest := mkManifest { version : string; images : list Image }.

(** What [docker buildx imagetools inspect] answers: the bytes, an error that says
    the reference does not exist, another error. *)
Inductive Inspected := Raw (bytes : string) | Missing | Failed.

Section Main.
Context {R : Type} (inspect_cmd : string -> R -> Inspected) (create_cmd : string -> string -> R -> R).

Definition RM (A : Type) : Type := M exn R A.

Definition inspect (reference : string) (allow_missing : bool) : RM (option string) := fun r =>
  match inspect_cmd reference r with
  | Raw b => (r, Ok (Some b))
  | Missing => (r, if allow_missing then Ok None else Raise RuntimeError)
  | Failed => (r, Raise RuntimeError)
  end.

Definition expected_names : list string := ["symba"; "symba-frontend"; "symba-flyway"].

(** [f"{item['platform']['os']}/{item['platform']['architecture']}"] for the items;
    None: a key or a type is not there. *)
Definition platform_of (item : json) : option string :=
  match item with
  | JObj d => match dict_get "platform" d with
              | Some (JObj p) => match dict_get "os" p, dict_get "architecture" p with
                                 | Some os, Some arch => Some (str_json os ++ "/" ++ str_json arch)%string
                                 | _, _ => None
                                 end
              | _ => None
              end
  | _ => None
  end.

Definition platforms (raw : string) : option (list string) :=
  match loads_bytes raw with
  | Ok (JObj d) => match dict_get "manifests" d with
                   | Some (JArr items) => mapM platform_of items
                   | _ => None
                   end
  | _ => None
  end.

Record Planned := mkPlanned {
  pn_image : Image;
  pn_source : string;
  pn_target : string;
  pn_raw : string;
  pn_existing : option string
}.

Definition image_name (i : Image) : string := after_last "/" (image i).

(** [json.loads(existing) != json.loads(raw)] *)
Definition differs (existing raw : string) : result exn bool :=
  match loads_bytes existing, loads_bytes raw with
  | Ok a, Ok b => Ok (negb (py_eq a b))
  | _, _ => Raise ValueError
  end.

(** One turn of the first loop; returns the names still expected. *)
Definition plan_image (namespace release : string) (expected : list string) (i : Image) : RM (list string * Planned) :=
  let name := image_name i in
  if negb (mem name expected) || negb (String.eqb (image i) ("ghcr.io/syntel-technologies/" ++ name)) then raise ValueError
  else if negb (String.eqb (tag i) release) || negb (digest_ok (digest i)) then raise ValueError
  else
    let source := (image i ++ "@" ++ digest i)%string in
    let target := ("docker.io/" ++ namespace ++ "/" ++ name ++ ":" ++ release)%string in
    raw ← inspect source false;
    raw ← of_option RuntimeError raw;
    ps ← of_option TypeError (platforms raw);
    if negb (subset ["linux/amd64"; "linux/arm64"] ps) then raise ValueError
    else
      existing ← inspect target true;
      bad ← match existing with
            | Some e => match differs e raw with Ok b => mret b | Raise x => raise x end
            | None => mret false
            end;
      if bad : bool then raise ValueError
      else mret (List.filter (fun n => negb (String.eqb n name)) expected,
                 mkPlanned i source target raw existing).

Fixpoint plan_images (namespace release : string) (expected : list string) (imgs : list Image)
  : RM (list string * list Planned) :=
  match imgs with
  | [] => mret (expected, [])
  | i :: rest =>
      r ← plan_image namespace release expected i;
      more ← plan_images namespace release (fst r) rest;
      mret (fst more, snd r :: snd more)
  end.

Definition template (name : string) : string :=
  ("${SYMBA_IMAGE_PREFIX:?Set SYMBA_IMAGE_PREFIX}/" ++ name ++ ":${SYMBA_VERSION:?Set SYMBA_VERSION}")%string.

(** One turn of the second loop. *)
Definition mirror_image (compose : string) (p : Planned) : RM string :=
  _ ← match pn_existing p with
      | None => modify (create_cmd (pn_target p) (pn_source p))
      | Some _ => mret tt
      end;
  mirrored ← inspect (pn_target p) false;
  let digest_reference := (before_last ":" (pn_target p) ++ "@" ++ digest (pn_image p))%string in
  by_digest ← inspect digest_reference false;
  if negb (bool_decide (by_digest = Some (pn_raw p))) || negb (bool_decide (mirrored = Some (pn_raw p))) then raise ValueError
  else
    let t := template (image_name (pn_image p)) in
    if negb (contains t compose) then raise ValueError
    else mret (replace t digest_reference compose).

Fixpoint mirror_all (compose : string) (ps : list Planned) : RM string :=
  match ps with
  | [] => mret compose
  | p :: rest => c ← mirror_image compose p; mirror_all c rest
  end.

(** The compose file that is written. *)
Definition main (namespace : string) (manifest : Manifest) (compose : string) : RM string :=
  if negb (namespace_ok namespace) then raise ValueError
  else if negb (version_ok (version manifest)) then raise ValueError
  else
    plan ← plan_images namespace (version manifest) expected_names (images manifest);
    if negb (match fst plan with [] => true | _ => false end) then raise ValueError
    else
      compose ← mirror_all compose (snd plan);
      mret (replace "${SYMBA_VERSION:?Set SYMBA_VERSION}" (version manifest) compose).
End Main.
End Mirror.

(** ** What a mirrored release is *)

Section MirrorProps.
Import Mirror.
Context {R : Type} (inspect_cmd : string -> R -> Inspected) (create_cmd : string -> string -> R -> R).

(** A planned copy, checked against the registry [r]. *)
Record planned_ok (namespace release : string) (r : R) (p : Planned) : Prop := mkPlannedOk {
  pk_image : image (pn_image p) = ("ghcr.io/syntel-technologies/" ++ image_name (pn_image p))%string;
  pk_tag : tag (pn_image p) = release;
  pk_digest : digest_ok (digest (pn_image p)) = true;
  pk_source : pn_source p = (image (pn_image p) ++ "@" ++ digest (pn_image p))%string;
  pk_target : pn_target p = ("docker.io/" ++ namespace ++ "/" ++ image_name (pn_image p) ++ ":" ++ release)%string;
  pk_raw : inspect_cmd (pn_source p) r = Raw (pn_raw p);
  pk_platforms : exists ps, platforms (pn_raw p) = Some ps /\ In "linux/amd64" ps /\ In "linux/arm64" ps;
  pk_existing : match pn_existing p with
                | None => inspect_cmd (pn_target p) r = Missing
                | Some e => inspect_cmd (pn_target p) r = Raw e
                            /\ exists a b, loads_bytes e = Ok a /\ loads_bytes (pn_raw p) = Ok b /\ py_eq a b = true
                end
}.

Lemma subset_In a b : subset a b = true -> forall x, In x a -> In x b.
Proof.
  unfold subset. rewrite forallb_forall. intros H x Hx. specialize (H x Hx). unfold mem in H.
  apply existsb_exists in H as (y & Hy & E%String.eqb_eq). by subst.
Qed.

Lemma plan_image_ok namespace release expected i r r' exp' p :
  plan_image inspect_cmd namespace release expected i r = (r', Ok (exp', p)) ->
  r' = r /\ pn_image p = i /\ In (image_name i) expected
  /\ exp' = List.filter (fun n => negb (String.eqb n (image_name i))) expected
  /\ planned_ok namespace release r p.
Proof.
  unfold plan_image.
  destruct (mem (image_name i) expected) eqn:Em; simpl; [|done].
  destruct (String.eqb_spec (image i) ("ghcr.io/syntel-technologies/" ++ image_name i)) as [Ei|]; simpl; [|done].
  destruct (String.eqb_spec (tag i) release) as [Et|]; simpl; [|done].
  destruct (digest_ok (digest i)) eqn:Ed; simpl; [|done].
  unfold mbind, M_bind, M_bind_def, inspect.
  destruct (inspect_cmd (image i ++ "@" ++ digest i)%string r) as [raw| |] eqn:Er; simpl; [|done|done].
  destruct (platforms raw) as [ps|] eqn:Ep; simpl; [|done].
  destruct (mem "linux/amd64" ps && (mem "linux/arm64" ps && true)) eqn:Es; simpl; [|done].
  set (tgt := ("docker.io/" ++ namespace ++ "/" ++ image_name i ++ ":" ++ release)%string).
  assert (In "linux/amd64" ps /\ In "linux/arm64" ps) as Hps
    by (split; apply (subset_In ["linux/amd64"; "linux/arm64"] ps Es); simpl; auto).
  assert (In (image_name i) expected) as Hin
    by (unfold mem in Em; apply existsb_exists in Em as (y & Hy & E%String.eqb_eq); by subst).
  destruct (inspect_cmd tgt r) as [e| |] eqn:Ex; simpl; [| |done].
  - unfold differs. destruct (loads_bytes e) as [a|] eqn:Ea; [|done]. destruct (loads_bytes raw) as [b|] eqn:Eb; [|done].
    simpl. destruct (py_eq a b) eqn:Eq; simpl; [|done]. intros [= <- <- <-]. split_and!; try done.
    split; simpl; try done; [by exists ps|]. split; [done|]. by exists a, b.
  - intros [= <- <- <-]. split_and!; try done. split; simpl; try done. by exists ps.
Qed.

Lemma plan_images_ok namespace release imgs : forall expected r r' exp' ps,
  plan_images inspect_cmd namespace release expected imgs r = (r', Ok (exp', ps)) ->
  r' = r /\ map pn_image ps = imgs /\ List.Forall (planned_ok namespace release r) ps
  /\ List.NoDup (map image_name imgs) /\ (forall n, In n expected <-> In n exp' \/ In n (map image_name imgs) /\ In n expected)
  /\ (forall n, In n (map image_name imgs) -> In n expected /\ ~ In n exp') /\ (forall n, In n exp' -> In n expected).
Proof.
  induction imgs as [|i imgs IH]; intros expected r r' exp' ps; cbn [plan_images].
  - intros [= <- <- <-]. split_and!; try done; [constructor | intros n; tauto].
  - unfold mbind, M_bind, M_bind_def.
    destruct (plan_image inspect_cmd namespace release expected i r) as [r1 [[e1 p]|x]] eqn:E; [|done].
    apply plan_image_ok in E as (-> & Ep & Hin & -> & Hok). cbn [fst snd].
    destruct (plan_images inspect_cmd namespace release _ imgs r) as [r2 [[e2 qs]|x]] eqn:E2; [|done].
    intros [= <- <- <-]. apply IH in E2 as (-> & Em & Hf & Hnd & Hiff & Hgone & Hsub).
    assert (forall n, In n e2 -> In n expected) as Hsub' by (intros n Hn; apply Hsub, filter_In in Hn; tauto).
    assert (~ In (image_name i) (map image_name imgs)) as Hni.
    { intros H. apply Hgone in H as [H _]. apply filter_In in H as [_ H]. by rewrite String.eqb_refl in H. }
    split_and!; try done.
    + simpl. by rewrite Ep, Em.
    + by constructor.
    + by constructor.
    + intros n. simpl. split; [|intros [?|[_ ?]]; auto]. intros Hn. destruct (String.eqb_spec n (image_name i)) as [->|Hne]; [tauto|].
      destruct (proj1 (Hiff n)) as [?|[? _]]; [|tauto|tauto]. apply filter_In. split; [done|].
      apply negb_true_iff. by apply String.eqb_neq.
    + intros n [<-|Hn]; [split; [done|]|].
      * intros H. apply Hsub, filter_In in H as [_ H]. by rewrite String.eqb_refl in H.
      * apply Hgone in Hn as [H1 H2]. apply filter_In in H1 as [H1 _]. done.
Qed.

Lemma expected_nodup : List.NoDup expected_names.
Proof. apply NoDup_ListNoDup. apply (bool_decide_unpack _). vm_compute. exact I. Qed.

(** The registry after the copies of a plan: only missing targets are created. *)
Definition copied (r : R) (ps : list Planned) : R :=
  foldl (fun r p => match pn_existing p with None => create_cmd (pn_target p) (pn_source p) r | Some _ => r end) r ps.

Lemma inspect_some ref_ r r' b : inspect inspect_cmd ref_ false r = (r', Ok (Some b)) -> r' = r /\ inspect_cmd ref_ r = Raw b.
Proof. unfold inspect. destruct (inspect_cmd ref_ r); intros [= <-]; by subst. Qed.

Definition digest_reference (p : Planned) : string := (before_last ":" (pn_target p) ++ "@" ++ digest (pn_image p))%string.

Lemma mirror_image_ok compose p r r' c :
  mirror_image inspect_cmd create_cmd compose p r = (r', Ok c) ->
  r' = copied r [p] /\ inspect_cmd (pn_target p) r' = Raw (pn_raw p) /\ inspect_cmd (digest_reference p) r' = Raw (pn_raw p).
Proof.
  unfold mirror_image. set (r1 := copied r [p]).
  match goal with |- (?m ≫= ?k) r = _ -> _ => assert (m r = (r1, Ok tt)) as E
    by (unfold r1, copied; simpl; by destruct (pn_existing p));
    change ((m ≫= k) r) with (M_bind_def k m r); unfold M_bind_def at 1; rewrite E end.
  unfold mbind, M_bind, M_bind_def.
  fold (digest_reference p). unfold inspect.
  destruct (inspect_cmd (pn_target p) r1) as [m| |] eqn:Em; [|done|done].
  destruct (inspect_cmd (digest_reference p) r1) as [d| |] eqn:Ed; [|done|done].
  destruct (bool_decide_reflect (Some d = Some (pn_raw p))) as [[= ->]|]; [|done].
  destruct (bool_decide_reflect (Some m = Some (pn_raw p))) as [[= ->]|]; [|done]. simpl.
  destruct (contains _ compose); [|done]. simpl. intros [= <- _]. done.
Qed.

Lemma mirror_all_ok ps : forall compose r r' c,
  mirror_all inspect_cmd create_cmd compose ps r = (r', Ok c) ->
  r' = copied r ps
  /\ forall k p, ps !! k = Some p ->
       let rk := copied r (take (S k) ps) in
       inspect_cmd (pn_target p) rk = Raw (pn_raw p) /\ inspect_cmd (digest_reference p) rk = Raw (pn_raw p).
Proof.
  induction ps as [|p ps IH]; intros compose r r' c; cbn [mirror_all]; [intros [= <- _]; by split|].
  unfold mbind, M_bind, M_bind_def. destruct (mirror_image _ _ compose p r) as [r1 [c1|e]] eqn:E; [|done].
  intros E2. apply mirror_image_ok in E as (-> & H1 & H2). apply IH in E2 as [-> Hk].
  split; [reflexivity|]. intros [|k] q Hq; [injection Hq as <-; by split | exact (Hk k q Hq)].
Qed.

(** A release is mirrored completely, unaltered and without overwriting.  When
    the script succeeds, the inventory named exactly the three images, each once,
    from the organisation's registry, with the release tag and a sha256 digest, and
    each source offers both platforms; the registry differs only by the copies of
    those whose target did not exist before; a target that existed held the same
    manifest; and right after each image's turn both the target and its digest
    reference answered the very bytes of the source. *)
Theorem mirror_is_exact namespace m compose r r' out :
  main inspect_cmd create_cmd namespace m compose r = (r', Ok out) ->
  namespace_ok namespace = true /\ version_ok (version m) = true
  /\ Permutation (map image_name (images m)) expected_names
  /\ exists ps, map pn_image ps = images m /\ List.Forall (planned_ok namespace (version m) r) ps /\ r' = copied r ps
       /\ forall k p, ps !! k = Some p ->
            let rk := copied r (take (S k) ps) in
            inspect_cmd (pn_target p) rk = Raw (pn_raw p) /\ inspect_cmd (digest_reference p) rk = Raw (pn_raw p).
Proof.
  unfold main. destruct (namespace_ok namespace); [|done]. destruct (version_ok (version m)); [|done]. cbn [negb].
  unfold mbind at 1, M_bind, M_bind_def.
  destruct (plan_images inspect_cmd namespace (version m) expected_names (images m) r) as [r1 [[left ps]|e]] eqn:E; [|done].
  apply plan_images_ok in E as (-> & Em & Hf & Hnd & Hiff & Hin & _). cbn [fst snd].
  destruct left as [|x left]; [|done]. cbn [negb]. unfold mbind, M_bind, M_bind_def.
  destruct (mirror_all inspect_cmd create_cmd compose ps r) as [r2 [c|e]] eqn:E2; [|done]. intros [= <- _].
  apply mirror_all_ok in E2 as [-> Hk]. split_and!; try done; [|by exists ps].
  apply NoDup_Permutation; [by apply NoDup_ListNoDup | apply NoDup_ListNoDup, expected_nodup|].
  intros n. rewrite !list_elem_of_In. split; [by intros H; apply Hin|].
  intros H. apply Hiff in H as [[]|[H _]]; done.
Qed.

(** Planning only reads. *)
Lemma inspect_reads ref_ b : stable eq (inspect inspect_cmd ref_ b).
Proof. intros r. unfold inspect. by destruct (inspect_cmd ref_ r). Qed.
Lemma of_option_reads {A} e (o : option A) : stable eq (of_option e o : M exn R A).
Proof. by destruct o. Qed.
#[local] Hint Resolve inspect_reads of_option_reads : stable_db.

Lemma plan_images_read namespace release imgs expected :
  stable eq (plan_images inspect_cmd namespace release expected imgs).
Proof.
  revert expected. induction imgs as [|i imgs IH]; intros expected; cbn [plan_images]; [by intros r|].
  apply stable_bind; [apply _ | | intros a; apply stable_bind; [apply _ | apply IH | by intros ? r]].
  unfold plan_image. repeat (first [solve [eauto with stable_db] | stable_step | by intros r]).
Qed.

(** A failure of the inventory leaves the registry alone. *)
Theorem mirror_checks_first namespace m compose r r' e :
  plan_images inspect_cmd namespace (version m) expected_names (images m) r = (r', Raise e) ->
  fst (main inspect_cmd create_cmd namespace m compose r) = r.
Proof.
  intros E. unfold main. destruct (namespace_ok namespace); [|done]. destruct (version_ok _); [|done]. simpl.
  unfold mbind, M_bind, M_bind_def. rewrite E. simpl.
  pose proof (plan_images_read namespace (version m) (images m) expected_names r) as H. by rewrite E in H.
Qed.
End MirrorProps.
