(* ===== verification/DbSetup.v ===== *)
(** * Setting up the database (src/symba/db/queries.py, migrate.py, pool.py)

    The registry of SQL texts, the loader of the versioned schema and the two
    connection pools.  The file system and the server are parameters. *)

From S2P Require Import Prelude PyStr Errors Json JsonLoads JsonProps Config.
From Stdlib Require Import Ascii String ZArith Sorting.Sorted.
Open Scope string_scope.
Open Scope Z_scope.
Open Scope list_scope.

(** ** The query registry *)

Module Queries.

(** The constants of the class, in order, with the file each is loaded from. *)
Definition registry : list (string * string) := [
  ("CLAIM", "claim"); ("PREPARE_GROUP_COUNTERS", "prepare_group_counters");
  ("RUNNING_COUNTS_BY_WORKER", "running_counts_by_worker"); ("SET_CLAIMED_BY", "set_claimed_by");
  ("SUBMIT", "submit"); ("HEARTBEAT", "heartbeat"); ("COMPLETE", "complete");
  ("COMPLETE_CONTINUATION", "complete_continuation"); ("FAIL", "fail"); ("FAIL_PEEK", "fail_peek");
  ("FAIL_DIE", "fail_die"); ("CANCEL", "cancel"); ("CANCEL_RUNNING", "cancel_running");
  ("GET_JOB", "get_job"); ("GET_RESULT", "get_result"); ("SWEEP_LEASES", "sweep_leases");
  ("LIST_EXHAUSTED_LEASES", "list_exhausted_leases"); ("SWEEP_WAITS", "sweep_waits"); ("SIGNAL", "signal");
  ("SIGNAL_INSERT", "signal_insert"); ("WAIT_CONSUME", "wait_consume"); ("WAIT_PARK", "wait_park");
  ("DECREMENT_GROUP", "decrement_group"); ("DECREMENT_DEPS", "decrement_deps");
  ("INSERT_DEPENDENCY", "insert_dependency"); ("CREATE_GATE", "create_gate"); ("BUMP_GATE", "bump_gate");
  ("GATE_CHILD_RESULTS", "gate_child_results"); ("GET_GATE", "get_gate");
  ("CASCADE_CANCEL", "cascade_cancel"); ("RECORD_EVENT", "record_event");
  ("RECONCILE_GROUPS", "reconcile_groups"); ("RATE_TAKE_PG", "rate_take_pg");
  ("RATE_RETURN_PG", "rate_return_pg"); ("RATE_CLASSES_ALL", "rate_classes_all");
  ("RATE_CLASS_UPSERT", "rate_class_upsert"); ("DISTINCT_RATE_CLASSES", "distinct_rate_classes");
  ("CRON_DUE", "cron_due"); ("CRON_ADVANCE", "cron_advance"); ("CHECKPOINT_PUT", "checkpoint_put");
  ("CHECKPOINT_GET", "checkpoint_get"); ("RESUBMIT", "resubmit"); ("LIST_JOBS", "list_jobs");
  ("STATS_BOARD", "stats_board"); ("STATS_QUEUES", "stats_queues"); ("LIST_WORKERS", "list_workers");
  ("WORKER_UPSERT", "worker_upsert"); ("WORKER_DELETE", "worker_delete");
  ("MARK_WORKERS_STALE", "mark_workers_stale"); ("LIST_CRON", "list_cron");
  ("CRON_SET_ENABLED", "cron_set_enabled"); ("CRON_UPSERT", "cron_upsert"); ("CRON_DELETE", "cron_delete");
  ("JOB_EVENTS", "job_events"); ("JOB_TREE_EDGES", "job_tree_edges"); ("EVENTS_SINCE", "events_since");
  ("EVENTS_FOR_CTX", "events_for_ctx"); ("GET_ANCESTOR_RESULT", "get_ancestor_result");
  ("INLINE_UPSTREAM", "inline_upstream"); ("METRICS_QUEUE_GAUGES", "metrics_queue_gauges");
  ("METRICS_GATE_AGE", "metrics_gate_age"); ("METRICS_PG_XACT_AGE", "metrics_pg_xact_age");
  ("COUNT_TENANT_LIVE", "count_tenant_live")
].

Section Load.
Context (read_text : string -> option string).

(** [(_QUERIES_DIR / f"{name}.sql").read_text()]; None: FileNotFoundError *)
Definition _load (name : string) : option string := read_text (name ++ ".sql")%string.

(** The class body: the first missing file fails the import. *)
Fixpoint load_all (l : list (string * string)) : option (list (string * string)) :=
  match l with
  | [] => Some []
  | (attr, name) :: l' =>
      match _load name, load_all l' with
      | Some sql, Some rest => Some ((attr, sql) :: rest)
      | _, _ => None
      end
  end.

Definition Q : option (list (string * string)) := load_all registry.
End Load.

End Queries.

(** ** The schema loader *)

Module Migrate.

(** [_VERSION_RE.match(name)]: the digits of [^V(\d+)__]. *)
Fixpoint span_digits (s : string) : string * string :=
  match s with
  | String c s' => if is_digit c then let (a, b) := span_digits s' in (String c a, b) else ("", s)
  | EmptyString => ("", "")
  end.

Definition version_of (name : string) : option Z :=
  match name with
  | String "V" s =>
      let (ds, rest) := span_digits s in
      if negb (String.eqb ds "") && startswith "__" rest then py_int ds else None
  | _ => None
  end.

(** [glob("V*.sql")] over the names of the directory *)
Definition globbed (name : string) : bool := startswith "V" name && endswith ".sql" name.

Definition by_name (a b : string * string) : bool := String.leb (fst a) (fst b).
Definition by_version (a b : Z * string * string) : bool := fst (fst a) <=? fst (fst b).

(** [discover_versioned()] over a directory of names and texts. *)
Definition discover_versioned (dir : list (string * string)) : list (Z * string * string) :=
  let files := order_by by_name (List.filter (fun f => globbed (fst f)) dir) in
  order_by by_version
    (omap (fun f => match version_of (fst f) with Some v => Some (v, fst f, snd f) | None => None end) files).

Section Apply.
Context {S : Type} (execute : string -> M exn S unit).

(** [async with conn.transaction()] *)
Definition in_transaction {A} (m : M exn S A) : M exn S A := fun s =>
  match m s with
  | (s', Ok a) => (s', Ok a)
  | (_, Raise e) => (s, Raise e)
  end.

Definition quoted (s : string) : string := String double_quote (s ++ String double_quote "").

Definition apply_schema (dir : list (string * string)) (schema : string) : M exn S Z :=
  let migrations := discover_versioned dir in
  _ ← in_transaction (
    _ ← execute ("CREATE SCHEMA IF NOT EXISTS " ++ quoted schema);
    _ ← execute ("SET search_path TO " ++ quoted schema);
    forM (fun m : Z * string * string => execute (snd m)) migrations);
  mret (Z.of_nat (List.length migrations)).
End Apply.

End Migrate.

(** ** The pools *)

Module Pool.
Import Config.

(** The arguments of [asyncpg.create_pool]. *)
Record PoolSettings := mkPool {
  pl_dsn : string;
  pl_min_size : Z;
  pl_max_size : Z;
  pl_command_timeout : Z;
  pl_search_path : string
}.

Record Pools := mkPools { hot : PoolSettings; general : PoolSettings }.

(** The codecs [_init_connection] sets on every connection: type, encoder and
    decoder (None: the text does not parse). *)
Definition _init_connection : list (string * (json -> string) * (string -> option json)) :=
  map (fun t => (t, dumps, loads)) ["json"; "jsonb"].

Definition create_pools (cfg : PostgresConfig) : result exn Pools :=
  match resolved_dsn cfg with
  | Raise e => Raise e
  | Ok dsn =>
      Ok (mkPools (mkPool dsn 2 (hot_pool_size cfg) (hot_command_timeout_s cfg) (schema_name cfg))
                  (mkPool dsn 2 (general_pool_size cfg) (general_command_timeout_s cfg) (schema_name cfg)))
  end.

End Pool.

(** ** Theorems *)

(** Each constant names its own file, no two the same, and none is optional: the
    import succeeds exactly when every file can be read, and then binds each
    constant to the text of the file with its lower-case name. *)
Theorem query_registry_exact read_text :
  map (fun e => lower (fst e)) Queries.registry = map snd Queries.registry
  /\ List.NoDup (map fst Queries.registry)
  /\ (Queries.Q read_text <> None <-> forall e, In e Queries.registry -> read_text (snd e ++ ".sql")%string <> None)
  /\ (forall q, Queries.Q read_text = Some q ->
        map (fun e => (fst e, Some (snd e))) q
        = map (fun e => (fst e, read_text (snd e ++ ".sql")%string)) Queries.registry).
Proof.
  split_and!; [vm_compute; reflexivity | | |].
  - apply NoDup_ListNoDup. apply (bool_decide_unpack _). vm_compute. exact I.
  - unfold Queries.Q. induction Queries.registry as [|[a n] l IH]; simpl; [naive_solver|].
    unfold Queries._load. destruct (read_text (n ++ ".sql")%string) as [t|] eqn:E.
    + destruct (Queries.load_all read_text l) as [r|]; split.
      * intros _ e [<-|He]; simpl; [by rewrite E|]. by apply IH.
      * done.
      * done.
      * intros H. exfalso. apply (proj2 IH); [|done]. intros e He. apply H. by right.
    + split; [done|]. intros H. exfalso. apply (H (a, n) (or_introl eq_refl)). exact E.
  - unfold Queries.Q. induction Queries.registry as [|[a n] l IH]; simpl; intros q; [by intros [= <-]|].
    unfold Queries._load. destruct (read_text (n ++ ".sql")%string) as [t|] eqn:E; [|done].
    destruct (Queries.load_all read_text l) as [r|]; [|done]. intros [= <-]. simpl. by rewrite (IH r eq_refl).
Qed.

Section MigrateProps.
Import Migrate.

Lemma discover_sorted dir : StronglySorted (fun a b => fst (fst a) <= fst (fst b)) (discover_versioned dir).
Proof.
  unfold discover_versioned. set (l := omap _ _).
  assert (forall x y : Z * string * string, by_version x y = true \/ by_version y x = true) as Ht
    by (intros x y; unfold by_version; rewrite !Z.leb_le; lia).
  assert (forall x y z : Z * string * string, by_version x y = true -> by_version y z = true -> by_version x z = true) as Htr
    by (intros x y z; unfold by_version; rewrite !Z.leb_le; lia).
  pose proof (order_by_sorted by_version Ht Htr l) as H.
  induction H as [|x xs _ IH Hx]; constructor; [done|].
  eapply List.Forall_impl; [|exact Hx]. intros y Hy. by apply Z.leb_le.
Qed.

Lemma discover_In dir v n t :
  In (v, n, t) (discover_versioned dir) <-> In (n, t) dir /\ globbed n = true /\ version_of n = Some v.
Proof.
  unfold discover_versioned. rewrite order_by_In, <- list_elem_of_In, list_elem_of_omap. split.
  - intros ([n' t'] & Hin & Hv). apply list_elem_of_In, order_by_In, filter_In in Hin as [Hin Hg]. simpl in *.
    destruct (version_of n') eqn:E; [|done]. injection Hv as -> -> ->. done.
  - intros (Hin & Hg & Hv). exists (n, t). simpl. rewrite Hv. split; [|done].
    apply list_elem_of_In, order_by_In, filter_In. done.
Qed.

(** The schema is applied in version order, whole or not at all: the loader
    takes exactly the V<number>__ files of the directory, in increasing order of
    their numbers; when every statement succeeds they have all run, in that order,
    after the schema has been created and put on the search path, and their number
    is returned; when one fails the database is as it was. *)
Theorem schema_applied_in_order {S} (execute : string -> M exn S unit) dir schema s :
  let l := discover_versioned dir in
  StronglySorted (fun a b => fst (fst a) <= fst (fst b)) l
  /\ (forall v n t, In (v, n, t) l <-> In (n, t) dir /\ globbed n = true /\ version_of n = Some v)
  /\ match apply_schema execute dir schema s with
     | (s', Ok n) =>
         n = Z.of_nat (List.length l)
         /\ fst (forM execute (("CREATE SCHEMA IF NOT EXISTS " ++ quoted schema)%string
                                :: ("SET search_path TO " ++ quoted schema)%string :: map snd l) s) = s'
     | (s', Raise _) => s' = s
     end.
Proof.
  intros l. split_and!; [apply discover_sorted | apply discover_In|].
  assert (forall ms s0, forM (fun m : Z * string * string => execute (snd m)) ms s0 = forM execute (map snd ms) s0) as Hmap.
  { induction ms as [|m ms IH]; intros s0; [done|]. cbn [forM map]. unfold mbind, M_bind, M_bind_def.
    destruct (execute (snd m) s0) as [s1 [u|e]]; [|done]. by rewrite IH. }
  unfold apply_schema, in_transaction. fold l. cbn [forM]. unfold mbind, M_bind, M_bind_def.
  destruct (execute _ s) as [s1 [[]|e]]; [|done].
  destruct (execute ("SET search_path TO " ++ quoted schema)%string s1) as [s2 [[]|e]]; [|done].
  rewrite Hmap. by destruct (forM execute (map snd l) s2) as [s3 [us|e]].
Qed.

(** Filename order would put version 10 first. *)
Example versions_are_numbers :
  map (fun m => fst (fst m)) (discover_versioned [("V2__b.sql", ""); ("V10__a.sql", ""); ("README.md", ""); ("Vx.sql", "")]) = [2; 10]
  /\ String.leb "V10__a.sql" "V2__b.sql" = true.
Proof. vm_compute. split; reflexivity. Qed.
End MigrateProps.

(** The pools share the server and the schema, differ in their limits, and can hold
    their two initial connections when the sizes are valid; every connection's
    JSON codec reads back what it writes. *)
Theorem pools_are_consistent cfg ps :
  Pool.create_pools cfg = Ok ps -> 2 <= Config.hot_pool_size cfg -> 2 <= Config.general_pool_size cfg ->
  Config.resolved_dsn cfg = Ok (Pool.pl_dsn (Pool.hot ps))
  /\ Pool.pl_dsn (Pool.general ps) = Pool.pl_dsn (Pool.hot ps)
  /\ Pool.pl_search_path (Pool.hot ps) = Config.schema_name cfg
  /\ Pool.pl_search_path (Pool.general ps) = Config.schema_name cfg
  /\ Pool.pl_min_size (Pool.hot ps) <= Pool.pl_max_size (Pool.hot ps)
  /\ Pool.pl_min_size (Pool.general ps) <= Pool.pl_max_size (Pool.general ps)
  /\ Forall (fun c => forall j, json_ok j -> snd c (snd (fst c) j) = Some j) Pool._init_connection.
Proof.
  unfold Pool.create_pools. destruct (Config.resolved_dsn cfg) as [d|e]; [|done]. intros [= <-] Hh Hg. simpl.
  split_and!; try done. repeat constructor; simpl; apply loads_dumps_ok.
Qed.
