(* ===== verification/Clients.v ===== *)
(** * Scripts that drive the HTTP application (tools/smoke_quickstart.py, tools/ci_load_prepare.py)

    The quickstart smoke test runs against the application behind its
    authentication, as compose.quickstart.yml configures it.  The console page is
    served by the frontend's web server: its status and body are a parameter.

    The preparation of the load benchmark runs beside the engine: each request
    meets the world as it is by then, so the script is a function of those worlds,
    paired with the reading of the monotonic clock (in milliseconds) that follows
    the answer.  Its requests carry no credential. *)

(** * The smoke test *)

From S2P Require Import Prelude PyStr Errors States Json JsonLoads Records Database Queries Tables Claim.
From S2P Require Import Invariant Steps ClaimFacts Repository RepoFacts World RateLimiter RegistryService.
From S2P Require Import JobService SubmitService QueryService FanOutService SignalService CancelService.
From S2P Require Import Matcher Loops Engine Exec Lifecycle OutcomeProps SubmitProps Config Auth HttpServer.
From Stdlib Require Import QArith.
Open Scope string_scope.
Open Scope Z_scope.
Open Scope list_scope.

Import HttpServer.HttpServer.

Module Smoke.

(** compose.quickstart.yml: token mode with the development token. *)
Definition quickstart_auth : Config.AuthConfig :=
  Config.mkAuth "token" "" [("symba-local-dev-token", "default")] [].

(** [needle in haystack] *)
Fixpoint contains (needle hay : string) : bool :=
  String.prefix needle hay || match hay with String _ hay' => contains needle hay' | EmptyString => false end.

Section Main.
Context (is_valid : string -> bool) (cfg : World.SymbaConfig) (lk : locks) (jwt_decode : string -> string + dict)
        (auth : Config.AuthConfig).

Definition call : Request -> World -> World * Response := http_auth_middleware is_valid cfg lk jwt_decode auth.

(** [urlopen] raises HTTPError on a status of 400 and more. *)
Definition opened (r : Response) : option (Z * Body) :=
  match r with
  | Respond status _ b => if status <? 400 then Some (status, b) else None
  | ServerError _ => None
  end.
Definition http_code (r : Response) : Z := match r with Respond status _ _ => status | ServerError _ => 500 end.

Definition payload : dict := [("hello", JStr "docker")].

Definition post (token : option string) : Request :=
  mkRequest "" (CallSubmit [default_dto "demo.echo" payload]) token None (Some "127.0.0.1") None.
Definition get (job_id : uuid) (token : option string) : Request :=
  mkRequest (uuid_str job_id) (CallGetJob (Some job_id)) token None (Some "127.0.0.1") None.

Definition bearer : option string := Some "Bearer symba-local-dev-token".

(** The script; false where one of its assertions fails or a call raises. *)
Definition main (console : Z * string) (w : World) : World * bool :=
  if negb ((fst console =? 200) && contains "<html" (lower (snd console))) then (w, false)
  else
    let (w1, r1) := call (post None) w in
    if negb (http_code r1 =? 401) then (w1, false)
    else
      let (w2, r2) := call (post bearer) w1 in
      match opened r2 with
      | Some (status, SubmitBody (job_id :: more) _) =>
          if negb (existsb (Z.eqb status) [200; 201; 202] && match more with [] => true | _ => false end) then (w2, false)
          else
            let (w3, r3) := call (get job_id bearer) w2 in
            match opened r3 with
            | Some (_, JobBody job) =>
                (w3, String.eqb (jd_task_name job) "demo.echo" && String.eqb (jd_tenant job) "default")
            | _ => (w3, false)
            end
      | _ => (w2, false)
      end.
End Main.
End Smoke.

Import Smoke.

Definition smoke_spec : SubmitSpec := _to_spec "default" (default_dto "demo.echo" payload).
Definition smoke_prepared : SubmitSpec := set_s_state QUEUED smoke_spec.

Lemma smoke_prepare now : SubmitService._prepare default_config now smoke_spec = Ok smoke_prepared.
Proof. reflexivity. Qed.

(** The row just inserted is the one its id names. *)
Lemma get_inserted db db' p :
  wf db -> db_jobs db' = db_jobs db ++ [inserted_job db (db_uuid_seq db) p None] -> db_archive db' = db_archive db ->
  sql_get_job (db_uuid_seq db) (s_tenant p) db'
  = Some (mkAny (inserted_job db (db_uuid_seq db) p None) None (s_state p)).
Proof.
  intros Hwf Hj Ha. unfold sql_get_job, jobs_all. rewrite Hj, map_app, <- app_assoc.
  pose proof (wf_ids_lt _ _ _ (wf_j _ Hwf)) as Hlt. rewrite List.Forall_forall in Hlt.
  rewrite find_app_none.
  - simpl. by rewrite N.eqb_refl, String.eqb_refl.
  - intros x (j & <- & Hin)%in_map_iff. simpl. destruct (N.eqb_spec (c_id j) (db_uuid_seq db)) as [E|]; [|done]. exfalso.
    assert (c_id j < db_uuid_seq db)%N; [|lia]. apply Hlt, in_app_iff. left. by apply (in_map job_id).
Qed.

Lemma get_job_found i t w x :
  sql_get_job i t (w_db w) = Some x -> SubmitService.get_job (Some i) t w = (w, Ok (repo.job_row x)).
Proof.
  intros H. unfold SubmitService.get_job. unfold mbind, M_bind, M_bind_def.
  assert (on_db (repo.get_job i t) w = (w, Ok (Some (repo.job_row x)))) as ->; [|done].
  unfold on_db, repo.get_job, query. unfold mbind, M_bind, M_bind_def. simpl. rewrite H. simpl. by rewrite world_eta.
Qed.

(** A request with the development token reaches the application as tenant default. *)
Lemma authorized is_valid lk jwt_decode r w :
  startswith "/v1" (path_of (rq_id_text r) (rq_call r)) = true -> rq_authorization r = bearer ->
  call is_valid default_config lk jwt_decode quickstart_auth r w
  = app is_valid default_config lk (rq_trace_id r) (Some (mkPrincipal "default" "default" "token")) (rq_call r) w.
Proof. intros Hp Ha. unfold call, http_auth_middleware. rewrite Hp, Ha. reflexivity. Qed.

(** The quickstart smoke test passes against every reachable state of the
    engine configured as the quickstart is, provided the console page is served:
    the submission without a token is refused with 401 and changes nothing, the
    one with the development token is answered with exactly one job id, and the
    lookup of that id finds the job, of task demo.echo and tenant default; and
    the run leaves exactly that one row more. *)
Theorem smoke_passes is_valid lk jwt_decode console w :
  reachable w -> fst console = 200 -> contains "<html" (lower (snd console)) = true ->
  exists w', main is_valid default_config lk jwt_decode quickstart_auth console w = (w', true)
    /\ db_jobs (w_db w') = db_jobs (w_db w) ++ [inserted_job (w_db w) (db_uuid_seq (w_db w)) smoke_prepared None]
    /\ db_archive (w_db w') = db_archive (w_db w).
Proof.
  intros Hr%reachable_wf_db Hc Hh.
  destruct (submit_new_run default_config smoke_spec w smoke_prepared ltac:(simpl; lia) (smoke_prepare _)
              ltac:(vm_compute; discriminate)) as (w1 & edges & Es & _ & Hj & _ & Ha & _); [intros j _; unfold dedup_conflict; apply andb_false_intro2; by destruct (c_dedup_key j)|].
  exists w1. split_and!; [|done|done]. unfold main. rewrite Hc, Hh. cbn [negb andb Z.eqb Pos.eqb].
  assert (call is_valid default_config lk jwt_decode quickstart_auth (post None) w
          = (w, Respond 401 None (ErrorBody (to_dict None (mkSymbaError Unauthenticated (Some "missing bearer credentials") [])))))
    as -> by reflexivity.
  cbn [http_code negb Z.eqb Pos.eqb].
  assert (call is_valid default_config lk jwt_decode quickstart_auth (post bearer) w
          = (w1, Respond 200 None (SubmitBody [db_uuid_seq (w_db w)] [false]))) as ->.
  { rewrite authorized by done. unfold app, respond. cbn [post rq_call]. unfold endpoint, submit_jobs.
    unfold mbind, M_bind, M_bind_def. cbn [require_principal of_option M_ret_def map p_tenant].
    fold smoke_spec. by rewrite Es. }
  cbn [opened Z.ltb Z.compare Pos.compare Pos.compare_cont existsb Z.eqb Pos.eqb orb andb negb].
  pose proof (get_inserted _ _ smoke_prepared Hr Hj Ha) as Hg. change (s_tenant smoke_prepared) with "default" in Hg.
  assert (exists job, call is_valid default_config lk jwt_decode quickstart_auth (get (db_uuid_seq (w_db w)) bearer) w1
          = (w1, Respond 200 None (JobBody job)) /\ jd_task_name job = "demo.echo" /\ jd_tenant job = "default")
    as (job & -> & Ht & Hn).
  { eexists. split; [|split].
    - rewrite authorized by done. unfold app, respond. cbn [get rq_call]. unfold endpoint, get_job.
      unfold mbind, M_bind, M_bind_def. cbn [require_principal of_option M_ret_def p_tenant].
      rewrite (get_job_found _ _ _ _ Hg). reflexivity.
    - reflexivity.
    - reflexivity. }
  simpl. by rewrite Ht, Hn.
Qed.

Lemma smoke_passes_witness :
  exists w', main (fun _ => true) default_config no_locks (fun _ => inl "") quickstart_auth (200, "<!doctype html><HTML>") world3
             = (w', true)
    /\ length (db_jobs (w_db w')) = 2%nat.
Proof.
  destruct (smoke_passes (fun _ => true) no_locks (fun _ => inl "") (200, "<!doctype html><HTML>") world3 world3_reachable
              eq_refl eq_refl) as (w' & H & Hj & _).
  exists w'. split; [exact H|]. rewrite Hj, length_app, world3_jobs. reflexivity.
Defined.

(** * The preparation of the load benchmark *)

Import HttpServer.HttpServer.

Module LoadPrepare.
Section Prepare.
Context (is_valid : string -> bool) (cfg : World.SymbaConfig) (lk : locks) (jwt_decode : string -> string + dict)
        (auth : Config.AuthConfig).

Definition request (c : Call) : Request := mkRequest "" c None None (Some "127.0.0.1") None.

(** [response.raise_for_status(); response.json()]: the body of a success. *)
Definition fetched (c : Call) (w : World) : result exn Body :=
  match snd (http_auth_middleware is_valid cfg lk jwt_decode auth (request c) w) with
  | Respond status _ b => if (200 <=? status) && (status <? 300) then Ok b else Raise RuntimeError
  | ServerError _ => Raise RuntimeError
  end.

(** A [while True] loop with a decision per turn; None: it went on beyond the
    turns given. *)
Fixpoint poll {A} (turn : World -> Z -> option A) (polls : list (World * Z)) : option A :=
  match polls with
  | [] => None
  | (w, now) :: rest => match turn w now with Some a => Some a | None => poll turn rest end
  end.

Definition echo_workers : list string := map (fun n => ("ci-load-echo-" ++ py_str_Z n)%string) [0; 1; 2; 3].

Definition workers_turn (deadline : Z) (w : World) (now : Z) : option (result exn unit) :=
  match fetched CallWorkers w with
  | Ok (WorkersBody rows) =>
      let workers := map wd_worker_id (List.filter (fun row => negb (wd_stale row)) rows) in
      if forallb (fun n => existsb (String.eqb n) workers) echo_workers then Some (Ok tt)
      else if deadline <=? now then Some (Raise RuntimeError) else None
  | _ => Some (Raise RuntimeError)
  end.

Definition warmup_call : Call := CallSubmit [default_dto "loadtest.echo" [("warmup", JBool true)]].

Definition submit (w : World) : result exn unit :=
  match fetched warmup_call w with
  | Ok (SubmitBody job_ids _) => if Nat.eqb (length job_ids) 1 then Ok tt else Raise RuntimeError
  | _ => Raise RuntimeError
  end.

(** Ten rounds of fifty concurrent submissions, each in the world it meets; an
    exception of one ends the script. *)
Definition submissions : nat := 10 * 50.

Fixpoint warm_up (n : nat) (ws : list World) : option (result exn unit) :=
  match n, ws with
  | O, _ => Some (Ok tt)
  | S n', w :: ws' => match submit w with Ok _ => warm_up n' ws' | Raise e => Some (Raise e) end
  | S _, [] => None
  end.

(** [counts.get(state, 0)] *)
Fixpoint get (counts : list (string * Z)) (state : string) : Z :=
  match counts with
  | [] => 0
  | (s, n) :: rest => if String.eqb s state then n else get rest state
  end.

Definition pending (counts : list (string * Z)) : Z :=
  foldr (fun state n => get counts state + n) 0 ["submitted"; "queued"; "running"; "waiting"].

Definition drain_turn (deadline : Z) (w : World) (now : Z) : option (result exn Z) :=
  match fetched CallBoard w with
  | Ok (BoardBody counts) =>
      if negb (get counts "dead" =? 0) || negb (get counts "cancelled" =? 0) then Some (Raise RuntimeError)
      else if (pending counts =? 0) && (500 <=? get counts "succeeded") then Some (Ok (get counts "succeeded"))
      else if deadline <=? now then Some (Raise RuntimeError) else None
  | _ => Some (Raise RuntimeError)
  end.

Definition drain (start : Z) (polls : list (World * Z)) : option (result exn Z) :=
  poll (drain_turn (start + 60000)) polls.

(** The script: the number of jobs it reports drained. *)
Definition prepare (drain_only : bool) (start : Z) (registering : list (World * Z)) (warming : list World)
    (drain_start : Z) (draining : list (World * Z)) : option (result exn Z) :=
  if drain_only then drain drain_start draining
  else match poll (workers_turn (start + 30000)) registering with
       | Some (Ok _) =>
           match warm_up submissions warming with
           | Some (Ok _) => drain drain_start draining
           | Some (Raise e) => Some (Raise e)
           | None => None
           end
       | Some (Raise e) => Some (Raise e)
       | None => None
       end.
End Prepare.
End LoadPrepare.

Import LoadPrepare.

(** ** Theorems *)

(** The loop sleeps a fifth of a second between polls. *)
Fixpoint every_200ms (t : Z) (polls : list (World * Z)) : Prop :=
  match polls with
  | [] => True
  | (_, now) :: rest => t <= now /\ every_200ms (now + 200) rest
  end.

Section Drain.
Context (is_valid : string -> bool) (cfg : World.SymbaConfig) (lk : locks) (jwt_decode : string -> string + dict)
        (auth : Config.AuthConfig) (p : Principal).
Hypothesis passes_auth :
  Authenticator.authenticate jwt_decode auth None None (Some "127.0.0.1") = Ok p.

(** The jobs of the caller's tenant in a state, live and archived. *)
Definition in_state (db : DB) (s : JobState) : nat :=
  count (fun a : AnyJob => String.eqb (c_tenant a) (p_tenant p) && JobState_eqb (al_final_state a) s) (jobs_all db).

Definition unfinished (db : DB) : nat :=
  (in_state db SUBMITTED + in_state db QUEUED + in_state db RUNNING + in_state db WAITING)%nat.

Lemma board_body w :
  fetched is_valid cfg lk jwt_decode auth CallBoard w
  = Ok (BoardBody (map (fun sc => (JobState_value (fst sc), snd sc)) (sql_stats_board (p_tenant p) (w_db w)))).
Proof.
  unfold fetched, http_auth_middleware, request. cbn [rq_call rq_id_text rq_authorization rq_tenant_header rq_client_host].
  cbn [path_of startswith negb]. rewrite passes_auth. reflexivity.
Qed.

Lemma board_count w s :
  get (map (fun sc => (JobState_value (fst sc), snd sc)) (sql_stats_board (p_tenant p) (w_db w))) (JobState_value s)
  = Z.of_nat (in_state (w_db w) s).
Proof.
  unfold sql_stats_board. fold (in_state (w_db w)).
  assert (forall l, List.In s l ->
    get (map (fun sc => (JobState_value (fst sc), snd sc))
           (List.filter (fun r => 0 <? snd r) (map (fun s => (s, Z.of_nat (in_state (w_db w) s))) l))) (JobState_value s)
    = Z.of_nat (in_state (w_db w) s)) as H.
  { induction l as [|x l IH]; [done|]. intros Hin. cbn [map List.filter snd]. destruct (decide (x = s)) as [->|Hne].
    - destruct (Z.ltb_spec 0 (Z.of_nat (in_state (w_db w) s))) as [Hp|Hp].
      + cbn [map get fst snd]. by rewrite String.eqb_refl.
      + assert (in_state (w_db w) s = 0%nat) as E by lia. clear IH Hin Hp. rewrite E.
        induction l as [|y l IH]; [done|]. cbn [map List.filter snd].
        destruct (Z.ltb_spec 0 (Z.of_nat (in_state (w_db w) y))); [|done]. cbn [map get fst snd].
        destruct (String.eqb_spec (JobState_value y) (JobState_value s)) as [Ey|]; [|done].
        assert (y = s) as -> by (by destruct y, s). lia.
    - assert (List.In s l) as Hl by (by destruct Hin). destruct (0 <? _); [|by apply IH]. cbn [map get fst snd].
      destruct (String.eqb_spec (JobState_value x) (JobState_value s)) as [Ey|]; [|by apply IH].
      exfalso. apply Hne. by destruct x, s. }
  apply H. destruct s; simpl; tauto.
Qed.

(** One turn of the drain loop, on the database. *)
Lemma drain_turn_db deadline w now :
  drain_turn is_valid cfg lk jwt_decode auth deadline w now =
  let db := w_db w in
  if negb (Nat.eqb (in_state db DEAD + in_state db CANCELLED) 0) then Some (Raise RuntimeError)
  else if Nat.eqb (unfinished db) 0 && (500 <=? in_state db SUCCEEDED)%nat then Some (Ok (Z.of_nat (in_state db SUCCEEDED)))
  else if deadline <=? now then Some (Raise RuntimeError) else None.
Proof.
  unfold drain_turn. rewrite board_body. unfold pending. cbn [foldr].
  change "dead" with (JobState_value DEAD). change "cancelled" with (JobState_value CANCELLED).
  change "succeeded" with (JobState_value SUCCEEDED). change "submitted" with (JobState_value SUBMITTED).
  change "queued" with (JobState_value QUEUED). change "running" with (JobState_value RUNNING).
  change "waiting" with (JobState_value WAITING). rewrite !board_count. cbv zeta. unfold unfinished.
  destruct (Z.eqb_spec (Z.of_nat (in_state (w_db w) DEAD)) 0), (Z.eqb_spec (Z.of_nat (in_state (w_db w) CANCELLED)) 0),
    (Nat.eqb_spec (in_state (w_db w) DEAD + in_state (w_db w) CANCELLED) 0); try lia; try done. cbn [negb orb].
  match goal with |- (if (?a =? 0) && (500 <=? ?b) then _ else _) = (if (?c =? 0)%nat && (500 <=? ?d)%nat then _ else _) =>
    destruct (Z.eqb_spec a 0), (Z.leb_spec 500 b), (Nat.eqb_spec c 0), (Nat.leb_spec 500 d); try lia; done end.
Qed.

Lemma in_state_none db s : in_state db s = 0%nat ->
  forall a : AnyJob, In a (jobs_all db) -> c_tenant a = p_tenant p -> al_final_state a <> s.
Proof.
  unfold in_state, count. intros H a Ha Ht E. apply length_zero_iff_nil in H.
  assert (In a (List.filter (fun a : AnyJob => String.eqb (c_tenant a) (p_tenant p) && JobState_eqb (al_final_state a) s) (jobs_all db)))
    as Hin; [|by rewrite H in Hin]. apply filter_In. split; [done|]. rewrite Ht, String.eqb_refl. by apply JobState_eqb_eq.
Qed.

Lemma poll_within {A} (turn : World -> Z -> option A) deadline polls :
  (forall w now, deadline <= now -> turn w now <> None) ->
  forall t, every_200ms t polls -> deadline <= t + 200 * (Z.of_nat (length polls) - 1) -> polls <> [] ->
  exists k w now, polls !! k = Some (w, now) /\ poll turn polls = turn w now /\ turn w now <> None
    /\ (forall k' w' now', (k' < k)%nat -> polls !! k' = Some (w', now') -> turn w' now' = None).
Proof.
  intros Hdl. induction polls as [|[w now] rest IH]; intros t Hs Hd Hne; [done|]. destruct Hs as [Ht Hs].
  cbn [poll]. destruct (turn w now) as [a|] eqn:E.
  - exists 0%nat, w, now. rewrite E. split_and!; [done | done | done|]. intros k' w' now' Hlt. lia.
  - destruct rest as [|x rest].
    { exfalso. apply (Hdl w now); [simpl in Hd; lia | done]. }
    destruct (IH (now + 200) Hs) as (k & w1 & now1 & Hk & Hp & Hen & Hmin); [cbn [length] in *; lia | done|].
    exists (S k), w1, now1. split_and!; [done | done | done|].
    intros [|k'] w' now' Hlt Hk'; [by simplify_eq/=|]. apply (Hmin k'); [lia | done].
Qed.

(** The drain of the benchmark stack ends, and its verdict is right.  Within
    301 polls a fifth of a second apart the script has decided at the first poll
    that finds a failed or cancelled job of the caller's tenant, the queue
    drained, or the minute passed; and when it reports n jobs drained, then at
    that poll every job the engine holds for the tenant has succeeded, n of them,
    no fewer than the 500 of the warm-up. *)
Theorem drain_verdict start polls :
  every_200ms start polls -> (300 < length polls)%nat ->
  exists k w now r, polls !! k = Some (w, now)
    /\ drain is_valid cfg lk jwt_decode auth start polls = Some r
    /\ (forall k' w' now', (k' < k)%nat -> polls !! k' = Some (w', now') ->
          in_state (w_db w') DEAD = 0%nat /\ in_state (w_db w') CANCELLED = 0%nat /\ now' < start + 60000)
    /\ match r with
       | Ok n => n = Z.of_nat (in_state (w_db w) SUCCEEDED) /\ 500 <= n
           /\ (forall a : AnyJob, In a (jobs_all (w_db w)) -> c_tenant a = p_tenant p -> al_final_state a = SUCCEEDED)
       | Raise _ => (0 < in_state (w_db w) DEAD + in_state (w_db w) CANCELLED)%nat \/ start + 60000 <= now
       end.
Proof.
  intros Hs Hl.
  destruct (poll_within (drain_turn is_valid cfg lk jwt_decode auth (start + 60000)) (start + 60000) polls) with (t := start)
    as (k & w & now & Hk & Hp & Hd & Hmin); [| done | lia | by destruct polls; simpl in Hl; [lia|] |].
  { intros w now Hn. rewrite drain_turn_db. cbv zeta. rewrite (proj2 (Z.leb_le _ _) Hn).
    repeat case_match; done. }
  unfold drain. rewrite Hp. destruct (drain_turn _ _ _ _ _ _ w now) as [r|] eqn:E; [|done].
  exists k, w, now, r. split_and!; [done | done | |].
  - intros k' w' now' Hlt Hk'. specialize (Hmin k' w' now' Hlt Hk'). rewrite drain_turn_db in Hmin. cbv zeta in Hmin.
    destruct (Nat.eqb_spec (in_state (w_db w') DEAD + in_state (w_db w') CANCELLED) 0); [|done].
    cbn [negb] in Hmin. destruct (_ && _); [done|]. destruct (Z.leb_spec (start + 60000) now'); [done|]. lia.
  - rewrite drain_turn_db in E. cbv zeta in E.
    destruct (Nat.eqb_spec (in_state (w_db w) DEAD + in_state (w_db w) CANCELLED) 0) as [E0|E0]; cbn [negb] in E;
      [|injection E as <-; left; lia].
    destruct (Nat.eqb_spec (unfinished (w_db w)) 0) as [E1|E1], (Nat.leb_spec 500 (in_state (w_db w) SUCCEEDED)); cbn [andb] in E;
      try (destruct (Z.leb_spec (start + 60000) now); [|done]; injection E as <-; right; lia).
    injection E as <-. split_and!; [done | lia|]. intros a Ha Ht. unfold unfinished in E1.
    destruct (al_final_state a) eqn:Ea; [| | | |done | |]; exfalso; revert Ea;
      apply (in_state_none (w_db w)); (done || lia).
Qed.
End Drain.

(** An idle engine without authentication: the workers never register, and the
    drain gives up after a minute. *)
Definition idle_polls : list (World * Z) := map (fun n => (world0, 200 * Z.of_nat n)) (seq 0 301).

Definition local : Principal := mkPrincipal "default" "local" "none".

Lemma drain_verdict_witness :
  exists k w now r, idle_polls !! k = Some (w, now)
    /\ drain (fun _ => true) default_config no_locks (fun _ => inl "") (Config.mkAuth "none" "" [] []) 0 idle_polls = Some r
    /\ match r with
       | Ok n => 500 <= n
       | Raise _ => (0 < in_state local (w_db w) DEAD + in_state local (w_db w) CANCELLED)%nat \/ 60000 <= now
       end.
Proof.
  destruct (drain_verdict (fun _ => true) default_config no_locks (fun _ => inl "") (Config.mkAuth "none" "" [] [])
              local eq_refl 0 idle_polls) as (k & w & now & r & H1 & H2 & _ & H4).
  - assert (forall n k, every_200ms (200 * Z.of_nat k) (map (fun n => (world0, 200 * Z.of_nat n)) (seq k n))) as H.
    { induction n as [|n IH]; intros i; [done|]. simpl. split; [lia|]. specialize (IH (S i)).
      replace (200 * Z.of_nat i + 200) with (200 * Z.of_nat (S i)) by lia. exact IH. }
    exact (H 301%nat 0%nat).
  - unfold idle_polls. rewrite length_map, length_seq. lia.
  - exists k, w, now, r. split_and!; [exact H1 | exact H2|]. destruct r; [apply H4 | exact H4].
Defined.

Example idle_engine_times_out :
  prepare (fun _ => true) default_config no_locks (fun _ => inl "") (Config.mkAuth "none" "" [] [])
    false 0 idle_polls [] 0 [] = Some (Raise RuntimeError)
  /\ prepare (fun _ => true) default_config no_locks (fun _ => inl "") (Config.mkAuth "none" "" [] [])
    true 0 [] [] 0 idle_polls = Some (Raise RuntimeError).
Proof. vm_compute. split; reflexivity. Qed.
