(* ===== verification/SchemaTools.v ===== *)
(** * Schema and load gates (tools/dump_openapi.py, check_openapi.py, load_regression_gate.py)

    [OpenApi]: the canonical text of the API schema ([json.dumps] with [indent=2]
    and [sort_keys=True]), the script that writes it and the gate that compares the
    committed copy with it.  The schema itself is what FastAPI derives from the
    routes, an argument of the definitions.

    [LoadGate]: the throughput gate, with the division of two binary64 numbers
    written out. *)

From S2P Require Import Prelude PyStr Json JsonLoads JsonProps JobService.
From Stdlib Require Import Ascii String.
Open Scope string_scope.

(** ** The schema *)

Module OpenApi.

(** The order of the keys of a sorted dict; keys are distinct, so the values are
    never compared. *)
Definition by_key {A} (a b : string * A) : Prop := String.le (fst a) (fst b).

#[global] Instance by_key_dec {A} : RelDecision (@by_key A).
Proof. intros a b. unfold by_key. apply _. Defined.
#[global] Instance by_key_trans {A} : Transitive (@by_key A).
Proof. intros a b c. unfold by_key. apply transitivity. Qed.
#[global] Instance by_key_total {A} : Total (@by_key A).
Proof. intros a b. apply (total String.le). Qed.

Definition sort_keys {A} (l : list (string * A)) : list (string * A) := merge_sort by_key l.

Fixpoint spaces (n : nat) : string := match n with O => "" | S n' => " " ++ spaces n' end.

(** The newline and the indentation of a level, [indent=2]. *)
Definition newline (level : nat) : string := String (ascii_of_N 10) (spaces (2 * level)).

(** [json.dumps(j, indent=2, sort_keys=True)] at a nesting level. *)
Fixpoint dumps_indent (level : nat) (j : json) : string :=
  match j with
  | JArr [] => "[]"
  | JArr l => "[" ++ newline (S level)
              ++ String.concat ("," ++ newline (S level)) (map (dumps_indent (S level)) l)
              ++ newline level ++ "]"
  | JObj [] => "{}"
  | JObj l => "{" ++ newline (S level)
              ++ String.concat ("," ++ newline (S level))
                   (map snd (sort_keys (map (fun '(k, v) => (k, dumps_str k ++ ": " ++ dumps_indent (S level) v)) l)))
              ++ newline level ++ "}"
  | _ => dumps j
  end.

Definition _canonical (schema : json) : string := dumps_indent 0 schema ++ String (ascii_of_N 10) "".

(** *** The files *)

(** [Path.read_text]: universal newlines. *)
Fixpoint universal_newlines (s : string) : string :=
  match s with
  | EmptyString => EmptyString
  | String c s' =>
      if (code c =? 13)%N then
        match s' with
        | String d s'' => if (code d =? 10)%N then String d (universal_newlines s'')
                          else String (ascii_of_N 10) (universal_newlines s')
        | EmptyString => String (ascii_of_N 10) EmptyString
        end
      else String c (universal_newlines s')
  end.

(** The committed file ([None] is absent) and what the scripts print. *)
Inductive Report :=
| Schema (text : string)
| Wrote (bytes : nat)
| Missing
| InSync
| Drift (committed generated : string).

(** dump_openapi.py: the exit code, the report and the file afterwards. *)
Definition dump (build_schema : json) (argv : list string) (file : option string) : nat * Report * option string :=
  let schema := _canonical build_schema in
  if existsb (String.eqb "--check") argv then (0%nat, Schema schema, file)
  else (0%nat, Wrote (String.length schema), Some schema).

(** check_openapi.py: the exit code and the report. *)
Definition check (build_schema : json) (file : option string) : nat * Report :=
  let generated := _canonical build_schema in
  match file with
  | None => (1%nat, Missing)
  | Some raw =>
      let committed := universal_newlines raw in
      if String.eqb committed generated then (0%nat, InSync)
      else (1%nat, Drift committed generated)
  end.

Definition sample_schema : json :=
  JObj [("paths", JObj [("/v1/jobs", JObj [("post", JArr [JStr "submit"; JInt 2]); ("get", JArr [])])]);
        ("info", JObj [("title", JStr "Symba")]); ("tags", JObj [])].

Example sample_text : forall n, n = newline 0 ->
  _canonical sample_schema
  = "{" ++ n ++ "  " ++ dumps_str "info" ++ ": {" ++ n ++ "    " ++ dumps_str "title" ++ ": " ++ dumps_str "Symba" ++ n
    ++ "  }," ++ n ++ "  " ++ dumps_str "paths" ++ ": {" ++ n ++ "    " ++ dumps_str "/v1/jobs" ++ ": {" ++ n
    ++ "      " ++ dumps_str "get" ++ ": []," ++ n ++ "      " ++ dumps_str "post" ++ ": [" ++ n
    ++ "        " ++ dumps_str "submit" ++ "," ++ n ++ "        2" ++ n ++ "      ]" ++ n ++ "    }" ++ n
    ++ "  }," ++ n ++ "  " ++ dumps_str "tags" ++ ": {}" ++ n ++ "}" ++ n.
Proof. intros n ->. vm_compute. reflexivity. Qed.

(** *** Equality up to the order of keys

    The least congruence under which the members of an object may be permuted. *)
Inductive same : json -> json -> Prop :=
| same_refl j : same j j
| same_sym a b : same a b -> same b a
| same_trans a b c : same a b -> same b c -> same a c
| same_element l x y m : same x y -> same (JArr (l ++ x :: m)%list) (JArr (l ++ y :: m)%list)
| same_member l k x y m : same x y -> same (JObj (l ++ (k, x) :: m)%list) (JObj (l ++ (k, y) :: m)%list)
| same_order l m : Permutation l m -> same (JObj l) (JObj m).

#[global] Instance same_equivalence : Equivalence same.
Proof. split; [exact same_refl | exact same_sym | exact same_trans]. Qed.

(** The representative with every dict sorted. *)
Fixpoint sorted (j : json) : json :=
  match j with
  | JArr l => JArr (map sorted l)
  | JObj l => JObj (sort_keys (map (fun '(k, v) => (k, sorted v)) l))
  | _ => j
  end.

Lemma sort_keys_perm {A} (l : list (string * A)) : Permutation (sort_keys l) l.
Proof. apply merge_sort_Permutation. Qed.

Lemma sort_keys_sorted {A} (l : list (string * A)) : StronglySorted by_key (sort_keys l).
Proof. apply StronglySorted_merge_sort; apply _. Qed.

(** A dict has one sorted order. *)
Lemma sorted_unique {A} (l m : list (string * A)) :
  StronglySorted by_key l -> StronglySorted by_key m -> Permutation l m -> List.NoDup (map fst l) -> l = m.
Proof.
  intros Hl Hm Hp Hnd. apply (StronglySorted_unique_strong by_key); try done.
  intros [k a] [k' b] Ha Hb Hab Hba. rewrite <- Hp in Hb. assert (k = k') as -> by (by apply (anti_symm String.le)).
  f_equal. apply list_elem_of_In in Ha, Hb. clear -Ha Hb Hnd. induction l as [|[c d] l IH]; [done|].
  inversion_clear Hnd as [|? ? Hni Hnd']. simpl in Ha, Hb, Hni.
  assert (forall v, In (k', v) l -> c <> k').
  { intros v Hv ->. apply Hni. by apply (in_map fst l (k', v)). }
  destruct Ha as [Ea|Ha], Hb as [Eb|Hb]; naive_solver.
Qed.

Lemma sort_keys_unique {A} (l m : list (string * A)) :
  Permutation l m -> List.NoDup (map fst l) -> sort_keys l = sort_keys m.
Proof.
  intros Hp Hnd. apply sorted_unique; try apply sort_keys_sorted; [by rewrite !sort_keys_perm|].
  by rewrite (sort_keys_perm l).
Qed.

(** Sorting commutes with what keeps the keys. *)
Lemma sort_keys_map {A B} (f : string * A -> string * B) (l : list (string * A)) :
  (forall x, fst (f x) = fst x) -> List.NoDup (map fst l) -> sort_keys (map f l) = map f (sort_keys l).
Proof.
  intros Hf Hnd. assert (forall m, map fst (map f m) = map fst m) as Hk by (intros m; rewrite map_map; by apply map_ext).
  apply sorted_unique.
  - apply sort_keys_sorted.
  - pose proof (sort_keys_sorted l) as H. induction H as [|x m _ IH Hx]; simpl; constructor; [done|].
    apply List.Forall_map. eapply List.Forall_impl; [|exact Hx]. unfold by_key. intros y. by rewrite !Hf.
  - rewrite sort_keys_perm. by rewrite (sort_keys_perm l).
  - rewrite (sort_keys_perm (map f l)), Hk. done.
Qed.

(** *** The text is one of the sorted value *)

Definition sorted_member (kv : string * json) : string * json := (fst kv, sorted (snd kv)).

Lemma sorted_obj l : List.NoDup (map fst l) -> sorted (JObj l) = JObj (map sorted_member (sort_keys l)).
Proof.
  intros Hnd. rewrite <- sort_keys_map by done. simpl. do 2 f_equal. apply map_ext. by intros [k v].
Qed.

Lemma sort_keys_nil {A} (l : list (string * A)) : sort_keys l = [] -> l = [].
Proof. intros H. pose proof (sort_keys_perm l) as Hp. rewrite H in Hp. by apply Permutation_nil in Hp. Qed.

Lemma sort_keys_forall {A} (P : string * A -> Prop) l : Forall P l -> Forall P (sort_keys l).
Proof. by rewrite sort_keys_perm. Qed.

Lemma newline_ws n : all_ws (newline n).
Proof.
  intros s. unfold newline. rewrite append_String. cbn [skip_ws]. change (is_ws (ascii_of_N 10)) with true. cbv beta iota.
  induction (2 * n)%nat as [|m IH]; [done|]. exact IH.
Qed.

Lemma indent_arr level l : l <> [] ->
  dumps_indent level (JArr l)
  = "[" ++ newline (S level) ++ String.concat ("," ++ newline (S level)) (map (dumps_indent (S level)) l)
        ++ newline level ++ "]".
Proof. by destruct l. Qed.

Lemma indent_obj level l : l <> [] -> List.NoDup (map fst l) ->
  dumps_indent level (JObj l)
  = "{" ++ newline (S level)
        ++ String.concat ("," ++ newline (S level))
             (map (fun kv => dumps_str (fst (sorted_member kv)) ++ ": " ++ dumps_indent (S level) (snd kv)) (sort_keys l))
        ++ newline level ++ "}".
Proof.
  intros Hne Hnd. transitivity ("{" ++ newline (S level)
    ++ String.concat ("," ++ newline (S level))
         (map snd (sort_keys (map (fun kv => (fst kv, dumps_str (fst kv) ++ ": " ++ dumps_indent (S level) (snd kv))) l)))
    ++ newline level ++ "}").
  - destruct l as [|[k v] l]; [done|]. cbn [dumps_indent map fst snd]. do 7 f_equal. apply map_ext. by intros [].
  - rewrite sort_keys_map by done. by rewrite map_map.
Qed.

Lemma indent_text j : json_ok j -> forall level, json_text (sorted j) (dumps_indent level j).
Proof.
  induction j as [|b|z|fl|s|l IH|l IH] using json_nested_ind; intros Hok level; try by apply text_scalar.
  - apply ok_arr in Hok. destruct (decide (l = [])) as [->|Hne]; [apply (text_arr_nil ""), no_ws|].
    rewrite indent_arr by done. apply text_arr; [apply newline_ws|].
    apply concat_elements; try apply newline_ws; [done|].
    rewrite List.Forall_forall in *. auto.
  - apply ok_obj in Hok as [Hnd Hok]. destruct (decide (l = [])) as [->|Hne]; [apply (text_obj_nil ""), no_ws|].
    rewrite indent_obj, sorted_obj by done. apply text_obj; [apply newline_ws|].
    apply (concat_members sorted_member (fun kv => dumps_indent (S level) (snd kv))); try apply newline_ws.
    + intros H%sort_keys_nil. done.
    + apply sort_keys_forall. simpl. rewrite List.Forall_forall in *. auto.
Qed.

Lemma sorted_ok j : json_ok j -> json_ok (sorted j).
Proof.
  induction j as [|b|z|fl|s|l IH|l IH] using json_nested_ind; intros Hok; try done.
  - apply ok_arr in Hok. apply ok_arr, List.Forall_map. rewrite List.Forall_forall in *. auto.
  - apply ok_obj in Hok as [Hnd Hok]. rewrite sorted_obj by done. apply ok_obj. split.
    + rewrite map_map. change (List.NoDup (map fst (sort_keys l))). by rewrite sort_keys_perm.
    + apply List.Forall_map, sort_keys_forall. simpl. rewrite List.Forall_forall in *. auto.
Qed.

(** *** Sorting picks one representative *)

Lemma same_elements l m : Forall2 same l m -> forall p, same (JArr (p ++ l)%list) (JArr (p ++ m)%list).
Proof.
  induction 1 as [|x y l m Hxy _ IH]; intros p; [done|]. etrans; [by apply same_element, Hxy|].
  specialize (IH (p ++ [y])%list). by rewrite <- !app_assoc in IH.
Qed.

Lemma same_members l m : Forall2 (fun a b => fst a = fst b /\ same (snd a) (snd b)) l m ->
  forall p, same (JObj (p ++ l)%list) (JObj (p ++ m)%list).
Proof.
  induction 1 as [|[k x] [k' y] l m [Hk Hxy] _ IH]; intros p; [done|]. simpl in Hk, Hxy. subst k'.
  etrans; [by apply same_member, Hxy|]. specialize (IH (p ++ [(k, y)])%list). by rewrite <- !app_assoc in IH.
Qed.

Lemma same_sorted j : same j (sorted j).
Proof.
  induction j as [|b|z|fl|s|l IH|l IH] using json_nested_ind; try done.
  - apply (same_elements l (map sorted l)) with (p := []). induction IH; simpl; by constructor.
  - etrans; [|simpl; symmetry; apply same_order, sort_keys_perm].
    apply (same_members l) with (p := []). induction IH as [|[k v] l Hv _ IHl]; simpl; by constructor.
Qed.

Lemma same_ok a b : same a b -> json_ok a <-> json_ok b.
Proof.
  induction 1 as [j|a b _ IH|a b c _ IH1 _ IH2|l x y m _ IH|l k x y m _ IH|l m Hp]; try tauto.
  - rewrite !ok_arr, !List.Forall_app, !List.Forall_cons_iff. tauto.
  - rewrite !ok_obj, !List.Forall_app, !List.Forall_cons_iff, !map_app. simpl. tauto.
  - rewrite !ok_obj. by rewrite Hp.
Qed.

Lemma sorted_same a b : same a b -> json_ok a -> sorted a = sorted b.
Proof.
  induction 1 as [j|a b H IH|a b c H1 IH1 H2 IH2|l x y m H IH|l k x y m H IH|l m Hp]; intros Hok; try done.
  - symmetry. apply IH. by apply (same_ok a b).
  - rewrite IH1 by done. apply IH2. by apply (same_ok a b).
  - apply ok_arr in Hok. apply List.Forall_app in Hok as [_ [Hx _]%List.Forall_cons_iff].
    simpl. rewrite !map_app. simpl. by rewrite IH.
  - apply ok_obj in Hok as [_ Hok]. apply List.Forall_app in Hok as [_ [Hx _]%List.Forall_cons_iff].
    simpl. rewrite !map_app. simpl. by rewrite IH.
  - apply ok_obj in Hok as [Hnd _]. simpl. f_equal. apply sort_keys_unique; [by rewrite Hp|].
    rewrite map_map. erewrite map_ext; [exact Hnd|]. by intros [k v].
Qed.

Lemma loads_canonical j : json_ok j -> loads (_canonical j) = Some (sorted j).
Proof.
  intros Hok. apply (loads_text (sorted j) (dumps_indent 0 j) ""); [by apply sorted_ok | by apply indent_text | done |].
  apply (newline_ws 0).
Qed.

Lemma indent_sorted j : json_ok j -> forall level, dumps_indent level (sorted j) = dumps_indent level j.
Proof.
  induction j as [|b|z|fl|s|l IH|l IH] using json_nested_ind; intros Hok level; try done.
  - apply ok_arr in Hok. destruct (decide (l = [])) as [->|Hne]; [done|].
    cbn [sorted]. rewrite !indent_arr by (by destruct l). rewrite map_map. do 4 f_equal.
    apply map_ext_in. intros x Hx. rewrite List.Forall_forall in *. auto.
  - apply ok_obj in Hok as [Hnd Hok]. destruct (decide (l = [])) as [->|Hne]; [done|].
    assert (sort_keys l <> []) as Hs by (by intros ?%sort_keys_nil).
    assert (List.NoDup (map fst (sort_keys l))) as Hn by (by rewrite sort_keys_perm).
    rewrite sorted_obj, (indent_obj level l) by done.
    rewrite indent_obj; [|by destruct (sort_keys l)|by rewrite map_map].
    rewrite sort_keys_map by done. rewrite (sort_keys_unique (sort_keys l) l) by (done || apply sort_keys_perm).
    rewrite map_map. do 4 f_equal. apply map_ext_in. intros x Hx. simpl.
    assert (In x l) as Hxl by (by rewrite <- sort_keys_perm). do 2 f_equal. rewrite List.Forall_forall in *. auto.
Qed.

(** Two values have one canonical text exactly when they differ in the order of keys only. *)
Lemma canonical_same a b : json_ok a -> json_ok b -> _canonical a = _canonical b <-> same a b.
Proof.
  intros Ha Hb. split.
  - intros E. apply (f_equal loads) in E. rewrite !loads_canonical in E by done. injection E as E.
    rewrite (same_sorted a), (same_sorted b). by rewrite E.
  - intros H. unfold _canonical. rewrite <- (indent_sorted a), <- (indent_sorted b) by done.
    by rewrite (sorted_same a b).
Qed.

(** A schema of a live process: a dict has distinct keys, floats print as themselves. *)
Definition live : Type := { j : json | json_ok j }.

#[global] Instance canonical_proper : Proper ((fun a b : live => same (`a) (`b)) ==> eq) (fun a => _canonical (`a)).
Proof. intros [a Ha] [b Hb] H. by apply canonical_same. Qed.

(** *** The canonical text has no carriage return *)

Fixpoint no_cr (s : string) : bool :=
  match s with EmptyString => true | String c s' => negb (code c =? 13)%N && no_cr s' end.

Lemma no_cr_app a b : no_cr (a ++ b) = no_cr a && no_cr b.
Proof. induction a as [|c a IH]; [done|]. rewrite append_String. simpl. by rewrite IH, andb_assoc. Qed.

Lemma universal_newlines_id s : no_cr s = true -> universal_newlines s = s.
Proof. induction s as [|c s IH]; [done|]. simpl. destruct (code c =? 13)%N; [done|]. simpl. intros H. by rewrite IH. Qed.

Lemma no_cr_digit c : is_digit c = true -> negb (code c =? 13)%N = true.
Proof. by destruct c as [[] [] [] [] [] [] [] []]. Qed.

Lemma no_cr_span s d r : span_digits s = (d, r) -> no_cr r = true -> no_cr s = true.
Proof.
  revert d r. induction s as [|c s IH]; intros d r; simpl; [done|].
  destruct (is_digit c) eqn:Ec; [|by intros [= <- <-]]. destruct (span_digits s) as [d' r']. intros [= <- <-] Hr.
  rewrite no_cr_digit by done. by apply (IH d' r').
Qed.

Lemma no_cr_int s d r : scan_int s = Some (d, r) -> no_cr r = true -> no_cr s = true.
Proof.
  intros H Hr. assert (s = String "0" r \/ span_digits s = (d, r)) as [->|E]; [|done|by apply (no_cr_span s d r)].
  revert H. unfold scan_int.
  destruct (span_digits s) as [d' r'] eqn:E. destruct s as [|[[] [] [] [] [] [] [] []] s]; destruct d'; naive_solver.
Qed.

Lemma no_cr_fraction s d r : scan_fraction s = Some (d, r) -> no_cr r = true -> no_cr s = true.
Proof.
  unfold scan_fraction. destruct s as [|[[] [] [] [] [] [] [] []] s]; try done.
  destruct (span_digits s) as [d' r'] eqn:E. destruct d'; [done|]. intros [= <- <-] Hr. by apply (no_cr_span _ _ _ E).
Qed.

Lemma no_cr_sign s z r : scan_sign s = (z, r) -> no_cr r = true -> no_cr s = true.
Proof. unfold scan_sign. destruct s as [|[[] [] [] [] [] [] [] []] s]; intros [= <- <-]; done. Qed.

Lemma no_cr_exponent s z r : scan_exponent s = Some (z, r) -> no_cr r = true -> no_cr s = true.
Proof.
  unfold scan_exponent. destruct s as [|c s]; [done|].
  destruct ((code c =? 101) || (code c =? 69))%N eqn:Ec; [|done].
  destruct (scan_sign s) as [sg s2] eqn:E2. destruct (span_digits s2) as [d' r'] eqn:E. destruct d' as [|c' d']; [done|].
  destruct (int_digits 0 false (String c' d')); [|done]. intros [= <- <-] Hr. simpl.
  rewrite (no_cr_sign _ _ _ E2) by (by apply (no_cr_span _ _ _ E)). by destruct c as [[] [] [] [] [] [] [] []].
Qed.

Lemma no_cr_unsigned neg s j r : scan_unsigned neg s = Some (j, r) -> no_cr r = true -> no_cr s = true.
Proof.
  unfold scan_unsigned. destruct (scan_int s) as [[d r0]|] eqn:E0; [|done]. intros H Hr.
  apply (no_cr_int _ _ _ E0).
  destruct (scan_fraction r0) as [[fr r1]|] eqn:E1; [apply (no_cr_fraction _ _ _ E1)|];
    destruct (scan_exponent _) as [[ex r2]|] eqn:E2 in H; try apply (no_cr_exponent _ _ _ E2); simplify_eq; done.
Qed.

Lemma no_cr_number s j r : scan_number s = Some (j, r) -> no_cr r = true -> no_cr s = true.
Proof.
  unfold scan_number. intros H Hr.
  destruct s as [|c s]; [by apply no_cr_unsigned in H|].
  destruct c as [[] [] [] [] [] [] [] []]; by apply no_cr_unsigned in H.
Qed.

Lemma no_cr_escape s : no_cr (escape s) = true.
Proof.
  induction s as [|c s IH]; [done|]. cbn [escape]. rewrite no_cr_app, IH, andb_true_r.
  by destruct c as [[] [] [] [] [] [] [] []].
Qed.

Lemma no_cr_dumps_str s : no_cr (dumps_str s) = true.
Proof. unfold dumps_str. by rewrite !no_cr_app, no_cr_escape. Qed.

Lemma no_cr_scalar j : scalar j = true -> json_ok j -> no_cr (dumps j) = true.
Proof.
  destruct j as [|[]|z|fl|s|l|l]; intros Hs Hok; try done.
  - apply (no_cr_number _ (JInt z) ""); [|done]. pose proof (scan_number_int z "" eq_refl) as H. by rewrite append_empty_r in H.
  - cbn [dumps]. unfold dumps_float. simpl in Hok. unfold float_ok in Hok. destruct (fl_value fl); try done.
    by apply (no_cr_number _ (JFloat fl) "" (proj2 Hok)).
  - apply no_cr_dumps_str.
Qed.

Lemma no_cr_concat {A} sep (f : A -> string) l :
  no_cr sep = true -> Forall (fun x => no_cr (f x) = true) l -> no_cr (String.concat sep (map f l)) = true.
Proof.
  intros Hs H. induction H as [|x l Hx _ IH]; [done|]. destruct l as [|y l]; [done|].
  cbn [map]. rewrite concat_cons, !no_cr_app, Hx, Hs. done.
Qed.

Lemma no_cr_newline n : no_cr (newline n) = true.
Proof. unfold newline. change (no_cr (spaces (2 * n)) = true). induction (2 * n)%nat as [|m IH]; [done | exact IH]. Qed.

Lemma no_cr_indent j : json_ok j -> forall level, no_cr (dumps_indent level j) = true.
Proof.
  induction j as [|b|z|fl|s|l IH|l IH] using json_nested_ind; intros Hok level; try by apply no_cr_scalar.
  - apply ok_arr in Hok. destruct (decide (l = [])) as [->|Hne]; [done|].
    rewrite indent_arr, !no_cr_app, !no_cr_newline, andb_true_r by done. apply no_cr_concat; [apply (no_cr_newline (S level))|].
    rewrite List.Forall_forall in *. auto.
  - apply ok_obj in Hok as [Hnd Hok]. destruct (decide (l = [])) as [->|Hne]; [done|].
    rewrite indent_obj, !no_cr_app, !no_cr_newline, andb_true_r by done. apply no_cr_concat; [apply (no_cr_newline (S level))|].
    apply sort_keys_forall. rewrite List.Forall_forall in *. intros x Hx.
    rewrite !no_cr_app, no_cr_dumps_str. simpl. auto.
Qed.

Lemma read_canonical j : json_ok j -> universal_newlines (_canonical j) = _canonical j.
Proof. intros Hok. apply universal_newlines_id. unfold _canonical. by rewrite no_cr_app, no_cr_indent. Qed.

(** *** The gate *)

Lemma check_passes b raw : fst (check b (Some raw)) = 0%nat <-> universal_newlines raw = _canonical b.
Proof. unfold check. destruct (String.eqb_spec (universal_newlines raw) (_canonical b)); split; done. Qed.

(** C40. The OpenAPI drift gate is exact: the file written from one revision of the
    API passes the gate of another exactly when the two schemas are equal up to the
    order of their keys; and whatever file passes reads, as JSON, as the schema of the
    running revision up to that order, so a client generated from it matches the API;
    without a file the gate fails. *)
Theorem openapi_gate_exact argv a b file :
  json_ok a -> json_ok b -> ~ In "--check" argv ->
  (fst (check b (snd (dump a argv file))) = 0%nat <-> same a b)
  /\ (forall raw, fst (check b (Some raw)) = 0%nat ->
        exists d, loads (universal_newlines raw) = Some d /\ same d b)
  /\ check b None = (1%nat, Missing).
Proof.
  intros Ha Hb Hargv. split_and!; [| |done].
  - unfold dump. replace (existsb (String.eqb "--check") argv) with false.
    + cbn [snd]. rewrite check_passes, read_canonical by done. by apply canonical_same.
    + symmetry. apply not_true_is_false. rewrite existsb_exists. intros (x & Hx & <-%String.eqb_eq). done.
  - intros raw E%check_passes. exists (sorted b). rewrite E, loads_canonical by done. split; [done | symmetry; apply same_sorted].
Qed.

Definition reordered_schema : json :=
  JObj [("tags", JObj []); ("info", JObj [("title", JStr "Symba")]);
        ("paths", JObj [("/v1/jobs", JObj [("get", JArr []); ("post", JArr [JStr "submit"; JInt 2])])])].

Lemma openapi_gate_exact_witness :
  fst (check reordered_schema (snd (dump sample_schema ["dump_openapi.py"] None))) = 0%nat
  /\ same sample_schema reordered_schema.
Proof.
  assert (json_ok sample_schema) as Ha by (repeat first [done | constructor | (intros H; simpl in H; intuition discriminate)]).
  assert (json_ok reordered_schema) as Hb by (repeat first [done | constructor | (intros H; simpl in H; intuition discriminate)]).
  assert (fst (check reordered_schema (snd (dump sample_schema ["dump_openapi.py"] None))) = 0%nat) as E
    by (vm_compute; reflexivity).
  split; [exact E|].
  refine (proj1 (proj1 (openapi_gate_exact ["dump_openapi.py"] sample_schema reordered_schema None Ha Hb _)) E).
  simpl. intuition discriminate.
Defined.

(** The comparison is of lines, not of bytes: a copy with CRLF line ends passes. *)
Fixpoint crlf (s : string) : string :=
  match s with
  | EmptyString => EmptyString
  | String c s' => if (code c =? 10)%N then String (ascii_of_N 13) (String c (crlf s')) else String c (crlf s')
  end.

Example crlf_copy_passes :
  crlf (_canonical sample_schema) <> _canonical sample_schema
  /\ check sample_schema (Some (crlf (_canonical sample_schema))) = (0%nat, InSync).
Proof. split; [by vm_compute | vm_compute; reflexivity]. Qed.

Example a_changed_route_fails :
  fst (check (JObj [("paths", JObj [])]) (snd (dump sample_schema [] None))) = 1%nat.
Proof. vm_compute. reflexivity. Qed.
End OpenApi.

(** ** The throughput gate *)

From Stdlib Require Import QArith.
Open Scope Z_scope.

Module LoadGate.

(** *** binary64

    A finite number in units of 2^-1074, the least positive one, of which every
    finite binary64 number is a multiple; the sign of a zero is left out. *)
Inductive double := Units (k : Z) | Infinite (negative : bool) | NotANumber.

(** The quotient rounded to the nearest integer, ties to even. *)
Definition rne (a b : Z) : Z :=
  let q := a / b in
  let r := a mod b in
  if 2 * r <? b then q else if b <? 2 * r then q + 1 else if Z.even q then q else q + 1.

(** The binary exponent of [n / d], both positive. *)
Definition log2_ratio (n d : Z) : Z :=
  let k := Z.log2 n - Z.log2 d in
  if d * 2 ^ Z.max 0 k <=? n * 2 ^ Z.max 0 (- k) then k else k - 1.

(** 53 bits of precision, the exponent of the last one at least -1074. *)
Definition round_pos (n d : Z) : Z :=
  let e := Z.max (log2_ratio n d - 52) (-1074) in
  rne (n * 2 ^ Z.max 0 (- e)) (d * 2 ^ Z.max 0 e) * 2 ^ (e + 1074).

(** [n / d] as a double, [d] positive. *)
Definition round64 (n d : Z) : double :=
  let k := if n =? 0 then 0 else Z.sgn n * round_pos (Z.abs n) d in
  if 2 ^ 2098 <=? Z.abs k then Infinite (k <? 0) else Units k.

(** [x / y], [y] not zero. *)
Definition div (x y : double) : double :=
  match x, y with
  | NotANumber, _ | _, NotANumber => NotANumber
  | Infinite _, Infinite _ => NotANumber
  | Infinite s, Units k => Infinite (xorb s (k <? 0))
  | Units _, Infinite _ => Units 0
  | Units a, Units b => round64 (Z.sgn b * a) (Z.abs b)
  end.

(** [x < y] *)
Definition ltb (x y : double) : bool :=
  match x, y with
  | NotANumber, _ | _, NotANumber => false
  | Units a, Units b => a <? b
  | Infinite s, Infinite t => s && negb t
  | Infinite s, Units _ => s
  | Units _, Infinite t => negb t
  end.

Definition is_zero (x : double) : bool := match x with Units k => k =? 0 | _ => false end.

(** *** [float(x)] *)

Definition of_float (v : float_value) : double :=
  match v with
  | Finite q => round64 (Qnum q) (Zpos (Qden q))
  | PosInf => Infinite false
  | NegInf => Infinite true
  | NaN => NotANumber
  end.

(** Underscores are allowed between two digits only. *)
Fixpoint drop_underscores (prev : bool) (s : string) : option string :=
  match s with
  | EmptyString => Some EmptyString
  | String c s' =>
      if (code c =? 95)%N then
        match s' with
        | String d _ => if prev && is_digit d then drop_underscores false s' else None
        | EmptyString => None
        end
      else String c <$> drop_underscores (is_digit c) s'
  end.

(** Digits with an optional point and exponent. *)
Definition decimal (neg : bool) (s : string) : option double :=
  let '(d, r) := span_digits s in
  let '(f, r1) := match r with String "." r' => span_digits r' | _ => ("", r) end in
  let '(e, r2) := match scan_exponent r1 with Some (e, r2) => (e, r2) | None => (0, r1) end in
  if String.eqb (d ++ f) "" || negb (String.eqb r2 "") then None
  else Some (of_float (fl_value (float_of_decimal neg (digits_value (d ++ f)) (e - Z.of_nat (String.length f))))).

(** [float(s)]; [None] is [ValueError]. *)
Definition float_str (s : string) : option double :=
  match drop_underscores false (strip s) with
  | None => None
  | Some t =>
      let '(neg, u) := match t with String "-" u => (true, u) | String "+" u => (false, u) | u => (false, u) end in
      if mem (lower u) ["inf"; "infinity"] then Some (Infinite neg)
      else if String.eqb (lower u) "nan" then Some NotANumber
      else decimal neg u
  end.

(** The errors the script does not catch. *)
Inductive uncaught := JSONDecodeError | OverflowError | AttributeError.

(** *** The script *)

(** [summary[k]]; [None] is [KeyError] or [TypeError]. *)
Definition item (k : string) (j : json) : option json := match j with JObj d => dict_get k d | _ => None end.

Definition _rate (summary : json) : uncaught + option double :=
  match ((item "metrics" summary ≫= item "http_reqs") ≫= item "values") ≫= item "rate" with
  | None => inr None
  | Some (JBool b) => inr (Some (round64 (if b then 1 else 0) 1))
  | Some (JInt z) => match round64 z 1 with Infinite _ => inl OverflowError | x => inr (Some x) end
  | Some (JFloat f) => inr (Some (of_float (fl_value f)))
  | Some (JStr s) => inr (float_str s)
  | Some _ => inr None
  end.

(** What [git show] printed, [None] when it failed. *)
Definition _committed_baseline (git_show : option string) : option json :=
  match git_show with None => None | Some raw => loads raw end.

Definition MIN_RATIO : double := round64 80 100.

Inductive Verdict :=
| NoSummary
| NothingToGate
| Recorded (rate : double)
| Regressed (prior_rate fresh_rate ratio : double)
| Passed (prior_rate fresh_rate ratio : double)
| Raised (e : uncaught).

Definition exit_code (v : Verdict) : nat := match v with Recorded _ | Passed _ _ _ => 0 | _ => 1 end.

(** [d.get("placeholder")] is true. *)
Definition placeholder (d : dict) : bool :=
  match dict_get "placeholder" d with Some v => JobService.json_truthy v | None => false end.

(** With the fresh rate at hand. *)
Definition compare (fresh_rate : double) (git_show : option string) : Verdict :=
  match _committed_baseline git_show with
  | None | Some JNull => Recorded fresh_rate
  | Some (JObj d) =>
      if placeholder d then Recorded fresh_rate
      else match _rate (JObj d) with
           | inl e => Raised e
           | inr None => Recorded fresh_rate
           | inr (Some prior_rate) =>
               if is_zero prior_rate then Recorded fresh_rate
               else let ratio := div fresh_rate prior_rate in
                    if ltb ratio MIN_RATIO then Regressed prior_rate fresh_rate ratio
                    else Passed prior_rate fresh_rate ratio
           end
  | Some _ => Raised AttributeError
  end.

Definition main (fresh_file git_show : option string) : Verdict :=
  match fresh_file with
  | None => NoSummary
  | Some txt =>
      match loads txt with
      | None => Raised JSONDecodeError
      | Some fresh =>
          match _rate fresh with
          | inl e => Raised e
          | inr None => NothingToGate
          | inr (Some fresh_rate) =>
              match fresh with
              | JObj d => if placeholder d then NothingToGate else compare fresh_rate git_show
              | _ => Raised AttributeError
              end
          end
      end
  end.

(** A k6 summary with a rate. *)
Definition summary (rate : string) : string :=
  "{" ++ dumps_str "metrics" ++ ": {" ++ dumps_str "http_reqs" ++ ": {" ++ dumps_str "values" ++ ": {"
      ++ dumps_str "rate" ++ ": " ++ rate ++ "}}}}".

Example min_ratio : MIN_RATIO = Units (7205759403792794 * 2 ^ 1021).
Proof. vm_compute. reflexivity. Qed.

Example verdicts :
  map (fun '(f, p) => exit_code (main (Some (summary f)) p))
    [("80", Some (summary "100")); ("79.99", Some (summary "100.0")); ("1e3", None); ("NaN", Some (summary "5"));
     ("0", Some (summary "0")); ("true", Some "[]"); ("1", Some "nope"); ("null", None); ("0", Some (summary "1e308"))]
  = [0; 1; 0; 0; 0; 1; 0; 1; 1]%nat.
Proof. vm_compute. reflexivity. Qed.

(** *** Rounding *)

Section Rne.
Context (a b : Z) (Hb : 0 < b).

Lemma rne_cases : 2 * Z.abs (rne a b * b - a) <= b.
Proof.
  unfold rne. pose proof (Z.div_mod a b ltac:(lia)). pose proof (Z.mod_pos_bound a b Hb).
  destruct (Z.ltb_spec (2 * (a mod b)) b); [nia|]. destruct (Z.ltb_spec b (2 * (a mod b))); [nia|].
  destruct (Z.even (a / b)); nia.
Qed.

Lemma rne_le c : a <= c * b -> rne a b <= c.
Proof. intros H. pose proof rne_cases. nia. Qed.

Lemma rne_ge c : c * b <= a -> c <= rne a b.
Proof. intros H. pose proof rne_cases. nia. Qed.

(** Below an even number: strictly nearer to what lies under it. *)
Lemma rne_below c : Z.even c = true -> rne a b < c <-> 2 * a < (2 * c - 1) * b.
Proof.
  intros He. pose proof rne_cases as Hc. split; [|intros; nia].
  intros H. destruct (Z.lt_trichotomy (2 * a) ((2 * c - 1) * b)) as [|[Heq|]]; [done| |nia].
  exfalso. revert H. unfold rne.
  assert (a / b = c - 1 /\ 2 * (a mod b) = b) as [Eq Er].
  { pose proof (Z.div_mod a b ltac:(lia)). pose proof (Z.mod_pos_bound a b Hb).
    assert (2 * (a mod b) = (2 * c - 2 * (a / b) - 1) * b) by nia.
    assert (0 <= 2 * c - 2 * (a / b) - 1 < 2) by nia.
    assert (a / b = c - 1) as Eq by lia. split; [done|]. rewrite Eq in *. lia. }
  rewrite Er, Z.ltb_irrefl, Eq, Z.even_sub, He. simpl. lia.
Qed.
End Rne.

(** The exponent: 2^L <= n / d. *)
Lemma log2_ratio_le n d : 0 < n -> 0 < d ->
  let L := log2_ratio n d in d * 2 ^ Z.max 0 L <= n * 2 ^ Z.max 0 (- L).
Proof.
  intros Hn Hd. cbv zeta. unfold log2_ratio.
  destruct (Z.leb_spec (d * 2 ^ Z.max 0 (Z.log2 n - Z.log2 d)) (n * 2 ^ Z.max 0 (- (Z.log2 n - Z.log2 d)))) as [H|_]; [done|].
  pose proof (Z.log2_spec n Hn) as [Hn1 _]. pose proof (Z.log2_spec d Hd) as [_ Hd2].
  pose proof (Z.log2_nonneg n). pose proof (Z.log2_nonneg d).
  set (x := Z.log2 n) in *. set (y := Z.log2 d) in *. rewrite Z.pow_succ_r in Hd2 by lia.
  destruct (Z.le_gt_cases (x - y - 1) 0).
  - rewrite (Z.max_l 0) by lia. rewrite (Z.max_r 0) by lia. replace (2 ^ y) with (2 ^ y) in Hd2 by done.
    transitivity (2 ^ x * 2 ^ (- (x - y - 1))); [|nia].
    rewrite <- Z.pow_add_r by lia. replace (x + - (x - y - 1)) with (Z.succ y) by lia. rewrite Z.pow_succ_r by lia. lia.
  - rewrite (Z.max_r 0) by lia. rewrite (Z.max_l 0) by lia. rewrite Z.pow_0_r, Z.mul_1_r.
    transitivity (2 ^ Z.succ y * 2 ^ (x - y - 1)); [rewrite Z.pow_succ_r by lia; nia|].
    rewrite <- Z.pow_add_r by lia. replace (Z.succ y + (x - y - 1)) with x by lia. done.
Qed.

Section Round.
Context (n d : Z) (Hn : 0 < n) (Hd : 0 < d).

Let e := Z.max (log2_ratio n d - 52) (-1074).

Lemma round_small : 2 * n < d -> round_pos n d <= 2 ^ 1073.
Proof.
  intros H. unfold round_pos. fold e. pose proof (log2_ratio_le n d Hn Hd) as HL. cbv zeta in HL.
  assert (log2_ratio n d < 0) as Hneg.
  { destruct (Z.lt_ge_cases (log2_ratio n d) 0); [done|]. rewrite (Z.max_l 0 (- _)) in HL by lia.
    pose proof (Z.pow_pos_nonneg 2 (Z.max 0 (log2_ratio n d))). nia. }
  assert (-1074 <= e < 0) as He by lia. rewrite (Z.max_l 0 e), (Z.max_r 0 (- e)) by lia. rewrite Z.pow_0_r, Z.mul_1_r.
  transitivity (2 ^ (- e - 1) * 2 ^ (e + 1074)).
  - apply Z.mul_le_mono_nonneg_r; [lia|]. apply rne_le; [done|].
    replace (- e) with (Z.succ (- e - 1)) at 1 by lia. rewrite Z.pow_succ_r by lia.
    pose proof (Z.pow_pos_nonneg 2 (- e - 1)). nia.
  - rewrite <- Z.pow_add_r by lia. by replace (- e - 1 + (e + 1074)) with 1073 by lia.
Qed.

Lemma round_large : d <= n -> 2 ^ 1074 <= round_pos n d.
Proof.
  intros H. unfold round_pos. fold e. pose proof (log2_ratio_le n d Hn Hd) as HL. cbv zeta in HL.
  destruct (Z.le_gt_cases e 0).
  - rewrite (Z.max_l 0 e), (Z.max_r 0 (- e)) by lia. rewrite Z.pow_0_r, Z.mul_1_r.
    transitivity (2 ^ (- e) * 2 ^ (e + 1074)).
    + rewrite <- Z.pow_add_r by lia. by replace (- e + (e + 1074)) with 1074 by lia.
    + apply Z.mul_le_mono_nonneg_r; [lia|]. apply rne_ge; [done|]. pose proof (Z.pow_pos_nonneg 2 (- e)). nia.
  - rewrite (Z.max_r 0 e), (Z.max_l 0 (- e)) by lia. rewrite Z.pow_0_r, Z.mul_1_r.
    rewrite (Z.max_r 0 (log2_ratio n d)), (Z.max_l 0 (- _)), Z.pow_0_r, Z.mul_1_r in HL by lia.
    transitivity (1 * 2 ^ (e + 1074)); [rewrite Z.mul_1_l; apply Z.pow_le_mono_r; lia|].
    apply Z.mul_le_mono_nonneg_r; [lia|]. apply rne_ge; [pose proof (Z.pow_pos_nonneg 2 e); nia|].
    assert (2 ^ e <= 2 ^ log2_ratio n d) by (apply Z.pow_le_mono_r; lia). nia.
Qed.

Lemma log2_half : n < d -> d <= 2 * n -> log2_ratio n d = -1.
Proof.
  intros H1 H2. unfold log2_ratio.
  assert (Z.log2 n <= Z.log2 d <= Z.log2 n + 1) as Hl.
  { split; [apply Z.log2_le_mono; lia|]. change (Z.log2 n + 1) with (Z.succ (Z.log2 n)).
    rewrite <- Z.log2_double by done. by apply Z.log2_le_mono. }
  assert (Z.log2 n - Z.log2 d = 0 \/ Z.log2 n - Z.log2 d = -1) as [-> | ->] by lia; cbv beta zeta.
  - change (2 ^ Z.max 0 0) with 1. change (2 ^ Z.max 0 (- 0)) with 1. destruct (Z.leb_spec (d * 1) (n * 1)); lia.
  - change (2 ^ Z.max 0 (-1)) with 1. change (2 ^ Z.max 0 (- -1)) with 2. destruct (Z.leb_spec (d * 1) (n * 2)); lia.
Qed.

Lemma round_half : n < d -> d <= 2 * n -> round_pos n d = rne (n * 2 ^ 53) d * 2 ^ 1021.
Proof.
  intros H1 H2. unfold round_pos. rewrite log2_half by done.
  change (Z.max (-1 - 52) (-1074)) with (-53). by rewrite Z.mul_1_r.
Qed.

(** Where the rounded quotient falls below the nearest double to 0.8, exactly. *)
Lemma below_floor : round_pos n d < 7205759403792794 * 2 ^ 1021 <-> n * 2 ^ 54 < 14411518807585587 * d.
Proof.
  destruct (Z.lt_ge_cases (2 * n) d) as [Hs|Hs]; [|destruct (Z.le_gt_cases d n) as [Hl|Hl]].
  - pose proof (round_small Hs) as H. split; intros _; [clear -Hs Hd; lia|].
    eapply Z.le_lt_trans; [exact H|]. by vm_compute.
  - pose proof (round_large Hl) as H. split; [|clear -Hl Hn; lia]. intros Hlt. exfalso.
    eapply Z.lt_irrefl, Z.lt_trans; [eapply Z.le_lt_trans; [exact H | exact Hlt]|]. by vm_compute.
  - rewrite round_half by done. rewrite <- Z.mul_lt_mono_pos_r by done.
    rewrite rne_below by done. lia.
Qed.
End Round.

Lemma ratio_below a b : 0 < a -> 0 < b ->
  ltb (div (Units a) (Units b)) MIN_RATIO = true <-> a * 2 ^ 54 < 14411518807585587 * b.
Proof.
  intros Ha Hb. rewrite <- below_floor by done. cbn [div]. rewrite min_ratio.
  replace (Z.sgn b * a) with a by (destruct b; simpl; lia). rewrite (Z.abs_eq b) by lia. unfold round64.
  destruct (Z.eqb_spec a 0); [lia|]. rewrite (Z.sgn_pos a), (Z.abs_eq a), Z.mul_1_l by lia.
  assert (0 <= round_pos a b) as H0.
  { unfold round_pos. apply Z.mul_nonneg_nonneg; [|apply Z.pow_nonneg; lia]. apply rne_ge; [|lia].
    apply Z.mul_pos_pos; [done|]. apply Z.pow_pos_nonneg; lia. }
  rewrite (Z.abs_eq (round_pos a b)) by done.
  destruct (Z.leb_spec (2 ^ 2098) (round_pos a b)) as [H|H]; cbn [ltb].
  - destruct (Z.ltb_spec (round_pos a b) 0); [lia|]. split; [done|]. intros Hlt. exfalso.
    eapply Z.lt_irrefl, Z.lt_trans; [eapply Z.le_lt_trans; [exact H | exact Hlt]|]. by vm_compute.
  - apply Z.ltb_lt.
Qed.

(** *** The gate *)

(** A run with a rate that is not a placeholder. *)
Definition measured (txt : string) (rate : double) : Prop :=
  exists d, loads txt = Some (JObj d) /\ placeholder d = false /\ _rate (JObj d) = inr (Some rate).

(** The committed text gives nothing to compare with. *)
Definition no_baseline (git_show : option string) : Prop :=
  match git_show ≫= loads with
  | None | Some JNull => True
  | Some (JObj d) =>
      placeholder d = true \/ _rate (JObj d) = inr None \/ exists r, _rate (JObj d) = inr (Some r) /\ is_zero r = true
  | _ => False
  end.

(** The load gate is exact: a run whose rate is [a] against a committed baseline of
    rate [b] (positive doubles, in units of the least one) fails exactly when
    [a / b < 14411518807585587 / 2^54], the midpoint below the double nearest to 0.8,
    so never at four fifths of the baseline or more and always below 0.8 - 2^-56 of it;
    with nothing to compare with, the run is recorded and passes. *)
Theorem load_gate_exact fresh rate :
  measured fresh rate ->
  (forall prior a b, rate = Units a -> 0 < a -> measured prior (Units b) -> 0 < b ->
     (exit_code (main (Some fresh) (Some prior)) = 1%nat <-> a * 2 ^ 54 < 14411518807585587 * b)
     /\ (4 * b <= 5 * a -> exit_code (main (Some fresh) (Some prior)) = 0%nat)
     /\ (5 * 2 ^ 56 * a < (4 * 2 ^ 56 - 5) * b -> exit_code (main (Some fresh) (Some prior)) = 1%nat))
  /\ (forall git_show, no_baseline git_show -> exit_code (main (Some fresh) git_show) = 0%nat).
Proof.
  intros (d & Ed & Hp & Hr). assert (forall g, main (Some fresh) g = compare rate g) as Em.
  { intros g. unfold main. by rewrite Ed, Hr, Hp. }
  split.
  - intros prior a b -> Ha (d' & Ed' & Hp' & Hr') Hb. rewrite Em.
    assert (exit_code (compare (Units a) (Some prior)) = if ltb (div (Units a) (Units b)) MIN_RATIO then 1%nat else 0%nat) as ->.
    { unfold compare, _committed_baseline. rewrite Ed', Hp', Hr'. cbn [is_zero].
      destruct (Z.eqb_spec b 0); [lia|]. by destruct (ltb _ _). }
    pose proof (ratio_below a b Ha Hb) as Hx. destruct (ltb _ _).
    + assert (a * 2 ^ 54 < 14411518807585587 * b) by (by apply Hx). split_and!; [done | lia | done].
    + assert (~ a * 2 ^ 54 < 14411518807585587 * b) by (by intros ?%Hx). split_and!; [split; [done | lia] | done | lia].
  - intros g Hg. rewrite Em. unfold compare, _committed_baseline. unfold no_baseline in Hg.
    replace (match g with Some raw => loads raw | None => None end) with (g ≫= loads) by (by destruct g).
    destruct (g ≫= loads) as [[]|]; try done. destruct (placeholder l); [done|].
    destruct Hg as [|[-> | (r & -> & ->)]]; done.
Qed.

(** The summary of a run and its rate, read back. *)
Definition parsed (txt : string) : dict := match loads txt with Some (JObj d) => d | _ => [] end.
Definition units (txt : string) : Z := match _rate (JObj (parsed txt)) with inr (Some (Units k)) => k | _ => 0 end.

Lemma load_gate_exact_witness :
  exit_code (main (Some (summary "79.99")) (Some (summary "100.0"))) = 1%nat
  /\ exit_code (main (Some (summary "79.99")) None) = 0%nat.
Proof.
  assert (forall txt, (loads txt = Some (JObj (parsed txt)) /\ placeholder (parsed txt) = false
                       /\ _rate (JObj (parsed txt)) = inr (Some (Units (units txt)))) -> measured txt (Units (units txt)))
    as Hm by (intros txt H; by exists (parsed txt)).
  assert (measured (summary "79.99") (Units (units (summary "79.99")))) as Hf.
  { apply Hm. repeat split; vm_compute; reflexivity. }
  assert (measured (summary "100.0") (Units (units (summary "100.0")))) as Hp.
  { apply Hm. repeat split; vm_compute; reflexivity. }
  assert (0 < units (summary "79.99")) as Ha by (vm_compute; reflexivity).
  assert (0 < units (summary "100.0")) as Hb by (vm_compute; reflexivity).
  assert (units (summary "79.99") * 2 ^ 54 < 14411518807585587 * units (summary "100.0")) as Hlt by (vm_compute; reflexivity).
  pose proof (load_gate_exact (summary "79.99") _ Hf) as [H1 H2].
  split; [exact (proj2 (proj1 (H1 _ _ _ eq_refl Ha Hp Hb)) Hlt) | exact (H2 None I)].
Defined.
End LoadGate.
